(** * Accessibility primitives of the CDK: focus traps, focus monitor, list key manager

    A shallow embedding of the parts of [src/cdk/a11y] that carry the
    behavioural contracts of the specification:

    - [FocusTrapManager] (the stack of managed focus traps),
    - [FocusTrap]: [attachAnchors], [destroy], the [enabled] setter and the
      search for the first and last tabbable element, over a DOM store,
    - [ConfigurableFocusTrap] with the event-listener inert strategy, and
      [closest],
    - [FocusMonitor]: [_getFocusOrigin], the listeners that feed it, the
      handlers that emit what it resolves, the timers, and the bookkeeping
      of [monitor] and [stopMonitoring],
    - [ListKeyManager] (configuration, navigation, typeahead, key handling,
      changes of the item list).

    The first part of the file holds the embedding, the second part the
    theorems.  JavaScript numbers that index arrays are modelled as [Z]
    (no fractional indices), strings as sequences of UTF-16 code units,
    objects by their address, exceptions by an explicit completion.  The
    browser (DOM, event loop, timers), the stream library and the case
    mapping of strings are outside the repository: the DOM is a store of
    node records, a timer or a debounce that elapses is an event of its
    own, the case mapping is a parameter.  Left out are the
    dependency injection, the interactivity checker (its verdict on a node
    is part of the subtree the tabbable search runs on), [focusVia] and the
    subclasses of the key manager that override [setActiveItem]. *)

From Stdlib Require Import ZArith List String Ascii Bool Lia.
From stdpp Require Import gmap list strings.

Local Open Scope Z_scope.

Set Warnings "-clear-no-such-hyp".

(* ===================================================================== *)
(** * Part I: the embedding                                               *)
(* ===================================================================== *)

(** ** JavaScript arrays *)

Module JsArray.

(** [arr[i]]: [undefined] (here [None]) outside [0 .. length-1]. *)
Definition item_at {A : Type} (arr : list A) (i : Z) : option A :=
  if i <? 0 then None else arr !! Z.to_nat i.

(** [arr.length] as a JavaScript number. *)
Definition len {A : Type} (arr : list A) : Z := Z.of_nat (length arr).

(** [arr.indexOf(x)] scanning from position [from]; [-1] when absent.
    Elements are compared with [===], which is identity on objects. *)
Fixpoint index_from {A : Type} `{EqDecision A} (from : Z) (arr : list A) (x : A) : Z :=
  match arr with
  | [] => -1
  | y :: rest => if decide (y = x) then from else index_from (from + 1) rest x
  end.

Definition indexOf {A : Type} `{EqDecision A} (arr : list A) (x : A) : Z :=
  index_from 0 arr x.

(** [arr.splice(i, 1)] for an index [i >= 0] (the only use in the sources). *)
Definition splice1 {A : Type} (i : Z) (arr : list A) : list A :=
  delete (Z.to_nat i) arr.

(** [arr.filter(p)]. *)
Definition jsfilter {A : Type} (p : A -> bool) (arr : list A) : list A :=
  List.filter p arr.

(** JavaScript's [%] on integers: the result takes the sign of the dividend. *)
Definition jsrem (a b : Z) : Z := Z.rem a b.

End JsArray.

(** ** FocusTrapManager (focus-trap-manager.ts) *)

Module FocusTrapManager.
Import JsArray.

(** A [ManagedFocusTrap] is an object; only its identity matters to the
    manager, so a trap is its address. *)
Definition ManagedFocusTrap := nat.

(** The manager's private stack together with the part of the heap it
    acts on: the set of traps whose last call from the manager was
    [_enable()] rather than [_disable()]. *)
Record State := mkState {
  _focusTrapStack : list ManagedFocusTrap;
  enabledTraps : gset ManagedFocusTrap
}.

Definition _enable (t : ManagedFocusTrap) (h : gset ManagedFocusTrap) :=
  h ∪ {[ t ]}.

Definition _disable (t : ManagedFocusTrap) (h : gset ManagedFocusTrap) :=
  h ∖ {[ t ]}.

Definition isEnabled (t : ManagedFocusTrap) (s : State) : bool :=
  bool_decide (t ∈ enabledTraps s).

(** [register(focusTrap)] *)
Definition register (focusTrap : ManagedFocusTrap) (s : State) : State :=
  let stack := jsfilter (fun ft => negb (Nat.eqb ft focusTrap)) (_focusTrapStack s) in
  let h :=
    if negb (len stack =? 0) then
      match item_at stack (len stack - 1) with
      | Some top => _disable top (enabledTraps s)
      | None => enabledTraps s
      end
    else enabledTraps s in
  mkState (stack ++ [focusTrap]) (_enable focusTrap h).

(** [deregister(focusTrap)] *)
Definition deregister (focusTrap : ManagedFocusTrap) (s : State) : State :=
  let h := _disable focusTrap (enabledTraps s) in
  let stack := _focusTrapStack s in
  let i := indexOf stack focusTrap in
  if negb (i =? -1) then
    let stack' := splice1 i stack in
    if negb (len stack' =? 0) then
      match item_at stack' (len stack' - 1) with
      | Some top => mkState stack' (_enable top h)
      | None => mkState stack' h
      end
    else mkState stack' h
  else mkState stack h.

(** A freshly injected manager: the stack is empty.  The heap is a
    parameter, traps exist before they are registered. *)
Definition init (h : gset ManagedFocusTrap) : State := mkState [] h.

(** The calls a client can make. *)
Inductive Call :=
| Register (t : ManagedFocusTrap)
| Deregister (t : ManagedFocusTrap).

Definition step (s : State) (c : Call) : State :=
  match c with
  | Register t => register t s
  | Deregister t => deregister t s
  end.

Definition run (cs : list Call) (s : State) : State := fold_left step cs s.

(** The traps of the stack that are enabled, in stack order. *)
Definition enabledInStack (s : State) : list ManagedFocusTrap :=
  List.filter (fun t => isEnabled t s) (_focusTrapStack s).

(** The description of [register] in the specification, written
    independently of the code: drop any prior entry of the trap, disable
    the current top (if any), push the trap, enable it. *)
Definition register_spec (focusTrap : ManagedFocusTrap) (s : State) : State :=
  let deduped := List.filter (fun ft => negb (Nat.eqb ft focusTrap)) (_focusTrapStack s) in
  let afterDisable :=
    match last deduped with
    | Some top => enabledTraps s ∖ {[ top ]}
    | None => enabledTraps s
    end in
  mkState (deduped ++ [focusTrap]) (afterDisable ∪ {[ focusTrap ]}).

(** The invariant of the stack: no trap occurs twice, and a trap of the
    stack is enabled exactly when it is the top. *)
Definition stack_ok (s : State) : Prop :=
  NoDup (_focusTrapStack s) /\
  forall t, t ∈ _focusTrapStack s ->
            (t ∈ enabledTraps s <-> last (_focusTrapStack s) = Some t).

End FocusTrapManager.

(** ** A DOM store *)

(** The browser's DOM is not part of the repository.  The store below keeps
  what the focus trap and the focus monitor observe of it: parent
  pointers, child lists, attributes, class lists and focus listeners. *)

Module Dom.

Definition Node := nat.

(** An event listener is a function object, identified by its address. *)
Definition Listener := nat.

Record NodeRec := mkNode {
  nParent : option Node;
  nChildren : list Node;
  nAttributes : gmap string string;
  nClassList : list string;
  nFocusListeners : list Listener
}.

Record Document := mkDocument { nodes : gmap Node NodeRec }.

Definition blankNode : NodeRec := mkNode None [] ∅ [] [].

Definition hasNode (d : Document) (n : Node) : bool :=
  bool_decide (is_Some (nodes d !! n)).

(** [n.parentNode] *)
Definition parentNode (d : Document) (n : Node) : option Node :=
  match nodes d !! n with
  | Some r => nParent r
  | None => None
  end.

Definition childNodes (d : Document) (n : Node) : list Node :=
  match nodes d !! n with
  | Some r => nChildren r
  | None => []
  end.

Definition updNode (f : NodeRec -> NodeRec) (n : Node) (d : Document) : Document :=
  mkDocument (alter f n (nodes d)).

Definition setParent (p : option Node) (r : NodeRec) : NodeRec :=
  mkNode p (nChildren r) (nAttributes r) (nClassList r) (nFocusListeners r).

Definition setChildren (cs : list Node) (r : NodeRec) : NodeRec :=
  mkNode (nParent r) cs (nAttributes r) (nClassList r) (nFocusListeners r).

(** [document.createElement(..)]: a fresh, detached node. *)
Definition createElement (d : Document) : Node * Document :=
  let n := fresh (dom (nodes d)) in
  (n, mkDocument (<[ n := blankNode ]> (nodes d))).

(** [n.setAttribute(k, v)] and [n.removeAttribute(k)] *)
Definition setAttribute (n : Node) (k v : string) (d : Document) : Document :=
  updNode (fun r => mkNode (nParent r) (nChildren r) (<[ k := v ]> (nAttributes r))
                           (nClassList r) (nFocusListeners r)) n d.

Definition removeAttribute (n : Node) (k : string) (d : Document) : Document :=
  updNode (fun r => mkNode (nParent r) (nChildren r) (delete k (nAttributes r))
                           (nClassList r) (nFocusListeners r)) n d.

(** [n.classList.add(c)] *)
Definition classList_add (n : Node) (c : string) (d : Document) : Document :=
  updNode (fun r => mkNode (nParent r) (nChildren r) (nAttributes r)
                           (if bool_decide (c ∈ nClassList r) then nClassList r
                            else nClassList r ++ [c])
                           (nFocusListeners r)) n d.

(** [n.classList.remove(c)] *)
Definition classList_remove (n : Node) (c : string) (d : Document) : Document :=
  updNode (fun r => mkNode (nParent r) (nChildren r) (nAttributes r)
                           (List.filter (fun c' => negb (String.eqb c' c)) (nClassList r))
                           (nFocusListeners r)) n d.

(** [n.addEventListener('focus', l)] and [n.removeEventListener('focus', l)] *)
Definition addFocusListener (n : Node) (l : Listener) (d : Document) : Document :=
  updNode (fun r => mkNode (nParent r) (nChildren r) (nAttributes r) (nClassList r)
                           (if bool_decide (l ∈ nFocusListeners r) then nFocusListeners r
                            else nFocusListeners r ++ [l])) n d.

Definition removeFocusListener (n : Node) (l : Listener) (d : Document) : Document :=
  updNode (fun r => mkNode (nParent r) (nChildren r) (nAttributes r) (nClassList r)
                           (List.filter (fun l' => negb (Nat.eqb l' l)) (nFocusListeners r))) n d.

(** The element after the first occurrence of [n] in a child list. *)
Fixpoint after (n : Node) (cs : list Node) : option Node :=
  match cs with
  | [] => None
  | c :: rest => if Nat.eqb c n then head rest else after n rest
  end.

(** [n.nextSibling] *)
Definition nextSibling (d : Document) (n : Node) : option Node :=
  match parentNode d n with
  | Some p => after n (childNodes d p)
  | None => None
  end.

(** [p.removeChild(c)] *)
Definition removeChild (p c : Node) (d : Document) : Document :=
  let d1 := updNode (fun r => setChildren
                      (List.filter (fun c' => negb (Nat.eqb c' c)) (nChildren r)) r) p d in
  updNode (setParent None) c d1.

(** Detach a node from its parent, if it has one. *)
Definition detach (n : Node) (d : Document) : Document :=
  match parentNode d n with
  | Some p => removeChild p n d
  | None => d
  end.

(** Place [n] in front of the first occurrence of [ref]; at the end for
    [null] (and for a [ref] that does not occur, where a browser raises). *)
Fixpoint placeBefore (n : Node) (ref : option Node) (cs : list Node) : list Node :=
  match ref, cs with
  | None, _ => cs ++ [n]
  | Some _, [] => [n]
  | Some r, c :: rest => if Nat.eqb c r then n :: c :: rest
                         else c :: placeBefore n ref rest
  end.

(** [p.insertBefore(n, ref)]: [n] leaves its old parent first; a [ref]
    equal to [n] stands for the sibling after [n]. *)
Definition insertBefore (p n : Node) (ref : option Node) (d : Document) : Document :=
  let ref' := match ref with
              | Some r => if Nat.eqb r n then nextSibling d n else ref
              | None => None
              end in
  let d1 := detach n d in
  let d2 := updNode (fun r => setChildren (placeBefore n ref' (nChildren r)) r) p d1 in
  updNode (setParent (Some p)) n d2.

(** The chain of ancestors of a node, itself included, walking at most
    [fuel] parent links. *)
Fixpoint ancestors (fuel : nat) (d : Document) (n : Node) : list Node :=
  match fuel with
  | O => [n]
  | S fuel' => match parentNode d n with
               | Some p => n :: ancestors fuel' d p
               | None => [n]
               end
  end.

(** [a.contains(b)]: [b] is [a] or a descendant of [a]. *)
Definition contains (d : Document) (a b : Node) : bool :=
  bool_decide (a ∈ ancestors (size (nodes d)) d b).

(** Two documents with the same tree: every node has the same parent and
    the same children in both. *)
Definition same_tree (d d' : Document) : Prop :=
  forall m, parentNode d' m = parentNode d m /\ childNodes d' m = childNodes d m.

(** Every node of [d] is a node of [d']. *)
Definition extends (d d' : Document) : Prop :=
  forall m, is_Some (nodes d !! m) -> is_Some (nodes d' !! m).

End Dom.

(** ** FocusTrap (focus-trap.ts) *)

Module FocusTrap.
Import Dom.

(** The fields of a [FocusTrap] instance that [attachAnchors], [destroy]
    and the [enabled] setter read and write. *)
Record FocusTrap := mkTrap {
  _element : Node;
  _startAnchor : option Node;
  _endAnchor : option Node;
  _hasAttached : bool;
  _enabled : bool
}.

(** The two arrow functions bound to the anchors. *)
Definition startAnchorListener : Listener := 0%nat.
Definition endAnchorListener : Listener := 1%nat.

(** [_toggleAnchorTabIndex(isEnabled, anchor)] *)
Definition _toggleAnchorTabIndex (isEnabled : bool) (anchor : Node) (d : Document)
  : Document :=
  if isEnabled then setAttribute anchor "tabindex"%string "0"%string d
  else removeAttribute anchor "tabindex"%string d.

(** [_createAnchor()] *)
Definition _createAnchor (t : FocusTrap) (d : Document) : Node * Document :=
  let '(anchor, d1) := createElement d in
  let d2 := _toggleAnchorTabIndex (_enabled t) anchor d1 in
  let d3 := classList_add anchor "cdk-visually-hidden"%string d2 in
  let d4 := classList_add anchor "cdk-focus-trap-anchor"%string d3 in
  let d5 := setAttribute anchor "aria-hidden"%string "true"%string d4 in
  (anchor, d5).

(** The anchor in a field, created and given its listener when the field
    is still empty. *)
Definition ensureAnchor (t : FocusTrap) (field : option Node) (l : Listener)
           (d : Document) : Node * Document :=
  match field with
  | Some a => (a, d)
  | None => let '(a, d1) := _createAnchor t d in (a, addFocusListener a l d1)
  end.

(** [attachAnchors()]: the result, the instance and the document afterwards. *)
Definition attachAnchors (t : FocusTrap) (d : Document) : bool * FocusTrap * Document :=
  if _hasAttached t then (true, t, d)
  else
    let '(startAnchor, d1) := ensureAnchor t (_startAnchor t) startAnchorListener d in
    let '(endAnchor, d2) := ensureAnchor t (_endAnchor t) endAnchorListener d1 in
    match parentNode d2 (_element t) with
    | Some parent =>
        let d3 := insertBefore parent startAnchor (Some (_element t)) d2 in
        let d4 := insertBefore parent endAnchor (nextSibling d3 (_element t)) d3 in
        (true,
         mkTrap (_element t) (Some startAnchor) (Some endAnchor) true (_enabled t),
         d4)
    | None =>
        (false,
         mkTrap (_element t) (Some startAnchor) (Some endAnchor) false (_enabled t),
         d2)
    end.

(** [new FocusTrap(element, .., deferAnchors)] *)
Definition new (element : Node) (deferAnchors : bool) (d : Document)
  : FocusTrap * Document :=
  let t := mkTrap element None None false true in
  if negb deferAnchors then
    let '(_, t', d') := attachAnchors t d in (t', d')
  else (t, d).

(** One half of [destroy()]: unbind the listener and take the anchor out
    of the document. *)
Definition destroyAnchor (field : option Node) (l : Listener) (d : Document) : Document :=
  match field with
  | Some anchor =>
      let d1 := removeFocusListener anchor l d in
      match parentNode d1 anchor with
      | Some p => removeChild p anchor d1
      | None => d1
      end
  | None => d
  end.

(** [destroy()] *)
Definition destroy (t : FocusTrap) (d : Document) : FocusTrap * Document :=
  let d1 := destroyAnchor (_startAnchor t) startAnchorListener d in
  let d2 := destroyAnchor (_endAnchor t) endAnchorListener d1 in
  (mkTrap (_element t) None None false (_enabled t), d2).

(** The anchors of the instance that sit in the document under a parent. *)
Definition attachedAnchors (t : FocusTrap) (d : Document) : list Node :=
  List.filter (fun a => bool_decide (is_Some (parentNode d a)))
              (match _startAnchor t with Some a => [a] | None => [] end ++
               match _endAnchor t with Some a => [a] | None => [] end).

(** A small page: node 0 is the body, node 1 a region inside it, node 2 a
    region that is not (yet) in the document. *)
Definition page : Document :=
  mkDocument (<[ 0%nat := mkNode None [1%nat] ∅ [] [] ]>
             (<[ 1%nat := mkNode (Some 0%nat) [] ∅ [] [] ]>
             (<[ 2%nat := blankNode ]> ∅))).

(** The state of an instance between calls: its anchors are nodes of the
    document, they are two different nodes, and as long as the trap has not
    attached they hang under no parent. *)
Definition trap_wf (t : FocusTrap) (d : Document) : Prop :=
  (forall a, _startAnchor t = Some a -> is_Some (nodes d !! a)) /\
  (forall b, _endAnchor t = Some b -> is_Some (nodes d !! b)) /\
  (forall a b, _startAnchor t = Some a -> _endAnchor t = Some b -> a <> b) /\
  (_hasAttached t = false ->
   forall a, _startAnchor t = Some a \/ _endAnchor t = Some a -> parentNode d a = None).

(** [attachAnchors()] called [n] more times in a row: the last result (or
    [r0] when [n = 0]) and the final state. *)
Fixpoint attachAgain (n : nat) (r0 : bool) (t : FocusTrap) (d : Document)
  : bool * FocusTrap * Document :=
  match n with
  | O => (r0, t, d)
  | S n' => let '(r, t', d') := attachAnchors t d in attachAgain n' r t' d'
  end.

(** A trap created (and attached) on the region of [page], whose region is
    taken out of the document afterwards. *)
Definition attachedThenRemoved : FocusTrap * Document :=
  let '(t, d) := new 1%nat false page in (t, removeChild 0%nat 1%nat d).

(** A trap on the region of [page], before it attaches. *)
Definition freshTrap : FocusTrap := mkTrap 1%nat None None false true.

End FocusTrap.

(** ** FocusMonitor (focus-monitor.ts) *)

Module FocusMonitor.
Import JsArray Dom.

(** The non-null values of the type [FocusOrigin]; [null] is [None]. *)
Inductive Origin := touch | mouse | keyboard | program.

Definition FocusOrigin := option Origin.

Inductive FocusMonitorDetectionMode := IMMEDIATE | EVENTUAL.

Definition TOUCH_BUFFER_MS : Z := 650.

(** An [EventTarget] is a DOM node or something else (the window, say);
    [instanceof Node] tells them apart. *)
Inductive EventTarget := TNode (n : Node) | TOther (id : nat).

(** What the monitor reads of a DOM event.  [composedPath] is [None] in a
    browser without [Event.composedPath]. *)
Record DomEvent := mkEvent {
  composedPath : option (list EventTarget);
  target : option EventTarget;
  relatedTarget : option EventTarget
}.

Record MonitoredElementInfo := mkInfo {
  checkChildren : bool;
  rootNode : Node
}.

(** The callbacks the monitor hands to [setTimeout]. *)
Inductive TimerAction := ClearOrigin | ClearLastTouchTarget | ClearWindowFocused.

Record Timer := mkTimer { timerId : nat; timerDelay : Z; timerAction : TimerAction }.

(** The fields of the monitor, the pending timers of the event loop, the
    document and the values emitted on the subjects of monitored elements
    (most recent last).  [_elementInfo] is a JavaScript [Map]: an
    association list in insertion order. *)
Record State := mkState {
  _origin : FocusOrigin;
  _lastFocusOrigin : FocusOrigin;
  _windowFocused : bool;
  _lastTouchTarget : option EventTarget;
  _touchTimeoutId : option nat;
  _windowFocusTimeoutId : option nat;
  _originTimeoutId : option nat;
  _elementInfo : list (Node * MonitoredElementInfo);
  _detectionMode : FocusMonitorDetectionMode;
  timers : list Timer;
  nextTimerId : nat;
  document : Document;
  emitted : list (Node * FocusOrigin)
}.

Definition set_origin (o : FocusOrigin) (s : State) : State :=
  mkState o (_lastFocusOrigin s) (_windowFocused s) (_lastTouchTarget s)
          (_touchTimeoutId s) (_windowFocusTimeoutId s) (_originTimeoutId s)
          (_elementInfo s) (_detectionMode s) (timers s) (nextTimerId s)
          (document s) (emitted s).

Definition set_lastFocusOrigin (o : FocusOrigin) (s : State) : State :=
  mkState (_origin s) o (_windowFocused s) (_lastTouchTarget s)
          (_touchTimeoutId s) (_windowFocusTimeoutId s) (_originTimeoutId s)
          (_elementInfo s) (_detectionMode s) (timers s) (nextTimerId s)
          (document s) (emitted s).

Definition set_windowFocused (b : bool) (s : State) : State :=
  mkState (_origin s) (_lastFocusOrigin s) b (_lastTouchTarget s)
          (_touchTimeoutId s) (_windowFocusTimeoutId s) (_originTimeoutId s)
          (_elementInfo s) (_detectionMode s) (timers s) (nextTimerId s)
          (document s) (emitted s).

Definition set_lastTouchTarget (t : option EventTarget) (s : State) : State :=
  mkState (_origin s) (_lastFocusOrigin s) (_windowFocused s) t
          (_touchTimeoutId s) (_windowFocusTimeoutId s) (_originTimeoutId s)
          (_elementInfo s) (_detectionMode s) (timers s) (nextTimerId s)
          (document s) (emitted s).

Definition set_touchTimeoutId (i : option nat) (s : State) : State :=
  mkState (_origin s) (_lastFocusOrigin s) (_windowFocused s) (_lastTouchTarget s)
          i (_windowFocusTimeoutId s) (_originTimeoutId s)
          (_elementInfo s) (_detectionMode s) (timers s) (nextTimerId s)
          (document s) (emitted s).

Definition set_windowFocusTimeoutId (i : option nat) (s : State) : State :=
  mkState (_origin s) (_lastFocusOrigin s) (_windowFocused s) (_lastTouchTarget s)
          (_touchTimeoutId s) i (_originTimeoutId s)
          (_elementInfo s) (_detectionMode s) (timers s) (nextTimerId s)
          (document s) (emitted s).

Definition set_originTimeoutId (i : option nat) (s : State) : State :=
  mkState (_origin s) (_lastFocusOrigin s) (_windowFocused s) (_lastTouchTarget s)
          (_touchTimeoutId s) (_windowFocusTimeoutId s) i
          (_elementInfo s) (_detectionMode s) (timers s) (nextTimerId s)
          (document s) (emitted s).

Definition set_timers (ts : list Timer) (next : nat) (s : State) : State :=
  mkState (_origin s) (_lastFocusOrigin s) (_windowFocused s) (_lastTouchTarget s)
          (_touchTimeoutId s) (_windowFocusTimeoutId s) (_originTimeoutId s)
          (_elementInfo s) (_detectionMode s) ts next
          (document s) (emitted s).

Definition set_document (d : Document) (s : State) : State :=
  mkState (_origin s) (_lastFocusOrigin s) (_windowFocused s) (_lastTouchTarget s)
          (_touchTimeoutId s) (_windowFocusTimeoutId s) (_originTimeoutId s)
          (_elementInfo s) (_detectionMode s) (timers s) (nextTimerId s)
          d (emitted s).

Definition set_emitted (e : list (Node * FocusOrigin)) (s : State) : State :=
  mkState (_origin s) (_lastFocusOrigin s) (_windowFocused s) (_lastTouchTarget s)
          (_touchTimeoutId s) (_windowFocusTimeoutId s) (_originTimeoutId s)
          (_elementInfo s) (_detectionMode s) (timers s) (nextTimerId s)
          (document s) e.

(** [setTimeout(action, delay)]: the new timer's id and the state. *)
Definition setTimeout (action : TimerAction) (delay : Z) (s : State) : nat * State :=
  let id := nextTimerId s in
  (id, set_timers (timers s ++ [mkTimer id delay action]) (S id) s).

(** [clearTimeout(id)] *)
Definition clearTimeout (id : option nat) (s : State) : State :=
  match id with
  | Some i => set_timers (List.filter (fun t => negb (Nat.eqb (timerId t) i)) (timers s))
                         (nextTimerId s) s
  | None => s
  end.

(** [getTarget(event)] *)
Definition getTarget (event : DomEvent) : option EventTarget :=
  match composedPath event with
  | Some path => head path
  | None => target event
  end.

(** [this._elementInfo.get(element)] *)
Fixpoint info_get (infos : list (Node * MonitoredElementInfo)) (element : Node)
  : option MonitoredElementInfo :=
  match infos with
  | [] => None
  | (e, i) :: rest => if Nat.eqb e element then Some i else info_get rest element
  end.

(** [_setOriginForCurrentEventQueue(origin)] *)
Definition _setOriginForCurrentEventQueue (origin : FocusOrigin) (s : State) : State :=
  let s1 := set_origin origin s in
  match _detectionMode s1 with
  | IMMEDIATE =>
      let '(id, s2) := setTimeout ClearOrigin 1 s1 in set_originTimeoutId (Some id) s2
  | EVENTUAL => s1
  end.

(** [_documentKeydownListener] *)
Definition _documentKeydownListener (s : State) : State :=
  _setOriginForCurrentEventQueue (Some keyboard) (set_lastTouchTarget None s).

(** [_documentMousedownListener].  [isFakeMousedownFromScreenReader] lives in
    a file that is not part of the sources at hand; its verdict on the
    event is the argument [isFake]. *)
Definition _documentMousedownListener (isFake : bool) (s : State) : State :=
  match _lastTouchTarget s with
  | None =>
      let source := if isFake then keyboard else mouse in
      _setOriginForCurrentEventQueue (Some source) s
  | Some _ => s
  end.

(** [_documentTouchstartListener] *)
Definition _documentTouchstartListener (event : DomEvent) (s : State) : State :=
  let s1 := match _touchTimeoutId s with
            | Some id => clearTimeout (Some id) s
            | None => s
            end in
  let s2 := set_lastTouchTarget (getTarget event) s1 in
  let '(id, s3) := setTimeout ClearLastTouchTarget TOUCH_BUFFER_MS s2 in
  set_touchTimeoutId (Some id) s3.

(** [_windowFocusListener] *)
Definition _windowFocusListener (s : State) : State :=
  let s1 := set_windowFocused true s in
  let '(id, s2) := setTimeout ClearWindowFocused 0 s1 in
  set_windowFocusTimeoutId (Some id) s2.

(** [_wasCausedByTouch(event)] *)
Definition _wasCausedByTouch (event : DomEvent) (s : State) : bool :=
  let focusTarget := getTarget event in
  match _lastTouchTarget s, focusTarget with
  | Some (TNode lastTouch), Some (TNode focusNode) =>
      Nat.eqb focusNode lastTouch || contains (document s) focusNode lastTouch
  | _, _ => false
  end.

(** [_getFocusOrigin(event)] *)
Definition _getFocusOrigin (event : DomEvent) (s : State) : FocusOrigin :=
  match _origin s with
  | Some o => Some o
  | None =>
      match _windowFocused s, _lastFocusOrigin s with
      | true, Some last => Some last
      | _, _ => if _wasCausedByTouch event s then Some touch else Some program
      end
  end.

(** [_toggleClass(element, className, shouldSet)] *)
Definition _toggleClass (element : Node) (className : string) (shouldSet : bool)
           (d : Document) : Document :=
  if shouldSet then classList_add element className d
  else classList_remove element className d.

Definition origin_is (origin : FocusOrigin) (o : Origin) : bool :=
  match origin, o with
  | Some touch, touch | Some mouse, mouse
  | Some keyboard, keyboard | Some program, program => true
  | _, _ => false
  end.

(** [_setClasses(element, origin)] *)
Definition _setClasses (element : Node) (origin : FocusOrigin) (d : Document) : Document :=
  let d1 := _toggleClass element "cdk-focused"%string (bool_decide (is_Some origin)) d in
  let d2 := _toggleClass element "cdk-touch-focused"%string (origin_is origin touch) d1 in
  let d3 := _toggleClass element "cdk-keyboard-focused"%string (origin_is origin keyboard) d2 in
  let d4 := _toggleClass element "cdk-mouse-focused"%string (origin_is origin mouse) d3 in
  _toggleClass element "cdk-program-focused"%string (origin_is origin program) d4.

(** [_emitOrigin(subject, origin)], the subject being that of [element]. *)
Definition _emitOrigin (element : Node) (origin : FocusOrigin) (s : State) : State :=
  set_emitted (emitted s ++ [(element, origin)]) s.

(** [_originChanged(element, origin, elementInfo)] *)
Definition _originChanged (element : Node) (origin : FocusOrigin) (s : State) : State :=
  let s1 := set_document (_setClasses element origin (document s)) s in
  let s2 := _emitOrigin element origin s1 in
  set_lastFocusOrigin origin s2.

(** [element === getTarget(event)] *)
Definition isTarget (element : Node) (event : DomEvent) : bool :=
  match getTarget event with
  | Some (TNode n) => Nat.eqb element n
  | _ => false
  end.

(** [_onFocus(event, element)] *)
Definition _onFocus (event : DomEvent) (element : Node) (s : State) : State :=
  match info_get (_elementInfo s) element with
  | None => s
  | Some elementInfo =>
      if negb (checkChildren elementInfo) && negb (isTarget element event)
      then s
      else _originChanged element (_getFocusOrigin event s) s
  end.

(** [_onBlur(event, element)] *)
Definition _onBlur (event : DomEvent) (element : Node) (s : State) : State :=
  match info_get (_elementInfo s) element with
  | None => s
  | Some elementInfo =>
      let inside := match relatedTarget event with
                    | Some (TNode r) => contains (document s) element r
                    | _ => false
                    end in
      if checkChildren elementInfo && inside then s
      else
        let s1 := set_document (_setClasses element None (document s)) s in
        _emitOrigin element None s1
  end.

(** The loop of [_rootNodeFocusAndBlurListener]: the handler runs on the
    element and then on each [parentElement] in turn.  [fuel] bounds the
    walk; the number of nodes of the document is enough in a tree. *)
Fixpoint walkAncestors (fuel : nat) (handler : Node -> State -> State)
         (element : Node) (s : State) : State :=
  let s' := handler element s in
  match fuel with
  | O => s'
  | S fuel' =>
      match parentNode (document s') element with
      | Some p => walkAncestors fuel' handler p s'
      | None => s'
      end
  end.

(** [_rootNodeFocusAndBlurListener(event)], [isFocus] telling whether
    [event.type === 'focus']. *)
Definition _rootNodeFocusAndBlurListener (isFocus : bool) (event : DomEvent) (s : State)
  : State :=
  let handler := if isFocus then _onFocus event else _onBlur event in
  match getTarget event with
  | Some (TNode n) => walkAncestors (size (nodes (document s))) handler n s
  | _ => s
  end.

(** A pending timer fires: it leaves the queue and its callback runs. *)
Definition fireTimer (id : nat) (s : State) : State :=
  match List.find (fun t => Nat.eqb (timerId t) id) (timers s) with
  | Some t =>
      let s1 := clearTimeout (Some id) s in
      match timerAction t with
      | ClearOrigin => set_origin None s1
      | ClearLastTouchTarget => set_lastTouchTarget None s1
      | ClearWindowFocused => set_windowFocused false s1
      end
  | None => s
  end.

(** The monitor after its constructor ran, on a given document, with the
    given elements monitored. *)
Definition init (mode : FocusMonitorDetectionMode) (d : Document)
           (infos : list (Node * MonitoredElementInfo)) : State :=
  mkState None None false None None None None infos mode [] 0%nat d [].

(** What can happen to the monitor, one task of the event loop at a time. *)
Inductive Event :=
| EvKeydown
| EvMousedown (isFake : bool)
| EvTouchstart (event : DomEvent)
| EvWindowFocus
| EvSetOrigin (origin : FocusOrigin)
| EvFocus (event : DomEvent)
| EvBlur (event : DomEvent)
| EvTimeout (id : nat).

Definition step (s : State) (e : Event) : State :=
  match e with
  | EvKeydown => _documentKeydownListener s
  | EvMousedown isFake => _documentMousedownListener isFake s
  | EvTouchstart event => _documentTouchstartListener event s
  | EvWindowFocus => _windowFocusListener s
  | EvSetOrigin origin => _setOriginForCurrentEventQueue origin s
  | EvFocus event => _rootNodeFocusAndBlurListener true event s
  | EvBlur event => _rootNodeFocusAndBlurListener false event s
  | EvTimeout id => fireTimer id s
  end.

Definition run (es : list Event) (s : State) : State := fold_left step es s.

(** Events that are neither input events nor a window focus. *)
Definition quiet (e : Event) : bool :=
  match e with
  | EvFocus _ | EvBlur _ | EvTimeout _ => true
  | _ => false
  end.

(** The resolution of the focus origin as claim C3 words it: the touch case
    applies when the focus target is the last touch target or is contained
    by it. *)
Definition getFocusOrigin_claimed (event : DomEvent) (s : State) : FocusOrigin :=
  match _origin s with
  | Some o => Some o
  | None =>
      match _windowFocused s, _lastFocusOrigin s with
      | true, Some last => Some last
      | _, _ =>
          match _lastTouchTarget s, getTarget event with
          | Some (TNode lastTouch), Some (TNode focusNode) =>
              if Nat.eqb focusNode lastTouch || contains (document s) lastTouch focusNode
              then Some touch else Some program
          | _, _ => Some program
          end
      end
  end.

(** No transient origin, no window focus in flight, no touch target: the
    state the monitor is in when nothing has been typed, clicked or
    touched lately. *)
Definition idle (s : State) : Prop :=
  _origin s = None /\ _windowFocused s = false /\ _lastTouchTarget s = None.

(** A focus event whose target is the given node. *)
Definition focusOn (n : Node) : DomEvent :=
  mkEvent (Some [TNode n]) (Some (TNode n)) None.

(** The page of the focus trap examples (node 1 inside node 0), node 1
    monitored, after a touch on node 0. *)
Definition touchedBody : State :=
  run [EvTouchstart (focusOn 0%nat)]
      (init IMMEDIATE FocusTrap.page [(1%nat, mkInfo false 0%nat)]).

End FocusMonitor.

(** ** JavaScript strings *)

(** A string is the sequence of its UTF-16 code units.  The case mappings
    [toUpperCase] and [toLocaleUpperCase] follow the Unicode tables of the
    runtime and, for the second, the locale of the host; they are no part
    of the repository, and the embedding takes them as a parameter.  White
    space is what ECMAScript calls [WhiteSpace] and [LineTerminator]. *)

Module JsString.

Definition jsstring := list N.

(** The string of the given ASCII characters, for the literals of the
    sources and of the examples. *)
Definition str (s : string) : jsstring :=
  map N_of_ascii (list_ascii_of_string s).

(** The case mappings of the runtime: [s.toUpperCase()] and
    [s.toLocaleUpperCase()]. *)
Class CaseMapping := {
  toUpperCase : jsstring -> jsstring;
  toLocaleUpperCase : jsstring -> jsstring
}.

(** The code units [s.trim()] strips: U+0009 to U+000D, U+0020, U+00A0,
    U+1680, U+2000 to U+200A, U+2028, U+2029, U+202F, U+205F, U+3000 and
    U+FEFF. *)
Definition isWhitespace (c : N) : bool :=
  (((9 <=? c) && (c <=? 13)) || (c =? 32) || (c =? 160) || (c =? 5760) ||
   ((8192 <=? c) && (c <=? 8202)) || (c =? 8232) || (c =? 8233) || (c =? 8239) ||
   (c =? 8287) || (c =? 12288) || (c =? 65279))%N.

Fixpoint trimStart (s : jsstring) : jsstring :=
  match s with
  | [] => []
  | c :: rest => if isWhitespace c then trimStart rest else s
  end.

(** [s.trim()] *)
Definition trim (s : jsstring) : jsstring :=
  rev (trimStart (rev (trimStart s))).

(** [s.indexOf(t) === 0]: [t] occurs in [s] at position 0. *)
Fixpoint startsWith (s t : jsstring) : bool :=
  match t, s with
  | [], _ => true
  | _ :: _, [] => false
  | c :: t', d :: s' => (c =? d)%N && startsWith s' t'
  end.

(** [letters.join('')] *)
Definition join (letters : list jsstring) : jsstring := concat letters.

(** [String.fromCharCode(code)] *)
Definition fromCharCode (code : Z) : jsstring := [Z.to_N (code mod 65536)].

(** The case mapping of strings of ASCII characters, in a locale without
    casing rules of its own: the letters a to z become A to Z.  The
    examples, whose strings are ASCII, run on it. *)
Definition upperAscii (c : N) : N :=
  if ((97 <=? c) && (c <=? 122))%N then (c - 32)%N else c.

Definition asciiCase : CaseMapping :=
  {| toUpperCase := map upperAscii; toLocaleUpperCase := map upperAscii |}.

Definition isAscii (s : jsstring) : bool := forallb (fun c => (c <? 128)%N) s.

(** The runtime maps the strings of ASCII characters as [asciiCase] does:
    so does [toUpperCase] everywhere, and [toLocaleUpperCase] in a locale
    that has no casing rule of its own for these letters. *)
Definition upperCasesAscii (rt : CaseMapping) : Prop :=
  forall s, isAscii s = true ->
            @toUpperCase rt s = map upperAscii s /\
            @toLocaleUpperCase rt s = map upperAscii s.

End JsString.

(** ** Key codes *)

Module Keycodes.

(** Modelled from the spec: the constants of [@angular/cdk/keycodes] are not
    among the sources at hand.  The specification names the keys (Tab, the
    arrow keys, Home, End, letters and digits); the values are the DOM key
    codes of those keys. *)
Definition TAB : Z := 9.
Definition END : Z := 35.
Definition HOME : Z := 36.
Definition LEFT_ARROW : Z := 37.
Definition UP_ARROW : Z := 38.
Definition RIGHT_ARROW : Z := 39.
Definition DOWN_ARROW : Z := 40.
Definition ZERO : Z := 48.
Definition NINE : Z := 57.
Definition A : Z := 65.
Definition Z : BinNums.Z := 90.

End Keycodes.

(** ** ListKeyManager (list-key-manager.ts) *)

Module ListKeyManager.
Import JsArray JsString.

(** An item handed to the manager: an object (with its address [oid])
    whose [disabled] field and [getLabel] method are both optional. *)
Record ListKeyManagerOption := mkOption {
  oid : nat;
  disabled : option bool;
  getLabel : option jsstring
}.

#[global] Instance ListKeyManagerOption_eq_dec : EqDecision ListKeyManagerOption.
Proof. solve_decision. Defined.

Inductive ListKeyManagerModifierKey := altKey | ctrlKey | metaKey | shiftKey.

#[global] Instance ListKeyManagerModifierKey_eq_dec : EqDecision ListKeyManagerModifierKey.
Proof. solve_decision. Defined.

Inductive Direction := ltr | rtl.

(** A skip predicate is a JavaScript function.  On an item it answers; on
    [undefined] it answers or raises a [TypeError] ([None]). *)
Record SkipPredicate := mkSkip {
  onItem : ListKeyManagerOption -> bool;
  onUndefined : option bool
}.

(** The default predicate [(item) => item.disabled]. *)
Definition defaultSkipPredicate : SkipPredicate :=
  mkSkip (fun item => match disabled item with Some true => true | _ => false end) None.

Inductive JsError := TypeError | Error (message : string).

Record State := mkState {
  _activeItemIndex : Z;
  _activeItem : option ListKeyManagerOption;
  _wrap : bool;
  (** the live typeahead subscription with its debounce interval;
      [None] is [Subscription.EMPTY] or a subscription that is closed *)
  _typeaheadSubscription : option Z;
  (** letters are waiting for the debounce interval to elapse *)
  _debouncePending : bool;
  _vertical : bool;
  _horizontal : option Direction;
  _allowedModifierKeys : list ListKeyManagerModifierKey;
  _homeAndEnd : bool;
  _skipPredicateFn : SkipPredicate;
  _pressedLetters : list jsstring;
  _items : list ListKeyManagerOption;
  (** number of emissions on [tabOut] *)
  tabOut : nat;
  (** values emitted on [change], most recent last *)
  change : list Z
}.

(** How a call ends: normally, or by an exception that leaves the manager
    in the state it had when the exception was raised. *)
Inductive Completion :=
| Normal (s : State)
| Throw (e : JsError) (s : State).

Definition stateOf (c : Completion) : State :=
  match c with Normal s => s | Throw _ s => s end.

Definition isNormal (c : Completion) : bool :=
  match c with Normal _ => true | Throw _ _ => false end.

Definition set_active (index : Z) (item : option ListKeyManagerOption) (s : State) : State :=
  mkState index item (_wrap s) (_typeaheadSubscription s) (_debouncePending s)
          (_vertical s) (_horizontal s) (_allowedModifierKeys s) (_homeAndEnd s)
          (_skipPredicateFn s) (_pressedLetters s) (_items s) (tabOut s) (change s).

Definition set_wrap (b : bool) (s : State) : State :=
  mkState (_activeItemIndex s) (_activeItem s) b (_typeaheadSubscription s)
          (_debouncePending s) (_vertical s) (_horizontal s) (_allowedModifierKeys s)
          (_homeAndEnd s) (_skipPredicateFn s) (_pressedLetters s) (_items s)
          (tabOut s) (change s).

Definition set_typeahead (sub : option Z) (pending : bool) (s : State) : State :=
  mkState (_activeItemIndex s) (_activeItem s) (_wrap s) sub pending
          (_vertical s) (_horizontal s) (_allowedModifierKeys s) (_homeAndEnd s)
          (_skipPredicateFn s) (_pressedLetters s) (_items s) (tabOut s) (change s).

Definition set_vertical (b : bool) (s : State) : State :=
  mkState (_activeItemIndex s) (_activeItem s) (_wrap s) (_typeaheadSubscription s)
          (_debouncePending s) b (_horizontal s) (_allowedModifierKeys s)
          (_homeAndEnd s) (_skipPredicateFn s) (_pressedLetters s) (_items s)
          (tabOut s) (change s).

Definition set_horizontal (d : option Direction) (s : State) : State :=
  mkState (_activeItemIndex s) (_activeItem s) (_wrap s) (_typeaheadSubscription s)
          (_debouncePending s) (_vertical s) d (_allowedModifierKeys s)
          (_homeAndEnd s) (_skipPredicateFn s) (_pressedLetters s) (_items s)
          (tabOut s) (change s).

Definition set_allowedModifierKeys (keys : list ListKeyManagerModifierKey) (s : State)
  : State :=
  mkState (_activeItemIndex s) (_activeItem s) (_wrap s) (_typeaheadSubscription s)
          (_debouncePending s) (_vertical s) (_horizontal s) keys
          (_homeAndEnd s) (_skipPredicateFn s) (_pressedLetters s) (_items s)
          (tabOut s) (change s).

Definition set_homeAndEnd (b : bool) (s : State) : State :=
  mkState (_activeItemIndex s) (_activeItem s) (_wrap s) (_typeaheadSubscription s)
          (_debouncePending s) (_vertical s) (_horizontal s) (_allowedModifierKeys s)
          b (_skipPredicateFn s) (_pressedLetters s) (_items s)
          (tabOut s) (change s).

Definition set_skipPredicateFn (p : SkipPredicate) (s : State) : State :=
  mkState (_activeItemIndex s) (_activeItem s) (_wrap s) (_typeaheadSubscription s)
          (_debouncePending s) (_vertical s) (_horizontal s) (_allowedModifierKeys s)
          (_homeAndEnd s) p (_pressedLetters s) (_items s)
          (tabOut s) (change s).

Definition set_pressedLetters (letters : list jsstring) (s : State) : State :=
  mkState (_activeItemIndex s) (_activeItem s) (_wrap s) (_typeaheadSubscription s)
          (_debouncePending s) (_vertical s) (_horizontal s) (_allowedModifierKeys s)
          (_homeAndEnd s) (_skipPredicateFn s) letters (_items s)
          (tabOut s) (change s).

Definition set_tabOut (n : nat) (s : State) : State :=
  mkState (_activeItemIndex s) (_activeItem s) (_wrap s) (_typeaheadSubscription s)
          (_debouncePending s) (_vertical s) (_horizontal s) (_allowedModifierKeys s)
          (_homeAndEnd s) (_skipPredicateFn s) (_pressedLetters s) (_items s)
          n (change s).

Definition set_change (c : list Z) (s : State) : State :=
  mkState (_activeItemIndex s) (_activeItem s) (_wrap s) (_typeaheadSubscription s)
          (_debouncePending s) (_vertical s) (_horizontal s) (_allowedModifierKeys s)
          (_homeAndEnd s) (_skipPredicateFn s) (_pressedLetters s) (_items s)
          (tabOut s) c.

(** [new ListKeyManager(items)] *)
Definition new (items : list ListKeyManagerOption) : State :=
  mkState (-1) None false None false true None [] false defaultSkipPredicate [] items
          0%nat [].

(** The configuration methods. *)
Definition skipPredicate (predicate : SkipPredicate) (s : State) : State :=
  set_skipPredicateFn predicate s.

Definition withWrap (shouldWrap : bool) (s : State) : State := set_wrap shouldWrap s.

Definition withVerticalOrientation (enabled : bool) (s : State) : State :=
  set_vertical enabled s.

Definition withHorizontalOrientation (direction : option Direction) (s : State) : State :=
  set_horizontal direction s.

Definition withAllowedModifierKeys (keys : list ListKeyManagerModifierKey) (s : State)
  : State := set_allowedModifierKeys keys s.

Definition withHomeAndEnd (enabled : bool) (s : State) : State := set_homeAndEnd enabled s.

(** [_getItemsArray()] *)
Definition _getItemsArray (s : State) : list ListKeyManagerOption := _items s.

(** [typeof item.getLabel !== 'function'] *)
Definition lacksGetLabel (item : ListKeyManagerOption) : bool :=
  match getLabel item with Some _ => false | None => true end.

(** [withTypeAhead(debounceInterval)].  [ngDevMode] is the global flag of
    the framework: [None] when it is not defined. *)
Definition withTypeAhead (ngDevMode : option bool) (debounceInterval : Z) (s : State)
  : Completion :=
  let devMode := match ngDevMode with None => true | Some b => b end in
  if devMode && (negb (len (_items s) =? 0) && existsb lacksGetLabel (_items s))
  then Throw (Error "ListKeyManager items in typeahead mode must implement the `getLabel` method.") s
  else Normal (set_typeahead (Some debounceInterval) false s).

(** The argument of [setActiveItem] and [updateActiveItem]: a number or an item. *)
Inductive ItemArg :=
| ByIndex (index : Z)
| ByItem (item : ListKeyManagerOption).

(** [updateActiveItem(item)] *)
Definition updateActiveItem (item : ItemArg) (s : State) : State :=
  let itemArray := _getItemsArray s in
  let index := match item with
               | ByIndex i => i
               | ByItem it => indexOf itemArray it
               end in
  let activeItem := item_at itemArray index in
  set_active index activeItem s.

(** [setActiveItem(item)] *)
Definition setActiveItem (item : ItemArg) (s : State) : State :=
  let previousActiveItem := _activeItem s in
  let s1 := updateActiveItem item s in
  if bool_decide (_activeItem s1 = previousActiveItem) then s1
  else set_change (change s1 ++ [_activeItemIndex s1]) s1.

(** The loop of [_setActiveItemByIndex]: leave when [items[index]] is
    missing, step by [fallbackDelta] while the item is skipped. *)
Inductive SkipLoop := Found (index : Z) | Returned | OutOfFuel.

Fixpoint whileSkipped (fuel : nat) (items : list ListKeyManagerOption)
         (skip : SkipPredicate) (index fallbackDelta : Z) : SkipLoop :=
  match item_at items index with
  | None => Returned
  | Some item =>
      if onItem skip item then
        match fuel with
        | O => OutOfFuel
        | S fuel' => whileSkipped fuel' items skip (index + fallbackDelta) fallbackDelta
        end
      else Found index
  end.

(** [_setActiveItemByIndex(index, fallbackDelta)] *)
Definition _setActiveItemByIndex (index fallbackDelta : Z) (s : State) : State :=
  let items := _getItemsArray s in
  match whileSkipped (length items) items (_skipPredicateFn s) index fallbackDelta with
  | Found i => setActiveItem (ByIndex i) s
  | Returned => s
  | OutOfFuel => s
  end.

(** Calling the skip predicate on [items[index]], which may be [undefined]. *)
Definition callSkip (skip : SkipPredicate) (item : option ListKeyManagerOption)
  : option bool :=
  match item with
  | Some it => Some (onItem skip it)
  | None => onUndefined skip
  end.

(** The [for] loop of [_setActiveInWrapMode], [remaining] iterations to go. *)
Inductive Scan := Hit (index : Z) | Miss | Raised (e : JsError).

Fixpoint wrapScan (remaining : nat) (i : Z) (delta : Z) (s : State) : Scan :=
  match remaining with
  | O => Miss
  | S remaining' =>
      let items := _getItemsArray s in
      let index := jsrem (_activeItemIndex s + delta * i + len items) (len items) in
      match callSkip (_skipPredicateFn s) (item_at items index) with
      | None => Raised TypeError
      | Some false => Hit index
      | Some true => wrapScan remaining' (i + 1) delta s
      end
  end.

(** [_setActiveInWrapMode(delta)] *)
Definition _setActiveInWrapMode (delta : Z) (s : State) : Completion :=
  match wrapScan (length (_getItemsArray s)) 1 delta s with
  | Hit index => Normal (setActiveItem (ByIndex index) s)
  | Miss => Normal s
  | Raised e => Throw e s
  end.

(** [_setActiveInDefaultMode(delta)] *)
Definition _setActiveInDefaultMode (delta : Z) (s : State) : Completion :=
  Normal (_setActiveItemByIndex (_activeItemIndex s + delta) delta s).

(** [_setActiveItemByDelta(delta)] *)
Definition _setActiveItemByDelta (delta : Z) (s : State) : Completion :=
  if _wrap s then _setActiveInWrapMode delta s else _setActiveInDefaultMode delta s.

(** [setFirstItemActive()] *)
Definition setFirstItemActive (s : State) : Completion :=
  Normal (_setActiveItemByIndex 0 1 s).

(** [setLastItemActive()] *)
Definition setLastItemActive (s : State) : Completion :=
  Normal (_setActiveItemByIndex (len (_items s) - 1) (-1) s).

(** [setNextItemActive()] *)
Definition setNextItemActive (s : State) : Completion :=
  if _activeItemIndex s <? 0 then setFirstItemActive s else _setActiveItemByDelta 1 s.

(** [setPreviousItemActive()] *)
Definition setPreviousItemActive (s : State) : Completion :=
  if (_activeItemIndex s <? 0) && _wrap s then setLastItemActive s
  else _setActiveItemByDelta (-1) s.

(** What the manager reads of a [KeyboardEvent]. *)
Record KeyboardEvent := mkKey {
  keyCode : Z;
  key : option jsstring;
  evAltKey : bool;
  evCtrlKey : bool;
  evMetaKey : bool;
  evShiftKey : bool
}.

(** [event[modifier]] *)
Definition modifierHeld (event : KeyboardEvent) (m : ListKeyManagerModifierKey) : bool :=
  match m with
  | altKey => evAltKey event
  | ctrlKey => evCtrlKey event
  | metaKey => evMetaKey event
  | shiftKey => evShiftKey event
  end.

(** Modelled from the spec: [hasModifierKey(event, ...modifiers)] of
    [@angular/cdk/keycodes], absent from the sources: with modifiers given,
    whether one of them is held. *)
Definition hasModifierKey (event : KeyboardEvent)
           (modifiers : list ListKeyManagerModifierKey) : bool :=
  existsb (modifierHeld event) modifiers.

(** [isModifierAllowed] of [onKeydown] *)
Definition isModifierAllowed (event : KeyboardEvent) (s : State) : bool :=
  forallb (fun modifier =>
             negb (modifierHeld event modifier) ||
             (-1 <? indexOf (_allowedModifierKeys s) modifier))
          [altKey; ctrlKey; metaKey; shiftKey].

(** [this._letterKeyStream.next(letter)]: with a live typeahead
    subscription the letter joins the buffer and the debounce restarts. *)
Definition letterKeyStream_next (letter : jsstring) (s : State) : State :=
  match _typeaheadSubscription s with
  | Some interval =>
      set_typeahead (Some interval) true (set_pressedLetters (_pressedLetters s ++ [letter]) s)
  | None => s
  end.

(** The outcome of [onKeydown]: how the call ended and whether it called
    [event.preventDefault()]. *)
Record KeydownResult := mkResult {
  completion : Completion;
  defaultPrevented : bool
}.

(** What follows the [switch] of [onKeydown] after a [break]. *)
Definition afterNavigation (c : Completion) : KeydownResult :=
  match c with
  | Normal s => mkResult (Normal (set_pressedLetters [] s)) true
  | Throw e s => mkResult (Throw e s) false
  end.

Definition isTruthy (direction : option Direction) : bool :=
  match direction with Some _ => true | None => false end.

Definition isRtl (direction : option Direction) : bool :=
  match direction with Some rtl => true | _ => false end.

Section WithCaseMapping.
Context {rt : CaseMapping}.

(** [onKeydown(event)] *)
Definition onKeydown (event : KeyboardEvent) (s : State) : KeydownResult :=
  let keyCode := keyCode event in
  let allowed := isModifierAllowed event s in
  if keyCode =? Keycodes.TAB then
    mkResult (Normal (set_tabOut (S (tabOut s)) s)) false
  else if keyCode =? Keycodes.DOWN_ARROW then
    if _vertical s && allowed then afterNavigation (setNextItemActive s)
    else mkResult (Normal s) false
  else if keyCode =? Keycodes.UP_ARROW then
    if _vertical s && allowed then afterNavigation (setPreviousItemActive s)
    else mkResult (Normal s) false
  else if keyCode =? Keycodes.RIGHT_ARROW then
    if isTruthy (_horizontal s) && allowed then
      afterNavigation (if isRtl (_horizontal s) then setPreviousItemActive s
                       else setNextItemActive s)
    else mkResult (Normal s) false
  else if keyCode =? Keycodes.LEFT_ARROW then
    if isTruthy (_horizontal s) && allowed then
      afterNavigation (if isRtl (_horizontal s) then setNextItemActive s
                       else setPreviousItemActive s)
    else mkResult (Normal s) false
  else if keyCode =? Keycodes.HOME then
    if _homeAndEnd s && allowed then afterNavigation (setFirstItemActive s)
    else mkResult (Normal s) false
  else if keyCode =? Keycodes.END then
    if _homeAndEnd s && allowed then afterNavigation (setLastItemActive s)
    else mkResult (Normal s) false
  else
    let s' :=
      if allowed || hasModifierKey event [shiftKey] then
        match key event with
        | Some k =>
            if (length k =? 1)%nat then letterKeyStream_next (toLocaleUpperCase k) s
            else if ((Keycodes.A <=? keyCode) && (keyCode <=? Keycodes.Z)) ||
                    ((Keycodes.ZERO <=? keyCode) && (keyCode <=? Keycodes.NINE))
                 then letterKeyStream_next (fromCharCode keyCode) s
                 else s
        | None =>
            if ((Keycodes.A <=? keyCode) && (keyCode <=? Keycodes.Z)) ||
               ((Keycodes.ZERO <=? keyCode) && (keyCode <=? Keycodes.NINE))
            then letterKeyStream_next (fromCharCode keyCode) s
            else s
        end
      else s in
    mkResult (Normal s') false.

(** [isTyping()] *)
Definition isTyping (s : State) : bool := negb (len (_pressedLetters s) =? 0).

(** The test of the typeahead loop on one item:
    [item.getLabel!().toUpperCase().trim().indexOf(inputString) === 0]. *)
Definition labelMatches (inputString label : jsstring) : bool :=
  startsWith (trim (toUpperCase label)) inputString.

(** The [for] loop of the typeahead subscriber, [remaining] iterations to go. *)
Fixpoint typeaheadScan (remaining : nat) (i : Z) (inputString : jsstring) (s : State)
  : Scan :=
  match remaining with
  | O => Miss
  | S remaining' =>
      let items := _getItemsArray s in
      let index := jsrem (_activeItemIndex s + i) (len items) in
      let item := item_at items index in
      match callSkip (_skipPredicateFn s) item with
      | None => Raised TypeError
      | Some true => typeaheadScan remaining' (i + 1) inputString s
      | Some false =>
          match item with
          | None => Raised TypeError
          | Some it =>
              match getLabel it with
              | None => Raised TypeError
              | Some label =>
                  if labelMatches inputString label then Hit index
                  else typeaheadScan remaining' (i + 1) inputString s
              end
          end
      end
  end.

(** The subscriber of the typeahead stream, run on the buffered string. *)
Definition typeaheadSearch (inputString : jsstring) (s : State) : Completion :=
  match typeaheadScan (length (_getItemsArray s)) 1 inputString s with
  | Hit index => Normal (set_pressedLetters [] (setActiveItem (ByIndex index) s))
  | Miss => Normal (set_pressedLetters [] s)
  | Raised e => Throw e s
  end.

(** The debounce interval elapses: the pending emission passes the
    [filter] when letters are buffered, is mapped to their concatenation
    and reaches the subscriber.  A subscriber that throws has its
    subscription closed by the stream library. *)
Definition debounceElapsed (s : State) : Completion :=
  match _typeaheadSubscription s, _debouncePending s with
  | Some interval, true =>
      let s1 := set_typeahead (Some interval) false s in
      if 0 <? len (_pressedLetters s1) then
        match typeaheadSearch (join (_pressedLetters s1)) s1 with
        | Normal s2 => Normal s2
        | Throw e s2 => Throw e (set_typeahead None false s2)
        end
      else Normal s1
  | _, _ => Normal s
  end.

(** The active item is null or a member of the collection ... *)
Definition activeIsMember (s : State) : Prop :=
  match _activeItem s with
  | None => True
  | Some item => item ∈ _items s
  end.

(** ... and, when not null, not skipped by the skip predicate. *)
Definition activeIsValid (s : State) : Prop :=
  match _activeItem s with
  | None => True
  | Some item => item ∈ _items s /\ onItem (_skipPredicateFn s) item = false
  end.

(** An operation kept the active item, or activated an item of the
    collection that the skip predicate lets through. *)
Definition keptOrActivatedValid (s s' : State) : Prop :=
  _activeItem s' = _activeItem s \/
  exists item, _activeItem s' = Some item /\ item ∈ _items s /\
               onItem (_skipPredicateFn s) item = false.

(** The configuration of a manager. *)
Definition sameConfig (s s' : State) : Prop :=
  _wrap s' = _wrap s /\ _vertical s' = _vertical s /\ _horizontal s' = _horizontal s /\
  _allowedModifierKeys s' = _allowedModifierKeys s /\ _homeAndEnd s' = _homeAndEnd s /\
  _skipPredicateFn s' = _skipPredicateFn s /\
  _typeaheadSubscription s' = _typeaheadSubscription s /\ _items s' = _items s.

(** How a navigation step relates the state before and after: nothing
    happened, or [setActiveItem(i)] ran on an index that holds an item the
    skip predicate lets through. *)
Definition moved (s s' : State) : Prop :=
  s' = s \/
  exists i item,
    item_at (_items s) i = Some item /\
    onItem (_skipPredicateFn s) item = false /\
    s' = setActiveItem (ByIndex i) s.

(** The public navigation methods. *)
Inductive Navigation := First | Last | Next | Previous.

Definition navigate (n : Navigation) (s : State) : Completion :=
  match n with
  | First => setFirstItemActive s
  | Last => setLastItemActive s
  | Next => setNextItemActive s
  | Previous => setPreviousItemActive s
  end.

(** The keys the [switch] of [onKeydown] navigates on, with their guards. *)
Definition navigationFor (event : KeyboardEvent) (s : State) : option Navigation :=
  let allowed := isModifierAllowed event s in
  if keyCode event =? Keycodes.DOWN_ARROW then
    if _vertical s && allowed then Some Next else None
  else if keyCode event =? Keycodes.UP_ARROW then
    if _vertical s && allowed then Some Previous else None
  else if keyCode event =? Keycodes.RIGHT_ARROW then
    if isTruthy (_horizontal s) && allowed
    then Some (if isRtl (_horizontal s) then Previous else Next) else None
  else if keyCode event =? Keycodes.LEFT_ARROW then
    if isTruthy (_horizontal s) && allowed
    then Some (if isRtl (_horizontal s) then Next else Previous) else None
  else if keyCode event =? Keycodes.HOME then
    if _homeAndEnd s && allowed then Some First else None
  else if keyCode event =? Keycodes.END then
    if _homeAndEnd s && allowed then Some Last else None
  else None.

(** The arrow, Home and End key codes. *)
Definition isNavigationKey (code : Z) : bool :=
  (code =? Keycodes.DOWN_ARROW) || (code =? Keycodes.UP_ARROW) ||
  (code =? Keycodes.RIGHT_ARROW) || (code =? Keycodes.LEFT_ARROW) ||
  (code =? Keycodes.HOME) || (code =? Keycodes.END).

(** A key event without modifiers, its [key] given by its ASCII
    characters. *)
Definition plainKey (code : Z) (k : option string) : KeyboardEvent :=
  mkKey code (str <$> k) false false false false.

(** Items for the examples, the label given by its ASCII characters. *)
Definition labelled (id : nat) (label : string) : ListKeyManagerOption :=
  mkOption id None (Some (str label)).

Definition fruits : list ListKeyManagerOption :=
  [labelled 0 "Banana"; labelled 1 "Apple"; labelled 2 "Apricot"].

(** The item at [index] passes the test of the typeahead loop: it is not
    skipped and its label, upper-cased and trimmed, starts with [input]. *)
Definition matchesAt (input : jsstring) (s : State) (index : Z) : bool :=
  match item_at (_items s) index with
  | Some item =>
      negb (onItem (_skipPredicateFn s) item) &&
      match getLabel item with
      | Some label => labelMatches input label
      | None => false
      end
  | None => false
  end.

(** The match of claim C5 in its own words: the label starts with the
    typed buffer, letter case apart. *)
Definition startsWithIgnoringCase (label input : jsstring) : bool :=
  startsWith (toUpperCase label) (toUpperCase input).

(** Typing the given keys, one [onKeydown] each, into a manager with
    typeahead on. *)
Definition typeKeys (keys : list KeyboardEvent) (s : State) : State :=
  fold_left (fun st k => stateOf (completion (onKeydown k st))) keys s.

(** A collection whose first label begins with a space, after the keys
    "a" and "p". *)
Definition spacedFruits : list ListKeyManagerOption :=
  [labelled 0 " Apple"; labelled 1 "Apricot"].

Definition typedAP : State :=
  typeKeys [plainKey 65 (Some "a"%string); plainKey 80 (Some "p"%string)]
           (stateOf (withTypeAhead None 200 (new spacedFruits))).

(** The collection [" Apple"] after the keys space and "a". *)
Definition typedSpaceA : State :=
  typeKeys [plainKey 32 (Some " "%string); plainKey 65 (Some "a"%string)]
           (stateOf (withTypeAhead None 200 (new [labelled 0 " Apple"]))).

(** The three fruits of the specification after the keys "a" and "p". *)
Definition fruitsTypedAP : State :=
  typeKeys [plainKey 65 (Some "a"%string); plainKey 80 (Some "p"%string)]
           (stateOf (withTypeAhead None 200 (new fruits))).

(** A manager over an empty collection, typeahead on, after the key "a". *)
Definition typingOnEmpty : State :=
  stateOf (completion
             (onKeydown (plainKey Keycodes.A (Some "a"%string))
                        (stateOf (withTypeAhead None 200 (new []))))).

(** Three items, the middle one disabled. *)
Definition middleDisabled : list ListKeyManagerOption :=
  [labelled 0 "One"; mkOption 1 (Some true) (Some (str "Two")); labelled 2 "Three"].

(** A collection whose only item is disabled. *)
Definition onlyDisabled : list ListKeyManagerOption :=
  [mkOption 0 (Some true) (Some (str "Apple"))].

(** A collection with an item that has no [getLabel]. *)
Definition unlabelled : list ListKeyManagerOption :=
  [mkOption 0 None None].

End WithCaseMapping.

End ListKeyManager.

(** ** ListKeyManager: the rest of the class *)

Module ListKeyManagerMore.
Import JsArray JsString ListKeyManager.

Definition set_items (items : list ListKeyManagerOption) (s : State) : State :=
  mkState (_activeItemIndex s) (_activeItem s) (_wrap s) (_typeaheadSubscription s)
          (_debouncePending s) (_vertical s) (_horizontal s) (_allowedModifierKeys s)
          (_homeAndEnd s) (_skipPredicateFn s) (_pressedLetters s) items
          (tabOut s) (change s).

(** The subscriber the constructor binds to [_items.changes] when the
    items are a [QueryList]: the framework has given the list its new
    content [newItems] and notifies the manager. *)
Definition queryListChanged (newItems : list ListKeyManagerOption) (s : State) : State :=
  let s1 := set_items newItems s in
  match _activeItem s1 with
  | Some activeItem =>
      let itemArray := newItems in
      let newIndex := indexOf itemArray activeItem in
      if (-1 <? newIndex) && negb (newIndex =? _activeItemIndex s1)
      then set_active newIndex (_activeItem s1) s1
      else s1
  | None => s1
  end.

(** The item at index [j] exists and the skip predicate lets it through;
    it exists and is skipped. *)
Definition enabledAt (s : State) (j : Z) : bool :=
  match item_at (_items s) j with
  | Some item => negb (onItem (_skipPredicateFn s) item)
  | None => false
  end.

Definition skippedAt (s : State) (j : Z) : bool :=
  match item_at (_items s) j with
  | Some item => onItem (_skipPredicateFn s) item
  | None => false
  end.

(** What the [change] stream shows of a step: nothing when the active item
    is the same object as before, the new index otherwise. *)
Definition changeRule (s s' : State) : Prop :=
  change s' = if bool_decide (_activeItem s' = _activeItem s) then change s
              else change s ++ [_activeItemIndex s'].

(** A modifier other than Shift is held and is not among the allowed ones. *)
Definition disallowedNonShiftHeld (event : KeyboardEvent) (s : State) : bool :=
  existsb (fun m => modifierHeld event m &&
                    negb (-1 <? indexOf (_allowedModifierKeys s) m))
          [altKey; ctrlKey; metaKey].

Section WithCaseMapping.
Context {rt : CaseMapping}.

(** The letter [onKeydown] hands to the typeahead stream for a key that
    is not a navigation key, if any. *)
Definition letterOf (event : KeyboardEvent) : option jsstring :=
  let viaCode :=
    if ((Keycodes.A <=? keyCode event) && (keyCode event <=? Keycodes.Z)) ||
       ((Keycodes.ZERO <=? keyCode event) && (keyCode event <=? Keycodes.NINE))
    then Some (fromCharCode (keyCode event)) else None in
  match key event with
  | Some k => if (length k =? 1)%nat then Some (toLocaleUpperCase k) else viaCode
  | None => viaCode
  end.

(** Five items of which the second and the last two are disabled. *)
Definition gappy : list ListKeyManagerOption :=
  [labelled 0 "a"; mkOption 1 (Some true) (Some (str "b")); labelled 2 "c";
   mkOption 3 (Some true) (Some (str "d")); mkOption 4 (Some true) (Some (str "e"))].

(** What [onKeydown] does with a letter, if it has one. *)
Definition feedLetter (event : KeyboardEvent) (s : State) : State :=
  match letterOf event with
  | Some letter => letterKeyStream_next letter s
  | None => s
  end.

(** Control held together with a key, the [key] given by its ASCII
    characters. *)
Definition ctrlKey_event (code : Z) (k : string) (shift : bool) : KeyboardEvent :=
  mkKey code (Some (str k)) false true false shift.

(** The codes the [switch] of [onKeydown] has a case for. *)
Definition isSwitchKey (code : Z) : bool :=
  (code =? Keycodes.TAB) || isNavigationKey code.

End WithCaseMapping.

End ListKeyManagerMore.

(** ** FocusTrapManager: further notions *)

Module FocusTrapManagerMore.
Import FocusTrapManager.

(** The traps a manager whose stack is [stack] should have enabled: the
    top of the stack and nothing else. *)
Definition topOnly (stack : list ManagedFocusTrap) : gset ManagedFocusTrap :=
  match last stack with
  | Some top => {[ top ]}
  | None => ∅
  end.

(** The stack without a trap, the others in their order. *)
Definition without (t : ManagedFocusTrap) (stack : list ManagedFocusTrap)
  : list ManagedFocusTrap :=
  List.filter (fun ft => negb (Nat.eqb ft t)) stack.

End FocusTrapManagerMore.

(** ** FocusTrap: the [enabled] setter, and what the anchors look like *)

Module FocusTrapMore.
Import Dom FocusTrap.

(** [n.getAttribute(k)], [null] being [None]. *)
Definition getAttribute (d : Document) (n : Node) (k : string) : option string :=
  match nodes d !! n with
  | Some r => nAttributes r !! k
  | None => None
  end.

(** [n.classList] and the [focus] listeners bound to [n]. *)
Definition classList (d : Document) (n : Node) : list string :=
  match nodes d !! n with
  | Some r => nClassList r
  | None => []
  end.

Definition focusListeners (d : Document) (n : Node) : list Listener :=
  match nodes d !! n with
  | Some r => nFocusListeners r
  | None => []
  end.

(** [toggleAnchors(enabled)] *)
Definition toggleAnchors (enabled : bool) (t : FocusTrap) (d : Document) : Document :=
  match _startAnchor t, _endAnchor t with
  | Some startAnchor, Some endAnchor =>
      _toggleAnchorTabIndex enabled endAnchor (_toggleAnchorTabIndex enabled startAnchor d)
  | _, _ => d
  end.

(** The setter of [enabled]. *)
Definition set_enabled (value : bool) (t : FocusTrap) (d : Document)
  : FocusTrap * Document :=
  let t' := mkTrap (_element t) (_startAnchor t) (_endAnchor t) (_hasAttached t) value in
  match _startAnchor t', _endAnchor t' with
  | Some startAnchor, Some endAnchor =>
      (t', _toggleAnchorTabIndex value endAnchor (_toggleAnchorTabIndex value startAnchor d))
  | _, _ => (t', d)
  end.

(** [hasAttached()] *)
Definition hasAttached (t : FocusTrap) : bool := _hasAttached t.

(** The [tabindex] attribute of an anchor of a trap that is enabled or not. *)
Definition tabindexOf (enabled : bool) : option string :=
  if enabled then Some "0"%string else None.

(** A trap constructed with [deferAnchors], before it attaches. *)
Definition deferredTrap (element : Node) (enabled : bool) : FocusTrap :=
  mkTrap element None None false enabled.

(** The children listed under [p] are nodes of the document. *)
Definition childrenInStore (d : Document) (p : Node) : Prop :=
  forall c, c ∈ childNodes d p -> is_Some (nodes d !! c).

(** What [_createAnchor] and [attachAnchors] leave on an anchor. *)
Definition isAnchorOf (enabled : bool) (l : Listener) (d : Document) (a : Node) : Prop :=
  getAttribute d a "tabindex"%string = tabindexOf enabled /\
  getAttribute d a "aria-hidden"%string = Some "true"%string /\
  classList d a = ["cdk-visually-hidden"%string; "cdk-focus-trap-anchor"%string] /\
  focusListeners d a = [l].

(** A trap on the region of [page] with both anchors attached. *)
Definition attachedTrap : FocusTrap * Document :=
  let '(_, t, d) := attachAnchors freshTrap page in (t, d).

End FocusTrapMore.

(** ** FocusTrap: the search for the first and the last tabbable element *)

Module TabbableSearch.
Import Dom.

(** The subtree under a root as the search sees it: for each node whether
    it is an element ([nodeType === ELEMENT_NODE]), the verdict of
    [_checker.isFocusable(n) && _checker.isTabbable(n)], and the list the
    loop iterates ([root.children || root.childNodes]), in DOM order. *)
#[local] Unset Elimination Schemes.
Inductive Subtree :=
| SNode (node : Node) (isElementNode : bool) (tabbable : bool) (children : list Subtree).
#[local] Set Elimination Schemes.

Definition nodeOf (t : Subtree) : Node :=
  match t with SNode n _ _ _ => n end.

Definition isElement (t : Subtree) : bool :=
  match t with SNode _ e _ _ => e end.

Definition isTabbable (t : Subtree) : bool :=
  match t with SNode _ _ tab _ => tab end.

Definition childrenOf (t : Subtree) : list Subtree :=
  match t with SNode _ _ _ cs => cs end.

(** [_getFirstTabbableElement(root)] *)
Fixpoint _getFirstTabbableElement (root : Subtree) : option Node :=
  match root with
  | SNode n _ tab children =>
      if tab then Some n
      else
        (fix loop (cs : list Subtree) : option Node :=
           match cs with
           | [] => None
           | c :: rest =>
               let tabbableChild :=
                 if isElement c then _getFirstTabbableElement c else None in
               match tabbableChild with
               | Some x => Some x
               | None => loop rest
               end
           end) children
  end.

(** [_getLastTabbableElement(root)].  The loop runs from the last child to
    the first: the recursion below asks the later children before it asks
    the child at hand. *)
Fixpoint _getLastTabbableElement (root : Subtree) : option Node :=
  match root with
  | SNode n _ tab children =>
      if tab then Some n
      else
        (fix loop (cs : list Subtree) : option Node :=
           match cs with
           | [] => None
           | c :: rest =>
               match loop rest with
               | Some x => Some x
               | None => if isElement c then _getLastTabbableElement c else None
               end
           end) children
  end.

(** The tabbable elements of the subtree in document order.  Only element
    nodes are entered. *)
Fixpoint tabbables (t : Subtree) : list Node :=
  match t with
  | SNode n _ tab children =>
      (if tab then [n] else []) ++
      flat_map (fun c => if isElement c then tabbables c else []) children
  end.

(** The tabbable elements that have no tabbable ancestor inside the
    subtree, in document order. *)
Fixpoint outermostTabbables (t : Subtree) : list Node :=
  match t with
  | SNode n _ tab children =>
      if tab then [n]
      else flat_map (fun c => if isElement c then outermostTabbables c else []) children
  end.

(** The subtree with every child list reversed. *)
Fixpoint mirror (t : Subtree) : Subtree :=
  match t with
  | SNode n e tab children => SNode n e tab (rev (map mirror children))
  end.

(** A tabbable container (node 1) holding a tabbable button (node 2). *)
Definition nestedTabbables : Subtree :=
  SNode 0%nat true false [SNode 1%nat true true [SNode 2%nat true true []]].

End TabbableSearch.

(** ** FocusMonitor: timers, classes and the walk over the ancestors *)

Module FocusMonitorMore.
Import JsArray Dom FocusMonitor.

(** The events that assign [_origin] directly. *)
Definition setsOrigin (e : Event) : bool :=
  match e with
  | EvKeydown | EvMousedown _ | EvSetOrigin _ => true
  | _ => false
  end.

Definition isTouchTimer (t : Timer) : bool :=
  match timerAction t with
  | ClearLastTouchTarget => true
  | _ => false
  end.

Definition isOriginTimer (t : Timer) : bool :=
  match timerAction t with
  | ClearOrigin => true
  | _ => false
  end.

(** A timer with the given id is pending. *)
Definition pending (id : nat) (s : State) : bool :=
  existsb (fun t => Nat.eqb (timerId t) id) (timers s).

(** What holds of the timer queue in every state the monitor reaches: ids
    are below the next id and pairwise different, a pending touch timer is
    the one [_touchTimeoutId] names, and in EVENTUAL mode no timer that
    clears the origin is pending. *)
Definition timers_ok (s : State) : Prop :=
  Forall (fun t => (timerId t < nextTimerId s)%nat) (timers s) /\
  NoDup (map timerId (timers s)) /\
  (forall t, t ∈ timers s -> isTouchTimer t = true -> _touchTimeoutId s = Some (timerId t)) /\
  (_detectionMode s = EVENTUAL -> forall t, t ∈ timers s -> isOriginTimer t = false).

(** The fields the focus and blur handlers leave alone: everything but the
    document, the emitted values and [_lastFocusOrigin]. *)
Definition control (s : State) :=
  (_origin s, _windowFocused s, _lastTouchTarget s, _touchTimeoutId s,
   _windowFocusTimeoutId s, _originTimeoutId s, _elementInfo s, _detectionMode s,
   timers s, nextTimerId s).

(** The five classes [_setClasses] toggles. *)
Definition focusClasses : list string :=
  ["cdk-focused"%string; "cdk-touch-focused"%string; "cdk-keyboard-focused"%string;
   "cdk-mouse-focused"%string; "cdk-program-focused"%string].

Definition classOf (o : Origin) : string :=
  match o with
  | touch => "cdk-touch-focused"%string
  | keyboard => "cdk-keyboard-focused"%string
  | mouse => "cdk-mouse-focused"%string
  | program => "cdk-program-focused"%string
  end.

(** The focus classes an element should carry for an origin. *)
Definition classesFor (origin : FocusOrigin) : list string :=
  match origin with
  | Some o => ["cdk-focused"%string; classOf o]
  | None => []
  end.

(** From [d] to [d'] the element has lost the focus classes it had and
    kept its other classes. *)
Definition lostFocusClasses (d d' : Document) (element : Node) : Prop :=
  forall c, c ∈ FocusTrapMore.classList d' element <->
            (c ∉ focusClasses) /\ c ∈ FocusTrapMore.classList d element.

(** Two documents in which [contains] and the walk over the ancestors
    behave alike: the same tree and as many nodes. *)
Definition same_shape (d d' : Document) : Prop :=
  same_tree d d' /\ size (nodes d') = size (nodes d).


(** The elements on which [_onBlur] goes past its guard. *)
Definition notifiedOnBlur (event : DomEvent) (s : State) (element : Node) : bool :=
  match info_get (_elementInfo s) element with
  | None => false
  | Some elementInfo =>
      negb (checkChildren elementInfo &&
            match relatedTarget event with
            | Some (TNode r) => contains (document s) element r
            | _ => false
            end)
  end.

(** The chain the listener walks from the target of an event. *)
Definition walked (event : DomEvent) (s : State) : list Node :=
  match getTarget event with
  | Some (TNode n) => ancestors (size (nodes (document s))) (document s) n
  | _ => []
  end.

(** Node 1 of the page monitored with [checkChildren], node 0 (its parent)
    monitored too. *)
Definition twoMonitored : State :=
  init IMMEDIATE FocusTrap.page
       [(1%nat, mkInfo false 0%nat); (0%nat, mkInfo true 0%nat)].

(** The two monitored nodes carry focus classes and a class of their own;
    node 1 loses the focus. *)
Definition twoFocused : State :=
  set_document
    (classList_add 0%nat "cdk-focused"%string
       (classList_add 1%nat "cdk-mouse-focused"%string
          (classList_add 1%nat "cdk-focused"%string
             (classList_add 1%nat "mat-button"%string FocusTrap.page))))
    twoMonitored.

End FocusMonitorMore.

(** ** FocusMonitor: [monitor], [stopMonitoring] and the listener counts *)

(** The platform is a browser and the argument of [monitor] is an element
    ([nodeType === 1]); the root node ([_getShadowRoot(element) ||
    document]) is an argument of the call.  [addEventListener] with a
    listener that is already registered does nothing, so the listeners
    registered on root nodes are a set of nodes and those on the document
    and the window one flag. *)

Module FocusMonitorRegistry.
Import JsArray Dom FocusMonitor.

Record Registry := mkRegistry {
  monitorOf : State;
  _rootNodeFocusListenerCount : gmap Node Z;
  _monitoredElementCount : Z;
  rootListeners : gset Node;
  globalListeners : bool;
  completedSubjects : list Node
}.

Definition set_elementInfo (infos : list (Node * MonitoredElementInfo)) (s : State) : State :=
  mkState (_origin s) (_lastFocusOrigin s) (_windowFocused s) (_lastTouchTarget s)
          (_touchTimeoutId s) (_windowFocusTimeoutId s) (_originTimeoutId s)
          infos (_detectionMode s) (timers s) (nextTimerId s)
          (document s) (emitted s).

Definition set_monitorOf (s : State) (r : Registry) : Registry :=
  mkRegistry s (_rootNodeFocusListenerCount r) (_monitoredElementCount r)
             (rootListeners r) (globalListeners r) (completedSubjects r).

(** [map.set(element, info)]: the entry of the key is replaced where it
    stands, a new key goes to the end. *)
Fixpoint info_set (infos : list (Node * MonitoredElementInfo)) (element : Node)
         (info : MonitoredElementInfo) : list (Node * MonitoredElementInfo) :=
  match infos with
  | [] => [(element, info)]
  | (e, i) :: rest =>
      if Nat.eqb e element then (e, info) :: rest
      else (e, i) :: info_set rest element info
  end.

(** [map.delete(element)] *)
Definition info_delete (infos : list (Node * MonitoredElementInfo)) (element : Node)
  : list (Node * MonitoredElementInfo) :=
  List.filter (fun entry => negb (Nat.eqb (fst entry) element)) infos.

(** [_registerGlobalListeners(elementInfo)] *)
Definition _registerGlobalListeners (elementInfo : MonitoredElementInfo) (r : Registry)
  : Registry :=
  let root := rootNode elementInfo in
  let rootNodeFocusListeners := default 0 (_rootNodeFocusListenerCount r !! root) in
  let listeners :=
    if rootNodeFocusListeners =? 0 then rootListeners r ∪ {[ root ]}
    else rootListeners r in
  let counts := <[ root := rootNodeFocusListeners + 1 ]> (_rootNodeFocusListenerCount r) in
  let count := _monitoredElementCount r + 1 in
  mkRegistry (monitorOf r) counts count listeners
             (if count =? 1 then true else globalListeners r)
             (completedSubjects r).

(** [_removeGlobalListeners(elementInfo)] *)
Definition _removeGlobalListeners (elementInfo : MonitoredElementInfo) (r : Registry)
  : Registry :=
  let root := rootNode elementInfo in
  let '(counts, listeners) :=
    match _rootNodeFocusListenerCount r !! root with
    | Some rootNodeFocusListeners =>
        if 1 <? rootNodeFocusListeners
        then (<[ root := rootNodeFocusListeners - 1 ]> (_rootNodeFocusListenerCount r),
              rootListeners r)
        else (delete root (_rootNodeFocusListenerCount r), rootListeners r ∖ {[ root ]})
    | None => (_rootNodeFocusListenerCount r, rootListeners r)
    end in
  let count := _monitoredElementCount r - 1 in
  if count =? 0 then
    let s := monitorOf r in
    let s1 := clearTimeout (_windowFocusTimeoutId s) s in
    let s2 := clearTimeout (_touchTimeoutId s1) s1 in
    let s3 := clearTimeout (_originTimeoutId s2) s2 in
    mkRegistry s3 counts count listeners false (completedSubjects r)
  else
    mkRegistry (monitorOf r) counts count listeners (globalListeners r)
               (completedSubjects r).

(** [monitor(element, checkChildren)] *)
Definition monitor (element : Node) (checkChildren : bool) (root : Node) (r : Registry)
  : Registry :=
  let s := monitorOf r in
  match info_get (_elementInfo s) element with
  | Some cachedInfo =>
      if checkChildren
      then set_monitorOf
             (set_elementInfo
                (info_set (_elementInfo s) element (mkInfo true (rootNode cachedInfo))) s) r
      else r
  | None =>
      let info := mkInfo checkChildren root in
      _registerGlobalListeners info
        (set_monitorOf (set_elementInfo (info_set (_elementInfo s) element info) s) r)
  end.

(** [stopMonitoring(element)] *)
Definition stopMonitoring (element : Node) (r : Registry) : Registry :=
  let s := monitorOf r in
  match info_get (_elementInfo s) element with
  | Some elementInfo =>
      let s1 := set_document (_setClasses element None (document s)) s in
      let s2 := set_elementInfo (info_delete (_elementInfo s1) element) s1 in
      _removeGlobalListeners elementInfo
        (mkRegistry s2 (_rootNodeFocusListenerCount r) (_monitoredElementCount r)
                    (rootListeners r) (globalListeners r)
                    (completedSubjects r ++ [element]))
  | None => r
  end.

(** [ngOnDestroy()]: [stopMonitoring] on every key of the map. *)
Definition ngOnDestroy (r : Registry) : Registry :=
  fold_left (fun r' element => stopMonitoring element r')
            (map fst (_elementInfo (monitorOf r))) r.

(** The monitor after its constructor ran. *)
Definition new (mode : FocusMonitorDetectionMode) (d : Document) : Registry :=
  mkRegistry (init mode d []) ∅ 0 ∅ false [].

(** What can happen to the injectable: a call of its interface, or one of
    its listeners or timers runs. *)
Inductive Action :=
| Monitor (element : Node) (checkChildren : bool) (root : Node)
| StopMonitoring (element : Node)
| Dispatch (e : Event)
| Destroy.

Definition act (r : Registry) (a : Action) : Registry :=
  match a with
  | Monitor element checkChildren root => monitor element checkChildren root r
  | StopMonitoring element => stopMonitoring element r
  | Dispatch e => set_monitorOf (step (monitorOf r) e) r
  | Destroy => ngOnDestroy r
  end.

Definition perform (acts : list Action) (r : Registry) : Registry := fold_left act acts r.


Definition monitored (r : Registry) : list (Node * MonitoredElementInfo) :=
  _elementInfo (monitorOf r).

(** How many monitored elements have a given root node. *)
Definition rootUsers (root : Node) (infos : list (Node * MonitoredElementInfo)) : Z :=
  len (List.filter (fun entry => Nat.eqb (rootNode (snd entry)) root) infos).

(** The bookkeeping of the injectable agrees with the map of monitored
    elements. *)
Definition registry_ok (r : Registry) : Prop :=
  NoDup (map fst (monitored r)) /\
  _monitoredElementCount r = len (monitored r) /\
  (forall root,
      _rootNodeFocusListenerCount r !! root =
      if rootUsers root (monitored r) =? 0 then None
      else Some (rootUsers root (monitored r))) /\
  (forall root, root ∈ rootListeners r <-> 0 < rootUsers root (monitored r)) /\
  globalListeners r = negb (len (monitored r) =? 0).

(** The listeners and counters, without the monitor itself. *)
Definition bookkeeping (r : Registry) :=
  (_rootNodeFocusListenerCount r, _monitoredElementCount r, rootListeners r,
   globalListeners r).

(** Two elements of the page monitored under the document root (node 0),
    node 0 with [checkChildren]. *)
Definition twoUnderOneRoot : Registry :=
  perform [Monitor 1%nat false 0%nat; Monitor 0%nat true 0%nat] (new IMMEDIATE FocusTrap.page).

End FocusMonitorRegistry.

(** ** ConfigurableFocusTrap and the event-listener inert strategy *)

(** The traps of one [ConfigurableFocusTrapFactory]: they share the
    manager, the document and the one
    [EventListenerFocusTrapInertStrategy].  Of the [FocusTrap] that a trap
    extends, what is kept is whether the trap has its two anchors and
    whether they carry [tabindex="0"]: [attachAnchors] creates the two
    together, [toggleAnchors] gives them the same [tabindex], [destroy]
    drops both. *)

Module ConfigurableFocusTrap.
Import JsArray FocusTrapManager.

(** The arrow function [(e) => this._trapFocus(focusTrap, e)]: a new
    function object at every [preventFocus], which remembers its trap. *)
Record Closure := mkClosure {
  closureId : nat;
  trapOf : ManagedFocusTrap
}.

Record State := mkState {
  (** the manager as in [FocusTrapManager]: its stack and, for each trap,
      whether the last call the manager made on it was [_enable()] *)
  manager : FocusTrapManager.State;
  _listener : option Closure;
  documentListeners : list Closure;
  nextClosure : nat;
  _enabled : gset ManagedFocusTrap;
  (** the traps whose [_startAnchor] and [_endAnchor] are set, with
      whether the anchors carry [tabindex="0"] *)
  anchors : gmap ManagedFocusTrap bool
}.

(** [document.removeEventListener('focus', l, true)] *)
Definition removeEventListener (l : Closure) (ls : list Closure) : list Closure :=
  List.filter (fun l' => negb (Nat.eqb (closureId l') (closureId l))) ls.

(** [preventFocus(focusTrap)] *)
Definition preventFocus (focusTrap : ManagedFocusTrap) (s : State) : State :=
  let ls := match _listener s with
            | Some l => removeEventListener l (documentListeners s)
            | None => documentListeners s
            end in
  let l' := mkClosure (nextClosure s) focusTrap in
  mkState (manager s) (Some l') (ls ++ [l']) (S (nextClosure s)) (_enabled s) (anchors s).

(** [allowFocus(focusTrap)] *)
Definition allowFocus (focusTrap : ManagedFocusTrap) (s : State) : State :=
  match _listener s with
  | None => s
  | Some l =>
      mkState (manager s) None (removeEventListener l (documentListeners s))
              (nextClosure s) (_enabled s) (anchors s)
  end.

Definition set_anchors (a : gmap ManagedFocusTrap bool) (s : State) : State :=
  mkState (manager s) (_listener s) (documentListeners s) (nextClosure s) (_enabled s) a.

(** [toggleAnchors(enabled)] of [FocusTrap]: it sets or removes the
    [tabindex] of the two anchors when the trap has them, and does nothing
    otherwise. *)
Definition toggleAnchors (enabled : bool) (focusTrap : ManagedFocusTrap) (s : State)
  : State :=
  match anchors s !! focusTrap with
  | Some _ => set_anchors (<[focusTrap := enabled]> (anchors s)) s
  | None => s
  end.

(** The manager's part of the state notes the call the manager makes. *)
Definition noteCall (enabled : bool) (focusTrap : ManagedFocusTrap) (s : State) : State :=
  let h := enabledTraps (manager s) in
  let h' := if enabled then FocusTrapManager._enable focusTrap h
            else FocusTrapManager._disable focusTrap h in
  mkState (FocusTrapManager.mkState (_focusTrapStack (manager s)) h')
          (_listener s) (documentListeners s) (nextClosure s) (_enabled s) (anchors s).

(** [_enable()] and [_disable()] of the trap, called by the manager. *)
Definition _enable (focusTrap : ManagedFocusTrap) (s : State) : State :=
  toggleAnchors true focusTrap (preventFocus focusTrap (noteCall true focusTrap s)).

Definition _disable (focusTrap : ManagedFocusTrap) (s : State) : State :=
  toggleAnchors false focusTrap (allowFocus focusTrap (noteCall false focusTrap s)).

Definition set_stack (stack : list ManagedFocusTrap) (s : State) : State :=
  mkState (FocusTrapManager.mkState stack (enabledTraps (manager s)))
          (_listener s) (documentListeners s) (nextClosure s) (_enabled s) (anchors s).

(** [FocusTrapManager.register] and [deregister], calling the methods of
    the traps. *)
Definition register (focusTrap : ManagedFocusTrap) (s : State) : State :=
  let stack := jsfilter (fun ft => negb (Nat.eqb ft focusTrap))
                        (_focusTrapStack (manager s)) in
  let s1 := set_stack stack s in
  let s2 :=
    if negb (len stack =? 0) then
      match item_at stack (len stack - 1) with
      | Some top => _disable top s1
      | None => s1
      end
    else s1 in
  _enable focusTrap (set_stack (stack ++ [focusTrap]) s2).

Definition deregister (focusTrap : ManagedFocusTrap) (s : State) : State :=
  let s1 := _disable focusTrap s in
  let stack := _focusTrapStack (manager s1) in
  let i := indexOf stack focusTrap in
  if negb (i =? -1) then
    let stack' := splice1 i stack in
    let s2 := set_stack stack' s1 in
    if negb (len stack' =? 0) then
      match item_at stack' (len stack' - 1) with
      | Some top => _enable top s2
      | None => s2
      end
    else s2
  else s1.

Definition set_enabledFlag (focusTrap : ManagedFocusTrap) (value : bool) (s : State)
  : State :=
  mkState (manager s) (_listener s) (documentListeners s) (nextClosure s)
          (if value then _enabled s ∪ {[ focusTrap ]} else _enabled s ∖ {[ focusTrap ]})
          (anchors s).

(** The setter of [enabled]. *)
Definition set_enabled (focusTrap : ManagedFocusTrap) (value : bool) (s : State) : State :=
  let s1 := set_enabledFlag focusTrap value s in
  if value then register focusTrap s1 else deregister focusTrap s1.

(** [attachAnchors()] of [FocusTrap], as far as the anchors go: a trap
    that has none gets its two anchors, each made by [_createAnchor] with
    the [tabindex] that the [_enabled] flag asks for. *)
Definition attachAnchors (focusTrap : ManagedFocusTrap) (s : State) : State :=
  match anchors s !! focusTrap with
  | Some _ => s
  | None =>
      set_anchors (<[focusTrap := bool_decide (focusTrap ∈ _enabled s)]> (anchors s)) s
  end.

(** The constructor.  The new object has [_enabled] true and no anchors;
    [super(..)] attaches the anchors unless [config.defer] is set; then
    the trap registers itself. *)
Definition new (defer : bool) (focusTrap : ManagedFocusTrap) (s : State) : State :=
  let s0 := set_anchors (delete focusTrap (anchors s)) (set_enabledFlag focusTrap true s) in
  let s1 := if defer then s0 else attachAnchors focusTrap s0 in
  register focusTrap s1.

(** [destroy()]: the trap leaves the manager, then [super.destroy()] drops
    the anchors. *)
Definition destroy (focusTrap : ManagedFocusTrap) (s : State) : State :=
  let s1 := deregister focusTrap s in
  set_anchors (delete focusTrap (anchors s1)) s1.

(** A new factory: no trap, no listener. *)
Definition init : State := mkState (FocusTrapManager.init ∅) None [] 0%nat ∅ ∅.

(** The calls of a client: the constructor with the default configuration
    ([New]) and with [defer] set, [attachAnchors], the setter of [enabled]
    and [destroy]. *)
Inductive Call :=
| New (t : ManagedFocusTrap)
| SetEnabled (t : ManagedFocusTrap) (value : bool)
| Destroy (t : ManagedFocusTrap)
| NewDeferred (t : ManagedFocusTrap)
| AttachAnchors (t : ManagedFocusTrap).

Definition step (s : State) (c : Call) : State :=
  match c with
  | New t => new false t s
  | SetEnabled t value => set_enabled t value s
  | Destroy t => destroy t s
  | NewDeferred t => new true t s
  | AttachAnchors t => attachAnchors t s
  end.

Definition run (cs : list Call) (s : State) : State := fold_left step cs s.

(** The calls of the manager that a call of a trap amounts to. *)
Definition managerCalls (c : Call) : list FocusTrapManager.Call :=
  match c with
  | New t => [Register t]
  | SetEnabled t true => [Register t]
  | SetEnabled t false => [Deregister t]
  | Destroy t => [Deregister t]
  | NewDeferred t => [Register t]
  | AttachAnchors t => []
  end.

(** The listeners of the document are the one of the strategy, if it has
    one, and that one traps the focus for the top of the stack. *)
Definition listener_ok (s : State) : Prop :=
  documentListeners s = match _listener s with Some l => [l] | None => [] end /\
  (forall l, _listener s = Some l ->
             last (_focusTrapStack (manager s)) = Some (trapOf l) /\
             (closureId l < nextClosure s)%nat).

(** The trap for which the document listener traps the focus, if any. *)
Definition trapping (s : State) : option ManagedFocusTrap :=
  trapOf <$> _listener s.

(** The anchors of the trap carry [tabindex="0"]. *)
Definition anchorsOn (s : State) (t : ManagedFocusTrap) : Prop :=
  anchors s !! t = Some true.

(** What every run keeps, for one trap: on the stack its [_enabled] flag
    is set; anchors that are on belong to a trap with the flag set; on top
    of the stack its anchors, if it has them, are on. *)
Definition anchors_ok_at (s : State) (t : ManagedFocusTrap) : Prop :=
  (t ∈ _focusTrapStack (manager s) -> t ∈ _enabled s) /\
  (anchorsOn s t -> t ∈ _enabled s) /\
  (forall b, last (_focusTrapStack (manager s)) = Some t ->
             anchors s !! t = Some b -> b = true).

Definition anchors_ok (s : State) : Prop := forall t, anchors_ok_at s t.

(** The anchors of the trap, if it has them, are on exactly when it is the
    top of the stack. *)
Definition anchors_follow_top_at (s : State) (t : ManagedFocusTrap) : Prop :=
  forall b, anchors s !! t = Some b ->
            (b = true <-> last (_focusTrapStack (manager s)) = Some t).

Definition anchors_follow_top (s : State) : Prop := forall t, anchors_follow_top_at s t.

(** Every trap got its anchors from its constructor: no call constructs a
    trap with [defer] or calls [attachAnchors]. *)
Definition attachedAtConstruction (c : Call) : bool :=
  match c with
  | NewDeferred _ | AttachAnchors _ => false
  | _ => true
  end.

(** Two traps are created, the first is disabled and then destroyed. *)
Definition disabledThenDestroyed : list Call :=
  [New 1%nat; New 2%nat; SetEnabled 1%nat false; Destroy 1%nat].

(** A trap is destroyed and then enabled again. *)
Definition enabledAfterDestroy : list Call :=
  [New 1%nat; Destroy 1%nat; SetEnabled 1%nat true].

(** A deferred trap gets its anchors while another trap is on top. *)
Definition attachedBelowTheTop : list Call :=
  [NewDeferred 1%nat; New 2%nat; AttachAnchors 1%nat].

End ConfigurableFocusTrap.

(** ** [closest] (polyfill.ts) *)

(** The two loops walk parent pointers; in a browser the chain of parents
    is finite.  Here a loop gets [fuel] and answers [None] when it runs out
    of it.  [hasNativeClosest] is taken to be false: the polyfill is what
    is embedded. *)

Module Polyfill.
Import Dom.

Section Closest.

(** [curr instanceof Element], and [matches(curr, selector)] for the
    selector at hand. *)
Variable isElement : Node -> bool.
Variable matches : Node -> bool.

(** [while (curr != null && !(curr instanceof Element)) curr = curr.parentNode] *)
Fixpoint skipToElement (fuel : nat) (d : Document) (curr : option Node)
  : option (option Node) :=
  match curr with
  | None => Some None
  | Some c =>
      if isElement c then Some (Some c)
      else match fuel with
           | O => None
           | S fuel' => skipToElement fuel' d (parentNode d c)
           end
  end.

(** [polyfillClosest(element, selector)] *)
Fixpoint polyfillClosest (fuel : nat) (d : Document) (curr : option Node)
  : option (option Node) :=
  match curr with
  | None => Some None
  | Some c =>
      if isElement c && matches c then Some (Some c)
      else match fuel with
           | O => None
           | S fuel' => polyfillClosest fuel' d (parentNode d c)
           end
  end.

(** [closest(element, selector)] *)
Definition closest (fuel : nat) (d : Document) (element : option FocusMonitor.EventTarget)
  : option (option Node) :=
  match element with
  | Some (FocusMonitor.TNode n) =>
      match skipToElement fuel d (Some n) with
      | Some (Some curr) => polyfillClosest fuel d (Some curr)
      | Some None => Some None
      | None => None
      end
  | _ => Some None
  end.

End Closest.

(** The chain of parents of a node, itself first, up to a node without
    parent. *)
Inductive ancestorPath (d : Document) : Node -> list Node -> Prop :=
| path_root n : parentNode d n = None -> ancestorPath d n [n]
| path_step n p l :
    parentNode d n = Some p -> ancestorPath d p l -> ancestorPath d n (n :: l).

End Polyfill.

(* ===================================================================== *)
(** * Part II: theorems                                                   *)
(* ===================================================================== *)

(** ** Facts about the JavaScript array helpers *)

Module JsArrayFacts.
Import JsArray.

Lemma len_zero {A : Type} (arr : list A) : (len arr =? 0) = true <-> arr = [].
Proof.
  unfold len. rewrite Z.eqb_eq. destruct arr; simpl; split; intros; try done; lia.
Qed.

Lemma len_nonneg {A : Type} (arr : list A) : 0 <= len arr.
Proof. unfold len. lia. Qed.

Lemma item_at_nat {A : Type} (arr : list A) (n : nat) :
  item_at arr (Z.of_nat n) = arr !! n.
Proof.
  unfold item_at. destruct (Z.ltb_spec (Z.of_nat n) 0); [lia|].
  by rewrite Nat2Z.id.
Qed.

Lemma item_at_neg {A : Type} (arr : list A) (i : Z) : i < 0 -> item_at arr i = None.
Proof. intros H. unfold item_at. destruct (Z.ltb_spec i 0); [done | lia]. Qed.

Lemma item_at_ge {A : Type} (arr : list A) (i : Z) : len arr <= i -> item_at arr i = None.
Proof.
  intros H. unfold item_at, len in *. destruct (Z.ltb_spec i 0); [done|].
  apply lookup_ge_None. lia.
Qed.

Lemma item_at_Some_range {A : Type} (arr : list A) (i : Z) (x : A) :
  item_at arr i = Some x -> 0 <= i < len arr.
Proof.
  intros H. destruct (Z.ltb_spec i 0) as [Hneg|Hpos].
  - by rewrite item_at_neg in H.
  - destruct (Z.ltb_spec i (len arr)); [lia|]. by rewrite item_at_ge in H.
Qed.

Lemma item_at_in_range {A : Type} (arr : list A) (i : Z) :
  0 <= i < len arr -> exists x, item_at arr i = Some x.
Proof.
  intros [H0 H1]. unfold item_at, len in *. destruct (Z.ltb_spec i 0); [lia|].
  apply lookup_lt_is_Some. lia.
Qed.

Lemma item_at_elem_of {A : Type} (arr : list A) (i : Z) (x : A) :
  item_at arr i = Some x -> x ∈ arr.
Proof.
  unfold item_at. destruct (i <? 0); [done|]. apply list_elem_of_lookup_2.
Qed.

(** [arr[arr.length - 1]] is the last element, [undefined] on the empty array. *)
Lemma item_at_last {A : Type} (arr : list A) : item_at arr (len arr - 1) = last arr.
Proof.
  destruct arr as [|x arr] using rev_ind.
  - reflexivity.
  - rewrite last_snoc. unfold len. rewrite length_app. simpl.
    replace (Z.of_nat (length arr + 1) - 1) with (Z.of_nat (length arr)) by lia.
    rewrite item_at_nat. by rewrite list_lookup_middle.
Qed.

Lemma index_from_absent {A : Type} `{EqDecision A} (from : Z) (arr : list A) (x : A) :
  x ∉ arr -> index_from from arr x = -1.
Proof.
  revert from. induction arr as [|y arr IH]; intros from Hx; simpl; [done|].
  apply not_elem_of_cons in Hx as [Hne Hx].
  destruct (decide (y = x)); [congruence|]. by apply IH.
Qed.

Lemma index_from_present {A : Type} `{EqDecision A} (from : Z) (l1 l2 : list A) (x : A) :
  x ∉ l1 -> index_from from (l1 ++ x :: l2) x = from + len l1.
Proof.
  revert from. induction l1 as [|y l1 IH]; intros from Hx; simpl.
  - destruct (decide (x = x)); [unfold len; simpl; lia | done].
  - apply not_elem_of_cons in Hx as [Hne Hx].
    destruct (decide (y = x)); [congruence|].
    rewrite IH by done. unfold len. simpl length. lia.
Qed.

Lemma splice1_middle {A : Type} (l1 l2 : list A) (x : A) :
  splice1 (len l1) (l1 ++ x :: l2) = l1 ++ l2.
Proof.
  unfold splice1, len. rewrite Nat2Z.id.
  induction l1 as [|y l1 IH]; simpl; [done|]. by rewrite IH.
Qed.

Lemma list_filter_stdpp {A : Type} (p : A -> bool) (arr : list A) :
  List.filter p arr = filter (fun x => p x = true) arr.
Proof.
  induction arr as [|x arr IH]; simpl; [done|].
  rewrite filter_cons. destruct (p x) eqn:E.
  - rewrite decide_True by done. by rewrite IH.
  - rewrite decide_False by done. done.
Qed.

Lemma elem_of_list_filter {A : Type} (p : A -> bool) (arr : list A) (x : A) :
  x ∈ List.filter p arr <-> p x = true /\ x ∈ arr.
Proof. rewrite list_filter_stdpp, list_elem_of_filter. done. Qed.

Lemma last_list_filter {A : Type} (p : A -> bool) (arr : list A) (x : A) :
  last arr = Some x -> p x = true -> last (List.filter p arr) = Some x.
Proof.
  intros Hlast Hp. apply last_Some in Hlast as [l' ->].
  rewrite List.filter_app. simpl. rewrite Hp. apply last_snoc.
Qed.

(** On a duplicate-free array a predicate true of exactly one member
    selects exactly that member. *)
Lemma list_filter_unique {A : Type} (p : A -> bool) (arr : list A) (x : A) :
  NoDup arr -> x ∈ arr -> (forall u, u ∈ arr -> (p u = true <-> u = x)) ->
  List.filter p arr = [x].
Proof.
  induction arr as [|y arr IH]; intros Hnd Hin Hp; [by apply elem_of_nil in Hin|].
  apply NoDup_cons in Hnd as [Hy Hnd]. simpl.
  assert (Hrest : forall l : list A,
             (forall u, u ∈ l -> p u = false) -> List.filter p l = []).
  { induction l as [|z l IHl]; intros Hl; simpl; [done|].
    rewrite Hl by apply list_elem_of_here.
    apply IHl. intros u Hu. apply Hl. by apply list_elem_of_further. }
  destruct (p y) eqn:E.
  - assert (y = x) as -> by (apply Hp; [apply list_elem_of_here | done]).
    f_equal. apply Hrest. intros u Hu.
    destruct (p u) eqn:E'; [|done].
    apply Hp in E'; [|by apply list_elem_of_further]. congruence.
  - assert (Hne : y <> x).
    { intros ->. assert (p x = true) by (apply Hp; [apply list_elem_of_here | done]).
      congruence. }
    apply IH; [done | | ].
    + apply elem_of_cons in Hin as [->|Hin]; done.
    + intros u Hu. apply Hp. by apply list_elem_of_further.
Qed.

End JsArrayFacts.

(** ** FocusTrapManager: the single-enabled-trap discipline *)

Module FocusTrapManagerProofs.
Import JsArray JsArrayFacts FocusTrapManager.

Example two_traps :
  let s := run [Register 1%nat; Register 2%nat] (init ∅) in
  _focusTrapStack s = [1%nat; 2%nat] /\ isEnabled 2%nat s = true /\ isEnabled 1%nat s = false.
Proof. vm_compute. auto. Qed.

(** The dedup predicate of [register] keeps exactly the other traps. *)
Lemma dedup_keeps (t u : ManagedFocusTrap) : negb (Nat.eqb u t) = true <-> u <> t.
Proof. rewrite negb_true_iff, Nat.eqb_neq. done. Qed.

(** The code of [register] computes what the specification describes. *)
Lemma register_refines_spec t s : register t s = register_spec t s.
Proof.
  unfold register, register_spec, jsfilter, _enable, _disable.
  set (stack := List.filter _ _).
  rewrite item_at_last.
  destruct (len stack =? 0) eqn:E; simpl.
  - apply len_zero in E. by rewrite E.
  - done.
Qed.

(** [deregister] of a trap that is not on the stack only disables it. *)
Lemma deregister_absent t s :
  t ∉ _focusTrapStack s ->
  deregister t s = mkState (_focusTrapStack s) (enabledTraps s ∖ {[ t ]}).
Proof.
  intros Hnin. unfold deregister, indexOf.
  by rewrite index_from_absent.
Qed.

(** [deregister] of a trap on the stack removes its first occurrence and
    enables whatever is on top afterwards. *)
Lemma deregister_present t l1 l2 h :
  t ∉ l1 ->
  deregister t (mkState (l1 ++ t :: l2) h) =
  mkState (l1 ++ l2)
          (match last (l1 ++ l2) with
           | Some top => (h ∖ {[ t ]}) ∪ {[ top ]}
           | None => h ∖ {[ t ]}
           end).
Proof.
  intros Hnin. unfold deregister, indexOf. simpl.
  rewrite index_from_present by done. rewrite Z.add_0_l.
  assert (0 <= len l1) by apply len_nonneg.
  destruct (Z.eqb_spec (len l1) (-1)); [lia|]. simpl.
  rewrite splice1_middle, item_at_last.
  destruct (len (l1 ++ l2) =? 0) eqn:E; simpl.
  - apply len_zero in E. by rewrite E.
  - unfold _enable, _disable. by destruct (last (l1 ++ l2)).
Qed.

Lemma stack_ok_init h : stack_ok (init h).
Proof.
  split; [constructor|]. intros t Ht. by apply elem_of_nil in Ht.
Qed.

Lemma stack_ok_register t s : stack_ok s -> stack_ok (register t s).
Proof.
  intros [Hnd Hen]. rewrite register_refines_spec. unfold register_spec.
  set (deduped := List.filter _ _).
  assert (Hded : forall u, u ∈ deduped <-> u <> t /\ u ∈ _focusTrapStack s).
  { intros u. unfold deduped. rewrite elem_of_list_filter, dedup_keeps. done. }
  split; simpl.
  - apply NoDup_app. split; [|split].
    + unfold deduped. rewrite list_filter_stdpp. by apply NoDup_filter.
    + intros u Hu Hu'. apply list_elem_of_singleton in Hu'. apply Hded in Hu. tauto.
    + apply NoDup_singleton.
  - intros u Hu. rewrite last_snoc.
    destruct (decide (u = t)) as [->|Hne].
    + split; [done|]. intros _. set_solver.
    + split; [|congruence]. intros Hin. exfalso.
      apply elem_of_app in Hu as [Hu|Hu]; [|apply list_elem_of_singleton in Hu; done].
      apply Hded in Hu as [_ Hu].
      assert (Hen' : u ∈ enabledTraps s).
      { destruct (last deduped); set_solver. }
      apply Hen in Hen'; [|done].
      assert (Hl : last deduped = Some u).
      { apply last_list_filter; [done | by apply dedup_keeps]. }
      rewrite Hl in Hin. set_solver.
Qed.

Lemma stack_ok_deregister t s : stack_ok s -> stack_ok (deregister t s).
Proof.
  intros [Hnd Hen]. destruct s as [stack h]. simpl in *.
  destruct (decide (t ∈ stack)) as [Hin|Hnin].
  - apply list_elem_of_split_l in Hin as (l1 & l2 & -> & Hl1).
    rewrite deregister_present by done.
    apply NoDup_app in Hnd as (Hnd1 & Hdisj & Hnd2).
    apply NoDup_cons in Hnd2 as [Hl2 Hnd2].
    split; simpl.
    + apply NoDup_app. split; [done|]. split; [|done].
      intros u Hu Hu'. apply (Hdisj u Hu). by apply list_elem_of_further.
    + intros u Hu.
      assert (Hne : u <> t).
      { intros ->. apply elem_of_app in Hu as [Hu|Hu]; done. }
      assert (Hu' : u ∈ l1 ++ t :: l2).
      { apply elem_of_app in Hu as [Hu|Hu]; apply elem_of_app;
          [by left | right; by apply list_elem_of_further]. }
      specialize (Hen u Hu').
      assert (Hlast : last (l1 ++ t :: l2) = Some u -> last (l1 ++ l2) = Some u).
      { rewrite last_app_cons, last_app. intros H.
        destruct l2 as [|z l2] using rev_ind.
        - simpl in H. congruence.
        - rewrite app_comm_cons, last_snoc in H. by rewrite last_snoc. }
      destruct (last (l1 ++ l2)) as [top|] eqn:Etop.
      * split.
        -- intros Hx. apply elem_of_union in Hx as [Hx|Hx].
           ++ apply elem_of_difference in Hx as [Hx _].
              apply Hen in Hx. by apply Hlast.
           ++ apply elem_of_singleton in Hx. congruence.
        -- intros [= ->]. set_solver.
      * apply last_None in Etop. rewrite Etop in Hu. by apply elem_of_nil in Hu.
  - rewrite deregister_absent by done. split; simpl; [done|].
    intros u Hu. rewrite <- Hen by done.
    assert (u <> t) by (intros ->; done). set_solver.
Qed.

Lemma stack_ok_run cs s : stack_ok s -> stack_ok (run cs s).
Proof.
  revert s. induction cs as [|c cs IH]; intros s Hs; [done|].
  simpl. apply IH. destruct c; [by apply stack_ok_register | by apply stack_ok_deregister].
Qed.

(** In a state that satisfies the invariant the enabled traps of a
    non-empty stack are exactly its top. *)
Lemma stack_ok_enabledInStack s top :
  stack_ok s -> last (_focusTrapStack s) = Some top -> enabledInStack s = [top].
Proof.
  intros [Hnd Hen] Hlast. unfold enabledInStack.
  apply list_filter_unique; [done | | ].
  - apply last_Some in Hlast as [l' ->]. apply elem_of_app. right. apply list_elem_of_here.
  - intros u Hu. unfold isEnabled. rewrite bool_decide_eq_true, (Hen u Hu), Hlast.
    split; congruence.
Qed.

(** C1. After any sequence of [register] and [deregister] calls on a fresh
    manager: when the stack is non-empty exactly one trap of the stack is
    enabled, and it is the top of the stack; when the stack is empty no
    trap of the stack is enabled. *)
Theorem focus_trap_stack_invariant :
  forall (cs : list Call) (h : gset ManagedFocusTrap),
    let s := run cs (init h) in
    (_focusTrapStack s <> [] ->
       exists top, last (_focusTrapStack s) = Some top /\
                   enabledInStack s = [top] /\
                   isEnabled top s = true /\
                   (forall t, t ∈ _focusTrapStack s -> t <> top -> isEnabled t s = false)) /\
    (_focusTrapStack s = [] -> enabledInStack s = []).
Proof.
  intros cs h s.
  assert (Hok : stack_ok s) by apply stack_ok_run, stack_ok_init.
  split.
  - intros Hne. destruct (last (_focusTrapStack s)) as [top|] eqn:Etop.
    + exists top. split; [done|]. split; [by apply stack_ok_enabledInStack|].
      destruct Hok as [Hnd Hen].
      assert (Htop : top ∈ _focusTrapStack s).
      { apply last_Some in Etop as [l' ->]. apply elem_of_app. right. apply list_elem_of_here. }
      split.
      * unfold isEnabled. apply bool_decide_eq_true. by apply Hen.
      * intros t Ht Hneq. unfold isEnabled. apply bool_decide_eq_false.
        rewrite (Hen t Ht), Etop. congruence.
    + by apply last_None in Etop.
  - intros Hempty. unfold enabledInStack. by rewrite Hempty.
Qed.

Lemma dedup_absent (t : ManagedFocusTrap) (stack : list ManagedFocusTrap) :
  t ∉ stack -> List.filter (fun ft => negb (Nat.eqb ft t)) stack = stack.
Proof.
  induction stack as [|u stack IH]; intros Hnin; simpl; [done|].
  apply not_elem_of_cons in Hnin as [Hne Hnin].
  assert (negb (Nat.eqb u t) = true) as -> by (apply dedup_keeps; congruence).
  by rewrite IH.
Qed.

Lemma dedup_removes (t : ManagedFocusTrap) (stack : list ManagedFocusTrap) :
  t ∉ List.filter (fun ft => negb (Nat.eqb ft t)) stack.
Proof. rewrite elem_of_list_filter, dedup_keeps. tauto. Qed.

(** C2. For distinct traps and any starting state, registering [T1] and
    then [T2] leaves [T2] enabled and [T1] disabled, and deregistering [T2]
    afterwards enables [T1] again; [register] drops the prior entry of the
    trap before it disables the top, pushes the trap and enables it. *)
Theorem register_then_deregister_restores :
  forall (T1 T2 : ManagedFocusTrap) (s : State),
    T1 <> T2 ->
    let s2 := register T2 (register T1 s) in
    isEnabled T2 s2 = true /\
    isEnabled T1 s2 = false /\
    isEnabled T1 (deregister T2 s2) = true /\
    isEnabled T2 (deregister T2 s2) = false /\
    (forall T s0, register T s0 = register_spec T s0).
Proof.
  intros T1 T2 s Hne s2.
  assert (Hs2 : s2 = register_spec T2 (register_spec T1 s)).
  { unfold s2. by rewrite !register_refines_spec. }
  unfold register_spec in Hs2. simpl in Hs2.
  rewrite List.filter_app in Hs2. simpl in Hs2.
  assert (negb (Nat.eqb T1 T2) = true) as HT by (by apply dedup_keeps).
  rewrite HT in Hs2. rewrite last_snoc in Hs2.
  set (F := List.filter _ (List.filter _ _)) in Hs2.
  assert (HF : T2 ∉ F ++ [T1]).
  { intros Hin. apply elem_of_app in Hin as [Hin|Hin].
    - by apply dedup_removes in Hin.
    - apply list_elem_of_singleton in Hin. congruence. }
  assert (Hd : deregister T2 s2 =
               mkState (F ++ [T1]) ((enabledTraps s2 ∖ {[ T2 ]}) ∪ {[ T1 ]})).
  { rewrite Hs2 at 1. rewrite deregister_present by done.
    rewrite app_nil_r, last_snoc. by rewrite Hs2. }
  repeat split.
  - unfold isEnabled. apply bool_decide_eq_true. rewrite Hs2. simpl. set_solver.
  - unfold isEnabled. apply bool_decide_eq_false. rewrite Hs2. simpl. set_solver.
  - unfold isEnabled. apply bool_decide_eq_true. rewrite Hd. simpl. set_solver.
  - unfold isEnabled. apply bool_decide_eq_false. rewrite Hd. simpl. set_solver.
  - apply register_refines_spec.
Qed.

Lemma register_then_deregister_restores_witness :
  1%nat <> 2%nat /\
  let s2 := register 2%nat (register 1%nat (mkState [2%nat; 7%nat] {[ 7%nat ]})) in
  isEnabled 2%nat s2 = true /\
  isEnabled 1%nat s2 = false /\
  isEnabled 1%nat (deregister 2%nat s2) = true /\
  isEnabled 2%nat (deregister 2%nat s2) = false /\
  (forall T s0, register T s0 = register_spec T s0).
Proof.
  split; [lia|].
  apply (register_then_deregister_restores 1%nat 2%nat (mkState [2%nat; 7%nat] {[ 7%nat ]})).
  lia.
Defined.

(** Under the stack invariant, registering a trap that is not on the stack
    and deregistering it at once restores the stack and the status of
    every trap on it. *)
Lemma roundtrip_stack_ok (T : ManagedFocusTrap) (s : State) :
  stack_ok s -> T ∉ _focusTrapStack s ->
  _focusTrapStack (deregister T (register T s)) = _focusTrapStack s /\
  forall u, u ∈ _focusTrapStack s ->
            isEnabled u (deregister T (register T s)) = isEnabled u s.
Proof.
  intros [Hnd Hen] Hnin. destruct s as [stack h]. simpl in *.
  rewrite register_refines_spec. unfold register_spec. simpl.
  rewrite dedup_absent by done.
  rewrite deregister_present by done.
  rewrite app_nil_r. simpl. split; [done|].
  intros u Hu. unfold isEnabled. simpl. apply bool_decide_ext.
  assert (u <> T) by (intros ->; done).
  unfold ManagedFocusTrap in *.
  destruct (last stack) as [top|] eqn:Etop.
  - assert (Htop : top ∈ h).
    { apply Hen; [|done]. apply last_Some in Etop as [l' ->].
      apply elem_of_app. right. apply list_elem_of_here. }
    clear Hen Hnd Hu Hnin Etop. destruct (decide (u = top)); set_solver.
  - apply last_None in Etop. subst. by apply elem_of_nil in Hu.
Qed.

(** C8. From every state the manager can reach, registering a trap that
    is not on the stack and deregistering it immediately leaves the stack
    and the enabled or disabled status of every trap on it (the previous
    top included) as they were. *)
Theorem register_deregister_roundtrip :
  forall (cs : list Call) (h : gset ManagedFocusTrap) (T : ManagedFocusTrap),
    let s := run cs (init h) in
    T ∉ _focusTrapStack s ->
    let s' := deregister T (register T s) in
    _focusTrapStack s' = _focusTrapStack s /\
    (forall u, u ∈ _focusTrapStack s -> isEnabled u s' = isEnabled u s) /\
    (forall top, last (_focusTrapStack s) = Some top ->
                 last (_focusTrapStack s') = Some top /\ isEnabled top s' = true).
Proof.
  intros cs h T s Hnin s'.
  assert (Hok : stack_ok s) by apply stack_ok_run, stack_ok_init.
  destruct (roundtrip_stack_ok T s Hok Hnin) as [Hstack Hstatus].
  fold s' in Hstack, Hstatus.
  split; [done|]. split; [done|].
  intros top Htop. rewrite Hstack. split; [done|].
  assert (Hin : top ∈ _focusTrapStack s).
  { apply last_Some in Htop as [l' ->]. apply elem_of_app. right. apply list_elem_of_here. }
  rewrite Hstatus by done. unfold isEnabled. apply bool_decide_eq_true.
  destruct Hok as [_ Hen]. by apply Hen.
Qed.

Lemma register_deregister_roundtrip_witness :
  let s := run [Register 1%nat; Register 2%nat] (init ∅) in
  (3%nat ∉ _focusTrapStack s) /\
  let s' := deregister 3%nat (register 3%nat s) in
  _focusTrapStack s' = _focusTrapStack s /\
  (forall u, u ∈ _focusTrapStack s -> isEnabled u s' = isEnabled u s) /\
  (forall top, last (_focusTrapStack s) = Some top ->
               last (_focusTrapStack s') = Some top /\ isEnabled top s' = true).
Proof.
  assert (Hnin : 3%nat ∉ _focusTrapStack (run [Register 1%nat; Register 2%nat] (init ∅))).
  { apply (bool_decide_unpack _). vm_compute. exact I. }
  split; [exact Hnin|].
  apply (register_deregister_roundtrip [Register 1%nat; Register 2%nat] ∅ 3%nat Hnin).
Defined.

End FocusTrapManagerProofs.

Module FocusTrapProofs.
Import Dom FocusTrap.

Example attach_in_page :
  let '(r, t, d) := attachAnchors (mkTrap 1%nat None None false true) page in
  r = true /\ childNodes d 0%nat = [3%nat; 1%nat; 4%nat] /\ attachedAnchors t d = [3%nat; 4%nat].
Proof. vm_compute. auto. Qed.

Example attach_detached :
  let '(r, t, d) := attachAnchors (mkTrap 2%nat None None false true) page in
  r = false /\ attachedAnchors t d = [] /\ _startAnchor t = Some 3%nat /\ _endAnchor t = Some 4%nat.
Proof. vm_compute. auto. Qed.

(** *** How the DOM operations act on parent pointers *)

Lemma lookup_updNode f n d m :
  nodes (updNode f n d) !! m =
  if decide (n = m) then f <$> nodes d !! n else nodes d !! m.
Proof.
  unfold updNode. simpl. destruct (decide (n = m)) as [->|Hne].
  - by rewrite lookup_alter_eq.
  - by rewrite lookup_alter_ne.
Qed.

Lemma is_Some_updNode f n d m :
  is_Some (nodes (updNode f n d) !! m) <-> is_Some (nodes d !! m).
Proof.
  rewrite lookup_updNode. destruct (decide (n = m)) as [->|]; [|done].
  by rewrite fmap_is_Some.
Qed.

Lemma parentNode_updNode_keep f n d m :
  (forall r, nParent (f r) = nParent r) ->
  parentNode (updNode f n d) m = parentNode d m.
Proof.
  intros Hf. unfold parentNode. rewrite lookup_updNode.
  destruct (decide (n = m)) as [->|]; [|done].
  destruct (nodes d !! m); simpl; [apply Hf | done].
Qed.

Lemma childNodes_updNode_keep f n d m :
  (forall r, nChildren (f r) = nChildren r) ->
  childNodes (updNode f n d) m = childNodes d m.
Proof.
  intros Hf. unfold childNodes. rewrite lookup_updNode.
  destruct (decide (n = m)) as [->|]; [|done].
  destruct (nodes d !! m); simpl; [apply Hf | done].
Qed.

Lemma parentNode_updNode_ne f n d m :
  n <> m -> parentNode (updNode f n d) m = parentNode d m.
Proof.
  intros Hne. unfold parentNode. rewrite lookup_updNode.
  by destruct (decide (n = m)).
Qed.

Lemma parentNode_setParent p n d :
  is_Some (nodes d !! n) -> parentNode (updNode (setParent p) n d) n = p.
Proof.
  intros [r Hr]. unfold parentNode. rewrite lookup_updNode.
  destruct (decide (n = n)); [|done]. by rewrite Hr.
Qed.

Lemma same_tree_refl d : same_tree d d.
Proof. by intros m. Qed.

Lemma same_tree_trans d1 d2 d3 : same_tree d1 d2 -> same_tree d2 d3 -> same_tree d1 d3.
Proof.
  intros H12 H23 m. destruct (H12 m) as [<- <-]. apply H23.
Qed.

Lemma extends_refl d : extends d d.
Proof. by intros m. Qed.

Lemma extends_trans d1 d2 d3 : extends d1 d2 -> extends d2 d3 -> extends d1 d3.
Proof. intros H12 H23 m Hm. by apply H23, H12. Qed.

(** An update that leaves parent and children of the record alone leaves
    the tree alone. *)
Lemma updNode_same_tree f n d :
  (forall r, nParent (f r) = nParent r) ->
  (forall r, nChildren (f r) = nChildren r) ->
  same_tree d (updNode f n d) /\ extends d (updNode f n d).
Proof.
  intros Hp Hc. split.
  - intros m. split; [by apply parentNode_updNode_keep | by apply childNodes_updNode_keep].
  - intros m Hm. by apply is_Some_updNode.
Qed.

Ltac attr_update :=
  match goal with
  | |- same_tree ?d (?op _ _ _ ?d) /\ extends ?d (?op _ _ _ ?d) =>
      unfold op; apply updNode_same_tree; intros r; reflexivity
  | |- same_tree ?d (?op _ _ ?d) /\ extends ?d (?op _ _ ?d) =>
      unfold op; apply updNode_same_tree; intros r; reflexivity
  end.

Lemma setAttribute_tree n k v d :
  same_tree d (setAttribute n k v d) /\ extends d (setAttribute n k v d).
Proof. attr_update. Qed.

Lemma removeAttribute_tree n k d :
  same_tree d (removeAttribute n k d) /\ extends d (removeAttribute n k d).
Proof. attr_update. Qed.

Lemma classList_add_tree n c d :
  same_tree d (classList_add n c d) /\ extends d (classList_add n c d).
Proof. attr_update. Qed.

Lemma addFocusListener_tree n l d :
  same_tree d (addFocusListener n l d) /\ extends d (addFocusListener n l d).
Proof. attr_update. Qed.

Lemma toggleAnchorTabIndex_tree e n d :
  same_tree d (_toggleAnchorTabIndex e n d) /\ extends d (_toggleAnchorTabIndex e n d).
Proof.
  unfold _toggleAnchorTabIndex. destruct e;
    [apply setAttribute_tree | apply removeAttribute_tree].
Qed.

(** [createElement] hands out a node that was not in the document and
    hangs it nowhere. *)
Lemma createElement_props d :
  nodes d !! (createElement d).1 = None /\
  is_Some (nodes (createElement d).2 !! (createElement d).1) /\
  same_tree d (createElement d).2 /\ extends d (createElement d).2.
Proof.
  unfold createElement. simpl. set (n := fresh (dom (nodes d))).
  assert (Hn : nodes d !! n = None).
  { apply not_elem_of_dom. apply is_fresh. }
  split; [done|]. split; [rewrite lookup_insert_eq; eauto|]. split.
  - intros m. unfold parentNode, childNodes. simpl.
    destruct (decide (n = m)) as [<-|Hne].
    + by rewrite lookup_insert_eq, Hn.
    + by rewrite lookup_insert_ne.
  - intros m Hm. simpl. destruct (decide (n = m)) as [<-|Hne].
    + rewrite lookup_insert_eq. eauto.
    + by rewrite lookup_insert_ne.
Qed.

Lemma createAnchor_props t d :
  nodes d !! (_createAnchor t d).1 = None /\
  is_Some (nodes (_createAnchor t d).2 !! (_createAnchor t d).1) /\
  same_tree d (_createAnchor t d).2 /\ extends d (_createAnchor t d).2.
Proof.
  unfold _createAnchor.
  destruct (createElement_props d) as (Hfresh & Hin & Htree & Hext).
  destruct (createElement d) as [a d1]. simpl in *.
  destruct (toggleAnchorTabIndex_tree (_enabled t) a d1) as [T2 E2].
  set (d2 := _toggleAnchorTabIndex _ _ _) in *.
  destruct (classList_add_tree a "cdk-visually-hidden"%string d2) as [T3 E3].
  set (d3 := classList_add _ _ d2) in *.
  destruct (classList_add_tree a "cdk-focus-trap-anchor"%string d3) as [T4 E4].
  set (d4 := classList_add _ _ d3) in *.
  destruct (setAttribute_tree a "aria-hidden"%string "true"%string d4) as [T5 E5].
  split; [done|]. split; [by apply E5, E4, E3, E2|]. split.
  - eauto using same_tree_trans.
  - eauto using extends_trans.
Qed.

Lemma ensureAnchor_props t field l d :
  (forall a, field = Some a -> is_Some (nodes d !! a)) ->
  is_Some (nodes (ensureAnchor t field l d).2 !! (ensureAnchor t field l d).1) /\
  same_tree d (ensureAnchor t field l d).2 /\
  extends d (ensureAnchor t field l d).2 /\
  match field with
  | Some a => ensureAnchor t field l d = (a, d)
  | None => nodes d !! (ensureAnchor t field l d).1 = None
  end.
Proof.
  intros Hfield. unfold ensureAnchor. destruct field as [a|].
  - simpl. split; [by apply Hfield|]. split; [apply same_tree_refl|].
    split; [apply extends_refl | done].
  - destruct (createAnchor_props t d) as (Hfresh & Hin & Htree & Hext).
    destruct (_createAnchor t d) as [a d1]. simpl in *.
    destruct (addFocusListener_tree a l d1) as [T E].
    split; [by apply E|]. split; [eauto using same_tree_trans|].
    split; [eauto using extends_trans | done].
Qed.

Lemma parentNode_removeChild_ne p c d m :
  c <> m -> parentNode (removeChild p c d) m = parentNode d m.
Proof.
  intros Hne. unfold removeChild.
  rewrite parentNode_updNode_ne by done. by apply parentNode_updNode_keep.
Qed.

Lemma is_Some_removeChild p c d m :
  is_Some (nodes (removeChild p c d) !! m) <-> is_Some (nodes d !! m).
Proof. unfold removeChild. by rewrite !is_Some_updNode. Qed.

Lemma parentNode_detach_ne n d m :
  n <> m -> parentNode (detach n d) m = parentNode d m.
Proof.
  intros Hne. unfold detach. destruct (parentNode d n); [|done].
  by apply parentNode_removeChild_ne.
Qed.

Lemma is_Some_detach n d m :
  is_Some (nodes (detach n d) !! m) <-> is_Some (nodes d !! m).
Proof.
  unfold detach. destruct (parentNode d n); [|done]. apply is_Some_removeChild.
Qed.

(** After [p.insertBefore(n, ref)] the parent of [n] is [p] ... *)
Lemma parentNode_insertBefore p n ref d :
  is_Some (nodes d !! n) -> parentNode (insertBefore p n ref d) n = Some p.
Proof.
  intros Hn. unfold insertBefore. apply parentNode_setParent.
  apply is_Some_updNode. by apply is_Some_detach.
Qed.

(** ... and no other node changes its parent. *)
Lemma parentNode_insertBefore_ne p n ref d m :
  n <> m -> parentNode (insertBefore p n ref d) m = parentNode d m.
Proof.
  intros Hne. unfold insertBefore.
  rewrite parentNode_updNode_ne by done.
  rewrite parentNode_updNode_keep by done.
  by apply parentNode_detach_ne.
Qed.

Lemma is_Some_insertBefore p n ref d m :
  is_Some (nodes (insertBefore p n ref d) !! m) <-> is_Some (nodes d !! m).
Proof. unfold insertBefore. by rewrite !is_Some_updNode, is_Some_detach. Qed.

(** *** [attachAnchors] *)

Lemma attachAnchors_attached t d :
  _hasAttached t = true -> attachAnchors t d = (true, t, d).
Proof. intros H. unfold attachAnchors. by rewrite H. Qed.

Lemma attachAnchors_unfold t d :
  _hasAttached t = false ->
  let e1 := ensureAnchor t (_startAnchor t) startAnchorListener d in
  let e2 := ensureAnchor t (_endAnchor t) endAnchorListener e1.2 in
  attachAnchors t d =
  match parentNode e2.2 (_element t) with
  | Some parent =>
      let d3 := insertBefore parent e1.1 (Some (_element t)) e2.2 in
      (true, mkTrap (_element t) (Some e1.1) (Some e2.1) true (_enabled t),
       insertBefore parent e2.1 (nextSibling d3 (_element t)) d3)
  | None =>
      (false, mkTrap (_element t) (Some e1.1) (Some e2.1) false (_enabled t), e2.2)
  end.
Proof.
  intros H. unfold attachAnchors. rewrite H. simpl.
  destruct (ensureAnchor t (_startAnchor t) startAnchorListener d) as [a d1]. simpl.
  destruct (ensureAnchor t (_endAnchor t) endAnchorListener d1) as [b d2]. simpl.
  done.
Qed.

(** What the first half of [attachAnchors] establishes: both anchors exist
    as two different nodes, nothing in the tree has moved, and an anchor
    that was detached (or did not exist) is detached. *)
Lemma anchors_ensured t d :
  trap_wf t d ->
  let e1 := ensureAnchor t (_startAnchor t) startAnchorListener d in
  let e2 := ensureAnchor t (_endAnchor t) endAnchorListener e1.2 in
  is_Some (nodes e2.2 !! e1.1) /\ is_Some (nodes e2.2 !! e2.1) /\ e1.1 <> e2.1 /\
  same_tree d e2.2 /\
  (_hasAttached t = false -> parentNode e2.2 e1.1 = None /\ parentNode e2.2 e2.1 = None).
Proof.
  intros (Hs & He & Hdiff & Hdet) e1 e2.
  destruct (ensureAnchor_props t (_startAnchor t) startAnchorListener d Hs)
    as (Hin1 & T1 & E1 & C1).
  fold e1 in Hin1, T1, E1, C1.
  assert (He' : forall b, _endAnchor t = Some b -> is_Some (nodes e1.2 !! b)).
  { intros b Hb. by apply E1, He. }
  destruct (ensureAnchor_props t (_endAnchor t) endAnchorListener e1.2 He')
    as (Hin2 & T2 & E2 & C2).
  fold e2 in Hin2, T2, E2, C2.
  split; [by apply E2|]. split; [done|].
  assert (Hne : e1.1 <> e2.1).
  { destruct (_endAnchor t) as [b|] eqn:Eb.
    - rewrite C2. simpl. destruct (_startAnchor t) as [a|] eqn:Ea.
      + rewrite C1. simpl. by apply Hdiff.
      + intros Heq. specialize (He b eq_refl). rewrite <- Heq, C1 in He.
        by destruct He.
    - intros Heq. rewrite Heq, C2 in Hin1. by destruct Hin1. }
  split; [done|]. split; [eauto using same_tree_trans|].
  intros Hnot.
  assert (P1 : parentNode d e1.1 = None).
  { destruct (_startAnchor t) as [a|] eqn:Ea.
    - rewrite C1. simpl. apply Hdet; auto.
    - unfold parentNode. by rewrite C1. }
  assert (P2 : parentNode e1.2 e2.1 = None).
  { destruct (_endAnchor t) as [b|] eqn:Eb.
    - rewrite C2. simpl. destruct (T1 b) as [-> _]. apply Hdet; auto.
    - unfold parentNode. by rewrite C2. }
  split.
  - destruct (T2 e1.1) as [-> _]. destruct (T1 e1.1) as [-> _]. done.
  - destruct (T2 e2.1) as [-> _]. done.
Qed.

(** A trap that has not attached and whose region has no parent: the call
    returns [false], moves nothing in the tree and leaves both anchors
    detached. *)
Lemma attachAnchors_no_parent t d :
  trap_wf t d -> _hasAttached t = false -> parentNode d (_element t) = None ->
  (attachAnchors t d).1.1 = false /\
  _hasAttached (attachAnchors t d).1.2 = false /\
  attachedAnchors (attachAnchors t d).1.2 (attachAnchors t d).2 = [] /\
  same_tree d (attachAnchors t d).2 /\
  trap_wf (attachAnchors t d).1.2 (attachAnchors t d).2.
Proof.
  intros Hwf Hnot Hpar.
  destruct (anchors_ensured t d Hwf) as (Hin1 & Hin2 & Hne & Htree & Hdet).
  destruct (Hdet Hnot) as [P1 P2].
  rewrite attachAnchors_unfold by done. simpl.
  set (e1 := ensureAnchor t (_startAnchor t) startAnchorListener d) in *.
  set (e2 := ensureAnchor t (_endAnchor t) endAnchorListener e1.2) in *.
  destruct (Htree (_element t)) as [-> _]. rewrite Hpar. simpl.
  split; [done|]. split; [done|]. split.
  - unfold attachedAnchors. simpl. by rewrite P1, P2.
  - split; [done|]. repeat split; simpl.
    + by intros a [= <-].
    + by intros b [= <-].
    + by intros a b [= <-] [= <-].
    + intros _ a [[= <-]|[= <-]]; done.
Qed.

(** A trap that has not attached and whose region has parent [p]: the call
    returns [true] and exactly the two anchors hang under [p]. *)
Lemma attachAnchors_with_parent t d p :
  trap_wf t d -> _hasAttached t = false -> parentNode d (_element t) = Some p ->
  (attachAnchors t d).1.1 = true /\
  _hasAttached (attachAnchors t d).1.2 = true /\
  (exists a b,
      a <> b /\
      _startAnchor (attachAnchors t d).1.2 = Some a /\
      _endAnchor (attachAnchors t d).1.2 = Some b /\
      parentNode (attachAnchors t d).2 a = Some p /\
      parentNode (attachAnchors t d).2 b = Some p /\
      attachedAnchors (attachAnchors t d).1.2 (attachAnchors t d).2 = [a; b]) /\
  trap_wf (attachAnchors t d).1.2 (attachAnchors t d).2.
Proof.
  intros Hwf Hnot Hpar.
  destruct (anchors_ensured t d Hwf) as (Hin1 & Hin2 & Hne & Htree & _).
  rewrite attachAnchors_unfold by done. simpl.
  set (e1 := ensureAnchor t (_startAnchor t) startAnchorListener d) in *.
  set (e2 := ensureAnchor t (_endAnchor t) endAnchorListener e1.2) in *.
  destruct (Htree (_element t)) as [-> _]. rewrite Hpar. simpl.
  set (d3 := insertBefore p e1.1 (Some (_element t)) e2.2).
  set (d4 := insertBefore p e2.1 (nextSibling d3 (_element t)) d3).
  assert (Pa : parentNode d4 e1.1 = Some p).
  { unfold d4. rewrite parentNode_insertBefore_ne by done.
    by apply parentNode_insertBefore. }
  assert (Pb : parentNode d4 e2.1 = Some p).
  { unfold d4. apply parentNode_insertBefore. by apply is_Some_insertBefore. }
  split; [done|]. split; [done|]. split.
  - exists e1.1, e2.1. repeat split; try done.
    unfold attachedAnchors. simpl. by rewrite Pa, Pb.
  - repeat split; simpl.
    + intros a [= <-]. unfold d4. by apply is_Some_insertBefore, is_Some_insertBefore.
    + intros b [= <-]. unfold d4. by apply is_Some_insertBefore, is_Some_insertBefore.
    + by intros a b [= <-] [= <-].
    + done.
Qed.

Lemma attachAgain_attached n r0 t d :
  _hasAttached t = true ->
  attachAgain n r0 t d = (match n with O => r0 | S _ => true end, t, d).
Proof.
  intros H. revert r0. induction n as [|n IH]; intros r0; simpl; [done|].
  rewrite attachAnchors_attached by done. rewrite IH. by destruct n.
Qed.

(** The state of a trap between calls is kept by the constructor, by
    [attachAnchors] and by [destroy]. *)
Lemma trap_wf_attachAnchors t d :
  trap_wf t d -> trap_wf (attachAnchors t d).1.2 (attachAnchors t d).2.
Proof.
  intros Hwf. destruct (_hasAttached t) eqn:E.
  - by rewrite attachAnchors_attached.
  - destruct (parentNode d (_element t)) as [p|] eqn:Ep.
    + by apply (attachAnchors_with_parent t d p).
    + by apply attachAnchors_no_parent.
Qed.

Lemma trap_wf_new element defer d :
  trap_wf (new element defer d).1 (new element defer d).2.
Proof.
  assert (H0 : trap_wf (mkTrap element None None false true) d).
  { repeat split; simpl; try done. intros _ a [?|?]; done. }
  unfold new. destruct defer; simpl; [done|].
  pose proof (trap_wf_attachAnchors _ _ H0) as H.
  by destruct (attachAnchors _ d) as [[r t'] d'].
Qed.

Lemma trap_wf_destroy t d : trap_wf (destroy t d).1 (destroy t d).2.
Proof. unfold destroy. simpl. repeat split; simpl; try done. intros _ a [?|?]; done. Qed.

Lemma trap_wf_no_anchors element attached enabled d :
  trap_wf (mkTrap element None None attached enabled) d.
Proof. repeat split; simpl; try done. intros _ a [?|?]; done. Qed.

Lemma trap_wf_attachedThenRemoved :
  trap_wf attachedThenRemoved.1 attachedThenRemoved.2.
Proof.
  repeat split.
  - intros a Ha. vm_compute in Ha. injection Ha as <-. vm_compute. eauto.
  - intros b Hb. vm_compute in Hb. injection Hb as <-. vm_compute. eauto.
  - intros a b Ha Hb. vm_compute in Ha, Hb. injection Ha as <-. injection Hb as <-. done.
  - intros H. vm_compute in H. done.
Qed.

(** C4, as stated, fails: a trap that attached while its region was in the
    document keeps answering [true] after the region has lost its parent,
    and its two anchors are still attached. *)
Lemma attachAnchors_no_parent_counterexample :
  ~ (forall t d, trap_wf t d -> parentNode d (_element t) = None ->
                 (attachAnchors t d).1.1 = false /\
                 attachedAnchors (attachAnchors t d).1.2 (attachAnchors t d).2 = []).
Proof.
  intros H.
  destruct (H attachedThenRemoved.1 attachedThenRemoved.2 trap_wf_attachedThenRemoved)
    as [Hr _]; [by vm_compute|].
  vm_compute in Hr. discriminate Hr.
Qed.

(** C4, amended.  For a trap that has not attached yet: with a region that
    has no parent node [attachAnchors()] returns [false] and attaches no
    anchor; with a region that has a parent node it returns [true] and
    exactly two anchors end up attached, both under that parent.  A trap
    that has attached answers [true] and changes nothing, whatever has
    become of its region, and so does every later call after a call that
    returned [true]. *)
Theorem attachAnchors_contract :
  forall (t : FocusTrap) (d : Document),
    trap_wf t d ->
    let r := (attachAnchors t d).1.1 in
    let t' := (attachAnchors t d).1.2 in
    let d' := (attachAnchors t d).2 in
    (_hasAttached t = false -> parentNode d (_element t) = None ->
       r = false /\ attachedAnchors t' d' = [] /\ same_tree d d') /\
    (_hasAttached t = false -> forall p, parentNode d (_element t) = Some p ->
       r = true /\
       exists a b, a <> b /\ attachedAnchors t' d' = [a; b] /\
                   parentNode d' a = Some p /\ parentNode d' b = Some p) /\
    (_hasAttached t = true -> r = true /\ t' = t /\ d' = d) /\
    (r = true ->
       forall (n : nat) (d'' : Document),
         attachAgain (S n) false t' d'' = (true, t', d'')).
Proof.
  intros t d Hwf r t' d'. split; [|split; [|split]].
  - intros Hnot Hpar.
    destruct (attachAnchors_no_parent t d Hwf Hnot Hpar) as (Hr & _ & Hnone & Htree & _).
    done.
  - intros Hnot p Hpar.
    destruct (attachAnchors_with_parent t d p Hwf Hnot Hpar)
      as (Hr & _ & (a & b & Hne & _ & _ & Pa & Pb & Hab) & _).
    split; [done|]. by exists a, b.
  - intros Hatt. unfold r, t', d'. by rewrite attachAnchors_attached.
  - intros Hr n d''.
    assert (Hatt : _hasAttached t' = true).
    { destruct (_hasAttached t) eqn:E.
      - unfold t'. by rewrite attachAnchors_attached.
      - destruct (parentNode d (_element t)) as [p|] eqn:Ep.
        + by apply (attachAnchors_with_parent t d p).
        + destruct (attachAnchors_no_parent t d Hwf E Ep) as (Hr' & _).
          unfold r in Hr. congruence. }
    by rewrite attachAgain_attached.
Qed.

Lemma attachAnchors_contract_witness :
  trap_wf freshTrap page /\
  let r := (attachAnchors freshTrap page).1.1 in
  let t' := (attachAnchors freshTrap page).1.2 in
  let d' := (attachAnchors freshTrap page).2 in
  (_hasAttached freshTrap = false -> parentNode page (_element freshTrap) = None ->
     r = false /\ attachedAnchors t' d' = [] /\ same_tree page d') /\
  (_hasAttached freshTrap = false ->
   forall p, parentNode page (_element freshTrap) = Some p ->
     r = true /\
     exists a b, a <> b /\ attachedAnchors t' d' = [a; b] /\
                 parentNode d' a = Some p /\ parentNode d' b = Some p) /\
  (_hasAttached freshTrap = true -> r = true /\ t' = freshTrap /\ d' = page) /\
  (r = true ->
     forall (n : nat) (d'' : Document),
       attachAgain (S n) false t' d'' = (true, t', d'')).
Proof.
  split.
  - apply trap_wf_no_anchors.
  - apply (attachAnchors_contract freshTrap page). apply trap_wf_no_anchors.
Defined.

End FocusTrapProofs.

Module FocusMonitorProofs.
Import Dom FocusMonitor.

Example touch_parent_focus_child :
  _getFocusOrigin (focusOn 1%nat) touchedBody = Some program /\
  getFocusOrigin_claimed (focusOn 1%nat) touchedBody = Some touch /\
  contains (document touchedBody) 0%nat 1%nat = true.
Proof. vm_compute. auto. Qed.

Example touch_child_focus_parent :
  let s := run [EvTouchstart (focusOn 1%nat)]
               (init IMMEDIATE FocusTrap.page [(0%nat, mkInfo false 0%nat)]) in
  _getFocusOrigin (focusOn 0%nat) s = Some touch /\
  emitted (run [EvFocus (focusOn 0%nat)] s) = [(0%nat, Some touch)].
Proof. vm_compute. auto. Qed.

Example mousedown_then_focus :
  emitted (run [EvMousedown false; EvFocus (focusOn 1%nat)]
               (init IMMEDIATE FocusTrap.page [(1%nat, mkInfo false 0%nat)]))
  = [(1%nat, Some mouse)].
Proof. vm_compute. auto. Qed.

(** *** The transient origin *)

Lemma origin_setOriginForCurrentEventQueue o s :
  _origin (_setOriginForCurrentEventQueue o s) = o.
Proof. unfold _setOriginForCurrentEventQueue. simpl. by destruct (_detectionMode s). Qed.

Lemma getFocusOrigin_transient ev s o :
  _origin s = Some o -> _getFocusOrigin ev s = Some o.
Proof. intros H. unfold _getFocusOrigin. by rewrite H. Qed.

Lemma keydown_then_focus ev s :
  _getFocusOrigin ev (_documentKeydownListener s) = Some keyboard.
Proof.
  apply getFocusOrigin_transient. unfold _documentKeydownListener.
  apply origin_setOriginForCurrentEventQueue.
Qed.

Lemma mousedown_then_focus_origin ev s isFake :
  _lastTouchTarget s = None ->
  _getFocusOrigin ev (_documentMousedownListener isFake s) =
  Some (if isFake then keyboard else mouse).
Proof.
  intros H. apply getFocusOrigin_transient. unfold _documentMousedownListener.
  rewrite H. apply origin_setOriginForCurrentEventQueue.
Qed.

(** *** Touch attribution *)

Lemma wasCausedByTouch_iff ev s :
  _wasCausedByTouch ev s = true <->
  exists focusNode lastTouch,
    getTarget ev = Some (TNode focusNode) /\
    _lastTouchTarget s = Some (TNode lastTouch) /\
    (focusNode = lastTouch \/ contains (document s) focusNode lastTouch = true).
Proof.
  unfold _wasCausedByTouch. split.
  - destruct (_lastTouchTarget s) as [[tt|]|]; try done.
    destruct (getTarget ev) as [[ft|]|]; try done.
    intros H. exists ft, tt. split; [done|]. split; [done|].
    apply orb_true_iff in H as [H|H]; [left; by apply Nat.eqb_eq | by right].
  - intros (ft & tt & -> & -> & H). apply orb_true_iff.
    destruct H as [->|H]; [left; apply Nat.eqb_refl | by right].
Qed.

(** *** Quiet events keep the monitor idle *)

Lemma idle_originChanged el o s : idle s -> idle (_originChanged el o s).
Proof. by intros (? & ? & ?). Qed.

Lemma idle_onFocus ev el s : idle s -> idle (_onFocus ev el s).
Proof.
  intros H. unfold _onFocus. destruct (info_get _ _); [|done].
  destruct (_ && _); [done|]. by apply idle_originChanged.
Qed.

Lemma idle_onBlur ev el s : idle s -> idle (_onBlur ev el s).
Proof.
  intros H. unfold _onBlur. destruct (info_get _ _); [|done].
  destruct (_ && _); [done|]. by destruct H as (? & ? & ?).
Qed.

Lemma idle_walkAncestors fuel handler el s :
  (forall e s0, idle s0 -> idle (handler e s0)) ->
  idle s -> idle (walkAncestors fuel handler el s).
Proof.
  intros Hh. revert el s. induction fuel as [|fuel IH]; intros el s Hs; simpl.
  - by apply Hh.
  - destruct (parentNode _ el); [apply IH|]; by apply Hh.
Qed.

Lemma idle_fireTimer id s : idle s -> idle (fireTimer id s).
Proof.
  intros (Ho & Hw & Ht). unfold fireTimer.
  destruct (List.find _ _) as [t|]; [|done].
  by destruct (timerAction t).
Qed.

Lemma idle_step e s : quiet e = true -> idle s -> idle (step s e).
Proof.
  intros Hq Hs. destruct e; try done; simpl.
  - unfold _rootNodeFocusAndBlurListener. destruct (getTarget event) as [[n|]|]; try done.
    apply idle_walkAncestors; [|done]. intros; by apply idle_onFocus.
  - unfold _rootNodeFocusAndBlurListener. destruct (getTarget event) as [[n|]|]; try done.
    apply idle_walkAncestors; [|done]. intros; by apply idle_onBlur.
  - by apply idle_fireTimer.
Qed.

Lemma idle_run es s : forallb quiet es = true -> idle s -> idle (run es s).
Proof.
  revert s. induction es as [|e es IH]; intros s Hq Hs; [done|].
  simpl in Hq. apply andb_true_iff in Hq as [Hq Hqs].
  simpl. apply IH; [done|]. by apply idle_step.
Qed.

Lemma getFocusOrigin_idle ev s : idle s -> _getFocusOrigin ev s = Some program.
Proof.
  intros (Ho & Hw & Ht). unfold _getFocusOrigin, _wasCausedByTouch.
  by rewrite Ho, Hw, Ht.
Qed.

(** A monitored element that takes the focus event is told the origin
    [_getFocusOrigin] resolves, and that origin becomes the last known one. *)
Lemma onFocus_emits ev el info s :
  info_get (_elementInfo s) el = Some info ->
  checkChildren info = true \/ isTarget el ev = true ->
  emitted (_onFocus ev el s) = emitted s ++ [(el, _getFocusOrigin ev s)] /\
  _lastFocusOrigin (_onFocus ev el s) = _getFocusOrigin ev s.
Proof.
  intros Hinfo Hc. unfold _onFocus. rewrite Hinfo.
  assert (negb (checkChildren info) && negb (isTarget el ev) = false) as ->.
  { destruct Hc as [-> | ->]; [done | by rewrite andb_false_r]. }
  done.
Qed.

(** C3, as stated, fails: with the last touch on the body (node 0) and the
    focus on the region inside it (node 1), the focus target is contained
    by the touch target, yet the code resolves [program], not [touch]. *)
Lemma focus_origin_containment_counterexample :
  _origin touchedBody = None /\
  _windowFocused touchedBody = false /\
  _lastTouchTarget touchedBody = Some (TNode 0%nat) /\
  getTarget (focusOn 1%nat) = Some (TNode 1%nat) /\
  contains (document touchedBody) 0%nat 1%nat = true /\
  getFocusOrigin_claimed (focusOn 1%nat) touchedBody = Some touch /\
  _getFocusOrigin (focusOn 1%nat) touchedBody = Some program /\
  emitted (run [EvFocus (focusOn 1%nat)] touchedBody) = [(1%nat, Some program)].
Proof. vm_compute. repeat split. Qed.

(** C3, amended.  The origin of a focus event is resolved by priority:
    (a) the transient origin if there is one (as after a keydown, a
    mousedown with no touch in flight, or [focusVia]); (b) the last known
    origin if the window was just refocused and an origin is known; (c)
    [touch] if the focus target is the last touch target or contains it;
    (d) [program] otherwise.  The resolved origin is what a monitored
    element taking the event is told.  A focus that only focus events, blur
    events and timers precede resolves to [program]. *)
Theorem focus_origin_priority :
  forall (s : State) (ev : DomEvent),
    (forall o, _origin s = Some o -> _getFocusOrigin ev s = Some o) /\
    (_origin s = None -> _windowFocused s = true ->
     forall l, _lastFocusOrigin s = Some l -> _getFocusOrigin ev s = Some l) /\
    (_origin s = None -> _windowFocused s = false \/ _lastFocusOrigin s = None ->
     forall focusNode lastTouch,
       getTarget ev = Some (TNode focusNode) ->
       _lastTouchTarget s = Some (TNode lastTouch) ->
       focusNode = lastTouch \/ contains (document s) focusNode lastTouch = true ->
       _getFocusOrigin ev s = Some touch) /\
    (_origin s = None -> _windowFocused s = false \/ _lastFocusOrigin s = None ->
     ~ (exists focusNode lastTouch,
          getTarget ev = Some (TNode focusNode) /\
          _lastTouchTarget s = Some (TNode lastTouch) /\
          (focusNode = lastTouch \/ contains (document s) focusNode lastTouch = true)) ->
     _getFocusOrigin ev s = Some program) /\
    (forall el info,
       info_get (_elementInfo s) el = Some info ->
       checkChildren info = true \/ isTarget el ev = true ->
       emitted (_onFocus ev el s) = emitted s ++ [(el, _getFocusOrigin ev s)]) /\
    _getFocusOrigin ev (_documentKeydownListener s) = Some keyboard /\
    (_lastTouchTarget s = None ->
     _getFocusOrigin ev (_documentMousedownListener false s) = Some mouse) /\
    (forall o, _getFocusOrigin ev (_setOriginForCurrentEventQueue (Some o) s) = Some o) /\
    (forall mode d infos es,
       forallb quiet es = true ->
       _getFocusOrigin ev (run es (init mode d infos)) = Some program).
Proof.
  intros s ev.
  assert (Hfall : _origin s = None ->
                  _windowFocused s = false \/ _lastFocusOrigin s = None ->
                  _getFocusOrigin ev s =
                  if _wasCausedByTouch ev s then Some touch else Some program).
  { intros Ho Hw. unfold _getFocusOrigin. rewrite Ho.
    destruct Hw as [-> | ->]; [done | by destruct (_windowFocused s)]. }
  repeat split.
  - intros o. apply getFocusOrigin_transient.
  - intros Ho Hw l Hl. unfold _getFocusOrigin. by rewrite Ho, Hw, Hl.
  - intros Ho Hw ft tt Hft Htt Hc. rewrite Hfall by done.
    assert (_wasCausedByTouch ev s = true) as -> by (apply wasCausedByTouch_iff; eauto).
    done.
  - intros Ho Hw Hno. rewrite Hfall by done.
    destruct (_wasCausedByTouch ev s) eqn:E; [|done].
    apply wasCausedByTouch_iff in E. done.
  - intros el info Hinfo Hc. by apply (onFocus_emits ev el info s).
  - apply keydown_then_focus.
  - intros Ht. by apply (mousedown_then_focus_origin ev s false).
  - intros o. apply getFocusOrigin_transient, origin_setOriginForCurrentEventQueue.
  - intros mode d infos es Hq. apply getFocusOrigin_idle, idle_run; [done|].
    by repeat split.
Qed.

Lemma focus_origin_priority_witness :
  _origin touchedBody = None /\
  (_windowFocused touchedBody = false \/ _lastFocusOrigin touchedBody = None) /\
  ~ (exists focusNode lastTouch,
       getTarget (focusOn 1%nat) = Some (TNode focusNode) /\
       _lastTouchTarget touchedBody = Some (TNode lastTouch) /\
       (focusNode = lastTouch \/
        contains (document touchedBody) focusNode lastTouch = true)) /\
  _getFocusOrigin (focusOn 1%nat) touchedBody = Some program.
Proof.
  assert (Ho : _origin touchedBody = None) by reflexivity.
  assert (Hw : _windowFocused touchedBody = false \/ _lastFocusOrigin touchedBody = None)
    by (left; reflexivity).
  assert (Hno : ~ (exists focusNode lastTouch,
                     getTarget (focusOn 1%nat) = Some (TNode focusNode) /\
                     _lastTouchTarget touchedBody = Some (TNode lastTouch) /\
                     (focusNode = lastTouch \/
                      contains (document touchedBody) focusNode lastTouch = true))).
  { intros (ft & tt & Hft & Htt & Hc).
    vm_compute in Hft, Htt. injection Hft as <-. injection Htt as <-.
    destruct Hc as [Hc|Hc]; [discriminate Hc | vm_compute in Hc; discriminate Hc]. }
  split; [exact Ho|]. split; [exact Hw|]. split; [exact Hno|].
  exact (proj1 (proj2 (proj2 (proj2 (focus_origin_priority touchedBody (focusOn 1%nat)))))
               Ho Hw Hno).
Defined.

End FocusMonitorProofs.

Module ListKeyManagerProofs.
Import JsArray JsArrayFacts JsString ListKeyManager.

(** The examples, the witnesses and the counterexamples run on the case
    mapping of ASCII strings; the theorems hold for every case mapping. *)
#[local] Existing Instance asciiCase.

Example typeahead_fruits :
  let s0 := stateOf (withTypeAhead None 200 (new fruits)) in
  let s1 := stateOf (completion (onKeydown (plainKey 65 (Some "a"%string)) s0)) in
  let s2 := stateOf (completion (onKeydown (plainKey 80 (Some "p"%string)) s1)) in
  _pressedLetters s2 = [str "A"; str "P"] /\
  _activeItem (stateOf (debounceElapsed s2)) = Some (labelled 1 "Apple") /\
  _activeItemIndex (stateOf (debounceElapsed s2)) = 1 /\
  change (stateOf (debounceElapsed s2)) = [1].
Proof. vm_compute. auto. Qed.

Example next_skips_disabled :
  _activeItemIndex (stateOf (setNextItemActive (setActiveItem (ByIndex 0) (new middleDisabled))))
  = 2.
Proof. reflexivity. Qed.

Example next_wraps_from_last :
  let atLast := setActiveItem (ByIndex 2) (withWrap true (new middleDisabled)) in
  _activeItemIndex (stateOf (setNextItemActive atLast)) = 0 /\
  change (stateOf (setNextItemActive atLast)) = [2; 0].
Proof. split; reflexivity. Qed.

Example next_stays_on_last_without_wrap :
  let atLast := setActiveItem (ByIndex 2) (new middleDisabled) in
  setNextItemActive atLast = Normal atLast.
Proof. reflexivity. Qed.

Example previous_without_active_item :
  setPreviousItemActive (new middleDisabled) = Normal (new middleDisabled) /\
  _activeItemIndex (stateOf (setPreviousItemActive (withWrap true (new middleDisabled)))) = 2.
Proof. split; reflexivity. Qed.

(** *** [setActiveItem] and [updateActiveItem] *)

Lemma setActiveItem_fields arg s :
  let s' := setActiveItem arg s in
  _activeItem s' = _activeItem (updateActiveItem arg s) /\
  _activeItemIndex s' = _activeItemIndex (updateActiveItem arg s) /\
  _pressedLetters s' = _pressedLetters s /\ tabOut s' = tabOut s /\
  _debouncePending s' = _debouncePending s /\ sameConfig s s'.
Proof.
  unfold setActiveItem. simpl.
  destruct (bool_decide _); simpl; repeat split; reflexivity.
Qed.

Lemma setActiveItem_index_active i s :
  _activeItem (setActiveItem (ByIndex i) s) = item_at (_items s) i /\
  _activeItemIndex (setActiveItem (ByIndex i) s) = i.
Proof.
  destruct (setActiveItem_fields (ByIndex i) s) as (-> & -> & _). done.
Qed.

(** After [updateActiveItem] or [setActiveItem] the active item is null or
    a member of the collection. *)
Lemma updateActiveItem_member arg s : activeIsMember (updateActiveItem arg s).
Proof.
  unfold activeIsMember, updateActiveItem. simpl.
  destruct (item_at _ _) as [it|] eqn:E; [|done]. by apply item_at_elem_of in E.
Qed.

Lemma setActiveItem_member arg s : activeIsMember (setActiveItem arg s).
Proof.
  pose proof (updateActiveItem_member arg s) as H.
  destruct (setActiveItem_fields arg s) as (Ha & _ & _ & _ & _ & Hc).
  unfold activeIsMember in *. rewrite Ha.
  destruct Hc as (_ & _ & _ & _ & _ & _ & _ & ->). done.
Qed.

(** *** What a navigation step preserves *)

Lemma moved_refl s : moved s s.
Proof. by left. Qed.

Lemma moved_sameConfig s s' : moved s s' -> sameConfig s s'.
Proof.
  intros [->|(i & it & _ & _ & ->)]; [by repeat split|].
  apply setActiveItem_fields.
Qed.

(** A step either keeps the active item and index, or activates an item
    of the collection that is not skipped. *)
Lemma moved_active s s' :
  moved s s' ->
  (_activeItem s' = _activeItem s /\ _activeItemIndex s' = _activeItemIndex s /\
   change s' = change s) \/
  (exists item, _activeItem s' = Some item /\
                item_at (_items s) (_activeItemIndex s') = Some item /\
                onItem (_skipPredicateFn s) item = false).
Proof.
  intros [->|(i & it & Hit & Hskip & ->)]; [by left|]. right.
  destruct (setActiveItem_index_active i s) as [-> ->]. by exists it.
Qed.

(** *** The loop of [_setActiveItemByIndex] *)

Lemma whileSkipped_found fuel items skip index delta i :
  whileSkipped fuel items skip index delta = Found i ->
  exists item, item_at items i = Some item /\ onItem skip item = false.
Proof.
  revert index. induction fuel as [|fuel IH]; intros index; simpl;
    destruct (item_at items index) as [it|] eqn:E; try done;
    destruct (onItem skip it) eqn:Es; try done.
  - intros [= <-]. eauto.
  - apply IH.
  - intros [= <-]. eauto.
Qed.

(** The fuel handed to the loop is enough: walking by [+1] or [-1] from an
    index that holds an item leaves the array within [length items] steps. *)
Lemma whileSkipped_fuel fuel items skip index delta :
  (delta = 1 /\ len items - index <= Z.of_nat fuel) \/
  (delta = -1 /\ index + 1 <= Z.of_nat fuel) ->
  whileSkipped fuel items skip index delta <> OutOfFuel.
Proof.
  revert index. induction fuel as [|fuel IH]; intros index Hb; simpl;
    destruct (item_at items index) as [it|] eqn:E; try done;
    destruct (onItem skip it); try done;
    apply item_at_Some_range in E.
  - exfalso. destruct Hb as [[_ Hb]|[_ Hb]]; simpl in Hb; lia.
  - apply IH. destruct Hb as [[-> Hb]|[-> Hb]]; [left | right]; split; lia.
Qed.

Lemma whileSkipped_terminates items skip index delta :
  delta = 1 \/ delta = -1 ->
  whileSkipped (length items) items skip index delta <> OutOfFuel.
Proof.
  intros Hd. destruct (item_at items index) as [it|] eqn:E.
  - apply item_at_Some_range in E. apply whileSkipped_fuel. unfold len in *.
    destruct Hd as [->| ->]; [left | right]; split; lia.
  - destruct (length items); simpl; by rewrite E.
Qed.

Lemma setActiveItemByIndex_moved index delta s :
  moved s (_setActiveItemByIndex index delta s).
Proof.
  unfold _setActiveItemByIndex, _getItemsArray.
  destruct (whileSkipped _ _ _ _ _) as [i| |] eqn:E; try apply moved_refl.
  apply whileSkipped_found in E as (it & Hit & Hskip).
  right. by exists i, it.
Qed.

(** An empty collection: the loop returns at once. *)
Lemma setActiveItemByIndex_empty index delta s :
  _items s = [] -> _setActiveItemByIndex index delta s = s.
Proof.
  intros H. unfold _setActiveItemByIndex, _getItemsArray. rewrite H. simpl.
  unfold item_at. destruct (index <? 0); [done|]. by rewrite lookup_nil.
Qed.

(** *** Wrap mode *)

Lemma jsrem_range a b : 0 <= a -> 0 < b -> 0 <= jsrem a b < b.
Proof. intros Ha Hb. unfold jsrem. by apply Z.rem_bound_pos. Qed.

Lemma jsrem_mod a b : 0 <= a -> 0 < b -> jsrem a b = a mod b.
Proof. intros Ha Hb. unfold jsrem. apply Z.rem_mod_nonneg; lia. Qed.

(** With a non-negative active index every index the loop computes lies in
    the array, so the skip predicate is only ever called on an item. *)
Lemma wrapScan_ok remaining i delta s :
  0 <= _activeItemIndex s -> 1 <= i -> i + Z.of_nat remaining <= len (_items s) + 1 ->
  delta = 1 \/ delta = -1 ->
  match wrapScan remaining i delta s with
  | Hit index => exists item, item_at (_items s) index = Some item /\
                              onItem (_skipPredicateFn s) item = false
  | Miss => True
  | Raised _ => False
  end.
Proof.
  intros Ha. revert i. induction remaining as [|remaining IH]; intros i Hi Hr Hd; simpl; [done|].
  unfold _getItemsArray.
  set (index := jsrem _ _).
  assert (Hrange : 0 <= index < len (_items s)).
  { apply jsrem_range; destruct Hd as [-> | ->]; lia. }
  destruct (item_at_in_range _ _ Hrange) as [it Hit]. rewrite Hit. simpl.
  destruct (onItem (_skipPredicateFn s) it) eqn:Es.
  - apply IH; [lia | lia | done].
  - by exists it.
Qed.

Lemma setActiveInWrapMode_moved delta s :
  0 <= _activeItemIndex s -> delta = 1 \/ delta = -1 ->
  exists s', _setActiveInWrapMode delta s = Normal s' /\ moved s s'.
Proof.
  intros Ha Hd. unfold _setActiveInWrapMode, _getItemsArray.
  pose proof (wrapScan_ok (length (_items s)) 1 delta s Ha) as H.
  destruct (wrapScan _ _ _ _) as [index| |e].
  - destruct H as (it & Hit & Hskip); [lia | unfold len; lia | done |].
    eexists. split; [done|]. right. by exists index, it.
  - eexists. split; [done | apply moved_refl].
  - exfalso. apply H; [lia | unfold len; lia | done].
Qed.

Lemma setActiveInWrapMode_empty delta s :
  _items s = [] -> _setActiveInWrapMode delta s = Normal s.
Proof. intros H. unfold _setActiveInWrapMode, _getItemsArray. by rewrite H. Qed.

(** *** The four navigation methods never throw *)

Lemma setFirstItemActive_moved s :
  exists s', setFirstItemActive s = Normal s' /\ moved s s'.
Proof. eexists. split; [done | apply setActiveItemByIndex_moved]. Qed.

Lemma setLastItemActive_moved s :
  exists s', setLastItemActive s = Normal s' /\ moved s s'.
Proof. eexists. split; [done | apply setActiveItemByIndex_moved]. Qed.

Lemma setNextItemActive_moved s :
  exists s', setNextItemActive s = Normal s' /\ moved s s'.
Proof.
  unfold setNextItemActive. destruct (Z.ltb_spec (_activeItemIndex s) 0).
  - apply setFirstItemActive_moved.
  - unfold _setActiveItemByDelta. destruct (_wrap s).
    + apply setActiveInWrapMode_moved; [done | by left].
    + eexists. split; [done | apply setActiveItemByIndex_moved].
Qed.

Lemma setPreviousItemActive_moved s :
  exists s', setPreviousItemActive s = Normal s' /\ moved s s'.
Proof.
  unfold setPreviousItemActive, _setActiveItemByDelta.
  destruct (Z.ltb_spec (_activeItemIndex s) 0); destruct (_wrap s); simpl.
  - apply setLastItemActive_moved.
  - eexists. split; [done | apply setActiveItemByIndex_moved].
  - apply setActiveInWrapMode_moved; [done | by right].
  - eexists. split; [done | apply setActiveItemByIndex_moved].
Qed.

Lemma navigate_moved n s : exists s', navigate n s = Normal s' /\ moved s s'.
Proof.
  destruct n; simpl;
    [apply setFirstItemActive_moved | apply setLastItemActive_moved
     | apply setNextItemActive_moved | apply setPreviousItemActive_moved].
Qed.

(** On an empty collection the four methods return the state they got. *)
Lemma navigate_empty n s : _items s = [] -> navigate n s = Normal s.
Proof.
  intros H. destruct n; simpl.
  - unfold setFirstItemActive. by rewrite setActiveItemByIndex_empty.
  - unfold setLastItemActive. by rewrite setActiveItemByIndex_empty.
  - unfold setNextItemActive, setFirstItemActive, _setActiveItemByDelta,
      _setActiveInDefaultMode.
    destruct (_ <? 0); [by rewrite setActiveItemByIndex_empty|].
    destruct (_wrap s); [by apply setActiveInWrapMode_empty|].
    by rewrite setActiveItemByIndex_empty.
  - unfold setPreviousItemActive, setLastItemActive, _setActiveItemByDelta,
      _setActiveInDefaultMode.
    destruct (_ && _); [by rewrite setActiveItemByIndex_empty|].
    destruct (_wrap s); [by apply setActiveInWrapMode_empty|].
    by rewrite setActiveItemByIndex_empty.
Qed.

(** *** [onKeydown] *)

Ltac key_cases :=
  repeat match goal with
         | |- context [?a =? ?b] => destruct (Z.eqb_spec a b)
         | |- context [if ?c && ?d then _ else _] => destruct (c && d)
         end.

Section WithCaseMapping.
Context {rt : CaseMapping}.

(** On a key it navigates on, [onKeydown] runs the navigation method and
    then what follows the [switch]. *)
Lemma onKeydown_navigation event s n :
  keyCode event <> Keycodes.TAB -> navigationFor event s = Some n ->
  onKeydown event s = afterNavigation (navigate n s).
Proof.
  intros Htab. unfold navigationFor, onKeydown.
  destruct (Z.eqb_spec (keyCode event) Keycodes.TAB); [done|].
  key_cases; intros [= <-]; try done; by destruct (isRtl _).
Qed.

(** On any other key but Tab it leaves the event alone and at most feeds
    the typeahead stream. *)
Lemma onKeydown_other event s :
  keyCode event <> Keycodes.TAB -> navigationFor event s = None ->
  defaultPrevented (onKeydown event s) = false /\
  exists s', completion (onKeydown event s) = Normal s' /\
             (s' = s \/ exists letter, s' = letterKeyStream_next letter s).
Proof.
  intros Htab. unfold navigationFor, onKeydown.
  destruct (Z.eqb_spec (keyCode event) Keycodes.TAB); [done|].
  key_cases; intros Hnone; try done; simpl; (split; [done|]);
    try (eexists; split; [done|]; by left).
  eexists. split; [done|].
  destruct (_ || _); [|by left].
  destruct (key event) as [k|].
  - destruct (_ =? _)%nat; [right; eauto|].
    destruct (_ || _); [right; eauto | by left].
  - destruct (_ || _); [right; eauto | by left].
Qed.

Lemma letterKeyStream_next_fields letter s :
  let s' := letterKeyStream_next letter s in
  _activeItem s' = _activeItem s /\ _activeItemIndex s' = _activeItemIndex s /\
  change s' = change s /\ tabOut s' = tabOut s /\ sameConfig s s'.
Proof.
  unfold letterKeyStream_next. destruct (_typeaheadSubscription s) eqn:E; simpl;
    repeat split; try done.
Qed.

End WithCaseMapping.

(** C6, as stated, fails: Tab is a key the manager handles (it emits on
    [tabOut]), and [onKeydown] returns on it without [preventDefault()]. *)
Lemma onKeydown_tab_counterexample :
  let r := onKeydown (plainKey Keycodes.TAB (Some "Tab"%string)) (new fruits) in
  tabOut (stateOf (completion r)) = 1%nat /\ defaultPrevented r = false.
Proof. vm_compute. split; reflexivity. Qed.

Section WithCaseMapping.
Context {rt : CaseMapping}.

(** C6, amended.  An arrow key under the configured orientation, and Home
    or End when enabled, with no disallowed modifier held, runs its
    navigation method, which returns, and [preventDefault()] is called.
    Tab emits on [tabOut], changes no active item and does not call
    [preventDefault()].  Any other key, and any key filtered by its guard,
    returns without [preventDefault()] and without changing the active item.
    (The skip loop of the navigation methods ends within the fuel the
    embedding gives it.) *)
Theorem onKeydown_prevents_default_on_navigation :
  forall (event : KeyboardEvent) (s : State),
    (keyCode event = Keycodes.TAB ->
       let r := onKeydown event s in
       defaultPrevented r = false /\
       completion r = Normal (set_tabOut (S (tabOut s)) s) /\
       _activeItem (stateOf (completion r)) = _activeItem s /\
       _activeItemIndex (stateOf (completion r)) = _activeItemIndex s /\
       change (stateOf (completion r)) = change s) /\
    (keyCode event <> Keycodes.TAB ->
       forall n, navigationFor event s = Some n ->
         exists s', navigate n s = Normal s' /\
                    onKeydown event s = mkResult (Normal (set_pressedLetters [] s')) true) /\
    (keyCode event <> Keycodes.TAB -> navigationFor event s = None ->
       let r := onKeydown event s in
       defaultPrevented r = false /\ isNormal (completion r) = true /\
       _activeItem (stateOf (completion r)) = _activeItem s /\
       _activeItemIndex (stateOf (completion r)) = _activeItemIndex s /\
       change (stateOf (completion r)) = change s /\
       tabOut (stateOf (completion r)) = tabOut s) /\
    (forall index delta,
       delta = 1 \/ delta = -1 ->
       whileSkipped (length (_items s)) (_items s) (_skipPredicateFn s) index delta
       <> OutOfFuel).
Proof.
  intros event s. split; [|split; [|split]]; [| | |intros; by apply whileSkipped_terminates].
  - intros Htab. unfold onKeydown. rewrite Htab. simpl. done.
  - intros Htab n Hn. rewrite (onKeydown_navigation event s n Htab Hn).
    destruct (navigate_moved n s) as (s' & -> & _). by exists s'.
  - intros Htab Hnone.
    destruct (onKeydown_other event s Htab Hnone) as (Hp & s' & Hc & Hs').
    simpl. rewrite Hp, Hc. simpl. split; [done|]. split; [done|].
    destruct Hs' as [->|[letter ->]]; [done|].
    destruct (letterKeyStream_next_fields letter s) as (? & ? & ? & ? & _). done.
Qed.

End WithCaseMapping.

Lemma onKeydown_prevents_default_on_navigation_witness :
  let event := plainKey Keycodes.DOWN_ARROW (Some "ArrowDown"%string) in
  let s := new fruits in
  keyCode event <> Keycodes.TAB /\
  navigationFor event s = Some Next /\
  exists s', navigate Next s = Normal s' /\
             onKeydown event s = mkResult (Normal (set_pressedLetters [] s')) true.
Proof.
  assert (Htab : keyCode (plainKey Keycodes.DOWN_ARROW (Some "ArrowDown"%string))
                 <> Keycodes.TAB) by (vm_compute; discriminate).
  split; [exact Htab|]. split; [reflexivity|].
  exact (proj1 (proj2 (onKeydown_prevents_default_on_navigation
                         (plainKey Keycodes.DOWN_ARROW (Some "ArrowDown"%string))
                         (new fruits)))
               Htab Next eq_refl).
Defined.

(** *** The empty collection *)

(** C10, as stated, fails for [onKeydown]: on an empty collection with a
    letter in the typeahead buffer, an arrow key empties the buffer, so the
    call is not a no-op on the state ([isTyping()] turns false). *)
Lemma empty_collection_keydown_counterexample :
  let r := onKeydown (plainKey Keycodes.DOWN_ARROW (Some "ArrowDown"%string)) typingOnEmpty in
  _items typingOnEmpty = [] /\
  _activeItemIndex typingOnEmpty = -1 /\ _activeItem typingOnEmpty = None /\
  isTyping typingOnEmpty = true /\
  isTyping (stateOf (completion r)) = false /\
  stateOf (completion r) <> typingOnEmpty.
Proof.
  vm_compute. repeat split; try reflexivity. intros H. discriminate H.
Qed.

Section WithCaseMapping.
Context {rt : CaseMapping}.

(** C10, amended.  On an empty collection the four navigation methods
    return without throwing and leave the whole state as it was.
    [onKeydown] with an arrow, Home or End key returns without throwing:
    when the key passes its guard (the orientation or the Home and End
    setting, and the modifiers) it empties the typeahead buffer, calls
    [preventDefault()] and changes nothing else; when it does not, the
    state stays as it was and [preventDefault()] is not called.  Either
    way the active index, the active item, the configuration and the
    [change] stream are as before, so an active index of -1 and a null
    active item stay -1 and null, with wrapping on or off. *)
Theorem empty_collection_navigation_is_safe :
  forall (s : State),
    _items s = [] ->
    (forall n, navigate n s = Normal s) /\
    (forall event,
       isNavigationKey (keyCode event) = true ->
       (forall n, navigationFor event s = Some n ->
                  onKeydown event s = mkResult (Normal (set_pressedLetters [] s)) true) /\
       (navigationFor event s = None ->
        onKeydown event s = mkResult (Normal s) false) /\
       (let s' := stateOf (completion (onKeydown event s)) in
        isNormal (completion (onKeydown event s)) = true /\
        _activeItemIndex s' = _activeItemIndex s /\
        _activeItem s' = _activeItem s /\
        change s' = change s /\ tabOut s' = tabOut s /\ sameConfig s s')) /\
    (_activeItemIndex s = -1 -> _activeItem s = None ->
     (forall n, _activeItemIndex (stateOf (navigate n s)) = -1 /\
                _activeItem (stateOf (navigate n s)) = None) /\
     (forall event,
        isNavigationKey (keyCode event) = true ->
        _activeItemIndex (stateOf (completion (onKeydown event s))) = -1 /\
        _activeItem (stateOf (completion (onKeydown event s))) = None)).
Proof.
  intros s Hempty.
  assert (Hnav : forall n, navigate n s = Normal s) by (intros n; by apply navigate_empty).
  assert (Hpass : forall event n,
             isNavigationKey (keyCode event) = true -> navigationFor event s = Some n ->
             onKeydown event s = mkResult (Normal (set_pressedLetters [] s)) true).
  { intros event n Hk En.
    assert (Htab : keyCode event <> Keycodes.TAB).
    { intros Heq. rewrite Heq in Hk. vm_compute in Hk. discriminate Hk. }
    by rewrite (onKeydown_navigation event s n Htab En), Hnav. }
  assert (Hstop : forall event,
             isNavigationKey (keyCode event) = true -> navigationFor event s = None ->
             onKeydown event s = mkResult (Normal s) false).
  { intros event Hk. unfold navigationFor, onKeydown.
    destruct (Z.eqb_spec (keyCode event) Keycodes.TAB) as [Heq|_].
    { rewrite Heq in Hk. vm_compute in Hk. discriminate Hk. }
    unfold isNavigationKey in Hk. revert Hk.
    key_cases; try done. }
  assert (Hkey : forall event,
             isNavigationKey (keyCode event) = true ->
             onKeydown event s = mkResult (Normal s) false \/
             onKeydown event s = mkResult (Normal (set_pressedLetters [] s)) true).
  { intros event Hk. destruct (navigationFor event s) as [n|] eqn:En.
    - right. by apply (Hpass event n).
    - left. by apply Hstop. }
  split; [done|]. split.
  - intros event Hk. split; [intros n; by apply Hpass|]. split; [by apply Hstop|].
    destruct (Hkey event Hk) as [-> | ->]; by repeat split.
  - intros Hi Ha. split.
    + intros n. by rewrite Hnav.
    + intros event Hk. destruct (Hkey event Hk) as [-> | ->]; done.
Qed.

End WithCaseMapping.

Lemma empty_collection_navigation_is_safe_witness :
  let down := plainKey Keycodes.DOWN_ARROW (Some "ArrowDown"%string) in
  let left := plainKey Keycodes.LEFT_ARROW (Some "ArrowLeft"%string) in
  _items typingOnEmpty = [] /\
  _pressedLetters typingOnEmpty = [str "A"] /\
  (forall n, navigate n typingOnEmpty = Normal typingOnEmpty) /\
  navigationFor down typingOnEmpty = Some Next /\
  onKeydown down typingOnEmpty = mkResult (Normal (set_pressedLetters [] typingOnEmpty)) true /\
  navigationFor left typingOnEmpty = None /\
  onKeydown left typingOnEmpty = mkResult (Normal typingOnEmpty) false.
Proof.
  assert (He : _items typingOnEmpty = []) by reflexivity.
  pose proof (empty_collection_navigation_is_safe typingOnEmpty He) as (Hnav & Hkey & _).
  split; [exact He|]. split; [reflexivity|]. split; [exact Hnav|].
  split; [reflexivity|].
  split; [exact (proj1 (Hkey (plainKey Keycodes.DOWN_ARROW (Some "ArrowDown"%string))
                             eq_refl) Next eq_refl)|].
  split; [reflexivity|].
  exact (proj1 (proj2 (Hkey (plainKey Keycodes.LEFT_ARROW (Some "ArrowLeft"%string))
                            eq_refl)) eq_refl).
Defined.

(** *** [withTypeAhead] *)

Lemma existsb_lacksGetLabel items :
  existsb lacksGetLabel items = true <-> exists item, item ∈ items /\ getLabel item = None.
Proof.
  rewrite existsb_exists. split.
  - intros (it & Hin & Hl). exists it. split; [by apply list_elem_of_In|].
    unfold lacksGetLabel in Hl. by destruct (getLabel it).
  - intros (it & Hin & Hl). exists it. split; [by apply list_elem_of_In|].
    unfold lacksGetLabel. by rewrite Hl.
Qed.

(** C9, as stated, fails: with [ngDevMode] set to [false] (a production
    build) [withTypeAhead] accepts an item that has no [getLabel], and the
    failure comes later, as a [TypeError] of the typeahead search. *)
Lemma withTypeAhead_production_counterexample :
  let c := withTypeAhead (Some false) 200 (new unlabelled) in
  let typed := stateOf (completion (onKeydown (plainKey Keycodes.A (Some "a"%string))
                                              (stateOf c))) in
  (exists item, item ∈ unlabelled /\ getLabel item = None) /\
  isNormal c = true /\
  _typeaheadSubscription (stateOf c) = Some 200 /\
  debounceElapsed typed = Throw TypeError (set_typeahead None false typed).
Proof.
  split.
  - exists (mkOption 0 None None). split; [apply list_elem_of_here | reflexivity].
  - vm_compute. repeat split.
Qed.

(** C9, amended.  In development mode ([ngDevMode] undefined or truthy), for
    every collection with at least one item that does not implement
    [getLabel], [withTypeAhead] throws an [Error] at once and leaves the
    manager as it was; for a collection whose items all implement
    [getLabel] it does not throw and typeahead is configured.  With
    [ngDevMode] false it never throws. *)
Theorem withTypeAhead_checks_labels_in_dev_mode :
  forall (ngDevMode : option bool) (debounceInterval : Z) (s : State),
    (ngDevMode = None \/ ngDevMode = Some true ->
     (exists item, item ∈ _items s /\ getLabel item = None) ->
     exists message,
       withTypeAhead ngDevMode debounceInterval s = Throw (Error message) s) /\
    ((forall item, item ∈ _items s -> getLabel item <> None) ->
     withTypeAhead ngDevMode debounceInterval s =
     Normal (set_typeahead (Some debounceInterval) false s)) /\
    (ngDevMode = Some false ->
     withTypeAhead ngDevMode debounceInterval s =
     Normal (set_typeahead (Some debounceInterval) false s)).
Proof.
  intros ngDevMode interval s. split; [|split].
  - intros Hdev Hex. unfold withTypeAhead.
    assert (match ngDevMode with None => true | Some b => b end = true) as ->
        by (destruct Hdev as [-> | ->]; done).
    assert (Hsome : existsb lacksGetLabel (_items s) = true)
      by (by apply existsb_lacksGetLabel).
    rewrite Hsome.
    assert ((len (_items s) =? 0) = false) as ->.
    { apply Z.eqb_neq. intros Hz. apply Z.eqb_eq, len_zero in Hz.
      destruct Hex as (it & Hin & _). rewrite Hz in Hin. by apply elem_of_nil in Hin. }
    simpl. eauto.
  - intros Hall. unfold withTypeAhead.
    assert (existsb lacksGetLabel (_items s) = false) as ->.
    { apply not_true_is_false. intros H. apply existsb_lacksGetLabel in H as (it & Hin & Hl).
      by apply (Hall it). }
    by rewrite !andb_false_r.
  - intros ->. reflexivity.
Qed.

Lemma withTypeAhead_checks_labels_in_dev_mode_witness :
  (@None bool = None \/ @None bool = Some true) /\
  (exists item, item ∈ _items (new unlabelled) /\ getLabel item = None) /\
  exists message, withTypeAhead None 200 (new unlabelled) = Throw (Error message) (new unlabelled).
Proof.
  assert (Hdev : @None bool = None \/ @None bool = Some true) by (left; reflexivity).
  assert (Hex : exists item, item ∈ _items (new unlabelled) /\ getLabel item = None).
  { exists (mkOption 0 None None). split; [apply list_elem_of_here | reflexivity]. }
  split; [exact Hdev|]. split; [exact Hex|].
  exact (proj1 (withTypeAhead_checks_labels_in_dev_mode None 200 (new unlabelled)) Hdev Hex).
Defined.

(** *** The active item stays valid *)

Lemma moved_keptOrActivatedValid s s' : moved s s' -> keptOrActivatedValid s s'.
Proof.
  intros Hm. destruct (moved_active s s' Hm) as [(Heq & _)|(it & Hit & Hat & Hskip)].
  - by left.
  - right. exists it. split; [done|]. split; [by apply item_at_elem_of in Hat | done].
Qed.

Lemma navigate_keptOrActivatedValid n s :
  keptOrActivatedValid s (stateOf (navigate n s)).
Proof.
  destruct (navigate_moved n s) as (s' & -> & Hm). by apply moved_keptOrActivatedValid.
Qed.

Section WithCaseMapping.
Context {rt : CaseMapping}.

Lemma onKeydown_keptOrActivatedValid event s :
  keptOrActivatedValid s (stateOf (completion (onKeydown event s))).
Proof.
  destruct (Z.eq_dec (keyCode event) Keycodes.TAB) as [Htab|Htab].
  - unfold onKeydown. rewrite Htab. by left.
  - destruct (navigationFor event s) as [n|] eqn:En.
    + rewrite (onKeydown_navigation event s n Htab En).
      destruct (navigate_moved n s) as (s' & -> & Hm). simpl.
      exact (moved_keptOrActivatedValid s s' Hm).
    + destruct (onKeydown_other event s Htab En) as (_ & s' & -> & Hs'). simpl.
      destruct Hs' as [->|[letter ->]]; [by left|].
      destruct (letterKeyStream_next_fields letter s) as (Ha & _). by left.
Qed.

(** The typeahead loop only ever stops on an item that is not skipped and
    whose label matches. *)
Lemma typeaheadScan_hit remaining i input s index :
  typeaheadScan remaining i input s = Hit index ->
  exists item label,
    item_at (_items s) index = Some item /\
    onItem (_skipPredicateFn s) item = false /\
    getLabel item = Some label /\ labelMatches input label = true.
Proof.
  revert i. induction remaining as [|remaining IH]; intros i; simpl; [done|].
  unfold _getItemsArray. set (idx := jsrem _ _).
  destruct (item_at (_items s) idx) as [it|] eqn:Eit; simpl.
  - destruct (onItem (_skipPredicateFn s) it) eqn:Es; [apply IH|].
    destruct (getLabel it) as [label|] eqn:El; [|done].
    destruct (labelMatches input label) eqn:Em; [|apply IH].
    intros [= <-]. by exists it, label.
  - destruct (onUndefined (_skipPredicateFn s)) as [[|]|]; try done. apply IH.
Qed.

Lemma typeaheadSearch_keptOrActivatedValid input s :
  keptOrActivatedValid s (stateOf (typeaheadSearch input s)).
Proof.
  unfold typeaheadSearch.
  destruct (typeaheadScan _ _ _ _) as [index| |e] eqn:E; simpl; try by left.
  apply typeaheadScan_hit in E as (it & label & Hit & Hskip & _).
  apply (moved_keptOrActivatedValid s (setActiveItem (ByIndex index) s)).
  right. by exists index, it.
Qed.

Lemma debounceElapsed_keptOrActivatedValid s :
  keptOrActivatedValid s (stateOf (debounceElapsed s)).
Proof.
  unfold debounceElapsed.
  destruct (_typeaheadSubscription s) as [interval|]; [|by left].
  destruct (_debouncePending s); [|by left].
  destruct (0 <? _); [|by left].
  pose proof (typeaheadSearch_keptOrActivatedValid
                (join (_pressedLetters (set_typeahead (Some interval) false s)))
                (set_typeahead (Some interval) false s)) as H.
  by destruct (typeaheadSearch _ _).
Qed.

(** An operation that keeps the collection and the skip predicate, and
    keeps the active item or activates a valid one, keeps the active item
    valid. *)
Lemma keptOrActivatedValid_valid s s' :
  keptOrActivatedValid s s' ->
  _items s' = _items s -> _skipPredicateFn s' = _skipPredicateFn s ->
  activeIsValid s -> activeIsValid s'.
Proof.
  unfold activeIsValid. intros [Heq|(it & Hit & Hin & Hskip)] -> -> Hv.
  - by rewrite Heq.
  - by rewrite Hit.
Qed.

Lemma navigate_frame n s :
  _items (stateOf (navigate n s)) = _items s /\
  _skipPredicateFn (stateOf (navigate n s)) = _skipPredicateFn s.
Proof.
  destruct (navigate_moved n s) as (s' & -> & Hm). simpl.
  destruct (moved_sameConfig s s' Hm) as (_ & _ & _ & _ & _ & ? & _ & ?). done.
Qed.

Lemma onKeydown_frame event s :
  _items (stateOf (completion (onKeydown event s))) = _items s /\
  _skipPredicateFn (stateOf (completion (onKeydown event s))) = _skipPredicateFn s.
Proof.
  destruct (Z.eq_dec (keyCode event) Keycodes.TAB) as [Htab|Htab].
  - unfold onKeydown. by rewrite Htab.
  - destruct (navigationFor event s) as [n|] eqn:En.
    + rewrite (onKeydown_navigation event s n Htab En).
      destruct (navigate_moved n s) as (s' & -> & Hm). simpl.
      destruct (moved_sameConfig s s' Hm) as (_ & _ & _ & _ & _ & ? & _ & ?). done.
    + destruct (onKeydown_other event s Htab En) as (_ & s' & -> & Hs'). simpl.
      destruct Hs' as [->|[letter ->]]; [done|].
      destruct (letterKeyStream_next_fields letter s) as (_ & _ & _ & _ & Hc).
      destruct Hc as (_ & _ & _ & _ & _ & ? & _ & ?). done.
Qed.

Lemma debounceElapsed_frame s :
  _items (stateOf (debounceElapsed s)) = _items s /\
  _skipPredicateFn (stateOf (debounceElapsed s)) = _skipPredicateFn s.
Proof.
  unfold debounceElapsed.
  destruct (_typeaheadSubscription s) as [interval|]; [|done].
  destruct (_debouncePending s); [|done].
  destruct (0 <? _); [|done].
  unfold typeaheadSearch.
  destruct (typeaheadScan _ _ _ _) as [index| |e]; simpl; try done.
  destruct (setActiveItem_fields (ByIndex index) (set_typeahead (Some interval) false s))
    as (_ & _ & _ & _ & _ & Hc).
  destruct Hc as (_ & _ & _ & _ & _ & ? & _ & ?). done.
Qed.

End WithCaseMapping.

(** C7, as stated, fails: [setActiveItem(0)] on a collection whose first
    item is disabled makes that disabled item the active item. *)
Lemma setActiveItem_disabled_counterexample :
  let s := setActiveItem (ByIndex 0) (new onlyDisabled) in
  exists item, _activeItem s = Some item /\
               item ∈ _items s /\
               disabled item = Some true /\
               onItem (_skipPredicateFn s) item = true /\
               ~ activeIsValid s /\
               ~ activeIsValid (updateActiveItem (ByIndex 0) (new onlyDisabled)).
Proof.
  exists (mkOption 0 (Some true) (Some (str "Apple"))).
  split; [reflexivity|]. split; [apply list_elem_of_here|].
  split; [reflexivity|]. split; [reflexivity|].
  split; intros [_ H]; vm_compute in H; discriminate H.
Qed.

Section WithCaseMapping.
Context {rt : CaseMapping}.

(** C7, amended.  After [setActiveItem] and [updateActiveItem] the active
    item is null or a member of the current collection (it may be a skipped
    one).  Each navigation method, [onKeydown] and the typeahead activation
    keeps the active item it finds or activates a member of the collection
    that is not skipped; so an active item that is null or a non-skipped
    member before one of them is null or a non-skipped member after it. *)
Theorem active_item_stays_valid :
  forall (s : State),
    (forall arg, activeIsMember (setActiveItem arg s) /\
                 activeIsMember (updateActiveItem arg s)) /\
    ((forall n, keptOrActivatedValid s (stateOf (navigate n s))) /\
     (forall event, keptOrActivatedValid s (stateOf (completion (onKeydown event s)))) /\
     keptOrActivatedValid s (stateOf (debounceElapsed s))) /\
    (activeIsValid s ->
     (forall n, activeIsValid (stateOf (navigate n s))) /\
     (forall event, activeIsValid (stateOf (completion (onKeydown event s)))) /\
     activeIsValid (stateOf (debounceElapsed s))).
Proof.
  intros s. split; [|split].
  - intros arg. split; [apply setActiveItem_member | apply updateActiveItem_member].
  - split; [|split].
    + intros n. apply navigate_keptOrActivatedValid.
    + intros event. apply onKeydown_keptOrActivatedValid.
    + apply debounceElapsed_keptOrActivatedValid.
  - intros Hv. split; [|split].
    + intros n. destruct (navigate_frame n s) as [Hi Hs].
      apply (keptOrActivatedValid_valid s); try done.
      apply navigate_keptOrActivatedValid.
    + intros event. destruct (onKeydown_frame event s) as [Hi Hs].
      apply (keptOrActivatedValid_valid s); try done.
      apply onKeydown_keptOrActivatedValid.
    + destruct (debounceElapsed_frame s) as [Hi Hs].
      apply (keptOrActivatedValid_valid s); try done.
      apply debounceElapsed_keptOrActivatedValid.
Qed.

End WithCaseMapping.

Lemma active_item_stays_valid_witness :
  activeIsValid (new fruits) /\
  (forall n, activeIsValid (stateOf (navigate n (new fruits)))) /\
  (forall event, activeIsValid (stateOf (completion (onKeydown event (new fruits))))) /\
  activeIsValid (stateOf (debounceElapsed (new fruits))).
Proof.
  assert (Hv : activeIsValid (new fruits)) by exact I.
  split; [exact Hv|].
  exact (proj2 (proj2 (active_item_stays_valid (new fruits))) Hv).
Defined.

(** *** Typeahead *)

Example typeahead_spaced_label :
  _pressedLetters typedAP = [str "A"; str "P"] /\
  _activeItem (stateOf (debounceElapsed typedAP)) = Some (labelled 0 " Apple").
Proof. vm_compute. auto. Qed.

Section WithCaseMapping.
Context {rt : CaseMapping}.

(** With an active index of at least -1 and every item labelled, the loop
    never throws, and it stops at the first index of the cyclic scan that
    passes the test. *)
Lemma typeaheadScan_spec input s remaining i :
  -1 <= _activeItemIndex s -> 0 < len (_items s) ->
  (forall item, item ∈ _items s -> getLabel item <> None) ->
  1 <= i ->
  match typeaheadScan remaining i input s with
  | Hit index =>
      exists k, i <= k < i + Z.of_nat remaining /\
                index = (_activeItemIndex s + k) mod len (_items s) /\
                matchesAt input s index = true /\
                forall j, i <= j < k ->
                          matchesAt input s ((_activeItemIndex s + j) mod len (_items s)) = false
  | Miss =>
      forall j, i <= j < i + Z.of_nat remaining ->
                matchesAt input s ((_activeItemIndex s + j) mod len (_items s)) = false
  | Raised _ => False
  end.
Proof.
  intros Ha Hlen Hlab. revert i.
  induction remaining as [|remaining IH]; intros i Hi; simpl; [intros j Hj; lia|].
  unfold _getItemsArray.
  rewrite jsrem_mod by lia.
  set (idx := (_activeItemIndex s + i) mod len (_items s)).
  assert (Hrange : 0 <= idx < len (_items s)) by (apply Z.mod_pos_bound; lia).
  destruct (item_at_in_range _ _ Hrange) as [it Hit]. rewrite Hit. simpl.
  assert (Hhere : matchesAt input s idx =
                  negb (onItem (_skipPredicateFn s) it) &&
                  match getLabel it with
                  | Some label => labelMatches input label
                  | None => false
                  end).
  { unfold matchesAt. by rewrite Hit. }
  assert (Hnext : forall P : Prop,
             matchesAt input s idx = false ->
             match typeaheadScan remaining (i + 1) input s with
             | Hit index =>
                 exists k, i <= k < i + Z.of_nat (S remaining) /\
                           index = (_activeItemIndex s + k) mod len (_items s) /\
                           matchesAt input s index = true /\
                           forall j, i <= j < k ->
                                     matchesAt input s
                                       ((_activeItemIndex s + j) mod len (_items s)) = false
             | Miss =>
                 forall j, i <= j < i + Z.of_nat (S remaining) ->
                           matchesAt input s
                             ((_activeItemIndex s + j) mod len (_items s)) = false
             | Raised _ => False
             end).
  { intros _ Hno. specialize (IH (i + 1) ltac:(lia)).
    destruct (typeaheadScan remaining (i + 1) input s) as [index| |e]; [| |done].
    - destruct IH as (k & Hk & Hidx & Hm & Hbefore).
      exists k. split; [lia|]. split; [done|]. split; [done|].
      intros j Hj. destruct (Z.eq_dec j i) as [->|Hne]; [done|]. apply Hbefore. lia.
    - intros j Hj. destruct (Z.eq_dec j i) as [->|Hne]; [done|]. apply IH. lia. }
  destruct (onItem (_skipPredicateFn s) it) eqn:Es.
  - apply (Hnext True). by rewrite Hhere.
  - destruct (getLabel it) as [label|] eqn:El.
    + destruct (labelMatches input label) eqn:Em.
      * exists i. split; [lia|]. split; [done|]. split; [by rewrite Hhere|].
        intros j Hj. lia.
      * apply (Hnext True). by rewrite Hhere.
    + exfalso. apply (Hlab it); [by apply item_at_elem_of in Hit | done].
Qed.

(** Every index of the array is met by the cyclic scan. *)
Lemma cyclic_scan_reaches a n m :
  0 < n -> 0 <= m < n ->
  exists j, 1 <= j < 1 + n /\ (a + j) mod n = m.
Proof.
  intros Hn Hm. exists ((m - a - 1) mod n + 1). split.
  - pose proof (Z.mod_pos_bound (m - a - 1) n Hn). lia.
  - replace (a + ((m - a - 1) mod n + 1)) with ((a + 1) + (m - a - 1) mod n) by lia.
    rewrite Zplus_mod_idemp_r.
    replace (a + 1 + (m - a - 1)) with m by lia.
    apply Z.mod_small. lia.
Qed.

(** The search on a state where some item passes the test. *)
Lemma typeaheadSearch_first_match input s :
  -1 <= _activeItemIndex s ->
  (forall item, item ∈ _items s -> getLabel item <> None) ->
  (exists m, matchesAt input s m = true) ->
  exists k, 1 <= k <= len (_items s) /\
            matchesAt input s ((_activeItemIndex s + k) mod len (_items s)) = true /\
            (forall j, 1 <= j < k ->
                       matchesAt input s ((_activeItemIndex s + j) mod len (_items s)) = false) /\
            typeaheadSearch input s =
            Normal (set_pressedLetters []
                      (setActiveItem (ByIndex ((_activeItemIndex s + k) mod len (_items s))) s)).
Proof.
  intros Ha Hlab [m Hm].
  assert (Hmr : 0 <= m < len (_items s)).
  { unfold matchesAt in Hm. destruct (item_at (_items s) m) eqn:E; [|done].
    by apply item_at_Some_range in E. }
  assert (Hlen : 0 < len (_items s)) by lia.
  pose proof (typeaheadScan_spec input s (length (_items s)) 1 Ha Hlen Hlab ltac:(lia)) as H.
  unfold typeaheadSearch, _getItemsArray.
  destruct (typeaheadScan _ _ _ _) as [index| |e]; [| |done].
  - destruct H as (k & Hk & -> & Hmatch & Hbefore).
    exists k. unfold len in *. split; [lia|]. done.
  - exfalso.
    destruct (cyclic_scan_reaches (_activeItemIndex s) (len (_items s)) m Hlen Hmr)
      as (j & Hj & Hjm).
    specialize (H j). unfold len in *. rewrite Hjm in H. rewrite H in Hm; [done | lia].
Qed.

(** White space around a label is whatever [trim] strips, a no-break
    space (U+00A0) included: such a label matches by its first letter. *)
Lemma labelMatches_no_break_space :
  toUpperCase (160%N :: str "Apple") = 160%N :: str "APPLE" ->
  labelMatches (str "A") (160%N :: str "Apple") = true /\
  labelMatches (160%N :: str "A") (160%N :: str "Apple") = false.
Proof. intros H. unfold labelMatches. rewrite H. split; reflexivity. Qed.

(** On a runtime that upper-cases ASCII strings letter by letter, the
    keys "a" and "p" typed over the three fruits activate "Apple". *)
Lemma fruits_on_ascii_runtime :
  upperCasesAscii rt ->
  _items fruitsTypedAP = fruits /\
  _activeItem fruitsTypedAP = None /\
  _pressedLetters fruitsTypedAP = [str "A"; str "P"] /\
  _activeItem (stateOf (debounceElapsed fruitsTypedAP)) = Some (labelled 1 "Apple") /\
  _activeItemIndex (stateOf (debounceElapsed fruitsTypedAP)) = 1.
Proof.
  intros Hrt. destruct rt as [up lup]. unfold upperCasesAscii in Hrt. cbn in Hrt.
  pose proof (proj2 (Hrt (str "a") eq_refl)) as Ha.
  pose proof (proj2 (Hrt (str "p") eq_refl)) as Hp.
  pose proof (proj1 (Hrt (str "Banana") eq_refl)) as H0.
  pose proof (proj1 (Hrt (str "Apple") eq_refl)) as H1.
  vm_compute in Ha, Hp, H0, H1.
  assert (E : @fruitsTypedAP {| toUpperCase := up; toLocaleUpperCase := lup |} =
              @fruitsTypedAP asciiCase).
  { vm_compute. by rewrite Ha, Hp. }
  rewrite E. clear E.
  split; [reflexivity|]. split; [reflexivity|]. split; [reflexivity|].
  assert (D : @debounceElapsed {| toUpperCase := up; toLocaleUpperCase := lup |}
                (@fruitsTypedAP asciiCase) =
              @debounceElapsed asciiCase (@fruitsTypedAP asciiCase)).
  { cbv -[trim startsWith]. rewrite H0, H1. reflexivity. }
  rewrite D. split; reflexivity.
Qed.

End WithCaseMapping.

(** C5, as stated, fails: the code trims the label before it compares.
    With the labels " Apple" and "Apricot" and the buffer "AP" it activates
    " Apple", whose label does not start with "AP"; with the label " Apple"
    and the buffer " A", which the label starts with, it activates nothing. *)
Lemma typeahead_trim_counterexample :
  (_pressedLetters typedAP = [str "A"; str "P"] /\
   startsWithIgnoringCase (str " Apple") (str "AP") = false /\
   startsWithIgnoringCase (str "Apricot") (str "AP") = true /\
   _activeItem (stateOf (debounceElapsed typedAP)) = Some (labelled 0 " Apple") /\
   _activeItemIndex (stateOf (debounceElapsed typedAP)) = 0) /\
  (_pressedLetters typedSpaceA = [str " "; str "A"] /\
   startsWithIgnoringCase (str " Apple") (str " A") = true /\
   _activeItem (stateOf (debounceElapsed typedSpaceA)) = None /\
   isNormal (debounceElapsed typedSpaceA) = true).
Proof. vm_compute. repeat split. Qed.

Section WithCaseMapping.
Context {rt : CaseMapping}.

(** C5, amended.  For every item list with no skipped (disabled) items, all
    labelled, in which the label of some item, upper-cased and trimmed of
    surrounding white space, starts with the typed buffer, and an active
    index of at least -1: when the debounce elapses the manager activates
    the first such item of the cyclic scan that starts at the active index
    plus one.  This holds whatever the case mapping of the runtime is.
    With the items "Banana", "Apple", "Apricot", no active item and the
    keys "a", "p", on a runtime that upper-cases ASCII strings letter by
    letter, the item "Apple" becomes active. *)
Theorem typeahead_activates_first_match :
  (forall (s : State) (interval : Z),
     _typeaheadSubscription s = Some interval ->
     _debouncePending s = true ->
     _pressedLetters s <> [] ->
     -1 <= _activeItemIndex s ->
     (forall item, item ∈ _items s -> onItem (_skipPredicateFn s) item = false) ->
     (forall item, item ∈ _items s -> getLabel item <> None) ->
     (exists item label,
         item ∈ _items s /\ getLabel item = Some label /\
         labelMatches (join (_pressedLetters s)) label = true) ->
     exists k item label,
       let index := (_activeItemIndex s + k) mod len (_items s) in
       1 <= k <= len (_items s) /\
       item_at (_items s) index = Some item /\
       getLabel item = Some label /\
       labelMatches (join (_pressedLetters s)) label = true /\
       (forall j item' label',
           1 <= j < k ->
           item_at (_items s) ((_activeItemIndex s + j) mod len (_items s)) = Some item' ->
           getLabel item' = Some label' ->
           labelMatches (join (_pressedLetters s)) label' = false) /\
       isNormal (debounceElapsed s) = true /\
       _activeItem (stateOf (debounceElapsed s)) = Some item /\
       _activeItemIndex (stateOf (debounceElapsed s)) = index /\
       _pressedLetters (stateOf (debounceElapsed s)) = []) /\
  (upperCasesAscii rt ->
   _items fruitsTypedAP = fruits /\
   _activeItem fruitsTypedAP = None /\
   _pressedLetters fruitsTypedAP = [str "A"; str "P"] /\
   _activeItem (stateOf (debounceElapsed fruitsTypedAP)) = Some (labelled 1 "Apple") /\
   _activeItemIndex (stateOf (debounceElapsed fruitsTypedAP)) = 1).
Proof.
  split; [|apply fruits_on_ascii_runtime].
  intros s interval Hsub Hpend Hletters Ha Hnoskip Hlab (it0 & label0 & Hin0 & Hl0 & Hm0).
  set (input := join (_pressedLetters s)) in *.
  set (s1 := set_typeahead (Some interval) false s).
  assert (Hex : exists m, matchesAt input s1 m = true).
  { apply list_elem_of_lookup in Hin0 as [m Hm].
    exists (Z.of_nat m). unfold matchesAt. simpl. rewrite item_at_nat, Hm.
    rewrite Hl0, Hm0. rewrite Hnoskip; [done|]. by apply list_elem_of_lookup_2 in Hm. }
  destruct (typeaheadSearch_first_match input s1 Ha Hlab Hex)
    as (k & Hk & Hmatch & Hbefore & Hsearch).
  assert (Hde : debounceElapsed s =
                Normal (set_pressedLetters []
                          (setActiveItem
                             (ByIndex ((_activeItemIndex s1 + k) mod len (_items s1))) s1))).
  { unfold debounceElapsed. rewrite Hsub, Hpend. fold s1. cbv zeta.
    change (join (_pressedLetters s1)) with input. rewrite Hsearch.
    destruct (Z.ltb_spec 0 (len (_pressedLetters s1))) as [_|Hle]; [done|].
    exfalso. apply Hletters. apply len_zero. apply Z.eqb_eq.
    pose proof (len_nonneg (_pressedLetters s)). simpl in Hle. lia. }
  simpl in Hk, Hmatch, Hbefore, Hde.
  set (index := (_activeItemIndex s + k) mod len (_items s)) in *.
  unfold matchesAt in Hmatch. simpl in Hmatch.
  destruct (item_at (_items s) index) as [it|] eqn:Eit; [|done].
  apply andb_true_iff in Hmatch as [_ Hmatch].
  destruct (getLabel it) as [label|] eqn:El; [|done].
  exists k, it, label. simpl. fold index.
  split; [done|]. split; [done|]. split; [done|]. split; [done|]. split.
  - intros j it' label' Hj Hit' Hl'. specialize (Hbefore j Hj).
    unfold matchesAt in Hbefore. simpl in Hbefore. rewrite Hit', Hl' in Hbefore.
    rewrite Hnoskip in Hbefore; [done|]. by apply item_at_elem_of in Hit'.
  - rewrite Hde. simpl. split; [done|].
    destruct (setActiveItem_fields (ByIndex index) s1) as (Hact & Hidx & _).
    rewrite Hact, Hidx. simpl. done.
Qed.

End WithCaseMapping.

Lemma typeahead_activates_first_match_witness :
  _typeaheadSubscription fruitsTypedAP = Some 200 /\
  _debouncePending fruitsTypedAP = true /\
  _pressedLetters fruitsTypedAP <> [] /\
  -1 <= _activeItemIndex fruitsTypedAP /\
  (forall item, item ∈ _items fruitsTypedAP ->
                onItem (_skipPredicateFn fruitsTypedAP) item = false) /\
  (forall item, item ∈ _items fruitsTypedAP -> getLabel item <> None) /\
  (exists item label,
      item ∈ _items fruitsTypedAP /\ getLabel item = Some label /\
      labelMatches (join (_pressedLetters fruitsTypedAP)) label = true) /\
  exists k item label,
    let index := (_activeItemIndex fruitsTypedAP + k) mod len (_items fruitsTypedAP) in
    1 <= k <= len (_items fruitsTypedAP) /\
    item_at (_items fruitsTypedAP) index = Some item /\
    getLabel item = Some label /\
    labelMatches (join (_pressedLetters fruitsTypedAP)) label = true /\
    (forall j item' label',
        1 <= j < k ->
        item_at (_items fruitsTypedAP)
                ((_activeItemIndex fruitsTypedAP + j) mod len (_items fruitsTypedAP))
        = Some item' ->
        getLabel item' = Some label' ->
        labelMatches (join (_pressedLetters fruitsTypedAP)) label' = false) /\
    isNormal (debounceElapsed fruitsTypedAP) = true /\
    _activeItem (stateOf (debounceElapsed fruitsTypedAP)) = Some item /\
    _activeItemIndex (stateOf (debounceElapsed fruitsTypedAP)) = index /\
    _pressedLetters (stateOf (debounceElapsed fruitsTypedAP)) = [] /\
    upperCasesAscii asciiCase /\
    _activeItem (stateOf (debounceElapsed fruitsTypedAP)) = Some (labelled 1 "Apple") /\
    _activeItemIndex (stateOf (debounceElapsed fruitsTypedAP)) = 1.
Proof.
  assert (H1 : _typeaheadSubscription fruitsTypedAP = Some 200) by reflexivity.
  assert (H2 : _debouncePending fruitsTypedAP = true) by reflexivity.
  assert (H3 : _pressedLetters fruitsTypedAP <> []) by (vm_compute; discriminate).
  assert (H4 : -1 <= _activeItemIndex fruitsTypedAP) by (vm_compute; discriminate).
  assert (Hitems : forall item, item ∈ _items fruitsTypedAP ->
                                item = labelled 0 "Banana" \/ item = labelled 1 "Apple" \/
                                item = labelled 2 "Apricot").
  { intros item Hin. change (_items fruitsTypedAP) with fruits in Hin. unfold fruits in Hin.
    repeat (apply elem_of_cons in Hin as [->|Hin]; [tauto|]). by apply elem_of_nil in Hin. }
  assert (H5 : forall item, item ∈ _items fruitsTypedAP ->
                            onItem (_skipPredicateFn fruitsTypedAP) item = false).
  { intros item Hin. destruct (Hitems item Hin) as [->|[->| ->]]; reflexivity. }
  assert (H6 : forall item, item ∈ _items fruitsTypedAP -> getLabel item <> None).
  { intros item Hin. destruct (Hitems item Hin) as [->|[->| ->]]; discriminate. }
  assert (H7 : exists item label,
             item ∈ _items fruitsTypedAP /\ getLabel item = Some label /\
             labelMatches (join (_pressedLetters fruitsTypedAP)) label = true).
  { exists (labelled 1 "Apple"), (str "Apple").
    split; [apply list_elem_of_further, list_elem_of_here|]. split; reflexivity. }
  split; [exact H1|]. split; [exact H2|]. split; [exact H3|]. split; [exact H4|].
  assert (H8 : upperCasesAscii asciiCase) by (intros s _; split; reflexivity).
  split; [exact H5|]. split; [exact H6|]. split; [exact H7|].
  destruct (proj1 typeahead_activates_first_match fruitsTypedAP 200 H1 H2 H3 H4 H5 H6 H7)
    as (k & item & label & Hk & Hi & Hl & Hm & Hb & Hn & Ha & Hx & Hp).
  exists k, item, label.
  split; [exact Hk|]. split; [exact Hi|]. split; [exact Hl|]. split; [exact Hm|].
  split; [exact Hb|]. split; [exact Hn|]. split; [exact Ha|]. split; [exact Hx|].
  split; [exact Hp|]. split; [exact H8|].
  exact (proj2 (proj2 (proj2 (proj2 typeahead_activates_first_match H8)))).
Defined.

End ListKeyManagerProofs.

(** ** ListKeyManager: navigation in detail *)

Module ListKeyManagerMoreProofs.
Import JsArray JsArrayFacts JsString ListKeyManager ListKeyManagerProofs ListKeyManagerMore.

(** The witnesses run on the case mapping of ASCII strings. *)
#[local] Existing Instance asciiCase.

(** *** The skip loop, walking up and walking down *)

Lemma whileSkipped_up fuel items skip index :
  0 <= index -> len items - index <= Z.of_nat fuel ->
  match whileSkipped fuel items skip index 1 with
  | Found f =>
      index <= f < len items /\
      (exists item, item_at items f = Some item /\ onItem skip item = false) /\
      (forall j, index <= j < f ->
                 exists item, item_at items j = Some item /\ onItem skip item = true)
  | Returned =>
      forall j, index <= j < len items ->
                exists item, item_at items j = Some item /\ onItem skip item = true
  | OutOfFuel => False
  end.
Proof.
  revert index. induction fuel as [|fuel IH]; intros index H0 Hf; simpl.
  - destruct (item_at items index) as [it|] eqn:E.
    + apply item_at_Some_range in E. lia.
    + intros j Hj. lia.
  - destruct (item_at items index) as [it|] eqn:E.
    + pose proof (item_at_Some_range _ _ _ E) as Hr.
      destruct (onItem skip it) eqn:Es.
      * specialize (IH (index + 1) ltac:(lia) ltac:(lia)).
        destruct (whileSkipped fuel items skip (index + 1) 1) as [f| |]; [| |done].
        -- destruct IH as (Hf' & Hen & Hbefore). split; [lia|]. split; [done|].
           intros j Hj. destruct (Z.eq_dec j index) as [->|Hne]; [eauto|].
           apply Hbefore. lia.
        -- intros j Hj. destruct (Z.eq_dec j index) as [->|Hne]; [eauto|].
           apply IH. lia.
      * split; [lia|]. split; [eauto|]. intros j Hj. lia.
    + intros j Hj. exfalso.
      destruct (item_at_in_range items index ltac:(lia)) as [x Hx]. congruence.
Qed.

Lemma whileSkipped_down fuel items skip index :
  index < len items -> index + 1 <= Z.of_nat fuel ->
  match whileSkipped fuel items skip index (-1) with
  | Found f =>
      0 <= f <= index /\
      (exists item, item_at items f = Some item /\ onItem skip item = false) /\
      (forall j, f < j <= index ->
                 exists item, item_at items j = Some item /\ onItem skip item = true)
  | Returned =>
      forall j, 0 <= j <= index ->
                exists item, item_at items j = Some item /\ onItem skip item = true
  | OutOfFuel => False
  end.
Proof.
  revert index. induction fuel as [|fuel IH]; intros index H0 Hf; simpl.
  - destruct (item_at items index) as [it|] eqn:E.
    + apply item_at_Some_range in E. lia.
    + intros j Hj. lia.
  - destruct (item_at items index) as [it|] eqn:E.
    + pose proof (item_at_Some_range _ _ _ E) as Hr.
      destruct (onItem skip it) eqn:Es.
      * specialize (IH (index + -1) ltac:(lia) ltac:(lia)).
        destruct (whileSkipped fuel items skip (index + -1) (-1)) as [f| |]; [| |done].
        -- destruct IH as (Hf' & Hen & Hbefore). split; [lia|]. split; [done|].
           intros j Hj. destruct (Z.eq_dec j index) as [->|Hne]; [eauto|].
           apply Hbefore. lia.
        -- intros j Hj. destruct (Z.eq_dec j index) as [->|Hne]; [eauto|].
           apply IH. lia.
      * split; [lia|]. split; [eauto|]. intros j Hj. lia.
    + intros j Hj. exfalso.
      destruct (item_at_in_range items index ltac:(lia)) as [x Hx]. congruence.
Qed.

Lemma enabledAt_Some s j :
  enabledAt s j = true <->
  exists item, item_at (_items s) j = Some item /\ onItem (_skipPredicateFn s) item = false.
Proof.
  unfold enabledAt. destruct (item_at (_items s) j) as [it|]; split.
  - intros H. exists it. split; [done|]. by apply negb_true_iff in H.
  - intros (it' & [= <-] & H). by rewrite H.
  - done.
  - by intros (it' & ? & _).
Qed.

Lemma skippedAt_Some s j :
  skippedAt s j = true <->
  exists item, item_at (_items s) j = Some item /\ onItem (_skipPredicateFn s) item = true.
Proof.
  unfold skippedAt. destruct (item_at (_items s) j) as [it|]; split.
  - intros H. by exists it.
  - by intros (it' & [= <-] & H).
  - done.
  - by intros (it' & ? & _).
Qed.

Lemma enabledAt_not_skipped s j : enabledAt s j = true -> skippedAt s j = true -> False.
Proof.
  unfold enabledAt, skippedAt. destruct (item_at (_items s) j) as [it|]; [|done].
  by destruct (onItem _ it).
Qed.

(** [_setActiveItemByIndex(index, 1)] from an index at or above 0. *)
Lemma setActiveItemByIndex_up index s :
  0 <= index ->
  (forall f, index <= f -> enabledAt s f = true ->
             (forall j, index <= j < f -> skippedAt s j = true) ->
             _setActiveItemByIndex index 1 s = setActiveItem (ByIndex f) s) /\
  ((forall j, index <= j < len (_items s) -> skippedAt s j = true) ->
   _setActiveItemByIndex index 1 s = s).
Proof.
  intros H0. unfold _setActiveItemByIndex, _getItemsArray.
  destruct (Z.le_gt_cases (len (_items s)) index) as [Hout|Hin].
  - assert (Hnone : item_at (_items s) index = None) by (by apply item_at_ge).
    assert (Hret : whileSkipped (length (_items s)) (_items s) (_skipPredicateFn s) index 1
                   = Returned).
    { destruct (length (_items s)); simpl; by rewrite Hnone. }
    rewrite Hret. split; [|done].
    intros f Hf Hen _. apply enabledAt_Some in Hen as (it & Hit & _).
    apply item_at_Some_range in Hit. lia.
  - pose proof (whileSkipped_up (length (_items s)) (_items s) (_skipPredicateFn s) index H0)
      as H.
    unfold len in *. specialize (H ltac:(lia)).
    destruct (whileSkipped _ _ _ _ _) as [g| |]; [| |done].
    + destruct H as (Hg & Hen & Hbefore). split.
      * intros f Hf Hf_en Hf_before.
        destruct (Z.lt_trichotomy f g) as [Hlt|[->|Hgt]]; [| done |].
        -- exfalso. apply (enabledAt_not_skipped s f Hf_en).
           apply skippedAt_Some. apply Hbefore. lia.
        -- exfalso. apply (enabledAt_not_skipped s g); [by apply enabledAt_Some|].
           apply Hf_before. lia.
      * intros Hall. exfalso. apply (enabledAt_not_skipped s g); [by apply enabledAt_Some|].
        apply Hall. lia.
    + split; [|done]. intros f Hf Hen _. exfalso.
      apply (enabledAt_not_skipped s f Hen). apply skippedAt_Some. apply H.
      apply enabledAt_Some in Hen as (it & Hit & _). apply item_at_Some_range in Hit.
      unfold len in Hit. lia.
Qed.

(** [_setActiveItemByIndex(index, -1)] from an index below the length. *)
Lemma setActiveItemByIndex_down index s :
  index < len (_items s) ->
  (forall f, f <= index -> enabledAt s f = true ->
             (forall j, f < j <= index -> skippedAt s j = true) ->
             _setActiveItemByIndex index (-1) s = setActiveItem (ByIndex f) s) /\
  ((forall j, 0 <= j <= index -> skippedAt s j = true) ->
   _setActiveItemByIndex index (-1) s = s).
Proof.
  intros Hlt. unfold _setActiveItemByIndex, _getItemsArray.
  destruct (Z.lt_ge_cases index 0) as [Hneg|Hpos].
  - assert (Hnone : item_at (_items s) index = None) by (by apply item_at_neg).
    assert (Hret : whileSkipped (length (_items s)) (_items s) (_skipPredicateFn s) index (-1)
                   = Returned).
    { destruct (length (_items s)); simpl; by rewrite Hnone. }
    rewrite Hret. split; [|done].
    intros f Hf Hen _. apply enabledAt_Some in Hen as (it & Hit & _).
    apply item_at_Some_range in Hit. lia.
  - pose proof (whileSkipped_down (length (_items s)) (_items s) (_skipPredicateFn s) index Hlt)
      as H.
    unfold len in *. specialize (H ltac:(lia)).
    destruct (whileSkipped _ _ _ _ _) as [g| |]; [| |done].
    + destruct H as (Hg & Hen & Hbefore). split.
      * intros f Hf Hf_en Hf_before.
        destruct (Z.lt_trichotomy f g) as [Hl|[->|Hgt]]; [| done |].
        -- exfalso. apply (enabledAt_not_skipped s g); [by apply enabledAt_Some|].
           apply Hf_before. lia.
        -- exfalso. apply (enabledAt_not_skipped s f Hf_en).
           apply skippedAt_Some. apply Hbefore. lia.
      * intros Hall. exfalso. apply (enabledAt_not_skipped s g); [by apply enabledAt_Some|].
        apply Hall. lia.
    + split; [|done]. intros f Hf Hen _. exfalso.
      apply (enabledAt_not_skipped s f Hen). apply skippedAt_Some. apply H.
      apply enabledAt_Some in Hen as (it & Hit & _). apply item_at_Some_range in Hit.
      lia.
Qed.

(** *** First and last *)

(** X1. [setFirstItemActive] activates the first item the skip predicate
    lets through and [setLastItemActive] the last one; when every item is
    skipped (or there is none) both leave the manager as it is. *)
Theorem first_and_last_enabled_item :
  forall (s : State),
    (forall f, enabledAt s f = true ->
               (forall j, 0 <= j < f -> skippedAt s j = true) ->
               setFirstItemActive s = Normal (setActiveItem (ByIndex f) s) /\
               _activeItemIndex (stateOf (setFirstItemActive s)) = f /\
               _activeItem (stateOf (setFirstItemActive s)) = item_at (_items s) f) /\
    (forall l, enabledAt s l = true ->
               (forall j, l < j < len (_items s) -> skippedAt s j = true) ->
               setLastItemActive s = Normal (setActiveItem (ByIndex l) s) /\
               _activeItemIndex (stateOf (setLastItemActive s)) = l /\
               _activeItem (stateOf (setLastItemActive s)) = item_at (_items s) l) /\
    ((forall j, 0 <= j < len (_items s) -> skippedAt s j = true) ->
     setFirstItemActive s = Normal s /\ setLastItemActive s = Normal s).
Proof.
  intros s.
  destruct (setActiveItemByIndex_up 0 s ltac:(lia)) as [Hup Hup0].
  destruct (setActiveItemByIndex_down (len (_items s) - 1) s ltac:(lia)) as [Hdown Hdown0].
  split; [|split].
  - intros f Hen Hbefore.
    assert (0 <= f).
    { apply enabledAt_Some in Hen as (it & Hit & _). apply item_at_Some_range in Hit. lia. }
    unfold setFirstItemActive. rewrite (Hup f) by done. simpl.
    split; [done|]. destruct (setActiveItem_index_active f s) as [-> ->]. done.
  - intros l Hen Hafter.
    assert (l < len (_items s)).
    { apply enabledAt_Some in Hen as (it & Hit & _). apply item_at_Some_range in Hit. lia. }
    unfold setLastItemActive. rewrite (Hdown l); [| lia | done | intros j Hj; apply Hafter; lia].
    simpl. split; [done|]. destruct (setActiveItem_index_active l s) as [-> ->]. done.
  - intros Hall. unfold setFirstItemActive, setLastItemActive.
    rewrite Hup0 by done. rewrite Hdown0; [done|]. intros j Hj. apply Hall. lia.
Qed.

Lemma first_and_last_enabled_item_witness :
  enabledAt (new gappy) 2 = true /\
  (forall j, 2 < j < len (_items (new gappy)) -> skippedAt (new gappy) j = true) /\
  setLastItemActive (new gappy) = Normal (setActiveItem (ByIndex 2) (new gappy)) /\
  _activeItemIndex (stateOf (setLastItemActive (new gappy))) = 2 /\
  _activeItem (stateOf (setLastItemActive (new gappy))) = item_at (_items (new gappy)) 2.
Proof.
  assert (H1 : enabledAt (new gappy) 2 = true) by reflexivity.
  assert (H2 : forall j, 2 < j < len (_items (new gappy)) -> skippedAt (new gappy) j = true).
  { intros j Hj. change (len (_items (new gappy))) with 5 in Hj.
    assert (j = 3 \/ j = 4) as [-> | ->] by lia; reflexivity. }
  split; [exact H1|]. split; [exact H2|].
  exact (proj1 (proj2 (first_and_last_enabled_item (new gappy))) 2 H1 H2).
Defined.

(** *** Next and previous without wrapping *)

(** X2. Without wrapping and with an active index [a >= 0],
    [setNextItemActive] activates the nearest non-skipped item after [a];
    [setPreviousItemActive], for [a] up to the length of the list,
    activates the nearest non-skipped item before [a]; when there is none
    in that direction the manager stays as it is.  With [a] beyond the
    length of the list [items[a - 1]] is missing, and
    [setPreviousItemActive] leaves the manager as it is whatever lies
    before.  Without an active item ([a < 0]) next activates like
    [setFirstItemActive] while previous does nothing. *)
Theorem next_and_previous_without_wrap :
  forall (s : State),
    _wrap s = false ->
    (0 <= _activeItemIndex s ->
     (forall f, _activeItemIndex s < f -> enabledAt s f = true ->
                (forall j, _activeItemIndex s < j < f -> skippedAt s j = true) ->
                setNextItemActive s = Normal (setActiveItem (ByIndex f) s)) /\
     ((forall j, _activeItemIndex s < j < len (_items s) -> skippedAt s j = true) ->
      setNextItemActive s = Normal s)) /\
    (0 <= _activeItemIndex s <= len (_items s) ->
     (forall f, f < _activeItemIndex s -> enabledAt s f = true ->
                (forall j, f < j < _activeItemIndex s -> skippedAt s j = true) ->
                setPreviousItemActive s = Normal (setActiveItem (ByIndex f) s)) /\
     ((forall j, 0 <= j < _activeItemIndex s -> skippedAt s j = true) ->
      setPreviousItemActive s = Normal s)) /\
    (len (_items s) < _activeItemIndex s -> setPreviousItemActive s = Normal s) /\
    (_activeItemIndex s < 0 ->
     setNextItemActive s = setFirstItemActive s /\ setPreviousItemActive s = Normal s).
Proof.
  intros s Hwrap.
  assert (Hmissing : item_at (_items s) (_activeItemIndex s + -1) = None ->
                     setPreviousItemActive s = Normal s).
  { intros Hnone.
    unfold setPreviousItemActive, _setActiveItemByDelta, _setActiveInDefaultMode.
    rewrite Hwrap, andb_false_r. unfold _setActiveItemByIndex, _getItemsArray.
    destruct (length (_items s)); simpl; by rewrite Hnone. }
  split; [|split; [|split]].
  - intros Ha.
    destruct (setActiveItemByIndex_up (_activeItemIndex s + 1) s ltac:(lia)) as [Hup Hup0].
    unfold setNextItemActive, _setActiveItemByDelta, _setActiveInDefaultMode.
    destruct (Z.ltb_spec (_activeItemIndex s) 0); [lia|]. rewrite Hwrap. split.
    + intros f Hf Hen Hbefore. rewrite (Hup f); [done | lia | done |].
      intros j Hj. apply Hbefore. lia.
    + intros Hall. rewrite Hup0; [done|]. intros j Hj. apply Hall. lia.
  - intros Ha.
    destruct (setActiveItemByIndex_down (_activeItemIndex s - 1) s ltac:(lia)) as [Hdn Hdn0].
    unfold setPreviousItemActive, _setActiveItemByDelta, _setActiveInDefaultMode.
    rewrite Hwrap, andb_false_r.
    replace (_activeItemIndex s + -1) with (_activeItemIndex s - 1) by lia. split.
    + intros f Hf Hen Hbefore. rewrite (Hdn f); [done | lia | done |].
      intros j Hj. apply Hbefore. lia.
    + intros Hall. rewrite Hdn0; [done|]. intros j Hj. apply Hall. lia.
  - intros Hbeyond. apply Hmissing. apply item_at_ge. lia.
  - intros Hneg. split.
    + unfold setNextItemActive. destruct (Z.ltb_spec (_activeItemIndex s) 0); [done | lia].
    + apply Hmissing. apply item_at_neg. lia.
Qed.

Lemma next_and_previous_without_wrap_witness :
  let s0 := setActiveItem (ByIndex 0) (new gappy) in
  let s2 := setActiveItem (ByIndex 2) (new gappy) in
  let s7 := setActiveItem (ByIndex 7) (new gappy) in
  (_wrap s0 = false /\ _wrap s2 = false /\ _wrap s7 = false) /\
  setNextItemActive s0 = Normal (setActiveItem (ByIndex 2) s0) /\
  setPreviousItemActive s2 = Normal (setActiveItem (ByIndex 0) s2) /\
  setNextItemActive s2 = Normal s2 /\
  setPreviousItemActive s0 = Normal s0 /\
  (len (_items s7) < _activeItemIndex s7 /\ enabledAt s7 2 = true /\
   setPreviousItemActive s7 = Normal s7) /\
  setPreviousItemActive (new gappy) = Normal (new gappy).
Proof.
  set (s0 := setActiveItem (ByIndex 0) (new gappy)).
  set (s2 := setActiveItem (ByIndex 2) (new gappy)).
  set (s7 := setActiveItem (ByIndex 7) (new gappy)).
  assert (W0 : _wrap s0 = false) by reflexivity.
  assert (W2 : _wrap s2 = false) by reflexivity.
  assert (W7 : _wrap s7 = false) by reflexivity.
  assert (Wn : _wrap (new gappy) = false) by reflexivity.
  pose proof (next_and_previous_without_wrap s0 W0) as (N0 & P0 & _ & _).
  pose proof (next_and_previous_without_wrap s2 W2) as (N2 & P2 & _ & _).
  pose proof (next_and_previous_without_wrap s7 W7) as (_ & _ & B7 & _).
  pose proof (next_and_previous_without_wrap (new gappy) Wn) as (_ & _ & _ & Neg).
  assert (A0 : 0 <= _activeItemIndex s0) by (vm_compute; discriminate).
  assert (A0' : 0 <= _activeItemIndex s0 <= len (_items s0))
    by (vm_compute; split; discriminate).
  assert (A2 : 0 <= _activeItemIndex s2) by (vm_compute; discriminate).
  assert (A2' : 0 <= _activeItemIndex s2 <= len (_items s2))
    by (vm_compute; split; discriminate).
  assert (A7 : len (_items s7) < _activeItemIndex s7) by reflexivity.
  assert (An : _activeItemIndex (new gappy) < 0) by reflexivity.
  split; [done|]. split; [|split; [|split; [|split; [|split]]]].
  - apply (proj1 (N0 A0) 2); [reflexivity | reflexivity |].
    intros j Hj. change (_activeItemIndex s0) with 0 in Hj.
    assert (j = 1) as -> by lia. reflexivity.
  - apply (proj1 (P2 A2') 0); [reflexivity | reflexivity |].
    intros j Hj. change (_activeItemIndex s2) with 2 in Hj.
    assert (j = 1) as -> by lia. reflexivity.
  - apply (proj2 (N2 A2)).
    intros j Hj. change (_activeItemIndex s2) with 2 in Hj.
    change (len (_items s2)) with 5 in Hj.
    assert (j = 3 \/ j = 4) as [-> | ->] by lia; reflexivity.
  - apply (proj2 (P0 A0')).
    intros j Hj. change (_activeItemIndex s0) with 0 in Hj. lia.
  - split; [exact A7|]. split; [reflexivity|]. exact (B7 A7).
  - exact (proj2 (Neg An)).
Defined.

(** *** Wrap mode *)

(** The loop of wrap mode stops at the first step [k] whose index holds a
    non-skipped item. *)
Lemma wrapScan_spec remaining i delta s :
  0 <= _activeItemIndex s -> 1 <= i -> i + Z.of_nat remaining <= len (_items s) + 1 ->
  delta = 1 \/ delta = -1 ->
  match wrapScan remaining i delta s with
  | Hit index =>
      exists k, i <= k < i + Z.of_nat remaining /\
                index = (_activeItemIndex s + delta * k) mod len (_items s) /\
                enabledAt s index = true /\
                forall j, i <= j < k ->
                          skippedAt s ((_activeItemIndex s + delta * j) mod len (_items s)) = true
  | Miss =>
      forall j, i <= j < i + Z.of_nat remaining ->
                skippedAt s ((_activeItemIndex s + delta * j) mod len (_items s)) = true
  | Raised _ => False
  end.
Proof.
  intros Ha. revert i. induction remaining as [|remaining IH]; intros i Hi Hr Hd; simpl;
    [intros j Hj; lia|].
  unfold _getItemsArray.
  assert (Hlen : 0 < len (_items s)) by lia.
  rewrite jsrem_mod by (destruct Hd as [-> | ->]; lia).
  assert (Hidx : (_activeItemIndex s + delta * i + len (_items s)) mod len (_items s)
                 = (_activeItemIndex s + delta * i) mod len (_items s)).
  { rewrite <- (Z.mul_1_l (len (_items s))) at 1. apply Z.mod_add. lia. }
  rewrite Hidx.
  set (index := (_activeItemIndex s + delta * i) mod len (_items s)).
  assert (Hrange : 0 <= index < len (_items s)) by (apply Z.mod_pos_bound; lia).
  destruct (item_at_in_range _ _ Hrange) as [it Hit]. rewrite Hit. simpl.
  destruct (onItem (_skipPredicateFn s) it) eqn:Es.
  - assert (Hsk : skippedAt s index = true) by (apply skippedAt_Some; eauto).
    specialize (IH (i + 1) ltac:(lia) ltac:(lia) Hd).
    destruct (wrapScan remaining (i + 1) delta s) as [g| |e]; [| |done].
    + destruct IH as (k & Hk & Hg & Hen & Hbefore).
      exists k. split; [lia|]. split; [done|]. split; [done|].
      intros j Hj. destruct (Z.eq_dec j i) as [->|Hne]; [done|]. apply Hbefore. lia.
    + intros j Hj. destruct (Z.eq_dec j i) as [->|Hne]; [done|]. apply IH. lia.
  - exists i. split; [lia|]. split; [done|]. split; [apply enabledAt_Some; eauto|].
    intros j Hj. lia.
Qed.

(** In wrap mode, from an active index [a >= 0], the step by [delta]
    activates the first non-skipped item of the cyclic walk. *)
Lemma setActiveInWrapMode_first delta s :
  0 <= _activeItemIndex s -> delta = 1 \/ delta = -1 ->
  (forall k, 1 <= k <= len (_items s) ->
             enabledAt s ((_activeItemIndex s + delta * k) mod len (_items s)) = true ->
             (forall j, 1 <= j < k ->
                        skippedAt s ((_activeItemIndex s + delta * j) mod len (_items s)) = true) ->
             _setActiveInWrapMode delta s =
             Normal (setActiveItem
                       (ByIndex ((_activeItemIndex s + delta * k) mod len (_items s))) s)) /\
  ((forall j, 1 <= j <= len (_items s) ->
              skippedAt s ((_activeItemIndex s + delta * j) mod len (_items s)) = true) ->
   _setActiveInWrapMode delta s = Normal s).
Proof.
  intros Ha Hd. unfold _setActiveInWrapMode, _getItemsArray.
  pose proof (wrapScan_spec (length (_items s)) 1 delta s Ha ltac:(lia)) as H.
  unfold len in *. specialize (H ltac:(lia) Hd).
  destruct (wrapScan _ _ _ _) as [g| |e]; [| |done].
  - destruct H as (k0 & Hk0 & -> & Hen0 & Hbefore0). split.
    + intros k Hk Hen Hbefore.
      destruct (Z.lt_trichotomy k k0) as [Hlt|[->|Hgt]]; [| done |].
      * exfalso. apply (enabledAt_not_skipped s _ Hen). apply Hbefore0. lia.
      * exfalso. apply (enabledAt_not_skipped s _ Hen0). apply Hbefore. lia.
    + intros Hall. exfalso. apply (enabledAt_not_skipped s _ Hen0). apply Hall. lia.
  - split; [|done]. intros k Hk Hen _. exfalso.
    apply (enabledAt_not_skipped s _ Hen). apply H. lia.
Qed.

(** X3. From the last non-skipped item of the list (every item after the
    active index is skipped), [setNextItemActive] with wrapping activates
    the first non-skipped item of the list, and without wrapping it leaves
    the manager as it is. *)
Theorem next_from_last_enabled_item :
  forall (s : State) (f : Z),
    0 <= _activeItemIndex s < len (_items s) ->
    (forall j, _activeItemIndex s < j < len (_items s) -> skippedAt s j = true) ->
    enabledAt s f = true ->
    (forall j, 0 <= j < f -> skippedAt s j = true) ->
    (_wrap s = true ->
     setNextItemActive s = Normal (setActiveItem (ByIndex f) s) /\
     _activeItemIndex (stateOf (setNextItemActive s)) = f /\
     _activeItem (stateOf (setNextItemActive s)) = item_at (_items s) f) /\
    (_wrap s = false -> setNextItemActive s = Normal s).
Proof.
  intros s f Ha Hafter Hen Hbefore.
  set (a := _activeItemIndex s) in *. set (n := len (_items s)) in *.
  assert (Hf : 0 <= f <= a).
  { pose proof Hen as Hen'. apply enabledAt_Some in Hen' as (it & Hit & _).
    apply item_at_Some_range in Hit. fold n in Hit.
    destruct (Z.le_gt_cases f a); [lia|]. exfalso.
    apply (enabledAt_not_skipped s f Hen). apply Hafter. lia. }
  split.
  - intros Hwrap.
    destruct (setActiveInWrapMode_first 1 s ltac:(fold a; lia) ltac:(by left))
      as [Hfirst _].
    fold a n in Hfirst.
    assert (Hk : (a + 1 * (n - a + f)) mod n = f).
    { replace (a + 1 * (n - a + f)) with (f + 1 * n) by lia.
      rewrite Z.mod_add by lia. apply Z.mod_small. lia. }
    assert (Hnext : setNextItemActive s = Normal (setActiveItem (ByIndex f) s)).
    { unfold setNextItemActive, _setActiveItemByDelta. fold a.
      destruct (Z.ltb_spec a 0); [lia|]. rewrite Hwrap.
      rewrite (Hfirst (n - a + f)); [by rewrite Hk | lia | by rewrite Hk |].
      intros j Hj. destruct (Z.lt_ge_cases (a + j) n) as [Hlow|Hhigh].
      - replace (a + 1 * j) with (a + j) by lia. rewrite Z.mod_small by lia.
        apply Hafter. lia.
      - replace (a + 1 * j) with ((a + j - n) + 1 * n) by lia.
        rewrite Z.mod_add by lia. rewrite Z.mod_small by lia. apply Hbefore. lia. }
    rewrite Hnext. simpl. split; [done|].
    destruct (setActiveItem_index_active f s) as [-> ->]. done.
  - intros Hwrap.
    destruct (setActiveItemByIndex_up (a + 1) s ltac:(lia)) as [_ Hup0].
    unfold setNextItemActive, _setActiveItemByDelta, _setActiveInDefaultMode. fold a.
    destruct (Z.ltb_spec a 0); [lia|]. rewrite Hwrap.
    rewrite Hup0; [done|]. intros j Hj. apply Hafter. lia.
Qed.

Lemma next_from_last_enabled_item_witness :
  let s := setActiveItem (ByIndex 2) (withWrap true (new gappy)) in
  0 <= _activeItemIndex s < len (_items s) /\
  (forall j, _activeItemIndex s < j < len (_items s) -> skippedAt s j = true) /\
  enabledAt s 0 = true /\
  (forall j, 0 <= j < 0 -> skippedAt s j = true) /\
  (_wrap s = true ->
   setNextItemActive s = Normal (setActiveItem (ByIndex 0) s) /\
   _activeItemIndex (stateOf (setNextItemActive s)) = 0 /\
   _activeItem (stateOf (setNextItemActive s)) = item_at (_items s) 0).
Proof.
  set (s := setActiveItem (ByIndex 2) (withWrap true (new gappy))).
  assert (H1 : 0 <= _activeItemIndex s < len (_items s)) by (vm_compute; split; discriminate || reflexivity).
  assert (H2 : forall j, _activeItemIndex s < j < len (_items s) -> skippedAt s j = true).
  { intros j Hj. change (_activeItemIndex s) with 2 in Hj.
    change (len (_items s)) with 5 in Hj.
    assert (j = 3 \/ j = 4) as [-> | ->] by lia; reflexivity. }
  assert (H3 : enabledAt s 0 = true) by reflexivity.
  assert (H4 : forall j, 0 <= j < 0 -> skippedAt s j = true) by (intros j Hj; lia).
  split; [exact H1|]. split; [exact H2|]. split; [exact H3|]. split; [exact H4|].
  exact (proj1 (next_from_last_enabled_item s 0 H1 H2 H3 H4)).
Defined.

(** *** The collection changes *)

Lemma indexOf_member {A : Type} `{EqDecision A} (arr : list A) (x : A) :
  x ∈ arr -> 0 <= indexOf arr x /\ item_at arr (indexOf arr x) = Some x.
Proof.
  intros Hin. apply list_elem_of_split_l in Hin as (l1 & l2 & -> & Hl1).
  unfold indexOf. rewrite index_from_present by done. rewrite Z.add_0_l.
  split; [apply len_nonneg|]. unfold len. rewrite item_at_nat.
  by rewrite list_lookup_middle.
Qed.

(** X4. When the [QueryList] changes, the active item stays the same
    object and nothing is emitted; if that item is still in the list the
    active index moves to its (first) position there, and if it is gone, or
    there is no active item, the index is left as it was. *)
Theorem queryListChanged_resyncs_index :
  forall (newItems : list ListKeyManagerOption) (s : State),
    let s' := queryListChanged newItems s in
    _items s' = newItems /\ _activeItem s' = _activeItem s /\ change s' = change s /\
    (forall item, _activeItem s = Some item -> item ∈ newItems ->
                  _activeItemIndex s' = indexOf newItems item /\
                  item_at (_items s') (_activeItemIndex s') = _activeItem s') /\
    (forall item, _activeItem s = Some item -> item ∉ newItems ->
                  _activeItemIndex s' = _activeItemIndex s) /\
    (_activeItem s = None -> _activeItemIndex s' = _activeItemIndex s).
Proof.
  intros newItems s. unfold queryListChanged. simpl.
  destruct (_activeItem s) as [it|] eqn:Ea.
  2: { simpl. repeat split; try done. }
  destruct (Z.ltb_spec (-1) (indexOf newItems it)) as [Hfound|Hmissing]; simpl.
  - destruct (Z.eqb_spec (indexOf newItems it) (_activeItemIndex s)) as [Hsame|Hdiff]; simpl.
    + split; [done|]. split; [done|]. split; [done|]. split; [|split].
      * intros x [= <-] Hin. split; [done|]. rewrite <- Hsame, Ea. by apply indexOf_member.
      * intros x [= <-] Hnin. done.
      * done.
    + split; [done|]. split; [done|]. split; [done|]. split; [|split].
      * intros x [= <-] Hin. split; [done|]. rewrite ?Ea. by apply indexOf_member.
      * intros x [= <-] Hnin. exfalso.
        unfold indexOf in Hfound. rewrite index_from_absent in Hfound by done. lia.
      * done.
  - split; [done|]. split; [done|]. split; [done|]. split; [|split].
    + intros x [= <-] Hin. apply indexOf_member in Hin. lia.
    + done.
    + done.
Qed.

Lemma queryListChanged_resyncs_index_witness :
  let s := setActiveItem (ByIndex 2) (new fruits) in
  let newItems := [labelled 2 "Apricot"; labelled 0 "Banana"] in
  _activeItem s = Some (labelled 2 "Apricot") /\
  labelled 2 "Apricot" ∈ newItems /\
  _activeItemIndex (queryListChanged newItems s) = indexOf newItems (labelled 2 "Apricot") /\
  item_at (_items (queryListChanged newItems s)) (_activeItemIndex (queryListChanged newItems s))
  = _activeItem (queryListChanged newItems s).
Proof.
  set (s := setActiveItem (ByIndex 2) (new fruits)).
  set (newItems := [labelled 2 "Apricot"; labelled 0 "Banana"]).
  assert (H1 : _activeItem s = Some (labelled 2 "Apricot")) by reflexivity.
  assert (H2 : labelled 2 "Apricot" ∈ newItems) by apply list_elem_of_here.
  split; [exact H1|]. split; [exact H2|].
  exact (proj1 (proj2 (proj2 (proj2 (queryListChanged_resyncs_index newItems s))))
               (labelled 2 "Apricot") H1 H2).
Defined.

(** *** The change stream *)

Lemma changeRule_refl s : changeRule s s.
Proof. unfold changeRule. by rewrite bool_decide_eq_true_2. Qed.

Lemma changeRule_setActiveItem arg s : changeRule s (setActiveItem arg s).
Proof.
  unfold changeRule, setActiveItem.
  destruct (bool_decide (_activeItem (updateActiveItem arg s) = _activeItem s)) eqn:E.
  - apply bool_decide_eq_true in E. by rewrite bool_decide_eq_true_2.
  - apply bool_decide_eq_false in E. simpl. by rewrite bool_decide_eq_false_2.
Qed.

Lemma changeRule_moved s s' : moved s s' -> changeRule s s'.
Proof.
  intros [->|(i & it & _ & _ & ->)]; [apply changeRule_refl | apply changeRule_setActiveItem].
Qed.

(** The rule only looks at the active item, the active index and the
    stream. *)
Lemma changeRule_ext s0 s s1 s' :
  _activeItem s0 = _activeItem s -> change s0 = change s ->
  _activeItem s' = _activeItem s1 -> _activeItemIndex s' = _activeItemIndex s1 ->
  change s' = change s1 ->
  changeRule s0 s1 -> changeRule s s'.
Proof. unfold changeRule. by intros <- <- -> -> ->. Qed.

Section WithCaseMapping.
Context {rt : CaseMapping}.

(** X5. The [change] stream emits exactly when the active item becomes a
    different object, and then the new active index: this holds for
    [setActiveItem], the four navigation methods, [onKeydown] and the
    typeahead activation.  [updateActiveItem] never emits. *)
Theorem change_emits_iff_active_item_changes :
  forall (s : State),
    (forall arg, changeRule s (setActiveItem arg s)) /\
    (forall n, changeRule s (stateOf (navigate n s))) /\
    (forall event, changeRule s (stateOf (completion (onKeydown event s)))) /\
    changeRule s (stateOf (debounceElapsed s)) /\
    (forall arg, change (updateActiveItem arg s) = change s).
Proof.
  intros s. split; [|split; [|split; [|split]]].
  - intros arg. apply changeRule_setActiveItem.
  - intros n. destruct (navigate_moved n s) as (s' & -> & Hm). by apply changeRule_moved.
  - intros event. destruct (Z.eq_dec (keyCode event) Keycodes.TAB) as [Htab|Htab].
    + unfold onKeydown. rewrite Htab. simpl. apply (changeRule_ext s s s); try done.
      apply changeRule_refl.
    + destruct (navigationFor event s) as [n|] eqn:En.
      * rewrite (onKeydown_navigation event s n Htab En).
        destruct (navigate_moved n s) as (s' & -> & Hm). simpl.
        apply (changeRule_ext s s s'); try done. by apply changeRule_moved.
      * destruct (onKeydown_other event s Htab En) as (_ & s' & -> & Hs'). simpl.
        destruct Hs' as [->|[letter ->]]; [apply changeRule_refl|].
        destruct (letterKeyStream_next_fields letter s) as (Ha & Hi & Hc & _).
        apply (changeRule_ext s s s); try done. apply changeRule_refl.
  - unfold debounceElapsed.
    destruct (_typeaheadSubscription s) as [interval|]; [|apply changeRule_refl].
    destruct (_debouncePending s); [|apply changeRule_refl].
    set (s1 := set_typeahead (Some interval) false s).
    destruct (0 <? _).
    + unfold typeaheadSearch.
      destruct (typeaheadScan _ _ _ _) as [index| |e]; simpl.
      * apply (changeRule_ext s1 s (setActiveItem (ByIndex index) s1)); try done.
        apply changeRule_setActiveItem.
      * apply (changeRule_ext s s s); try done. apply changeRule_refl.
      * apply (changeRule_ext s s s); try done. apply changeRule_refl.
    + apply (changeRule_ext s s s); try done. apply changeRule_refl.
  - intros arg. reflexivity.
Qed.

(** *** Modifier keys *)

Lemma disallowed_not_allowed event s :
  disallowedNonShiftHeld event s = true -> isModifierAllowed event s = false.
Proof.
  unfold disallowedNonShiftHeld, isModifierAllowed. simpl.
  destruct (evAltKey event), (evCtrlKey event), (evMetaKey event);
    destruct (-1 <? indexOf (_allowedModifierKeys s) altKey);
    destruct (-1 <? indexOf (_allowedModifierKeys s) ctrlKey);
    destruct (-1 <? indexOf (_allowedModifierKeys s) metaKey); simpl; try done.
Qed.

(** On a key the [switch] has no case for, [onKeydown] only decides
    whether to hand a letter to the typeahead stream. *)
Lemma onKeydown_default event s :
  isSwitchKey (keyCode event) = false ->
  onKeydown event s =
  mkResult (Normal (if isModifierAllowed event s || evShiftKey event
                    then feedLetter event s else s)) false.
Proof.
  unfold isSwitchKey, isNavigationKey, onKeydown, feedLetter, letterOf, hasModifierKey.
  simpl. rewrite orb_false_r.
  intros H.
  repeat match goal with
         | Hx : (_ || _) = false |- _ => apply orb_false_iff in Hx as [? ?]
         end.
  repeat match goal with
         | Hx : (_ =? _) = false |- _ => rewrite Hx; clear Hx
         end.
  destruct (isModifierAllowed event s || evShiftKey event); [|done].
  destruct (key event) as [k|].
  - destruct (_ =? _)%nat; [done|]. by destruct (_ || _).
  - by destruct (_ || _).
Qed.

(** X6. While Alt, Control or Meta is held without being allowed, a key
    other than Tab does nothing: arrows, Home and End do not navigate and a
    printable key is not buffered, unless Shift is held as well, in which
    case the printable key still reaches the typeahead buffer.  The event
    is never consumed. *)
Theorem disallowed_modifier_passes_through :
  forall (event : KeyboardEvent) (s : State),
    keyCode event <> Keycodes.TAB ->
    disallowedNonShiftHeld event s = true ->
    defaultPrevented (onKeydown event s) = false /\
    (isNavigationKey (keyCode event) = true -> onKeydown event s = mkResult (Normal s) false) /\
    (evShiftKey event = false -> onKeydown event s = mkResult (Normal s) false) /\
    (isNavigationKey (keyCode event) = false -> evShiftKey event = true ->
     onKeydown event s = mkResult (Normal (feedLetter event s)) false).
Proof.
  intros event s Htab Hdis.
  pose proof (disallowed_not_allowed event s Hdis) as Hna.
  assert (Hnav : navigationFor event s = None).
  { unfold navigationFor. rewrite Hna, !andb_false_r. by key_cases. }
  assert (Hcase : isNavigationKey (keyCode event) = true ->
                  onKeydown event s = mkResult (Normal s) false).
  { intros Hk. unfold onKeydown. rewrite Hna, !andb_false_r.
    destruct (Z.eqb_spec (keyCode event) Keycodes.TAB); [done|].
    revert Hk. unfold isNavigationKey. by key_cases. }
  assert (Hother : isNavigationKey (keyCode event) = false ->
                   onKeydown event s =
                   mkResult (Normal (if evShiftKey event then feedLetter event s else s)) false).
  { intros Hk. rewrite onKeydown_default; [by rewrite Hna|].
    unfold isSwitchKey. rewrite Hk, orb_false_r. by apply Z.eqb_neq. }
  split; [|split; [|split]].
  - by destruct (onKeydown_other event s Htab Hnav) as [-> _].
  - done.
  - intros Hshift. destruct (isNavigationKey (keyCode event)) eqn:Ek; [by apply Hcase|].
    rewrite Hother by done. by rewrite Hshift.
  - intros Hk Hshift. rewrite Hother by done. by rewrite Hshift.
Qed.

End WithCaseMapping.

Lemma disallowed_modifier_passes_through_witness :
  let s := stateOf (withTypeAhead None 200 (new fruits)) in
  let event := ctrlKey_event Keycodes.A "a" true in
  keyCode event <> Keycodes.TAB /\
  disallowedNonShiftHeld event s = true /\
  isNavigationKey (keyCode event) = false /\ evShiftKey event = true /\
  onKeydown event s = mkResult (Normal (feedLetter event s)) false /\
  _pressedLetters (feedLetter event s) = [str "A"].
Proof.
  set (s := stateOf (withTypeAhead None 200 (new fruits))).
  set (event := ctrlKey_event Keycodes.A "a" true).
  assert (H1 : keyCode event <> Keycodes.TAB) by (vm_compute; discriminate).
  assert (H2 : disallowedNonShiftHeld event s = true) by reflexivity.
  assert (H3 : isNavigationKey (keyCode event) = false) by reflexivity.
  assert (H4 : evShiftKey event = true) by reflexivity.
  split; [exact H1|]. split; [exact H2|]. split; [exact H3|]. split; [exact H4|].
  split; [|reflexivity].
  exact (proj2 (proj2 (proj2 (disallowed_modifier_passes_through event s H1 H2))) H3 H4).
Defined.

Section WithCaseMapping.
Context {rt : CaseMapping}.

(** *** Navigation and the typeahead buffer *)

Lemma debounceElapsed_empty_buffer s :
  _pressedLetters s = [] ->
  exists s', debounceElapsed s = Normal s' /\
             _activeItem s' = _activeItem s /\ _activeItemIndex s' = _activeItemIndex s /\
             change s' = change s /\ _pressedLetters s' = [] /\ _debouncePending s' = false \/
             (debounceElapsed s = Normal s' /\ s' = s).
Proof.
  intros Hempty. unfold debounceElapsed.
  destruct (_typeaheadSubscription s) as [interval|]; [|exists s; by right].
  destruct (_debouncePending s); [|exists s; by right].
  simpl. rewrite Hempty. simpl. eexists. left. by repeat split.
Qed.

(** X7. A navigation key that passes its guard empties the typeahead
    buffer, so the debounce that was pending finds nothing to search for:
    when it elapses the active item, the active index and the [change]
    stream stay as the navigation left them.  Tab and the keys that do not
    navigate leave the letters typed so far in the buffer. *)
Theorem navigation_discards_typed_letters :
  forall (event : KeyboardEvent) (s : State),
    let s1 := stateOf (completion (onKeydown event s)) in
    (keyCode event <> Keycodes.TAB ->
     forall n, navigationFor event s = Some n ->
       _pressedLetters s1 = [] /\ isTyping s1 = false /\
       exists s2, debounceElapsed s1 = Normal s2 /\
                  _activeItem s2 = _activeItem s1 /\
                  _activeItemIndex s2 = _activeItemIndex s1 /\
                  change s2 = change s1 /\ _pressedLetters s2 = []) /\
    (keyCode event = Keycodes.TAB -> _pressedLetters s1 = _pressedLetters s) /\
    (keyCode event <> Keycodes.TAB -> navigationFor event s = None ->
     exists typed, _pressedLetters s1 = _pressedLetters s ++ typed).
Proof.
  intros event s s1. split; [|split].
  - intros Htab n Hn.
    assert (Hempty : _pressedLetters s1 = []).
    { unfold s1. rewrite (onKeydown_navigation event s n Htab Hn).
      by destruct (navigate_moved n s) as (s' & -> & _). }
    split; [done|]. split; [unfold isTyping; by rewrite Hempty|].
    destruct (debounceElapsed_empty_buffer s1 Hempty) as (s2 & [H|[H ->]]).
    + exists s2. destruct H as (? & ? & ? & ? & ? & _). done.
    + by exists s1.
  - intros Htab. unfold s1, onKeydown. by rewrite Htab.
  - intros Htab Hnone. unfold s1.
    destruct (onKeydown_other event s Htab Hnone) as (_ & s' & -> & Hs'). simpl.
    destruct Hs' as [->|[letter ->]]; [exists []; by rewrite app_nil_r|].
    unfold letterKeyStream_next. destruct (_typeaheadSubscription s); simpl.
    + by exists [letter].
    + exists []. by rewrite app_nil_r.
Qed.

End WithCaseMapping.

Lemma navigation_discards_typed_letters_witness :
  let event := plainKey Keycodes.DOWN_ARROW (Some "ArrowDown"%string) in
  let s1 := stateOf (completion (onKeydown event fruitsTypedAP)) in
  keyCode event <> Keycodes.TAB /\
  navigationFor event fruitsTypedAP = Some Next /\
  _pressedLetters fruitsTypedAP = [str "A"; str "P"] /\
  _pressedLetters s1 = [] /\ isTyping s1 = false /\
  exists s2, debounceElapsed s1 = Normal s2 /\
             _activeItem s2 = _activeItem s1 /\
             _activeItemIndex s2 = _activeItemIndex s1 /\
             change s2 = change s1 /\ _pressedLetters s2 = [].
Proof.
  set (event := plainKey Keycodes.DOWN_ARROW (Some "ArrowDown"%string)).
  assert (H1 : keyCode event <> Keycodes.TAB) by (vm_compute; discriminate).
  assert (H2 : navigationFor event fruitsTypedAP = Some Next) by reflexivity.
  split; [exact H1|]. split; [exact H2|]. split; [reflexivity|].
  exact (proj1 (navigation_discards_typed_letters event fruitsTypedAP) H1 Next H2).
Defined.

End ListKeyManagerMoreProofs.

(** ** FocusTrapManager: re-registration, removal, and the heap as a whole *)

Module FocusTrapManagerMoreProofs.
Import JsArray JsArrayFacts FocusTrapManager FocusTrapManagerProofs FocusTrapManagerMore.

Ltac solve_set := unfold ManagedFocusTrap in *; set_solver.

Lemma without_idem t stack : without t (without t stack) = without t stack.
Proof. unfold without. apply dedup_absent, dedup_removes. Qed.

Lemma without_app t l1 l2 : without t (l1 ++ l2) = without t l1 ++ without t l2.
Proof. unfold without. apply List.filter_app. Qed.

Lemma without_self t : without t [t] = [].
Proof. unfold without. simpl. by rewrite Nat.eqb_refl. Qed.

(** X8. Registering a trap twice in a row is the same as registering it
    once, from any state; after [register] the trap is the top of the
    stack and the stack holds it and the traps it held before. *)
Theorem register_is_idempotent :
  forall (T : ManagedFocusTrap) (s : State),
    register T (register T s) = register T s /\
    last (_focusTrapStack (register T s)) = Some T /\
    (forall u, u ∈ _focusTrapStack (register T s) <-> u = T \/ u ∈ _focusTrapStack s).
Proof.
  intros T s. rewrite !register_refines_spec. unfold register_spec. simpl.
  repeat change (List.filter (fun ft => negb (Nat.eqb ft T)) ?l) with (without T l).
  rewrite without_app, without_idem, without_self, app_nil_r.
  set (deduped := without T (_focusTrapStack s)).
  unfold ManagedFocusTrap in *.
  split; [|split].
  - f_equal. destruct (last deduped) as [top|] eqn:Etop.
    + assert (Hne : top <> T).
      { intros ->. apply (dedup_removes T (_focusTrapStack s)).
        apply last_Some in Etop as [l' Hl']. fold (without T (_focusTrapStack s)).
        fold deduped. rewrite Hl'. apply elem_of_app. right. apply list_elem_of_here. }
      solve_set.
    + solve_set.
  - apply last_snoc.
  - intros u. rewrite elem_of_app, list_elem_of_singleton. unfold deduped, without.
    rewrite elem_of_list_filter, dedup_keeps.
    destruct (decide (u = T)); tauto.
Qed.

(** Removing the one occurrence of a trap is what [without] computes. *)
Lemma without_middle t l1 l2 :
  t ∉ l1 -> t ∉ l2 -> without t (l1 ++ t :: l2) = l1 ++ l2.
Proof.
  intros H1 H2. change (t :: l2) with ([t] ++ l2).
  rewrite !without_app, without_self. simpl.
  unfold without. by rewrite !dedup_absent.
Qed.

Lemma deregister_stack_ok t s :
  stack_ok s ->
  _focusTrapStack (deregister t s) = without t (_focusTrapStack s) /\
  (t ∉ _focusTrapStack (deregister t s)) /\
  isEnabled t (deregister t s) = false.
Proof.
  intros [Hnd Hen]. destruct s as [stack h]. simpl in *.
  destruct (decide (t ∈ stack)) as [Hin|Hnin].
  - apply list_elem_of_split_l in Hin as (l1 & l2 & -> & Hl1).
    rewrite deregister_present by done.
    apply NoDup_app in Hnd as (Hnd1 & Hdisj & Hnd2).
    apply NoDup_cons in Hnd2 as [Hl2 Hnd2].
    assert (Hnin : t ∉ l1 ++ l2) by (rewrite elem_of_app; tauto).
    simpl. split; [by rewrite without_middle|]. split; [done|].
    unfold isEnabled. simpl. apply bool_decide_eq_false.
    destruct (last (l1 ++ l2)) as [top|] eqn:Etop; [|solve_set].
    assert (top ∈ l1 ++ l2).
    { apply last_Some in Etop as [l' ->]. apply elem_of_app. right. apply list_elem_of_here. }
    assert (top <> t) by congruence. solve_set.
  - rewrite deregister_absent by done. simpl.
    split; [unfold without; rewrite dedup_absent; done|]. split; [done|].
    unfold isEnabled. simpl. apply bool_decide_eq_false. solve_set.
Qed.

(** X9. In every state the manager can reach, [deregister] takes the trap
    off the stack, leaves the other traps in their order, and leaves the
    trap disabled. *)
Theorem deregister_removes_and_disables :
  forall (cs : list Call) (h : gset ManagedFocusTrap) (T : ManagedFocusTrap),
    let s := run cs (init h) in
    _focusTrapStack (deregister T s) = without T (_focusTrapStack s) /\
    (T ∉ _focusTrapStack (deregister T s)) /\
    isEnabled T (deregister T s) = false.
Proof.
  intros cs h T s. apply deregister_stack_ok, stack_ok_run, stack_ok_init.
Qed.

(** *** The enabled traps, on and off the stack *)

Lemma topOnly_snoc stack t : topOnly (stack ++ [t]) = {[ t ]}.
Proof. unfold topOnly. by rewrite last_snoc. Qed.

Lemma last_elem_of {A : Type} (l : list A) (x : A) : last l = Some x -> x ∈ l.
Proof.
  intros H. apply last_Some in H as [l' ->]. apply elem_of_app. right. apply list_elem_of_here.
Qed.

Lemma topOnly_register t s :
  enabledTraps s = topOnly (_focusTrapStack s) ->
  enabledTraps (register t s) = topOnly (_focusTrapStack (register t s)).
Proof.
  intros Hh. rewrite register_refines_spec. unfold register_spec. simpl.
  rewrite topOnly_snoc, Hh. unfold topOnly.
  destruct (last (_focusTrapStack s)) as [top|] eqn:Etop.
  - destruct (decide (top = t)) as [->|Hne].
    + destruct (last (List.filter _ _)); solve_set.
    + rewrite (last_list_filter _ _ top Etop) by (by apply dedup_keeps). solve_set.
  - destruct (last (List.filter _ _)); solve_set.
Qed.

Lemma topOnly_deregister t s :
  stack_ok s ->
  enabledTraps s = topOnly (_focusTrapStack s) ->
  enabledTraps (deregister t s) = topOnly (_focusTrapStack (deregister t s)).
Proof.
  intros [Hnd _] Hh. destruct s as [stack h]. simpl in *. subst h.
  destruct (decide (t ∈ stack)) as [Hin|Hnin].
  - apply list_elem_of_split_l in Hin as (l1 & l2 & -> & Hl1).
    rewrite deregister_present by done. simpl.
    apply NoDup_app in Hnd as (Hnd1 & Hdisj & Hnd2).
    apply NoDup_cons in Hnd2 as [Hl2 Hnd2].
    unfold topOnly.
    destruct l2 as [|x l2] using rev_ind.
    + rewrite app_nil_r. change (l1 ++ [t]) with (l1 ++ [t]). rewrite last_snoc.
      destruct (last l1); solve_set.
    + rewrite app_assoc, last_snoc.
      change (t :: l2 ++ [x]) with ((t :: l2) ++ [x]). rewrite app_assoc, last_snoc.
      assert (x <> t).
      { intros ->. apply Hl2. apply elem_of_app. right. apply list_elem_of_here. }
      solve_set.
  - rewrite deregister_absent by done. simpl. unfold topOnly.
    destruct (last stack) as [top|] eqn:Etop; [|solve_set].
    apply last_elem_of in Etop. assert (top <> t) by congruence. solve_set.
Qed.

Lemma topOnly_run cs s0 :
  stack_ok s0 -> enabledTraps s0 = topOnly (_focusTrapStack s0) ->
  enabledTraps (run cs s0) = topOnly (_focusTrapStack (run cs s0)).
Proof.
  revert s0. induction cs as [|c cs IH]; intros s0 Hok Hh; [done|].
  simpl. destruct c; apply IH.
  - by apply stack_ok_register.
  - by apply topOnly_register.
  - by apply stack_ok_deregister.
  - by apply topOnly_deregister.
Qed.

(** X10. On a manager that starts with no trap enabled, after any sequence
    of calls the enabled traps are exactly the top of the stack: no trap
    below the top and no trap off the stack is enabled. *)
Theorem only_the_top_is_enabled :
  forall (cs : list Call),
    let s := run cs (init ∅) in
    enabledTraps s = topOnly (_focusTrapStack s) /\
    (forall t, isEnabled t s = true <-> last (_focusTrapStack s) = Some t).
Proof.
  intros cs s.
  assert (Hh : enabledTraps s = topOnly (_focusTrapStack s)).
  { apply topOnly_run; [apply stack_ok_init | done]. }
  split; [done|].
  intros t. unfold isEnabled. rewrite bool_decide_eq_true, Hh. unfold topOnly.
  destruct (last (_focusTrapStack s)) as [top|]; [|solve_set].
  rewrite elem_of_singleton. split; congruence.
Qed.

End FocusTrapManagerMoreProofs.

(** ** FocusTrap: the [enabled] setter, the anchors, and [destroy] *)

Module FocusTrapMoreProofs.
Import Dom FocusTrap FocusTrapProofs FocusTrapMore.

(** *** Attributes, classes and listeners under updates of the store *)

Lemma getAttribute_updNode_ne f n d m k :
  n <> m -> getAttribute (updNode f n d) m k = getAttribute d m k.
Proof. intros Hne. unfold getAttribute. by rewrite lookup_updNode, decide_False. Qed.

Lemma getAttribute_updNode_keep f n d m k :
  (forall r, nAttributes (f r) = nAttributes r) ->
  getAttribute (updNode f n d) m k = getAttribute d m k.
Proof.
  intros Hf. unfold getAttribute. rewrite lookup_updNode.
  destruct (decide (n = m)) as [->|]; [|done].
  destruct (nodes d !! m); simpl; [by rewrite Hf | done].
Qed.

Lemma classList_updNode_ne f n d m :
  n <> m -> classList (updNode f n d) m = classList d m.
Proof. intros Hne. unfold classList. by rewrite lookup_updNode, decide_False. Qed.

Lemma classList_updNode_keep f n d m :
  (forall r, nClassList (f r) = nClassList r) ->
  classList (updNode f n d) m = classList d m.
Proof.
  intros Hf. unfold classList. rewrite lookup_updNode.
  destruct (decide (n = m)) as [->|]; [|done].
  destruct (nodes d !! m); simpl; [by rewrite Hf | done].
Qed.

Lemma focusListeners_updNode_ne f n d m :
  n <> m -> focusListeners (updNode f n d) m = focusListeners d m.
Proof. intros Hne. unfold focusListeners. by rewrite lookup_updNode, decide_False. Qed.

Lemma focusListeners_updNode_keep f n d m :
  (forall r, nFocusListeners (f r) = nFocusListeners r) ->
  focusListeners (updNode f n d) m = focusListeners d m.
Proof.
  intros Hf. unfold focusListeners. rewrite lookup_updNode.
  destruct (decide (n = m)) as [->|]; [|done].
  destruct (nodes d !! m); simpl; [by rewrite Hf | done].
Qed.

Lemma getAttribute_setAttribute n k v d :
  is_Some (nodes d !! n) -> getAttribute (setAttribute n k v d) n k = Some v.
Proof.
  intros [r Hr]. unfold getAttribute, setAttribute.
  rewrite lookup_updNode, decide_True, Hr by done. simpl. apply lookup_insert_eq.
Qed.

Lemma getAttribute_setAttribute_other n k v d m k' :
  n <> m \/ k <> k' -> getAttribute (setAttribute n k v d) m k' = getAttribute d m k'.
Proof.
  intros Hne. unfold getAttribute, setAttribute. rewrite lookup_updNode.
  destruct (decide (n = m)) as [->|]; [|done].
  destruct (nodes d !! m); simpl; [|done].
  destruct Hne as [?|Hk]; [done|]. by rewrite lookup_insert_ne.
Qed.

Lemma getAttribute_removeAttribute n k d :
  getAttribute (removeAttribute n k d) n k = None.
Proof.
  unfold getAttribute, removeAttribute. rewrite lookup_updNode, decide_True by done.
  destruct (nodes d !! n); simpl; [apply lookup_delete_eq | done].
Qed.

Lemma getAttribute_removeAttribute_other n k d m k' :
  n <> m \/ k <> k' -> getAttribute (removeAttribute n k d) m k' = getAttribute d m k'.
Proof.
  intros Hne. unfold getAttribute, removeAttribute. rewrite lookup_updNode.
  destruct (decide (n = m)) as [->|]; [|done].
  destruct (nodes d !! m); simpl; [|done].
  destruct Hne as [?|Hk]; [done|]. by rewrite lookup_delete_ne.
Qed.

Lemma tabindex_toggleAnchorTabIndex e a d :
  is_Some (nodes d !! a) ->
  getAttribute (_toggleAnchorTabIndex e a d) a "tabindex"%string = tabindexOf e.
Proof.
  intros Ha. unfold _toggleAnchorTabIndex, tabindexOf. destruct e.
  - by apply getAttribute_setAttribute.
  - apply getAttribute_removeAttribute.
Qed.

Lemma getAttribute_toggleAnchorTabIndex_other e a d m k :
  a <> m \/ "tabindex"%string <> k ->
  getAttribute (_toggleAnchorTabIndex e a d) m k = getAttribute d m k.
Proof.
  intros Hne. unfold _toggleAnchorTabIndex. destruct e.
  - by apply getAttribute_setAttribute_other.
  - by apply getAttribute_removeAttribute_other.
Qed.

Lemma classList_toggleAnchorTabIndex e a d m :
  classList (_toggleAnchorTabIndex e a d) m = classList d m.
Proof.
  unfold _toggleAnchorTabIndex, setAttribute, removeAttribute.
  destruct e; by apply classList_updNode_keep.
Qed.

Lemma focusListeners_toggleAnchorTabIndex e a d m :
  focusListeners (_toggleAnchorTabIndex e a d) m = focusListeners d m.
Proof.
  unfold _toggleAnchorTabIndex, setAttribute, removeAttribute.
  destruct e; by apply focusListeners_updNode_keep.
Qed.

(** X11. The [enabled] setter stores the flag.  On a trap that has both
    anchors it sets their [tabindex] to 0 when enabling and removes the
    attribute when disabling, and touches nothing else: the tree, every
    other attribute, the classes and the listeners stay as they were.  On a
    trap that lacks an anchor the document does not change at all. *)
Theorem enabled_setter_toggles_anchor_tabindex :
  forall (value : bool) (t : FocusTrap) (d : Document),
    let t' := (set_enabled value t d).1 in
    let d' := (set_enabled value t d).2 in
    _enabled t' = value /\
    (_startAnchor t = None \/ _endAnchor t = None -> d' = d) /\
    (forall a b,
        _startAnchor t = Some a -> _endAnchor t = Some b ->
        is_Some (nodes d !! a) -> is_Some (nodes d !! b) ->
        getAttribute d' a "tabindex"%string = tabindexOf value /\
        getAttribute d' b "tabindex"%string = tabindexOf value /\
        same_tree d d' /\
        (forall m k, (m <> a /\ m <> b) \/ k <> "tabindex"%string ->
                     getAttribute d' m k = getAttribute d m k) /\
        (forall m, classList d' m = classList d m /\
                   focusListeners d' m = focusListeners d m)).
Proof.
  intros value t d. unfold set_enabled. simpl.
  split; [by destruct (_startAnchor t), (_endAnchor t)|]. split.
  - intros [-> | ->]; [done|]. by destruct (_startAnchor t).
  - intros a b -> -> Ha Hb. simpl.
    destruct (toggleAnchorTabIndex_tree value a d) as [T1 E1].
    destruct (toggleAnchorTabIndex_tree value b (_toggleAnchorTabIndex value a d)) as [T2 E2].
    split; [|split; [|split; [|split]]].
    + destruct (decide (a = b)) as [->|Hne].
      * apply tabindex_toggleAnchorTabIndex. by apply E1.
      * rewrite getAttribute_toggleAnchorTabIndex_other by auto.
        by apply tabindex_toggleAnchorTabIndex.
    + apply tabindex_toggleAnchorTabIndex. by apply E1.
    + eauto using same_tree_trans.
    + intros m k Hmk.
      rewrite !getAttribute_toggleAnchorTabIndex_other; [done | |].
      * destruct Hmk as [[? ?]|?]; [left | right]; congruence.
      * destruct Hmk as [[? ?]|?]; [left | right]; congruence.
    + intros m. by rewrite !classList_toggleAnchorTabIndex, !focusListeners_toggleAnchorTabIndex.
Qed.

Lemma enabled_setter_toggles_anchor_tabindex_witness :
  let t := attachedTrap.1 in
  let d := attachedTrap.2 in
  _startAnchor t = Some 3%nat /\ _endAnchor t = Some 4%nat /\
  is_Some (nodes d !! 3%nat) /\ is_Some (nodes d !! 4%nat) /\
  getAttribute d 3%nat "tabindex"%string = Some "0"%string /\
  getAttribute (set_enabled false t d).2 3%nat "tabindex"%string = None /\
  getAttribute (set_enabled false t d).2 4%nat "tabindex"%string = None /\
  same_tree d (set_enabled false t d).2.
Proof.
  set (t := attachedTrap.1). set (d := attachedTrap.2).
  assert (H1 : _startAnchor t = Some 3%nat) by reflexivity.
  assert (H2 : _endAnchor t = Some 4%nat) by reflexivity.
  assert (H3 : is_Some (nodes d !! 3%nat)) by (vm_compute; eauto).
  assert (H4 : is_Some (nodes d !! 4%nat)) by (vm_compute; eauto).
  split; [exact H1|]. split; [exact H2|]. split; [exact H3|]. split; [exact H4|].
  split; [reflexivity|].
  pose proof (proj2 (proj2 (enabled_setter_toggles_anchor_tabindex false t d))
                3%nat 4%nat H1 H2 H3 H4) as (Ha & Hb & Htree & _).
  split; [exact Ha|]. split; [exact Hb|]. exact Htree.
Defined.

(** *** The anchors that [attachAnchors] creates *)

Lemma createAnchor_record t d :
  nodes (_createAnchor t d).2 !! (_createAnchor t d).1 =
  Some (mkNode None []
               (<[ "aria-hidden"%string := "true"%string ]>
                  (if _enabled t then <[ "tabindex"%string := "0"%string ]> ∅
                   else delete "tabindex"%string ∅))
               ["cdk-visually-hidden"%string; "cdk-focus-trap-anchor"%string] []).
Proof.
  unfold _createAnchor, createElement, _toggleAnchorTabIndex. simpl.
  set (a := fresh (dom (nodes d))).
  unfold setAttribute, removeAttribute, classList_add.
  destruct (_enabled t);
    simpl; rewrite !lookup_alter_eq, lookup_insert_eq; reflexivity.
Qed.

Lemma createAnchor_other t d m :
  m <> (_createAnchor t d).1 ->
  nodes (_createAnchor t d).2 !! m = nodes d !! m.
Proof.
  unfold _createAnchor, createElement, _toggleAnchorTabIndex. simpl.
  set (a := fresh (dom (nodes d))). intros Hne.
  unfold setAttribute, removeAttribute, classList_add.
  destruct (_enabled t);
    simpl; rewrite !lookup_alter_ne, lookup_insert_ne by done; reflexivity.
Qed.

Lemma ensureAnchor_new_record t l d :
  nodes (ensureAnchor t None l d).2 !! (ensureAnchor t None l d).1 =
  Some (mkNode None []
               (<[ "aria-hidden"%string := "true"%string ]>
                  (if _enabled t then <[ "tabindex"%string := "0"%string ]> ∅
                   else delete "tabindex"%string ∅))
               ["cdk-visually-hidden"%string; "cdk-focus-trap-anchor"%string] [l]).
Proof.
  unfold ensureAnchor. pose proof (createAnchor_record t d) as Hrec.
  destruct (_createAnchor t d) as [a d1]. simpl in *.
  unfold addFocusListener, updNode. simpl. by rewrite lookup_alter_eq, Hrec.
Qed.

Lemma ensureAnchor_new_other t l d m :
  m <> (ensureAnchor t None l d).1 ->
  nodes (ensureAnchor t None l d).2 !! m = nodes d !! m.
Proof.
  unfold ensureAnchor. pose proof (createAnchor_other t d m) as Hoth.
  destruct (_createAnchor t d) as [a d1]. simpl in *. intros Hne.
  unfold addFocusListener, updNode. simpl. rewrite lookup_alter_ne by done. by apply Hoth.
Qed.

Lemma ensureAnchor_new_fresh t l d :
  nodes d !! (ensureAnchor t None l d).1 = None.
Proof.
  assert (Hno : forall a : Node, @None Node = Some a -> is_Some (nodes d !! a)) by done.
  by destruct (ensureAnchor_props t None l d Hno) as (_ & _ & _ & H).
Qed.

Lemma isAnchorOf_record (enabled : bool) l d a par ch :
  nodes d !! a =
  Some (mkNode par ch
               (<[ "aria-hidden"%string := "true"%string ]>
                  (if enabled then <[ "tabindex"%string := "0"%string ]> ∅
                   else delete "tabindex"%string ∅))
               ["cdk-visually-hidden"%string; "cdk-focus-trap-anchor"%string] [l]) ->
  isAnchorOf enabled l d a.
Proof.
  intros Hrec. unfold isAnchorOf, getAttribute, classList, focusListeners.
  rewrite Hrec. simpl. by destruct enabled.
Qed.

Lemma isAnchorOf_ext enabled l d d' a :
  (forall k, getAttribute d' a k = getAttribute d a k) ->
  classList d' a = classList d a ->
  focusListeners d' a = focusListeners d a ->
  isAnchorOf enabled l d a -> isAnchorOf enabled l d' a.
Proof.
  intros Hattr Hcl Hfl (H1 & H2 & H3 & H4). unfold isAnchorOf.
  by rewrite !Hattr, Hcl, Hfl.
Qed.

Lemma removeChild_props p c d m :
  (forall k, getAttribute (removeChild p c d) m k = getAttribute d m k) /\
  classList (removeChild p c d) m = classList d m /\
  focusListeners (removeChild p c d) m = focusListeners d m.
Proof.
  unfold removeChild. split; [|split].
  - intros k. by rewrite !getAttribute_updNode_keep.
  - by rewrite !classList_updNode_keep.
  - by rewrite !focusListeners_updNode_keep.
Qed.

Lemma insertBefore_props p n ref d m :
  (forall k, getAttribute (insertBefore p n ref d) m k = getAttribute d m k) /\
  classList (insertBefore p n ref d) m = classList d m /\
  focusListeners (insertBefore p n ref d) m = focusListeners d m.
Proof.
  unfold insertBefore, detach.
  destruct (parentNode d n) as [q|].
  - destruct (removeChild_props q n d m) as (Ha & Hc & Hf). split; [|split].
    + intros k. by rewrite !getAttribute_updNode_keep.
    + by rewrite !classList_updNode_keep.
    + by rewrite !focusListeners_updNode_keep.
  - split; [|split].
    + intros k. by rewrite !getAttribute_updNode_keep.
    + by rewrite !classList_updNode_keep.
    + by rewrite !focusListeners_updNode_keep.
Qed.

Lemma isAnchorOf_insertBefore enabled l p n ref d a :
  isAnchorOf enabled l d a -> isAnchorOf enabled l (insertBefore p n ref d) a.
Proof.
  destruct (insertBefore_props p n ref d a) as (Ha & Hc & Hf).
  by apply isAnchorOf_ext.
Qed.

(** X12. A trap constructed with deferred anchors has no anchors, so
    setting [enabled] on it changes no document; when it attaches later,
    both anchors are new nodes of the document, they differ, and each
    carries the [tabindex] that goes with the flag as it is then,
    [aria-hidden="true"], the two anchor classes and its one focus
    listener, whether or not the region has a parent. *)
Theorem deferred_anchors_follow_enabled_flag :
  forall (value enabled0 : bool) (element : Node) (d : Document),
    let t1 := (set_enabled value (deferredTrap element enabled0) d).1 in
    let d1 := (set_enabled value (deferredTrap element enabled0) d).2 in
    let t' := (attachAnchors t1 d1).1.2 in
    let d' := (attachAnchors t1 d1).2 in
    d1 = d /\ t1 = deferredTrap element value /\
    exists a b,
      _startAnchor t' = Some a /\ _endAnchor t' = Some b /\ a <> b /\
      nodes d !! a = None /\ nodes d !! b = None /\
      isAnchorOf value startAnchorListener d' a /\
      isAnchorOf value endAnchorListener d' b.
Proof.
  intros value enabled0 element d.
  change (set_enabled value (deferredTrap element enabled0) d)
    with (deferredTrap element value, d).
  cbv zeta. cbn [fst snd].
  split; [done|]. split; [done|].
  set (t := deferredTrap element value).
  pose proof (attachAnchors_unfold t d eq_refl) as Hunf. cbv zeta in Hunf.
  change (_startAnchor t) with (@None Node) in Hunf.
  change (_endAnchor t) with (@None Node) in Hunf.
  change (_element t) with element in Hunf.
  change (_enabled t) with value in Hunf.
  set (e1 := ensureAnchor t None startAnchorListener d) in *.
  set (e2 := ensureAnchor t None endAnchorListener e1.2) in *.
  pose proof (ensureAnchor_new_record t startAnchorListener d) as R1. fold e1 in R1.
  pose proof (ensureAnchor_new_record t endAnchorListener e1.2) as R2. fold e2 in R2.
  pose proof (ensureAnchor_new_fresh t startAnchorListener d) as F1. fold e1 in F1.
  pose proof (ensureAnchor_new_fresh t endAnchorListener e1.2) as F2. fold e2 in F2.
  assert (Hne : e1.1 <> e2.1).
  { intros Heq. rewrite <- Heq, R1 in F2. done. }
  assert (R1' : nodes e2.2 !! e1.1 = nodes e1.2 !! e1.1).
  { unfold e2. by apply ensureAnchor_new_other. }
  assert (F2' : nodes d !! e2.1 = None).
  { rewrite <- (ensureAnchor_new_other t startAnchorListener d e2.1) by (fold e1; congruence).
    done. }
  assert (A1 : isAnchorOf value startAnchorListener e2.2 e1.1).
  { eapply isAnchorOf_record. rewrite R1'. exact R1. }
  assert (A2 : isAnchorOf value endAnchorListener e2.2 e2.1).
  { eapply isAnchorOf_record. exact R2. }
  exists e1.1, e2.1. rewrite Hunf.
  destruct (parentNode e2.2 element) as [parent|]; cbn [fst snd _startAnchor _endAnchor].
  - do 5 (split; [done|]). split; by do 2 apply isAnchorOf_insertBefore.
  - by do 6 (split; [done|]).
Qed.

(** *** [destroy] after [attachAnchors] *)

Lemma filter_ne_absent (n : Node) (cs : list Node) :
  n ∉ cs -> List.filter (fun c' => negb (Nat.eqb c' n)) cs = cs.
Proof.
  induction cs as [|c cs IH]; intros Hn; simpl; [done|].
  apply not_elem_of_cons in Hn as [Hne Hn].
  assert (Nat.eqb c n = false) as -> by (apply Nat.eqb_neq; congruence).
  simpl. by rewrite IH.
Qed.

Lemma filter_placeBefore (q : Node -> bool) n ref cs :
  q n = false -> List.filter q (placeBefore n ref cs) = List.filter q cs.
Proof.
  intros Hq. destruct ref as [r|].
  - induction cs as [|c rest IH]; simpl; [by rewrite Hq|].
    destruct (Nat.eqb c r); simpl.
    + by rewrite Hq.
    + by rewrite IH.
  - destruct cs; simpl; [by rewrite Hq|].
    rewrite List.filter_app. simpl. by rewrite Hq, app_nil_r.
Qed.

Lemma filter_comm {A : Type} (q1 q2 : A -> bool) (l : list A) :
  List.filter q1 (List.filter q2 l) = List.filter q2 (List.filter q1 l).
Proof.
  induction l as [|x l IH]; simpl; [done|].
  destruct (q1 x) eqn:E1, (q2 x) eqn:E2; simpl; rewrite ?E1, ?E2, IH; done.
Qed.

(** Two nodes inserted under a parent and removed again leave its child
    list as it was. *)
Lemma children_restored (a b : Node) ref1 ref2 (cs : list Node) :
  a ∉ cs -> b ∉ cs ->
  List.filter (fun c' => negb (Nat.eqb c' b))
    (List.filter (fun c' => negb (Nat.eqb c' a))
       (placeBefore b ref2 (placeBefore a ref1 cs))) = cs.
Proof.
  intros Ha Hb. rewrite filter_comm.
  rewrite (filter_placeBefore (fun c' => negb (Nat.eqb c' b)))
    by (by rewrite Nat.eqb_refl).
  rewrite filter_comm.
  rewrite (filter_placeBefore (fun c' => negb (Nat.eqb c' a)))
    by (by rewrite Nat.eqb_refl).
  by rewrite (filter_ne_absent a), (filter_ne_absent b).
Qed.

Lemma lookup_removeChild_other p c d m :
  m <> c ->
  nodes (removeChild p c d) !! m =
  if decide (p = m)
  then (fun r => setChildren (List.filter (fun c' => negb (Nat.eqb c' c)) (nChildren r)) r)
         <$> nodes d !! p
  else nodes d !! m.
Proof.
  intros Hne. unfold removeChild. rewrite lookup_updNode, decide_False by done.
  apply lookup_updNode.
Qed.

Lemma lookup_removeChild_self p c d :
  p <> c -> nodes (removeChild p c d) !! c = setParent None <$> nodes d !! c.
Proof.
  intros Hne. unfold removeChild. rewrite lookup_updNode, decide_True by done.
  by rewrite lookup_updNode, decide_False.
Qed.

Lemma lookup_insertBefore_orphan p n ref d :
  parentNode d n = None ->
  exists ref', forall m, m <> n ->
    nodes (insertBefore p n ref d) !! m =
    if decide (p = m)
    then (fun r => setChildren (placeBefore n ref' (nChildren r)) r) <$> nodes d !! p
    else nodes d !! m.
Proof.
  intros Hp. unfold insertBefore, detach. rewrite Hp. eexists. intros m Hm.
  rewrite lookup_updNode, decide_False by done. apply lookup_updNode.
Qed.

Lemma lookup_insertBefore_self p n ref d :
  parentNode d n = None -> p <> n ->
  nodes (insertBefore p n ref d) !! n = setParent (Some p) <$> nodes d !! n.
Proof.
  intros Hp Hne. unfold insertBefore, detach. rewrite Hp.
  rewrite lookup_updNode, decide_True by done.
  by rewrite lookup_updNode, decide_False.
Qed.

Lemma lookup_removeFocusListener_other n l d m :
  m <> n -> nodes (removeFocusListener n l d) !! m = nodes d !! m.
Proof.
  intros Hne. unfold removeFocusListener. by rewrite lookup_updNode, decide_False.
Qed.

Lemma parentNode_removeFocusListener n l d m :
  parentNode (removeFocusListener n l d) m = parentNode d m.
Proof. unfold removeFocusListener. by apply parentNode_updNode_keep. Qed.

(** [destroy] on a trap whose two anchors hang under one parent. *)
Lemma destroy_attached element a b attached enabled d p :
  a <> b -> parentNode d a = Some p -> parentNode d b = Some p ->
  destroy (mkTrap element (Some a) (Some b) attached enabled) d =
  (mkTrap element None None false enabled,
   removeChild p b (removeFocusListener b endAnchorListener
     (removeChild p a (removeFocusListener a startAnchorListener d)))).
Proof.
  intros Hne Ha Hb. unfold destroy, destroyAnchor.
  cbn [_startAnchor _endAnchor _element _enabled]. cbv zeta.
  rewrite (parentNode_removeFocusListener a startAnchorListener d a), Ha.
  rewrite (parentNode_removeFocusListener b endAnchorListener _ b).
  rewrite parentNode_removeChild_ne by done.
  by rewrite parentNode_removeFocusListener, Hb.
Qed.

(** X13. A trap without anchors whose region hangs under a parent of the
    document attaches, and destroying it afterwards undoes the attachment:
    the trap is as before, every node the document had has the record it
    had (parent, children, attributes, classes, listeners), so the tree is
    the same, and what is new in the store (the two former anchors) hangs
    under no parent, has no children and carries no focus listener. *)
Theorem attach_then_destroy_restores_document :
  forall (element : Node) (enabled : bool) (d : Document) (p : Node),
    parentNode d element = Some p ->
    is_Some (nodes d !! p) ->
    childrenInStore d p ->
    let t := deferredTrap element enabled in
    let r := (attachAnchors t d).1.1 in
    let t1 := (attachAnchors t d).1.2 in
    let d1 := (attachAnchors t d).2 in
    let t2 := (destroy t1 d1).1 in
    let d2 := (destroy t1 d1).2 in
    r = true /\ hasAttached t1 = true /\ t2 = t /\
    (forall m, is_Some (nodes d !! m) -> nodes d2 !! m = nodes d !! m) /\
    same_tree d d2 /\
    (forall m, nodes d !! m = None ->
               parentNode d2 m = None /\ childNodes d2 m = [] /\ focusListeners d2 m = []).
Proof.
  intros element enabled d p Hpar Hp Hch t.
  pose proof (attachAnchors_unfold t d eq_refl) as Hunf. cbv zeta in Hunf.
  change (_startAnchor t) with (@None Node) in Hunf.
  change (_endAnchor t) with (@None Node) in Hunf.
  change (_element t) with element in Hunf.
  change (_enabled t) with enabled in Hunf.
  set (e1 := ensureAnchor t None startAnchorListener d) in *.
  set (e2 := ensureAnchor t None endAnchorListener e1.2) in *.
  pose proof (ensureAnchor_new_record t startAnchorListener d) as R1. fold e1 in R1.
  pose proof (ensureAnchor_new_record t endAnchorListener e1.2) as R2. fold e2 in R2.
  pose proof (ensureAnchor_new_fresh t startAnchorListener d) as F1. fold e1 in F1.
  pose proof (ensureAnchor_new_fresh t endAnchorListener e1.2) as F2. fold e2 in F2.
  set (a := e1.1) in *. set (b := e2.1) in *. set (d0 := e2.2) in *.
  assert (Hne : a <> b).
  { intros Heq. rewrite <- Heq, R1 in F2. done. }
  assert (K : forall m, m <> a -> m <> b -> nodes d0 !! m = nodes d !! m).
  { intros m Ha Hb. unfold d0, e2. rewrite ensureAnchor_new_other by done.
    unfold e1. by rewrite ensureAnchor_new_other. }
  assert (Ra : nodes d0 !! a = nodes e1.2 !! a).
  { unfold d0, e2. by apply ensureAnchor_new_other. }
  rewrite R1 in Ra. clear R1. rename R2 into Rb.
  assert (Fb : nodes d !! b = None).
  { rewrite <- (ensureAnchor_new_other t startAnchorListener d b) by (fold e1; done). done. }
  clear F2. rename F1 into Fa.
  assert (Hel : element <> a /\ element <> b).
  { unfold parentNode in Hpar.
    split; intros Heq; rewrite Heq in Hpar; [by rewrite Fa in Hpar | by rewrite Fb in Hpar]. }
  destruct Hel as [Hela Helb].
  assert (Hpa : p <> a) by (intros Heq; rewrite Heq, Fa in Hp; by destruct Hp).
  assert (Hpb : p <> b) by (intros Heq; rewrite Heq, Fb in Hp; by destruct Hp).
  assert (Hpar0 : parentNode d0 element = Some p).
  { unfold parentNode. rewrite K by done. exact Hpar. }
  assert (Pa : parentNode d0 a = None) by (unfold parentNode; by rewrite Ra).
  assert (Pb : parentNode d0 b = None) by (unfold parentNode; by rewrite Rb).
  rewrite Hpar0 in Hunf.
  set (d3 := insertBefore p a (Some element) d0) in *.
  set (d4 := insertBefore p b (nextSibling d3 element) d3) in *.
  assert (Pb3 : parentNode d3 b = None).
  { unfold d3. by rewrite parentNode_insertBefore_ne. }
  assert (Pa4 : parentNode d4 a = Some p).
  { unfold d4. rewrite parentNode_insertBefore_ne by done.
    unfold d3. apply parentNode_insertBefore. rewrite Ra. eauto. }
  assert (Pb4 : parentNode d4 b = Some p).
  { unfold d4. apply parentNode_insertBefore. unfold d3.
    apply is_Some_insertBefore. rewrite Rb. eauto. }
  intros r t1 d1 t2 d2.
  assert (Er : r = true) by (unfold r; by rewrite Hunf).
  assert (Et1 : t1 = mkTrap element (Some a) (Some b) true enabled)
    by (unfold t1; by rewrite Hunf).
  assert (Ed1 : d1 = d4) by (unfold d1; by rewrite Hunf).
  pose proof (destroy_attached element a b true enabled d4 p Hne Pa4 Pb4) as Hdes.
  rewrite <- Et1, <- Ed1 in Hdes.
  assert (Et2 : t2 = t) by (unfold t2; by rewrite Hdes).
  assert (Ed2 : d2 = removeChild p b (removeFocusListener b endAnchorListener
                   (removeChild p a (removeFocusListener a startAnchorListener d4))))
    by (unfold d2; rewrite Hdes, Ed1; done).
  destruct (lookup_insertBefore_orphan p a (Some element) d0 Pa) as [ref1 I3].
  destruct (lookup_insertBefore_orphan p b (nextSibling d3 element) d3 Pb3) as [ref2 I4].
  fold d3 in I3. fold d4 in I4.
  (* the nodes other than the anchors *)
  assert (Hkeep : forall m, m <> a -> m <> b -> nodes d2 !! m = nodes d !! m).
  { intros m Hma Hmb. rewrite Ed2.
    destruct (decide (p = m)) as [<-|Hpm].
    - rewrite lookup_removeChild_other, decide_True by done.
      rewrite lookup_removeFocusListener_other by done.
      rewrite lookup_removeChild_other, decide_True by done.
      rewrite lookup_removeFocusListener_other by done.
      rewrite I4, decide_True by done. rewrite I3, decide_True by done.
      rewrite K by done.
      destruct (nodes d !! p) as [rec|] eqn:Erec; [|done]. simpl.
      assert (Hca : a ∉ nChildren rec).
      { intros Hin. specialize (Hch a). unfold childNodes in Hch. rewrite Erec in Hch.
        specialize (Hch Hin). rewrite Fa in Hch. by destruct Hch. }
      assert (Hcb : b ∉ nChildren rec).
      { intros Hin. specialize (Hch b). unfold childNodes in Hch. rewrite Erec in Hch.
        specialize (Hch Hin). rewrite Fb in Hch. by destruct Hch. }
      unfold setChildren. simpl. rewrite children_restored by done.
      by destruct rec.
    - rewrite lookup_removeChild_other, decide_False by done.
      rewrite lookup_removeFocusListener_other by done.
      rewrite lookup_removeChild_other, decide_False by done.
      rewrite lookup_removeFocusListener_other by done.
      rewrite I4, decide_False by done. rewrite I3, decide_False by done.
      by apply K. }
  (* the former anchors *)
  assert (Ha2 : exists attrs cl, nodes d2 !! a = Some (mkNode None [] attrs cl [])).
  { rewrite Ed2. rewrite lookup_removeChild_other, decide_False by done.
    rewrite lookup_removeFocusListener_other by done.
    rewrite lookup_removeChild_self by done.
    unfold removeFocusListener. rewrite lookup_updNode, decide_True by done.
    rewrite I4, decide_False by done.
    unfold d3. rewrite lookup_insertBefore_self, Ra by done. simpl. eauto. }
  assert (Hb2 : exists attrs cl, nodes d2 !! b = Some (mkNode None [] attrs cl [])).
  { rewrite Ed2. rewrite lookup_removeChild_self by done.
    unfold removeFocusListener at 1. rewrite lookup_updNode, decide_True by done.
    rewrite lookup_removeChild_other, decide_False by done.
    rewrite lookup_removeFocusListener_other by done.
    unfold d4. rewrite lookup_insertBefore_self by done.
    rewrite I3, decide_False, Rb by done. simpl. eauto. }
  assert (Hnew : forall m, nodes d !! m = None ->
            parentNode d2 m = None /\ childNodes d2 m = [] /\ focusListeners d2 m = []).
  { intros m Hm. unfold parentNode, childNodes, focusListeners.
    destruct (decide (m = a)) as [->|Hma].
    { destruct Ha2 as (attrs & cl & ->). done. }
    destruct (decide (m = b)) as [->|Hmb].
    { destruct Hb2 as (attrs & cl & ->). done. }
    by rewrite Hkeep, Hm. }
  split; [done|]. split; [by rewrite Et1|]. split; [done|]. split; [|split; [|done]].
  - intros m Hm. apply Hkeep; intros ->; [rewrite Fa in Hm | rewrite Fb in Hm]; by destruct Hm.
  - intros m. destruct (nodes d !! m) as [rec|] eqn:Erec.
    + assert (Hm : nodes d2 !! m = nodes d !! m).
      { apply Hkeep; intros ->; congruence. }
      unfold parentNode, childNodes. by rewrite Hm.
    + destruct (Hnew m Erec) as (-> & -> & _).
      unfold parentNode, childNodes. by rewrite Erec.
Qed.

Lemma attach_then_destroy_restores_document_witness :
  let r := (attachAnchors (deferredTrap 1%nat true) page).1.1 in
  let t1 := (attachAnchors (deferredTrap 1%nat true) page).1.2 in
  let d1 := (attachAnchors (deferredTrap 1%nat true) page).2 in
  parentNode page 1%nat = Some 0%nat /\
  is_Some (nodes page !! 0%nat) /\
  childrenInStore page 0%nat /\
  childNodes d1 0%nat = [3%nat; 1%nat; 4%nat] /\
  r = true /\ (destroy t1 d1).1 = deferredTrap 1%nat true /\
  same_tree page (destroy t1 d1).2.
Proof.
  assert (H1 : parentNode page 1%nat = Some 0%nat) by reflexivity.
  assert (H2 : is_Some (nodes page !! 0%nat)) by (vm_compute; eauto).
  assert (H3 : childrenInStore page 0%nat).
  { intros c Hc. change (childNodes page 0%nat) with [1%nat] in Hc.
    apply list_elem_of_singleton in Hc as ->. vm_compute. eauto. }
  pose proof (attach_then_destroy_restores_document 1%nat true page 0%nat H1 H2 H3)
    as (Hr & _ & Ht & _ & Htree & _).
  split; [exact H1|]. split; [exact H2|]. split; [exact H3|].
  split; [reflexivity|]. split; [exact Hr|]. split; [exact Ht | exact Htree].
Defined.

(** *** [destroy] from any state *)

Lemma parentNode_setParent_None n d : parentNode (updNode (setParent None) n d) n = None.
Proof.
  unfold parentNode. rewrite lookup_updNode, decide_True by done.
  by destruct (nodes d !! n).
Qed.

Lemma focusListeners_removeFocusListener n l d m :
  focusListeners (removeFocusListener n l d) m =
  if decide (n = m)
  then List.filter (fun l' => negb (Nat.eqb l' l)) (focusListeners d m)
  else focusListeners d m.
Proof.
  unfold focusListeners, removeFocusListener. rewrite lookup_updNode.
  destruct (decide (n = m)) as [->|]; [|done]. by destruct (nodes d !! m).
Qed.

Lemma destroyAnchor_parent_self a l d :
  parentNode (destroyAnchor (Some a) l d) a = None.
Proof.
  unfold destroyAnchor. cbv zeta.
  destruct (parentNode (removeFocusListener a l d) a) as [p|] eqn:Ep; [|done].
  unfold removeChild. apply parentNode_setParent_None.
Qed.

Lemma destroyAnchor_parent_other field l d m :
  parentNode d m = None -> parentNode (destroyAnchor field l d) m = None.
Proof.
  intros Hm. destruct field as [a|]; [|done].
  destruct (decide (a = m)) as [->|Hne]; [apply destroyAnchor_parent_self|].
  unfold destroyAnchor. cbv zeta.
  destruct (parentNode (removeFocusListener a l d) a) as [p|].
  - by rewrite parentNode_removeChild_ne, parentNode_removeFocusListener.
  - by rewrite parentNode_removeFocusListener.
Qed.

Lemma focusListeners_destroyAnchor field l d m l0 :
  l0 ∈ focusListeners (destroyAnchor field l d) m -> l0 ∈ focusListeners d m.
Proof.
  destruct field as [a|]; [|done]. unfold destroyAnchor. cbv zeta.
  assert (H : l0 ∈ focusListeners (removeFocusListener a l d) m -> l0 ∈ focusListeners d m).
  { rewrite focusListeners_removeFocusListener. destruct (decide (a = m)); [|done].
    rewrite JsArrayFacts.elem_of_list_filter. tauto. }
  destruct (parentNode (removeFocusListener a l d) a) as [p|]; [|done].
  destruct (removeChild_props p a (removeFocusListener a l d) m) as (_ & _ & ->). done.
Qed.

Lemma focusListeners_destroyAnchor_self a l d :
  l ∉ focusListeners (destroyAnchor (Some a) l d) a.
Proof.
  unfold destroyAnchor. cbv zeta.
  assert (H : l ∉ focusListeners (removeFocusListener a l d) a).
  { rewrite focusListeners_removeFocusListener, decide_True by done.
    rewrite JsArrayFacts.elem_of_list_filter, Nat.eqb_refl. simpl. intros [? _]. done. }
  destruct (parentNode (removeFocusListener a l d) a) as [p|]; [|done].
  destruct (removeChild_props p a (removeFocusListener a l d) a) as (_ & _ & ->). done.
Qed.

Lemma is_Some_destroyAnchor field l d m :
  is_Some (nodes (destroyAnchor field l d) !! m) <-> is_Some (nodes d !! m).
Proof.
  destruct field as [a|]; [|done]. unfold destroyAnchor. cbv zeta.
  destruct (parentNode (removeFocusListener a l d) a) as [p|].
  - rewrite is_Some_removeChild. unfold removeFocusListener. apply is_Some_updNode.
  - unfold removeFocusListener. apply is_Some_updNode.
Qed.

(** X14. [destroy], from any state of the trap and the document: the
    instance forgets both anchors and is no longer attached, its [enabled]
    flag is kept; each former anchor hangs under no parent and has lost
    its focus listener; no node leaves or enters the store. *)
Theorem destroy_detaches_and_unbinds :
  forall (t : FocusTrap) (d : Document),
    let t' := (destroy t d).1 in
    let d' := (destroy t d).2 in
    _startAnchor t' = None /\ _endAnchor t' = None /\ hasAttached t' = false /\
    _enabled t' = _enabled t /\ _element t' = _element t /\
    (forall a, _startAnchor t = Some a ->
               parentNode d' a = None /\ startAnchorListener ∉ focusListeners d' a) /\
    (forall b, _endAnchor t = Some b ->
               parentNode d' b = None /\ endAnchorListener ∉ focusListeners d' b) /\
    (forall m, is_Some (nodes d' !! m) <-> is_Some (nodes d !! m)).
Proof.
  intros t d. unfold destroy. cbn [fst snd _startAnchor _endAnchor _enabled _element].
  cbv zeta. do 5 (split; [done|]). split; [|split].
  - intros a ->. split.
    + apply destroyAnchor_parent_other, destroyAnchor_parent_self.
    + intros Hin. apply focusListeners_destroyAnchor in Hin.
      by apply focusListeners_destroyAnchor_self in Hin.
  - intros b ->. split.
    + apply destroyAnchor_parent_self.
    + apply focusListeners_destroyAnchor_self.
  - intros m. by rewrite !is_Some_destroyAnchor.
Qed.

Lemma destroy_detaches_and_unbinds_witness :
  let t := attachedTrap.1 in
  let d := attachedTrap.2 in
  _startAnchor t = Some 3%nat /\ _endAnchor t = Some 4%nat /\
  parentNode d 3%nat = Some 0%nat /\ focusListeners d 3%nat = [startAnchorListener] /\
  (parentNode (destroy t d).2 3%nat = None /\
   startAnchorListener ∉ focusListeners (destroy t d).2 3%nat) /\
  (parentNode (destroy t d).2 4%nat = None /\
   endAnchorListener ∉ focusListeners (destroy t d).2 4%nat).
Proof.
  set (t := attachedTrap.1). set (d := attachedTrap.2).
  assert (H1 : _startAnchor t = Some 3%nat) by reflexivity.
  assert (H2 : _endAnchor t = Some 4%nat) by reflexivity.
  split; [exact H1|]. split; [exact H2|]. split; [reflexivity|]. split; [reflexivity|].
  pose proof (destroy_detaches_and_unbinds t d) as (_ & _ & _ & _ & _ & Ha & Hb & _).
  split; [exact (Ha 3%nat H1) | exact (Hb 4%nat H2)].
Defined.

End FocusTrapMoreProofs.

(** ** FocusTrap: which element the tabbable search returns *)

Module TabbableSearchProofs.
Import Dom TabbableSearch.

Lemma Subtree_ind' (P : Subtree -> Prop) :
  (forall n e tab cs, Forall P cs -> P (SNode n e tab cs)) -> forall t, P t.
Proof.
  intros H. fix IH 1. intros [n e tab cs]. apply H.
  induction cs as [|c cs IHcs]; constructor; [apply IH | exact IHcs].
Qed.

(** The two loops, as functions of the list they iterate. *)
Lemma getFirst_unfold n e tab cs :
  _getFirstTabbableElement (SNode n e tab cs) =
  if tab then Some n
  else head (flat_map (fun c => if isElement c
                                then option_list (_getFirstTabbableElement c) else []) cs).
Proof.
  simpl. destruct tab; [done|].
  induction cs as [|c cs IH]; [done|]. simpl.
  destruct (isElement c); [|exact IH].
  destruct (_getFirstTabbableElement c); [done | exact IH].
Qed.

Lemma getLast_unfold n e tab cs :
  _getLastTabbableElement (SNode n e tab cs) =
  if tab then Some n
  else last (flat_map (fun c => if isElement c
                                then option_list (_getLastTabbableElement c) else []) cs).
Proof.
  simpl. destruct tab; [done|].
  induction cs as [|c cs IH]; [done|]. simpl. rewrite IH.
  set (later := flat_map _ cs).
  destruct (isElement c); simpl.
  - destruct (_getLastTabbableElement c) as [x|]; simpl.
    + destruct later as [|y later'] using rev_ind; [done|].
      rewrite last_snoc. change (x :: later' ++ [y]) with ((x :: later') ++ [y]).
      by rewrite last_snoc.
    + by destruct (last later).
  - by destruct (last later).
Qed.

Lemma head_flat_map_head {A B : Type} (f g : A -> list B) (l : list A) :
  Forall (fun x => head (f x) = head (g x)) l ->
  head (flat_map f l) = head (flat_map g l).
Proof.
  induction 1 as [|x l Hx _ IH]; [done|]. simpl.
  destruct (f x) as [|y fx], (g x) as [|z gx]; simpl in *; congruence.
Qed.

Lemma last_app_cases {A : Type} (l1 l2 : list A) :
  last (l1 ++ l2) = match last l2 with Some x => Some x | None => last l1 end.
Proof.
  destruct l2 as [|y l2] using rev_ind.
  - by rewrite app_nil_r.
  - by rewrite app_assoc, !last_snoc.
Qed.

Lemma last_flat_map_last {A B : Type} (f g : A -> list B) (l : list A) :
  Forall (fun x => last (f x) = last (g x)) l ->
  last (flat_map f l) = last (flat_map g l).
Proof.
  induction 1 as [|x l Hx _ IH]; [done|]. simpl.
  rewrite !last_app_cases. by rewrite IH, Hx.
Qed.

Lemma getFirst_outermost t :
  _getFirstTabbableElement t = head (outermostTabbables t).
Proof.
  induction t as [n e tab cs IH] using Subtree_ind'.
  rewrite getFirst_unfold. simpl. destruct tab; [done|].
  apply head_flat_map_head. eapply Forall_impl; [exact IH|].
  intros c Hc. simpl in Hc. destruct (isElement c); [|done].
  rewrite Hc. by destruct (outermostTabbables c).
Qed.

Lemma getLast_outermost t :
  _getLastTabbableElement t = last (outermostTabbables t).
Proof.
  induction t as [n e tab cs IH] using Subtree_ind'.
  rewrite getLast_unfold. simpl. destruct tab; [done|].
  apply last_flat_map_last. eapply Forall_impl; [exact IH|].
  intros c Hc. simpl in Hc. destruct (isElement c); [|done].
  rewrite Hc. by destruct (last (outermostTabbables c)).
Qed.

Lemma head_outermost_tabbables t :
  head (outermostTabbables t) = head (tabbables t).
Proof.
  induction t as [n e tab cs IH] using Subtree_ind'.
  simpl. destruct tab; [done|]. simpl.
  apply head_flat_map_head. eapply Forall_impl; [exact IH|].
  intros c Hc. simpl in Hc. by destruct (isElement c).
Qed.

(** X15. [_getFirstTabbableElement] returns the first tabbable element of
    the subtree in document order, and [null] exactly when the subtree has
    no tabbable element (reachable through element nodes). *)
Theorem first_tabbable_is_first_in_document_order :
  forall (root : Subtree),
    _getFirstTabbableElement root = head (tabbables root) /\
    (_getFirstTabbableElement root = None <-> tabbables root = []).
Proof.
  intros root.
  assert (H : _getFirstTabbableElement root = head (tabbables root)).
  { by rewrite getFirst_outermost, head_outermost_tabbables. }
  split; [done|]. rewrite H. by destruct (tabbables root).
Qed.

Lemma outermost_sublist t : sublist (outermostTabbables t) (tabbables t).
Proof.
  induction t as [n e tab cs IH] using Subtree_ind'.
  simpl. destruct tab.
  - simpl. apply sublist_skip, sublist_nil_l.
  - simpl. induction IH as [|c cs Hc _ IHcs]; [done|]. simpl.
    apply sublist_app; [|done]. by destruct (isElement c).
Qed.

Lemma isTabbable_mirror t : isTabbable (mirror t) = isTabbable t.
Proof. by destruct t. Qed.

Lemma isElement_mirror t : isElement (mirror t) = isElement t.
Proof. by destruct t. Qed.

Lemma flat_map_app' {A B : Type} (f : A -> list B) (l1 l2 : list A) :
  flat_map f (l1 ++ l2) = flat_map f l1 ++ flat_map f l2.
Proof. induction l1 as [|x l1 IH]; simpl; [done|]. by rewrite IH, app_assoc. Qed.

Lemma outermost_mirror t : outermostTabbables (mirror t) = rev (outermostTabbables t).
Proof.
  induction t as [n e tab cs IH] using Subtree_ind'.
  simpl. destruct tab; [done|].
  induction IH as [|c cs Hc _ IHcs]; [done|]. simpl.
  rewrite flat_map_app', IHcs, rev_app_distr. simpl. rewrite app_nil_r.
  rewrite isElement_mirror. destruct (isElement c); [by rewrite Hc | done].
Qed.

(** X16. [_getLastTabbableElement] is [_getFirstTabbableElement] on the
    mirrored subtree.  It returns the last, in document order, of the
    tabbable elements that have no tabbable ancestor in the subtree: a
    tabbable element is returned without looking at its descendants, so
    the result need not be the last tabbable element of the subtree. *)
Theorem last_tabbable_mirrors_first :
  forall (root : Subtree),
    _getLastTabbableElement root = _getFirstTabbableElement (mirror root) /\
    _getLastTabbableElement root = last (outermostTabbables root) /\
    _getFirstTabbableElement root = head (outermostTabbables root) /\
    sublist (outermostTabbables root) (tabbables root) /\
    (_getLastTabbableElement root = None <-> tabbables root = []) /\
    (_getLastTabbableElement nestedTabbables = Some 1%nat /\
     last (tabbables nestedTabbables) = Some 2%nat).
Proof.
  intros root. split; [|split; [|split; [|split; [|split]]]].
  - rewrite getLast_outermost, getFirst_outermost, outermost_mirror.
    destruct (outermostTabbables root) as [|x l] using rev_ind; [done|].
    by rewrite last_snoc, rev_app_distr.
  - apply getLast_outermost.
  - apply getFirst_outermost.
  - apply outermost_sublist.
  - rewrite getLast_outermost.
    pose proof (head_outermost_tabbables root) as Hh.
    split; intros H.
    + apply last_None in H. rewrite H in Hh. by destruct (tabbables root).
    + rewrite H in Hh. destruct (outermostTabbables root); [done | discriminate].
  - done.
Qed.

End TabbableSearchProofs.

(** ** FocusMonitor: the timer queue *)

Module FocusMonitorMoreProofs.
Import JsArray JsArrayFacts Dom FocusMonitor FocusMonitorProofs FocusMonitorMore.

Lemma run_app es1 es2 s : run (es1 ++ es2) s = run es2 (run es1 s).
Proof. unfold run. apply fold_left_app. Qed.

Lemma walkAncestors_preserves (P : State -> Prop) fuel handler el s :
  (forall e s0, P s0 -> P (handler e s0)) ->
  P s -> P (walkAncestors fuel handler el s).
Proof.
  intros Hh. revert el s. induction fuel as [|fuel IH]; intros el s Hs; simpl.
  - by apply Hh.
  - destruct (parentNode _ el); [apply IH|]; by apply Hh.
Qed.

Lemma control_onFocus ev el s : control (_onFocus ev el s) = control s.
Proof.
  unfold _onFocus. destruct (info_get _ el); [|done].
  by destruct (_ && _).
Qed.

Lemma control_onBlur ev el s : control (_onBlur ev el s) = control s.
Proof.
  unfold _onBlur. destruct (info_get _ el); [|done].
  by destruct (_ && _).
Qed.

Lemma control_listener isFocus ev s :
  control (_rootNodeFocusAndBlurListener isFocus ev s) = control s.
Proof.
  unfold _rootNodeFocusAndBlurListener.
  destruct (getTarget ev) as [[n|?]|]; [|done|done].
  apply (walkAncestors_preserves (fun s' => control s' = control s)); [|done].
  intros e s0 <-. destruct isFocus; [apply control_onFocus | apply control_onBlur].
Qed.

Lemma control_fields s s' :
  control s' = control s ->
  _origin s' = _origin s /\ _windowFocused s' = _windowFocused s /\
  _lastTouchTarget s' = _lastTouchTarget s /\ _touchTimeoutId s' = _touchTimeoutId s /\
  _originTimeoutId s' = _originTimeoutId s /\ _elementInfo s' = _elementInfo s /\
  _detectionMode s' = _detectionMode s /\ timers s' = timers s /\
  nextTimerId s' = nextTimerId s.
Proof. unfold control. intros H. injection H as -> -> -> -> _ -> -> -> -> ->. done. Qed.

Lemma detectionMode_setOrigin o s :
  _detectionMode (_setOriginForCurrentEventQueue o s) = _detectionMode s.
Proof.
  unfold _setOriginForCurrentEventQueue.
  destruct s as [? ? ? ? ? ? ? ? mode ? ? ? ?]. simpl. by destruct mode.
Qed.

Lemma detectionMode_step s e : _detectionMode (step s e) = _detectionMode s.
Proof.
  destruct e; simpl.
  - unfold _documentKeydownListener. by rewrite detectionMode_setOrigin.
  - unfold _documentMousedownListener.
    destruct (_lastTouchTarget s); [done|]. by rewrite detectionMode_setOrigin.
  - unfold _documentTouchstartListener. by destruct (_touchTimeoutId s).
  - done.
  - apply detectionMode_setOrigin.
  - by destruct (control_fields _ _ (control_listener true event s)) as (_&_&_&_&_&_&->&_).
  - by destruct (control_fields _ _ (control_listener false event s)) as (_&_&_&_&_&_&->&_).
  - unfold fireTimer. destruct (List.find _ _) as [t|]; [|done].
    by destruct (timerAction t).
Qed.

Lemma detectionMode_run es s : _detectionMode (run es s) = _detectionMode s.
Proof.
  revert s. induction es as [|e es IH]; intros s; [done|].
  simpl. by rewrite IH, detectionMode_step.
Qed.

(** *** The invariant of the timer queue *)

Lemma Forall_list_filter {A : Type} (P : A -> Prop) (q : A -> bool) (l : list A) :
  Forall P l -> Forall P (List.filter q l).
Proof.
  induction 1 as [|x l Hx _ IH]; simpl; [constructor|].
  destruct (q x); [by constructor | done].
Qed.

Lemma NoDup_map_list_filter {A B : Type} (f : A -> B) (q : A -> bool) (l : list A) :
  NoDup (map f l) -> NoDup (map f (List.filter q l)).
Proof.
  induction l as [|x l IH]; simpl; [done|]. intros Hnd.
  apply NoDup_cons in Hnd as [Hx Hnd]. destruct (q x); [|by apply IH].
  simpl. apply NoDup_cons. split; [|by apply IH].
  intros Hin. apply Hx. apply list_elem_of_fmap in Hin as (y & -> & Hy).
  apply elem_of_list_filter in Hy as [_ Hy]. apply list_elem_of_fmap. eauto.
Qed.

(** The timer queue after [setTimeout]. *)
Lemma timers_ok_setTimeout action delay s (touchId : option nat) :
  Forall (fun t => (timerId t < nextTimerId s)%nat) (timers s) ->
  NoDup (map timerId (timers s)) ->
  Forall (fun t => (timerId t < S (nextTimerId s))%nat)
         (timers s ++ [mkTimer (nextTimerId s) delay action]) /\
  NoDup (map timerId (timers s ++ [mkTimer (nextTimerId s) delay action])).
Proof.
  intros Hlt Hnd. split.
  - apply Forall_app. split.
    + eapply Forall_impl; [exact Hlt|]. simpl. intros; lia.
    + apply Forall_singleton. simpl. lia.
  - rewrite map_app. simpl. apply NoDup_app. split; [done|]. split.
    + intros x Hx Hx'. apply list_elem_of_singleton in Hx' as ->.
      apply list_elem_of_fmap in Hx as (t & Ht & Hin).
      rewrite Forall_forall in Hlt. specialize (Hlt t Hin). lia.
    + apply NoDup_singleton.
Qed.

Lemma timers_ok_setOrigin o s :
  timers_ok s -> timers_ok (_setOriginForCurrentEventQueue o s).
Proof.
  intros (Hlt & Hnd & Htouch & Hev).
  destruct (timers_ok_setTimeout ClearOrigin 1 s None Hlt Hnd) as [Hlt' Hnd'].
  unfold _setOriginForCurrentEventQueue, timers_ok.
  destruct s as [? ? ? ? ? ? ? ? mode ? ? ? ?]. simpl in *.
  destruct mode; simpl; [|done].
  split; [done|]. split; [done|]. split; [|done].
  intros t Ht Htt. apply elem_of_app in Ht as [Ht|Ht]; [by apply Htouch|].
  by apply list_elem_of_singleton in Ht as ->.
Qed.

Lemma timers_ok_control s s' : control s' = control s -> timers_ok s -> timers_ok s'.
Proof.
  intros Hc. destruct (control_fields _ _ Hc) as (_&_&_&Ht&_&_&Hm&Htm&Hn).
  unfold timers_ok. by rewrite Ht, Hm, Htm, Hn.
Qed.

Lemma timers_ok_lastTouchTarget x s : timers_ok s -> timers_ok (set_lastTouchTarget x s).
Proof. done. Qed.

Lemma touch_timers_cleared s :
  timers_ok s ->
  List.filter isTouchTimer (timers (clearTimeout (_touchTimeoutId s) s)) = [].
Proof.
  intros (_ & _ & Htouch & _).
  assert (H : forall l : list Timer,
             (forall t, t ∈ l -> isTouchTimer t = true -> _touchTimeoutId s = Some (timerId t)) ->
             List.filter isTouchTimer
               (match _touchTimeoutId s with
                | Some i => List.filter (fun t => negb (Nat.eqb (timerId t) i)) l
                | None => l
                end) = []).
  { induction l as [|t l IH]; intros Hl.
    - by destruct (_touchTimeoutId s).
    - assert (Hl' : forall t0, t0 ∈ l -> isTouchTimer t0 = true ->
                               _touchTimeoutId s = Some (timerId t0)).
      { intros t0 Ht0. apply Hl. by apply list_elem_of_further. }
      specialize (IH Hl'). specialize (Hl t (list_elem_of_here _ _)).
      destruct (_touchTimeoutId s) as [i|]; simpl.
      + destruct (isTouchTimer t) eqn:Et.
        * specialize (Hl eq_refl). injection Hl as ->. by rewrite Nat.eqb_refl.
        * destruct (negb _); simpl; [by rewrite Et|done].
      + destruct (isTouchTimer t); [by specialize (Hl eq_refl)|done]. }
  specialize (H (timers s) Htouch).
  unfold clearTimeout. by destruct (_touchTimeoutId s).
Qed.

Lemma timers_ok_touchstart ev s :
  timers_ok s -> timers_ok (_documentTouchstartListener ev s).
Proof.
  intros Hok. pose proof (touch_timers_cleared s Hok) as Hclr.
  destruct Hok as (Hlt & Hnd & Htouch & Hev).
  unfold _documentTouchstartListener.
  set (s1 := match _touchTimeoutId s with Some id => clearTimeout (Some id) s | None => s end).
  assert (Es1 : s1 = clearTimeout (_touchTimeoutId s) s).
  { unfold s1. by destruct (_touchTimeoutId s). }
  assert (Hn1 : nextTimerId s1 = nextTimerId s).
  { rewrite Es1. unfold clearTimeout. by destruct (_touchTimeoutId s). }
  assert (Hm1 : _detectionMode s1 = _detectionMode s).
  { rewrite Es1. unfold clearTimeout. by destruct (_touchTimeoutId s). }
  assert (Hsub : forall t, t ∈ timers s1 -> t ∈ timers s).
  { rewrite Es1. unfold clearTimeout. destruct (_touchTimeoutId s); [|done].
    simpl. intros t Ht. by apply elem_of_list_filter in Ht as [_ Ht]. }
  assert (Hlt1 : Forall (fun t => (timerId t < nextTimerId s1)%nat) (timers s1)).
  { rewrite Hn1, Es1. unfold clearTimeout. destruct (_touchTimeoutId s); [|done].
    simpl. by apply Forall_list_filter. }
  assert (Hnd1 : NoDup (map timerId (timers s1))).
  { rewrite Es1. unfold clearTimeout. destruct (_touchTimeoutId s); [|done].
    simpl. by apply NoDup_map_list_filter. }
  rewrite <- Es1 in Hclr.
  destruct (timers_ok_setTimeout ClearLastTouchTarget TOUCH_BUFFER_MS s1 None Hlt1 Hnd1)
    as [Hlt' Hnd'].
  unfold timers_ok. simpl. split; [done|]. split; [done|]. split.
  - intros t Ht Htt. apply elem_of_app in Ht as [Ht|Ht].
    + assert (Hin : t ∈ List.filter isTouchTimer (timers s1))
        by (by apply elem_of_list_filter).
      rewrite Hclr in Hin. by apply elem_of_nil in Hin.
    + by apply list_elem_of_singleton in Ht as ->.
  - rewrite Hm1. intros Hmode t Ht. apply elem_of_app in Ht as [Ht|Ht].
    + by apply Hev, Hsub.
    + by apply list_elem_of_singleton in Ht as ->.
Qed.

Lemma timers_ok_windowFocus s : timers_ok s -> timers_ok (_windowFocusListener s).
Proof.
  intros (Hlt & Hnd & Htouch & Hev). unfold _windowFocusListener.
  destruct (timers_ok_setTimeout ClearWindowFocused 0 s None Hlt Hnd) as [Hlt' Hnd'].
  unfold timers_ok. simpl. split; [done|]. split; [done|]. split.
  - intros t Ht Htt. apply elem_of_app in Ht as [Ht|Ht]; [by apply Htouch|].
    by apply list_elem_of_singleton in Ht as ->.
  - intros Hmode t Ht. apply elem_of_app in Ht as [Ht|Ht]; [by apply Hev|].
    by apply list_elem_of_singleton in Ht as ->.
Qed.

Lemma timers_ok_fireTimer id s : timers_ok s -> timers_ok (fireTimer id s).
Proof.
  intros (Hlt & Hnd & Htouch & Hev). unfold fireTimer.
  destruct (List.find _ _) as [t|]; [|done].
  assert (H : timers_ok (clearTimeout (Some id) s)).
  { unfold timers_ok, clearTimeout. simpl.
    split; [by apply Forall_list_filter|]. split; [by apply NoDup_map_list_filter|].
    split.
    - intros t0 Ht0. apply elem_of_list_filter in Ht0 as [_ Ht0]. by apply Htouch.
    - intros Hmode t0 Ht0. apply elem_of_list_filter in Ht0 as [_ Ht0]. by apply Hev. }
  by destruct (timerAction t).
Qed.

Lemma timers_ok_step s e : timers_ok s -> timers_ok (step s e).
Proof.
  intros Hok. destruct e; simpl.
  - by apply timers_ok_setOrigin, timers_ok_lastTouchTarget.
  - unfold _documentMousedownListener. destruct (_lastTouchTarget s); [done|].
    by apply timers_ok_setOrigin.
  - by apply timers_ok_touchstart.
  - by apply timers_ok_windowFocus.
  - by apply timers_ok_setOrigin.
  - eapply timers_ok_control; [apply control_listener | done].
  - eapply timers_ok_control; [apply control_listener | done].
  - by apply timers_ok_fireTimer.
Qed.

Lemma timers_ok_init mode d infos : timers_ok (init mode d infos).
Proof.
  unfold timers_ok, init. simpl. split; [constructor|]. split; [constructor|].
  split; [intros t Ht | intros _ t Ht]; by apply elem_of_nil in Ht.
Qed.

Lemma timers_ok_run es s : timers_ok s -> timers_ok (run es s).
Proof.
  revert s. induction es as [|e es IH]; intros s Hs; [done|].
  simpl. by apply IH, timers_ok_step.
Qed.

Lemma find_timer_elem_of id l t :
  List.find (fun t => Nat.eqb (timerId t) id) l = Some t -> t ∈ l /\ timerId t = id.
Proof.
  intros H. apply List.find_some in H as [Hin Hid].
  split; [by apply list_elem_of_In | by apply Nat.eqb_eq].
Qed.

(** *** EVENTUAL mode *)

Lemma origin_step_eventual s e :
  timers_ok s -> _detectionMode s = EVENTUAL -> setsOrigin e = false ->
  _origin (step s e) = _origin s.
Proof.
  intros (_ & _ & _ & Hev) Hmode He. destruct e; try discriminate He; simpl.
  - unfold _documentTouchstartListener. by destruct (_touchTimeoutId s).
  - done.
  - by destruct (control_fields _ _ (control_listener true event s)) as (-> & _).
  - by destruct (control_fields _ _ (control_listener false event s)) as (-> & _).
  - unfold fireTimer. destruct (List.find _ _) as [t|] eqn:Ef; [|done].
    apply find_timer_elem_of in Ef as [Hin _].
    specialize (Hev Hmode t Hin). unfold isOriginTimer in Hev.
    by destruct (timerAction t).
Qed.

Lemma origin_run_eventual es s :
  timers_ok s -> _detectionMode s = EVENTUAL ->
  forallb (fun e => negb (setsOrigin e)) es = true ->
  _origin (run es s) = _origin s.
Proof.
  revert s. induction es as [|e es IH]; intros s Hok Hmode Hes; [done|].
  simpl in Hes. apply andb_true_iff in Hes as [He Hes]. apply negb_true_iff in He.
  simpl. rewrite IH; [by apply origin_step_eventual | by apply timers_ok_step | | done].
  by rewrite detectionMode_step.
Qed.

(** X17. In EVENTUAL detection mode an origin, once set, stays until the
    next keydown, mousedown or explicit origin: no focus, blur, touchstart
    or window focus event and no timer that fires changes it, because no
    timer that clears the origin is ever scheduled.  A focus event that
    comes later still resolves to that origin. *)
Theorem eventual_mode_keeps_the_origin :
  forall (d : Document) (infos : list (Node * MonitoredElementInfo))
         (es1 es2 : list Event) (o : FocusOrigin),
    forallb (fun e => negb (setsOrigin e)) es2 = true ->
    let s := run (es1 ++ EvSetOrigin o :: es2) (init EVENTUAL d infos) in
    _origin s = o /\
    (forall t, t ∈ timers s -> isOriginTimer t = false) /\
    (forall ev o', o = Some o' -> _getFocusOrigin ev s = Some o').
Proof.
  intros d infos es1 es2 o Hes2 s.
  set (s1 := run es1 (init EVENTUAL d infos)).
  assert (Hok1 : timers_ok s1) by apply timers_ok_run, timers_ok_init.
  assert (Hm1 : _detectionMode s1 = EVENTUAL) by apply detectionMode_run.
  set (s2 := step s1 (EvSetOrigin o)).
  assert (Hs : s = run es2 s2).
  { unfold s. rewrite run_app. done. }
  assert (Hok2 : timers_ok s2) by (by apply timers_ok_step).
  assert (Hm2 : _detectionMode s2 = EVENTUAL) by (unfold s2; by rewrite detectionMode_step).
  assert (Ho : _origin s = o).
  { rewrite Hs, origin_run_eventual by done. apply origin_setOriginForCurrentEventQueue. }
  split; [done|]. split.
  - assert (Hok : timers_ok s) by (rewrite Hs; by apply timers_ok_run).
    destruct Hok as (_ & _ & _ & Hev). apply Hev.
    rewrite Hs. by rewrite detectionMode_run.
  - intros ev o' ->. by apply getFocusOrigin_transient.
Qed.

Lemma eventual_mode_keeps_the_origin_witness :
  let es2 := [EvTouchstart (focusOn 0%nat); EvFocus (focusOn 1%nat); EvTimeout 0%nat;
              EvBlur (focusOn 1%nat)] in
  let s := run ([EvWindowFocus] ++ EvSetOrigin (Some keyboard) :: es2)
               (init EVENTUAL FocusTrap.page [(1%nat, mkInfo false 0%nat)]) in
  forallb (fun e => negb (setsOrigin e)) es2 = true /\
  _origin s = Some keyboard /\
  _getFocusOrigin (focusOn 1%nat) s = Some keyboard.
Proof.
  set (es2 := [EvTouchstart (focusOn 0%nat); EvFocus (focusOn 1%nat); EvTimeout 0%nat;
               EvBlur (focusOn 1%nat)]).
  assert (H : forallb (fun e => negb (setsOrigin e)) es2 = true) by reflexivity.
  pose proof (eventual_mode_keeps_the_origin FocusTrap.page [(1%nat, mkInfo false 0%nat)]
                [EvWindowFocus] es2 (Some keyboard) H) as (Ho & _ & Hg).
  split; [exact H|]. split; [exact Ho|]. exact (Hg (focusOn 1%nat) keyboard eq_refl).
Defined.

(** *** The touch buffer *)

Lemma at_most_one {A B : Type} (f : A -> B) (q : A -> bool) (c : B) (l : list A) :
  NoDup (map f l) ->
  (forall t, t ∈ l -> q t = true -> f t = c) ->
  (length (List.filter q l) <= 1)%nat.
Proof.
  induction l as [|x l IH]; intros Hnd Hq; simpl; [lia|].
  apply NoDup_cons in Hnd as [Hx Hnd].
  assert (Hq' : forall t, t ∈ l -> q t = true -> f t = c).
  { intros t Ht. apply Hq. by apply list_elem_of_further. }
  destruct (q x) eqn:Ex; [|by apply IH].
  assert (Hnone : List.filter q l = []).
  { destruct (List.filter q l) as [|y rest] eqn:Ef; [done|]. exfalso.
    assert (Hy : y ∈ List.filter q l) by (rewrite Ef; apply list_elem_of_here).
    apply elem_of_list_filter in Hy as [Hqy Hy].
    apply Hx. rewrite (Hq x (list_elem_of_here _ _) Ex), <- (Hq' y Hy Hqy).
    apply list_elem_of_fmap. eauto. }
  rewrite Hnone. simpl. lia.
Qed.

Lemma find_fresh_timer id delay action l rest :
  Forall (fun t => (timerId t < id)%nat) l ->
  List.find (fun t => Nat.eqb (timerId t) id) (l ++ mkTimer id delay action :: rest) =
  Some (mkTimer id delay action).
Proof.
  induction 1 as [|t l Ht _ IH]; simpl.
  - by rewrite Nat.eqb_refl.
  - assert (Nat.eqb (timerId t) id = false) as -> by (apply Nat.eqb_neq; lia). done.
Qed.

Lemma touchstart_fields ev s :
  _touchTimeoutId (_documentTouchstartListener ev s) = Some (nextTimerId s) /\
  timers (_documentTouchstartListener ev s) =
    timers (clearTimeout (_touchTimeoutId s) s) ++
    [mkTimer (nextTimerId s) TOUCH_BUFFER_MS ClearLastTouchTarget] /\
  _lastTouchTarget (_documentTouchstartListener ev s) = getTarget ev.
Proof.
  unfold _documentTouchstartListener, clearTimeout. by destruct (_touchTimeoutId s).
Qed.

(** X18. At any time at most one timer of the touch buffer is pending.  A
    touchstart cancels the pending one and schedules a new one of 650 ms,
    records the target of the touch, and when that timer fires the target
    is forgotten. *)
Theorem touch_buffer_has_one_timer :
  forall (mode : FocusMonitorDetectionMode) (d : Document)
         (infos : list (Node * MonitoredElementInfo)) (es : list Event),
    let s := run es (init mode d infos) in
    (length (List.filter isTouchTimer (timers s)) <= 1)%nat /\
    forall ev,
      let s' := step s (EvTouchstart ev) in
      exists id,
        _touchTimeoutId s' = Some id /\
        List.filter isTouchTimer (timers s') = [mkTimer id TOUCH_BUFFER_MS ClearLastTouchTarget] /\
        _lastTouchTarget s' = getTarget ev /\
        _lastTouchTarget (fireTimer id s') = None /\
        pending id (fireTimer id s') = false.
Proof.
  intros mode d infos es s.
  assert (Hok : timers_ok s) by apply timers_ok_run, timers_ok_init.
  split.
  - destruct Hok as (_ & Hnd & Htouch & _).
    destruct (_touchTimeoutId s) as [i|] eqn:Ei.
    + apply (at_most_one timerId isTouchTimer i); [done|].
      intros t Ht Htt. specialize (Htouch t Ht Htt). congruence.
    + apply (at_most_one timerId isTouchTimer 0%nat); [done|].
      intros t Ht Htt. specialize (Htouch t Ht Htt). congruence.
  - intros ev s'. pose proof (touch_timers_cleared s Hok) as Hclr.
    destruct Hok as (Hlt & Hnd & Htouch & _).
    destruct (touchstart_fields ev s) as (Hid & Htm & Hlast).
    fold (step s (EvTouchstart ev)) in Hid, Htm, Hlast. fold s' in Hid, Htm, Hlast.
    set (l1 := timers (clearTimeout (_touchTimeoutId s) s)) in *.
    assert (Hlt1 : Forall (fun t => (timerId t < nextTimerId s)%nat) l1).
    { unfold l1, clearTimeout. destruct (_touchTimeoutId s); [|done].
      simpl. by apply Forall_list_filter. }
    exists (nextTimerId s).
    split; [done|]. split; [|split; [done|]].
    + rewrite Htm, List.filter_app, Hclr. done.
    + unfold fireTimer, pending. rewrite Htm, find_fresh_timer by done.
      cbn [timerAction]. split; [done|].
      change (timers (set_lastTouchTarget None (clearTimeout (Some (nextTimerId s)) s')))
        with (List.filter (fun t => negb (Nat.eqb (timerId t) (nextTimerId s))) (timers s')).
      apply not_true_is_false. intros Hex. apply existsb_exists in Hex as (t & Hin & Hid').
      apply List.filter_In in Hin as [_ Hne]. rewrite Hid' in Hne. done.
Qed.

(** *** IMMEDIATE mode: the timers that clear the origin *)



(** *** The classes [_setClasses] leaves on an element *)

Lemma classList_updNode f n d :
  FocusTrapMore.classList (updNode f n d) n =
  match nodes d !! n with
  | Some r => nClassList (f r)
  | None => []
  end.
Proof.
  unfold FocusTrapMore.classList. rewrite FocusTrapProofs.lookup_updNode, decide_True by done.
  by destruct (nodes d !! n).
Qed.

Lemma elem_of_toggleClass n c b d x :
  is_Some (nodes d !! n) ->
  x ∈ FocusTrapMore.classList (_toggleClass n c b d) n <->
  (x = c /\ b = true) \/ (x <> c /\ x ∈ FocusTrapMore.classList d n).
Proof.
  intros [r Hr]. unfold _toggleClass, classList_add, classList_remove.
  destruct b; rewrite classList_updNode; unfold FocusTrapMore.classList; rewrite Hr; simpl.
  - case_bool_decide as Hc.
    + destruct (decide (x = c)) as [->|]; naive_solver.
    + rewrite elem_of_app, list_elem_of_singleton.
      destruct (decide (x = c)) as [->|]; naive_solver.
  - rewrite elem_of_list_filter, negb_true_iff, String.eqb_neq. naive_solver.
Qed.

Lemma toggleClass_other n c b d m :
  m <> n -> nodes (_toggleClass n c b d) !! m = nodes d !! m.
Proof.
  intros Hne. unfold _toggleClass, classList_add, classList_remove.
  destruct b; by rewrite FocusTrapProofs.lookup_updNode, decide_False.
Qed.

Lemma toggleClass_shape n c b d :
  same_tree d (_toggleClass n c b d) /\
  (forall m, is_Some (nodes (_toggleClass n c b d) !! m) <-> is_Some (nodes d !! m)) /\
  size (nodes (_toggleClass n c b d)) = size (nodes d).
Proof.
  unfold _toggleClass, classList_add, classList_remove.
  destruct b.
  - split; [apply FocusTrapProofs.updNode_same_tree; done|].
    split; [intros m; apply FocusTrapProofs.is_Some_updNode|].
    unfold updNode. simpl. by rewrite <- !size_dom, dom_alter_L.
  - split; [apply FocusTrapProofs.updNode_same_tree; done|].
    split; [intros m; apply FocusTrapProofs.is_Some_updNode|].
    unfold updNode. simpl. by rewrite <- !size_dom, dom_alter_L.
Qed.

Lemma setClasses_shape element origin d :
  same_tree d (_setClasses element origin d) /\
  (forall m, is_Some (nodes (_setClasses element origin d) !! m) <-> is_Some (nodes d !! m)) /\
  size (nodes (_setClasses element origin d)) = size (nodes d).
Proof.
  unfold _setClasses. cbv zeta.
  set (d1 := _toggleClass element "cdk-focused"%string _ d).
  set (d2 := _toggleClass element "cdk-touch-focused"%string _ d1).
  set (d3 := _toggleClass element "cdk-keyboard-focused"%string _ d2).
  set (d4 := _toggleClass element "cdk-mouse-focused"%string _ d3).
  set (d5 := _toggleClass element "cdk-program-focused"%string _ d4).
  destruct (toggleClass_shape element "cdk-focused"%string
              (bool_decide (is_Some origin)) d) as (T1 & S1 & Z1). fold d1 in T1, S1, Z1.
  destruct (toggleClass_shape element "cdk-touch-focused"%string
              (origin_is origin touch) d1) as (T2 & S2 & Z2). fold d2 in T2, S2, Z2.
  destruct (toggleClass_shape element "cdk-keyboard-focused"%string
              (origin_is origin keyboard) d2) as (T3 & S3 & Z3). fold d3 in T3, S3, Z3.
  destruct (toggleClass_shape element "cdk-mouse-focused"%string
              (origin_is origin mouse) d3) as (T4 & S4 & Z4). fold d4 in T4, S4, Z4.
  destruct (toggleClass_shape element "cdk-program-focused"%string
              (origin_is origin program) d4) as (T5 & S5 & Z5). fold d5 in T5, S5, Z5.
  split; [eauto 6 using FocusTrapProofs.same_tree_trans|].
  split; [|congruence].
  intros m. by rewrite S5, S4, S3, S2, S1.
Qed.

Lemma elem_of_classList_setClasses element origin d c :
  is_Some (nodes d !! element) ->
  c ∈ FocusTrapMore.classList (_setClasses element origin d) element <->
  c ∈ classesFor origin \/
  ((c ∉ focusClasses) /\ c ∈ FocusTrapMore.classList d element).
Proof.
  intros Hel. unfold _setClasses. cbv zeta.
  set (d1 := _toggleClass element "cdk-focused"%string _ d).
  set (d2 := _toggleClass element "cdk-touch-focused"%string _ d1).
  set (d3 := _toggleClass element "cdk-keyboard-focused"%string _ d2).
  set (d4 := _toggleClass element "cdk-mouse-focused"%string _ d3).
  assert (H1 : is_Some (nodes d1 !! element)) by (by apply toggleClass_shape).
  assert (H2 : is_Some (nodes d2 !! element)) by (by apply toggleClass_shape).
  assert (H3 : is_Some (nodes d3 !! element)) by (by apply toggleClass_shape).
  assert (H4 : is_Some (nodes d4 !! element)) by (by apply toggleClass_shape).
  rewrite elem_of_toggleClass by done. unfold d4.
  rewrite elem_of_toggleClass by done. unfold d3.
  rewrite elem_of_toggleClass by done. unfold d2.
  rewrite elem_of_toggleClass by done. unfold d1.
  rewrite elem_of_toggleClass by done.
  unfold classesFor, focusClasses, classOf.
  rewrite !not_elem_of_cons.
  destruct origin as [[]|]; simpl; rewrite ?bool_decide_eq_true;
    rewrite ?elem_of_cons, ?elem_of_nil; naive_solver.
Qed.

(** X20. [_setClasses] on an element of the document leaves it with
    exactly the focus classes of the origin ([cdk-focused] and the class of
    the origin, or none of the five for a null origin), whatever focus
    classes it had; its other classes stay, and so do the other nodes and
    the tree. *)
Theorem setClasses_leaves_exactly_the_origin_classes :
  forall (element : Node) (origin : FocusOrigin) (d : Document),
    is_Some (nodes d !! element) ->
    let d' := _setClasses element origin d in
    (forall c, c ∈ FocusTrapMore.classList d' element <->
               c ∈ classesFor origin \/
               ((c ∉ focusClasses) /\ c ∈ FocusTrapMore.classList d element)) /\
    (forall m, m <> element -> nodes d' !! m = nodes d !! m) /\
    same_tree d d'.
Proof.
  intros element origin d Hel d'. split; [|split].
  - intros c. by apply elem_of_classList_setClasses.
  - intros m Hm. unfold d', _setClasses. cbv zeta. by rewrite !toggleClass_other.
  - apply setClasses_shape.
Qed.

Lemma setClasses_leaves_exactly_the_origin_classes_witness :
  let d := classList_add 1%nat "cdk-mouse-focused"%string
             (classList_add 1%nat "mat-button"%string FocusTrap.page) in
  is_Some (nodes d !! 1%nat) /\
  FocusTrapMore.classList d 1%nat = ["mat-button"%string; "cdk-mouse-focused"%string] /\
  FocusTrapMore.classList (_setClasses 1%nat (Some keyboard) d) 1%nat =
    ["mat-button"%string; "cdk-focused"%string; "cdk-keyboard-focused"%string] /\
  same_tree d (_setClasses 1%nat (Some keyboard) d).
Proof.
  set (d := classList_add 1%nat "cdk-mouse-focused"%string
              (classList_add 1%nat "mat-button"%string FocusTrap.page)).
  assert (H : is_Some (nodes d !! 1%nat)) by (vm_compute; eauto).
  split; [exact H|]. split; [reflexivity|]. split; [reflexivity|].
  exact (proj2 (proj2 (setClasses_leaves_exactly_the_origin_classes 1%nat (Some keyboard) d H))).
Defined.

(** *** One event, all monitored ancestors *)

Lemma same_shape_refl d : same_shape d d.
Proof. split; [apply FocusTrapProofs.same_tree_refl | done]. Qed.

Lemma same_shape_trans d1 d2 d3 : same_shape d1 d2 -> same_shape d2 d3 -> same_shape d1 d3.
Proof.
  intros [P1 Z1] [P2 Z2]. split; [|congruence].
  by apply FocusTrapProofs.same_tree_trans with d2.
Qed.

Lemma same_shape_setClasses element origin d : same_shape d (_setClasses element origin d).
Proof.
  destruct (setClasses_shape element origin d) as (T & _ & Z). by split.
Qed.

Lemma same_shape_parentNode d d' m : same_shape d d' -> parentNode d' m = parentNode d m.
Proof. intros [P _]. by destruct (P m). Qed.

Lemma ancestors_same_shape fuel d d' n :
  same_shape d d' -> ancestors fuel d' n = ancestors fuel d n.
Proof.
  intros Hs. revert n. induction fuel as [|fuel IH]; intros n; simpl; [done|].
  rewrite (same_shape_parentNode d d') by done.
  destruct (parentNode d n); [by rewrite IH | done].
Qed.

Lemma contains_same_shape d d' a b :
  same_shape d d' -> contains d' a b = contains d a b.
Proof.
  intros Hs. unfold contains. rewrite (ancestors_same_shape _ d d') by done.
  destruct Hs as [_ Z]. by rewrite Z.
Qed.

(** The walk of the listener, for a handler that emits one value on the
    elements it notifies and keeps the shape of the document. *)
Lemma walk_emits (R : State -> Prop) (notif : Node -> bool) (val : FocusOrigin)
      (handler : Node -> State -> State) (d0 : Document) :
  (forall el s', R s' -> same_shape d0 (document s') ->
     R (handler el s') /\ same_shape d0 (document (handler el s')) /\
     emitted (handler el s') = emitted s' ++ (if notif el then [(el, val)] else [])) ->
  forall fuel el s', R s' -> same_shape d0 (document s') ->
    R (walkAncestors fuel handler el s') /\
    same_shape d0 (document (walkAncestors fuel handler el s')) /\
    emitted (walkAncestors fuel handler el s') =
      emitted s' ++ map (fun e => (e, val)) (List.filter notif (ancestors fuel d0 el)).
Proof.
  intros Hh. induction fuel as [|fuel IH]; intros el s' HR Hs.
  - simpl. destruct (Hh el s' HR Hs) as (HR' & Hs' & He).
    split; [done|]. split; [done|]. rewrite He. by destruct (notif el).
  - simpl. destruct (Hh el s' HR Hs) as (HR' & Hs' & He).
    rewrite (same_shape_parentNode d0 _ el Hs').
    destruct (parentNode d0 el) as [p|].
    + destruct (IH p _ HR' Hs') as (HR2 & Hs2 & He2).
      split; [done|]. split; [done|]. rewrite He2, He. simpl.
      destruct (notif el); simpl; by rewrite <- app_assoc.
    + split; [done|]. split; [done|]. rewrite He. simpl. by destruct (notif el).
Qed.






Lemma onBlur_step ev s el s' :
  control s' = control s ->
  same_shape (document s) (document s') ->
  control (_onBlur ev el s') = control s /\
  same_shape (document s) (document (_onBlur ev el s')) /\
  _lastFocusOrigin (_onBlur ev el s') = _lastFocusOrigin s' /\
  emitted (_onBlur ev el s') =
    emitted s' ++ (if notifiedOnBlur ev s el then [(el, None)] else []).
Proof.
  intros Hc Hs.
  destruct (control_fields _ _ Hc) as (_ & _ & _ & _ & _ & Hinfo & _).
  rewrite control_onBlur. split; [done|].
  unfold _onBlur, notifiedOnBlur. rewrite Hinfo.
  destruct (info_get (_elementInfo s) el) as [info|]; [|by rewrite app_nil_r].
  assert (Hin : match relatedTarget ev with
                | Some (TNode r) => contains (document s') el r
                | _ => false
                end =
                match relatedTarget ev with
                | Some (TNode r) => contains (document s) el r
                | _ => false
                end).
  { destruct (relatedTarget ev) as [[r|?]|]; [|done|done].
    by apply contains_same_shape. }
  rewrite Hin. destruct (checkChildren info && _); simpl.
  - by rewrite app_nil_r.
  - split; [eapply same_shape_trans; [exact Hs | apply same_shape_setClasses] | done].
Qed.

Lemma onBlur_document ev s el s' :
  control s' = control s ->
  same_shape (document s) (document s') ->
  document (_onBlur ev el s') =
    if notifiedOnBlur ev s el then _setClasses el None (document s') else document s'.
Proof.
  intros Hc Hs.
  destruct (control_fields _ _ Hc) as (_ & _ & _ & _ & _ & Hinfo & _).
  unfold _onBlur, notifiedOnBlur. rewrite Hinfo.
  destruct (info_get (_elementInfo s) el) as [info|]; [|done].
  assert (Hin : match relatedTarget ev with
                | Some (TNode r) => contains (document s') el r
                | _ => false
                end =
                match relatedTarget ev with
                | Some (TNode r) => contains (document s) el r
                | _ => false
                end).
  { destruct (relatedTarget ev) as [[r|?]|]; [|done|done].
    by apply contains_same_shape. }
  rewrite Hin. by destruct (checkChildren info && _).
Qed.

Lemma setClasses_other element origin d m :
  m <> element -> nodes (_setClasses element origin d) !! m = nodes d !! m.
Proof. intros Hm. unfold _setClasses. cbv zeta. by rewrite !toggleClass_other. Qed.

(** Taking the focus classes off one more element. *)
Lemma lostFocusClasses_setClasses d0 d el l :
  (forall m, m ∈ l -> lostFocusClasses d0 d m) ->
  (forall m, m ∉ l -> nodes d !! m = nodes d0 !! m) ->
  (forall m, m ∈ l ++ [el] -> lostFocusClasses d0 (_setClasses el None d) m) /\
  (forall m, m ∉ l ++ [el] -> nodes (_setClasses el None d) !! m = nodes d0 !! m).
Proof.
  intros Hin Hout. split.
  - intros m Hm c. destruct (decide (m = el)) as [->|Hne].
    + assert (Hd : forall c', c' ∈ FocusTrapMore.classList d el ->
                              c' ∈ FocusTrapMore.classList d0 el).
      { intros c' Hc'. destruct (decide (el ∈ l)) as [Hl|Hl].
        - by apply (Hin el Hl c') in Hc' as [_ ?].
        - unfold FocusTrapMore.classList in *. by rewrite <- (Hout el Hl). }
      assert (Hd' : forall c', (c' ∉ focusClasses) -> c' ∈ FocusTrapMore.classList d0 el ->
                               c' ∈ FocusTrapMore.classList d el).
      { intros c' Hf Hc'. destruct (decide (el ∈ l)) as [Hl|Hl].
        - by apply (Hin el Hl c').
        - unfold FocusTrapMore.classList in *. by rewrite (Hout el Hl). }
      destruct (nodes d !! el) as [r|] eqn:Er.
      * rewrite elem_of_classList_setClasses by (by rewrite Er).
        simpl. rewrite elem_of_nil. naive_solver.
      * assert (Hnone : nodes (_setClasses el None d) !! el = None).
        { destruct (setClasses_shape el None d) as (_ & Hsome & _).
          apply eq_None_not_Some. rewrite Hsome, Er. by intros [? ?]. }
        unfold FocusTrapMore.classList at 1. rewrite Hnone. split.
        -- intros Hc. by apply elem_of_nil in Hc.
        -- intros [Hf Hc]. specialize (Hd' c Hf Hc).
           unfold FocusTrapMore.classList in Hd'. by rewrite Er in Hd'.
    + assert (Hl : m ∈ l).
      { apply elem_of_app in Hm as [?|Hm]; [done|].
        by apply list_elem_of_singleton in Hm. }
      unfold FocusTrapMore.classList at 1. rewrite setClasses_other by done.
      apply (Hin m Hl c).
  - intros m Hm. apply not_elem_of_app in Hm as [Hl Hne].
    rewrite setClasses_other by (intros ->; apply Hne, list_elem_of_here).
    by apply Hout.
Qed.

Lemma map_with_null_inj (l l' : list Node) :
  map (fun el => (el, @None Origin)) l = map (fun el => (el, None)) l' -> l = l'.
Proof.
  revert l'. induction l as [|x l IH]; intros [|y l']; simpl; try done.
  intros [= -> H]. by rewrite (IH l' H).
Qed.

(** X22. One blur event, likewise: every monitored element on the chain
    from the target upwards emits [null] and loses its focus classes
    (its other classes stay), except an element monitored with
    [checkChildren] that contains the element the focus moves to; the
    nodes that are not notified stay as they were.  [_lastFocusOrigin] is
    not touched. *)
Theorem blur_event_reaches_every_monitored_ancestor :
  forall (s : State) (ev : DomEvent),
    let s' := _rootNodeFocusAndBlurListener false ev s in
    let notified := List.filter (notifiedOnBlur ev s) (walked ev s) in
    emitted s' = emitted s ++ map (fun el => (el, None)) notified /\
    (forall el, el ∈ notified -> lostFocusClasses (document s) (document s') el) /\
    (forall m, m ∉ notified -> nodes (document s') !! m = nodes (document s) !! m) /\
    control s' = control s /\
    same_tree (document s) (document s') /\
    _lastFocusOrigin s' = _lastFocusOrigin s.
Proof.
  intros s ev s' notified.
  unfold s', notified, walked, _rootNodeFocusAndBlurListener.
  destruct (getTarget ev) as [[n|?]|] eqn:Et; simpl;
    try (rewrite app_nil_r;
         split; [done|]; split; [intros el Hel; by apply elem_of_nil in Hel|];
         repeat split; try done; apply FocusTrapProofs.same_tree_refl).
  pose (R := fun s0 : State =>
               (control s0 = control s /\ _lastFocusOrigin s0 = _lastFocusOrigin s) /\
               exists l, emitted s0 = emitted s ++ map (fun el => (el, None)) l /\
                         (forall m, m ∈ l -> lostFocusClasses (document s) (document s0) m) /\
                         (forall m, m ∉ l -> nodes (document s0) !! m = nodes (document s) !! m)).
  assert (Hstep : forall el s0, R s0 -> same_shape (document s) (document s0) ->
            R (_onBlur ev el s0) /\ same_shape (document s) (document (_onBlur ev el s0)) /\
            emitted (_onBlur ev el s0) =
              emitted s0 ++ (if notifiedOnBlur ev s el then [(el, None)] else [])).
  { intros el s0 ((Hc & Hl) & l & Hem & Hin & Hout) Hs.
    destruct (onBlur_step ev s el s0 Hc Hs) as (Hc' & Hs' & Hl' & He').
    pose proof (onBlur_document ev s el s0 Hc Hs) as Hd.
    split; [|split; [done|done]]. split; [split; [done | by rewrite Hl']|].
    destruct (notifiedOnBlur ev s el).
    - exists (l ++ [el]). rewrite He', Hem, Hd, map_app, app_assoc.
      split; [done|]. by apply lostFocusClasses_setClasses.
    - exists l. rewrite He', Hem, Hd, app_nil_r. done. }
  assert (HR0 : R s).
  { split; [done|]. exists []. simpl. rewrite app_nil_r. split; [done|].
    split; [|done]. intros m Hm. by apply elem_of_nil in Hm. }
  destruct (walk_emits R (notifiedOnBlur ev s) None (_onBlur ev) (document s) Hstep
              (size (nodes (document s))) n s HR0 (same_shape_refl _))
    as (((Hc & Hl) & l & Hem & Hin & Hout) & Hs & He).
  rewrite He in Hem. apply app_inv_head, map_with_null_inj in Hem. subst l.
  split; [done|]. split; [done|]. split; [done|].
  split; [done|]. split; [by destruct Hs | done].
Qed.

(** Node 1, monitored with its parent, loses the focus to a node outside:
    both emit [null]; node 1 keeps [mat-button] only and its parent loses
    [cdk-focused]. *)
Example blur_takes_the_focus_classes_off :
  let s' := _rootNodeFocusAndBlurListener false (focusOn 1%nat) twoFocused in
  FocusTrapMore.classList (document twoFocused) 1%nat =
    ["mat-button"%string; "cdk-focused"%string; "cdk-mouse-focused"%string] /\
  FocusTrapMore.classList (document twoFocused) 0%nat = ["cdk-focused"%string] /\
  emitted s' = [(1%nat, None); (0%nat, None)] /\
  FocusTrapMore.classList (document s') 1%nat = ["mat-button"%string] /\
  FocusTrapMore.classList (document s') 0%nat = [].
Proof. vm_compute. repeat split. Qed.

End FocusMonitorMoreProofs.

(** ** FocusMonitor: the bookkeeping of [monitor] and [stopMonitoring] *)

Module FocusMonitorRegistryProofs.
Import JsArray JsArrayFacts Dom FocusMonitor FocusMonitorProofs FocusMonitorMore.
Import FocusMonitorMoreProofs FocusMonitorRegistry.

Lemma info_get_None infos element :
  info_get infos element = None <-> element ∉ map fst infos.
Proof.
  induction infos as [|[e i] infos IH]; simpl.
  - split; [intros _; apply not_elem_of_nil | done].
  - rewrite not_elem_of_cons. destruct (Nat.eqb_spec e element) as [->|Hne].
    + split; [done | intros [? _]; done].
    + rewrite IH. split; [intros ?; split; congruence | tauto].
Qed.

Lemma info_get_Some infos element info :
  info_get infos element = Some info -> (element, info) ∈ infos.
Proof.
  induction infos as [|[e i] infos IH]; simpl; [done|].
  destruct (Nat.eqb_spec e element) as [->|Hne].
  - intros [= ->]. apply list_elem_of_here.
  - intros H. apply list_elem_of_further. by apply IH.
Qed.

Lemma info_set_absent infos element info :
  info_get infos element = None -> info_set infos element info = infos ++ [(element, info)].
Proof.
  induction infos as [|[e i] infos IH]; simpl; [done|].
  destruct (Nat.eqb e element); [done|]. intros H. by rewrite IH.
Qed.

(** Replacing the entry of a key by one with the same root node. *)
Lemma info_set_present infos element old info :
  info_get infos element = Some old -> rootNode info = rootNode old ->
  map fst (info_set infos element info) = map fst infos /\
  len (info_set infos element info) = len infos /\
  (forall root, rootUsers root (info_set infos element info) = rootUsers root infos) /\
  info_get (info_set infos element info) element = Some info.
Proof.
  intros Hget Hroot. induction infos as [|[e i] infos IH]; simpl in *; [done|].
  destruct (Nat.eqb e element) eqn:E.
  - injection Hget as ->. simpl. rewrite E.
    split; [reflexivity|]. split; [reflexivity|]. split; [|reflexivity].
    intros root. unfold rootUsers. simpl. rewrite Hroot.
    by destruct (Nat.eqb (rootNode old) root).
  - destruct (IH Hget) as (H1 & H2 & H3 & H4). simpl. rewrite E.
    split; [by rewrite H1|]. split.
    + unfold len in *. simpl. lia.
    + split; [|done]. intros root. specialize (H3 root). unfold rootUsers, len in *. simpl.
      destruct (Nat.eqb (rootNode i) root); simpl; lia.
Qed.

Lemma rootUsers_app root l1 l2 : rootUsers root (l1 ++ l2) = rootUsers root l1 + rootUsers root l2.
Proof. unfold rootUsers, len. rewrite List.filter_app, length_app. lia. Qed.

Lemma rootUsers_nonneg root l : 0 <= rootUsers root l.
Proof. unfold rootUsers. apply len_nonneg. Qed.

Lemma rootUsers_single root element info :
  rootUsers root [(element, info)] = if Nat.eqb (rootNode info) root then 1 else 0.
Proof. unfold rootUsers. simpl. by destruct (Nat.eqb (rootNode info) root). Qed.

Lemma info_delete_absent infos element :
  element ∉ map fst infos -> info_delete infos element = infos.
Proof.
  induction infos as [|[e i] infos IH]; simpl; [done|]. intros Hnin.
  apply not_elem_of_cons in Hnin as [Hne Hnin].
  assert (Nat.eqb e element = false) as -> by (apply Nat.eqb_neq; congruence).
  simpl. by rewrite IH.
Qed.

(** Deleting the one entry of a key. *)
Lemma info_delete_present infos element info :
  NoDup (map fst infos) -> info_get infos element = Some info ->
  NoDup (map fst (info_delete infos element)) /\
  (element ∉ map fst (info_delete infos element)) /\
  len (info_delete infos element) = len infos - 1 /\
  (forall root, rootUsers root (info_delete infos element) =
                rootUsers root infos - (if Nat.eqb (rootNode info) root then 1 else 0)) /\
  (forall e, e <> element -> info_get (info_delete infos element) e = info_get infos e).
Proof.
  induction infos as [|[e i] infos IH]; simpl; [done|]. intros Hnd Hget.
  apply NoDup_cons in Hnd as [He Hnd].
  destruct (Nat.eqb_spec e element) as [->|Hne]; simpl.
  - injection Hget as ->. rewrite info_delete_absent by done.
    split; [done|]. split; [done|]. split; [unfold len; simpl; lia|]. split.
    + intros root. unfold rootUsers, len. simpl.
      destruct (Nat.eqb (rootNode info) root); simpl; lia.
    + intros e Hne. destruct (Nat.eqb_spec element e); [congruence | done].
  - destruct (IH Hnd Hget) as (H1 & H2 & H3 & H4 & H5).
    split; [|split; [|split; [|split]]].
    + apply NoDup_cons. split; [|done]. intros Hin. apply He.
      apply list_elem_of_fmap in Hin as ([e' i'] & -> & Hin).
      apply elem_of_list_filter in Hin as [_ Hin].
      apply list_elem_of_fmap. by exists (e', i').
    + apply not_elem_of_cons. split; [congruence | done].
    + unfold len in *. simpl. lia.
    + intros root. specialize (H4 root). unfold rootUsers, len in *. simpl.
      destruct (Nat.eqb (rootNode i) root); simpl; lia.
    + intros e0 He0. destruct (Nat.eqb e e0); [done | by apply H5].
Qed.



Lemma info_get_info_set infos element info :
  info_get (info_set infos element info) element = Some info.
Proof.
  induction infos as [|[e0 i] infos IH]; simpl.
  - by rewrite Nat.eqb_refl.
  - destruct (Nat.eqb_spec e0 element) as [->|Hne0]; simpl.
    + by rewrite Nat.eqb_refl.
    + destruct (Nat.eqb_spec e0 element); [done | exact IH].
Qed.

Lemma elem_of_keys_info_delete infos element e :
  e ∈ map fst (info_delete infos element) -> e <> element /\ e ∈ map fst infos.
Proof.
  intros Hin. apply list_elem_of_fmap in Hin as ([e' i'] & -> & Hin).
  apply elem_of_list_filter in Hin as [Hne Hin]. simpl in *.
  split; [by apply Nat.eqb_neq, negb_true_iff|].
  apply list_elem_of_fmap. by exists (e', i').
Qed.

Lemma rootUsers_member root infos element info :
  (element, info) ∈ infos -> rootNode info = root -> 1 <= rootUsers root infos.
Proof.
  intros Hin Hroot. apply list_elem_of_split in Hin as (l1 & l2 & ->).
  change ((element, info) :: l2) with ([(element, info)] ++ l2).
  rewrite !rootUsers_app, rootUsers_single, Hroot, Nat.eqb_refl.
  pose proof (rootUsers_nonneg root l1). pose proof (rootUsers_nonneg root l2). lia.
Qed.

Lemma elementInfo_step s e : _elementInfo (step s e) = _elementInfo s.
Proof.
  destruct e; simpl.
  - unfold _documentKeydownListener, _setOriginForCurrentEventQueue.
    destruct s as [? ? ? ? ? ? ? ? mode ? ? ? ?]. simpl. by destruct mode.
  - unfold _documentMousedownListener, _setOriginForCurrentEventQueue.
    destruct s as [? ? ? lt ? ? ? ? mode ? ? ? ?]. simpl. destruct lt; [done|].
    by destruct mode.
  - unfold _documentTouchstartListener. by destruct (_touchTimeoutId s).
  - done.
  - unfold _setOriginForCurrentEventQueue.
    destruct s as [? ? ? ? ? ? ? ? mode ? ? ? ?]. simpl. by destruct mode.
  - by destruct (control_fields _ _ (control_listener true event s)) as (_&_&_&_&_&->&_).
  - by destruct (control_fields _ _ (control_listener false event s)) as (_&_&_&_&_&->&_).
  - unfold fireTimer. destruct (List.find _ _) as [t|]; [|done].
    by destruct (timerAction t).
Qed.

(** *** The invariant *)

Lemma registry_ok_new mode d : registry_ok (new mode d).
Proof.
  unfold registry_ok, new, monitored. simpl.
  split; [constructor|]. split; [done|]. split; [done|]. split; [|done].
  intros root. unfold rootUsers, len. simpl. split; [set_solver | intros; exfalso; lia].
Qed.

Lemma registry_ok_register element info r s' :
  registry_ok r ->
  info_get (monitored r) element = None ->
  _elementInfo s' = monitored r ++ [(element, info)] ->
  registry_ok (_registerGlobalListeners info (set_monitorOf s' r)).
Proof.
  intros (Hnd & Hcount & Hmap & Hlis & Hglob) Hnone Hs'.
  unfold registry_ok, _registerGlobalListeners, monitored in *. simpl. rewrite Hs'.
  set (infos := _elementInfo (monitorOf r)) in *.
  set (root := rootNode info).
  assert (Hk : default 0 (_rootNodeFocusListenerCount r !! root) = rootUsers root infos).
  { rewrite Hmap. destruct (Z.eqb_spec (rootUsers root infos) 0); simpl; congruence. }
  rewrite Hk.
  assert (Hnew : forall root0, rootUsers root0 (infos ++ [(element, info)]) =
                               rootUsers root0 infos + if Nat.eqb root root0 then 1 else 0).
  { intros root0. by rewrite rootUsers_app, rootUsers_single. }
  split; [|split; [|split; [|split]]].
  - rewrite map_app. simpl. apply NoDup_app. split; [done|]. split; [|apply NoDup_singleton].
    intros x Hx Hx'. apply list_elem_of_singleton in Hx' as ->.
    by apply info_get_None in Hnone.
  - unfold len in *. rewrite length_app. simpl. lia.
  - intros root0. rewrite Hnew. pose proof (rootUsers_nonneg root0 infos).
    destruct (Nat.eqb_spec root root0) as [<-|Hne].
    + rewrite lookup_insert_eq.
      destruct (Z.eqb_spec (rootUsers root infos + 1) 0); [lia | done].
    + rewrite lookup_insert_ne, Hmap by done. by rewrite Z.add_0_r.
  - intros root0. rewrite Hnew. pose proof (rootUsers_nonneg root0 infos).
    destruct (Nat.eqb_spec root root0) as [<-|Hne].
    + destruct (Z.eqb_spec (rootUsers root infos) 0).
      * split; [lia | set_solver].
      * split; [lia|]. intros _. apply Hlis. lia.
    + rewrite Z.add_0_r, <- Hlis.
      destruct (rootUsers root infos =? 0); [set_solver | done].
  - rewrite Hcount, Hglob. pose proof (len_nonneg infos).
    assert (len (infos ++ [(element, info)]) = len infos + 1) as ->.
    { unfold len. rewrite length_app. simpl. lia. }
    destruct (Z.eqb_spec (len infos + 1) 1), (Z.eqb_spec (len infos + 1) 0),
             (Z.eqb_spec (len infos) 0); simpl; try done; lia.
Qed.

Lemma registry_ok_monitor element checkChildren root r :
  registry_ok r -> registry_ok (monitor element checkChildren root r).
Proof.
  intros Hok. unfold monitor.
  destruct (info_get (_elementInfo (monitorOf r)) element) as [cachedInfo|] eqn:Eget.
  - destruct checkChildren; [|done].
    destruct Hok as (Hnd & Hcount & Hmap & Hlis & Hglob).
    destruct (info_set_present _ _ _ (mkInfo true (rootNode cachedInfo)) Eget eq_refl)
      as (Hkeys & Hlen & Husers & _).
    unfold registry_ok, monitored in *. simpl. rewrite Hkeys, Hlen.
    split; [done|]. split; [done|]. split; [|split; [|done]].
    + intros root0. by rewrite Husers.
    + intros root0. by rewrite Husers.
  - apply (registry_ok_register element); [done | done |]. simpl. by apply info_set_absent.
Qed.

Lemma monitored_removeGlobalListeners info r :
  monitored (_removeGlobalListeners info r) = monitored r.
Proof.
  unfold _removeGlobalListeners, monitored.
  destruct (_rootNodeFocusListenerCount r !! rootNode info) as [k|]; [destruct (1 <? k)|];
    destruct (_monitoredElementCount r - 1 =? 0); simpl; try done;
    unfold clearTimeout;
    destruct (_windowFocusTimeoutId (monitorOf r)); simpl;
    destruct (_touchTimeoutId (monitorOf r)); simpl;
    destruct (_originTimeoutId (monitorOf r)); done.
Qed.

Lemma registry_ok_stopMonitoring element r :
  registry_ok r -> registry_ok (stopMonitoring element r).
Proof.
  intros Hok. unfold stopMonitoring.
  destruct (info_get (_elementInfo (monitorOf r)) element) as [info|] eqn:Eget; [|done].
  destruct Hok as (Hnd & Hcount & Hmap & Hlis & Hglob).
  unfold monitored in *.
  set (infos := _elementInfo (monitorOf r)) in *.
  destruct (info_delete_present infos element info Hnd Eget) as (Hnd' & _ & Hlen & Husers & _).
  pose proof (rootUsers_member (rootNode info) infos element info
                (info_get_Some _ _ _ Eget) eq_refl) as Hone.
  set (r1 := mkRegistry _ _ _ _ _ _).
  unfold registry_ok. rewrite monitored_removeGlobalListeners.
  change (monitored r1) with (info_delete infos element).
  unfold _removeGlobalListeners.
  change (_rootNodeFocusListenerCount r1) with (_rootNodeFocusListenerCount r).
  change (rootListeners r1) with (rootListeners r).
  change (_monitoredElementCount r1) with (_monitoredElementCount r).
  change (globalListeners r1) with (globalListeners r).
  set (root := rootNode info) in *.
  rewrite (Hmap root).
  destruct (Z.eqb_spec (rootUsers root infos) 0) as [|_]; [lia|].
  assert (Hrest : forall root0, root0 <> root ->
            rootUsers root0 (info_delete infos element) = rootUsers root0 infos).
  { intros root0 Hne. rewrite Husers. fold root.
    destruct (Nat.eqb_spec root root0); [congruence | lia]. }
  assert (Hroot : rootUsers root (info_delete infos element) = rootUsers root infos - 1).
  { rewrite Husers. fold root. by rewrite Nat.eqb_refl. }
  assert (Hfinal :
    forall (s0 : State) g,
      g = negb (len (info_delete infos element) =? 0) ->
      let counts := if 1 <? rootUsers root infos
                    then <[ root := rootUsers root infos - 1 ]> (_rootNodeFocusListenerCount r)
                    else delete root (_rootNodeFocusListenerCount r) in
      let listeners := if 1 <? rootUsers root infos then rootListeners r
                       else rootListeners r ∖ {[ root ]} in
      NoDup (map fst (info_delete infos element)) /\
      _monitoredElementCount r - 1 = len (info_delete infos element) /\
      (forall root0, counts !! root0 =
         if rootUsers root0 (info_delete infos element) =? 0 then None
         else Some (rootUsers root0 (info_delete infos element))) /\
      (forall root0, root0 ∈ listeners <-> 0 < rootUsers root0 (info_delete infos element)) /\
      g = negb (len (info_delete infos element) =? 0)).
  { intros s0 g Hg counts listeners. split; [done|]. split; [lia|]. split; [|split; [|done]].
    - intros root0. unfold counts. destruct (decide (root0 = root)) as [->|Hne].
      + rewrite Hroot. destruct (Z.ltb_spec 1 (rootUsers root infos)).
        * rewrite lookup_insert_eq.
          destruct (Z.eqb_spec (rootUsers root infos - 1) 0); [lia | done].
        * rewrite lookup_delete_eq.
          destruct (Z.eqb_spec (rootUsers root infos - 1) 0); [done | lia].
      + rewrite Hrest by done. destruct (1 <? rootUsers root infos).
        * by rewrite lookup_insert_ne, Hmap.
        * by rewrite lookup_delete_ne, Hmap.
    - intros root0. unfold listeners. destruct (decide (root0 = root)) as [->|Hne].
      + rewrite Hroot. destruct (Z.ltb_spec 1 (rootUsers root infos)).
        * rewrite Hlis. lia.
        * split; [set_solver | lia].
      + rewrite Hrest by done. rewrite <- Hlis.
        destruct (1 <? rootUsers root infos); set_solver. }
  pose proof (len_nonneg (info_delete infos element)) as Hpos.
  destruct (Z.eqb_spec (_monitoredElementCount r - 1) 0) as [Hz|Hnz].
  - destruct (1 <? rootUsers root infos) eqn:E1;
      apply (Hfinal (monitorOf r) false);
      (destruct (Z.eqb_spec (len (info_delete infos element)) 0); [done | lia]).
  - destruct (1 <? rootUsers root infos) eqn:E1;
      apply (Hfinal (monitorOf r) (globalListeners r));
      rewrite Hglob;
      (destruct (Z.eqb_spec (len (info_delete infos element)) 0),
                (Z.eqb_spec (len infos) 0); simpl; try done; lia).
Qed.

Lemma registry_ok_dispatch e r :
  registry_ok r -> registry_ok (set_monitorOf (step (monitorOf r) e) r).
Proof.
  unfold registry_ok, monitored. simpl. by rewrite elementInfo_step.
Qed.

Lemma registry_ok_stopAll keys r :
  registry_ok r ->
  registry_ok (fold_left (fun r' element => stopMonitoring element r') keys r).
Proof.
  revert r. induction keys as [|k keys IH]; intros r Hok; [done|].
  simpl. by apply IH, registry_ok_stopMonitoring.
Qed.

Lemma registry_ok_act a r : registry_ok r -> registry_ok (act r a).
Proof.
  intros Hok. destruct a; simpl.
  - by apply registry_ok_monitor.
  - by apply registry_ok_stopMonitoring.
  - by apply registry_ok_dispatch.
  - by apply registry_ok_stopAll.
Qed.

Lemma registry_ok_perform acts r : registry_ok r -> registry_ok (perform acts r).
Proof.
  revert r. induction acts as [|a acts IH]; intros r Hok; [done|].
  simpl. by apply IH, registry_ok_act.
Qed.

Lemma rootUsers_pos root infos :
  0 < rootUsers root infos <->
  exists element info, (element, info) ∈ infos /\ rootNode info = root.
Proof.
  split.
  - unfold rootUsers, len. intros Hpos.
    destruct (List.filter _ infos) as [|[e i] l] eqn:Ef; [simpl in Hpos; lia|].
    assert (Hin : (e, i) ∈ List.filter (fun entry => Nat.eqb (rootNode (snd entry)) root) infos)
      by (rewrite Ef; apply list_elem_of_here).
    apply elem_of_list_filter in Hin as [Hr Hin]. simpl in Hr.
    exists e, i. split; [done | by apply Nat.eqb_eq].
  - intros (element & info & Hin & Hroot).
    pose proof (rootUsers_member root infos element info Hin Hroot). lia.
Qed.

(** X23. After any sequence of [monitor] and [stopMonitoring] calls,
    events, timers and [ngOnDestroy] on a new monitor: no element is
    monitored twice, [_monitoredElementCount] is the number of monitored
    elements, the count kept for a root node is the number of monitored
    elements under it (no entry for none), the focus and blur listeners sit
    on exactly the root nodes that have a monitored element, and the
    document and window listeners are registered exactly while some
    element is monitored. *)
Theorem listener_counts_follow_the_monitored_elements :
  forall (mode : FocusMonitorDetectionMode) (d : Document) (acts : list Action),
    let r := perform acts (new mode d) in
    NoDup (map fst (monitored r)) /\
    _monitoredElementCount r = len (monitored r) /\
    (forall root,
        _rootNodeFocusListenerCount r !! root =
        if rootUsers root (monitored r) =? 0 then None
        else Some (rootUsers root (monitored r))) /\
    (forall root,
        root ∈ rootListeners r <->
        exists element info, (element, info) ∈ monitored r /\ rootNode info = root) /\
    (globalListeners r = true <-> monitored r <> []).
Proof.
  intros mode d acts r.
  assert (Hok : registry_ok r) by apply registry_ok_perform, registry_ok_new.
  destruct Hok as (Hnd & Hcount & Hmap & Hlis & Hglob).
  split; [done|]. split; [done|]. split; [done|]. split.
  - intros root. by rewrite Hlis, rootUsers_pos.
  - rewrite Hglob. destruct (monitored r); simpl; [split; done|].
    split; done.
Qed.

(** *** [checkChildren] *)

Lemma monitored_registerGlobalListeners info r :
  monitored (_registerGlobalListeners info r) = monitored r.
Proof. done. Qed.




(** *** [stopMonitoring] *)

Lemma removeGlobalListeners_monitor info r :
  document (monitorOf (_removeGlobalListeners info r)) = document (monitorOf r) /\
  emitted (monitorOf (_removeGlobalListeners info r)) = emitted (monitorOf r) /\
  completedSubjects (_removeGlobalListeners info r) = completedSubjects r.
Proof.
  unfold _removeGlobalListeners.
  destruct (_rootNodeFocusListenerCount r !! rootNode info) as [k|]; [destruct (1 <? k)|];
    destruct (_monitoredElementCount r - 1 =? 0); simpl; try done;
    unfold clearTimeout;
    destruct (_windowFocusTimeoutId (monitorOf r)); simpl;
    destruct (_touchTimeoutId (monitorOf r)); simpl;
    destruct (_originTimeoutId (monitorOf r)); done.
Qed.

Lemma timers_ok_clearTimeout id s : timers_ok s -> timers_ok (clearTimeout id s).
Proof.
  intros (Hlt & Hnd & Htouch & Hev). destruct id as [i|]; [|done].
  unfold timers_ok, clearTimeout. simpl.
  split; [by apply Forall_list_filter|]. split; [by apply NoDup_map_list_filter|].
  split.
  - intros t0 Ht0. apply elem_of_list_filter in Ht0 as [_ Ht0]. by apply Htouch.
  - intros Hmode t0 Ht0. apply elem_of_list_filter in Ht0 as [_ Ht0]. by apply Hev.
Qed.

Lemma touch_timers_cleared_at_last info r :
  timers_ok (monitorOf r) -> _monitoredElementCount r - 1 = 0 ->
  List.filter isTouchTimer (timers (monitorOf (_removeGlobalListeners info r))) = [].
Proof.
  intros Hok Hz. unfold _removeGlobalListeners.
  destruct (match _rootNodeFocusListenerCount r !! rootNode info with
            | Some k => _
            | None => _
            end) as [counts listeners].
  rewrite Hz. simpl.
  set (s1 := clearTimeout (_windowFocusTimeoutId (monitorOf r)) (monitorOf r)).
  assert (Hok1 : timers_ok s1) by (by apply timers_ok_clearTimeout).
  pose proof (touch_timers_cleared s1 Hok1) as Hclr.
  set (s2 := clearTimeout (_touchTimeoutId s1) s1) in *.
  destruct (List.filter isTouchTimer (timers (clearTimeout (_originTimeoutId s2) s2)))
    as [|t l] eqn:Ef; [done|]. exfalso.
  assert (Hin : t ∈ List.filter isTouchTimer (timers (clearTimeout (_originTimeoutId s2) s2)))
    by (rewrite Ef; apply list_elem_of_here).
  apply elem_of_list_filter in Hin as [Ht Hin].
  assert (Hin2 : t ∈ timers s2).
  { unfold clearTimeout in Hin. destruct (_originTimeoutId s2); [|done].
    simpl in Hin. by apply elem_of_list_filter in Hin as [_ Hin]. }
  assert (Hin3 : t ∈ List.filter isTouchTimer (timers s2)) by (by apply elem_of_list_filter).
  rewrite Hclr in Hin3. by apply elem_of_nil in Hin3.
Qed.

(** X25. [stopMonitoring] on a monitored element: the element is no longer
    monitored and the other entries stay; its subject is completed and
    nothing is emitted on it; the element loses the five focus classes and
    keeps its other classes; when it was the last monitored element the
    document and window listeners and all root listeners are gone and no
    timer of the touch buffer stays pending.  On an element that is not
    monitored the call does nothing. *)
Theorem stopMonitoring_forgets_the_element :
  forall (r : Registry) (element : Node),
    registry_ok r ->
    let r' := stopMonitoring element r in
    (info_get (monitored r) element = None -> r' = r) /\
    (forall info, info_get (monitored r) element = Some info ->
       info_get (monitored r') element = None /\
       (forall e, e <> element -> info_get (monitored r') e = info_get (monitored r) e) /\
       completedSubjects r' = completedSubjects r ++ [element] /\
       emitted (monitorOf r') = emitted (monitorOf r) /\
       (is_Some (nodes (document (monitorOf r)) !! element) ->
        forall c, c ∈ FocusTrapMore.classList (document (monitorOf r')) element <->
                  (c ∉ focusClasses) /\
                  c ∈ FocusTrapMore.classList (document (monitorOf r)) element) /\
       (monitored r' = [] ->
        globalListeners r' = false /\ rootListeners r' = ∅ /\
        _rootNodeFocusListenerCount r' = ∅ /\
        (timers_ok (monitorOf r) ->
         List.filter isTouchTimer (timers (monitorOf r')) = []))).
Proof.
  intros r element Hok r'.
  assert (Hok' : registry_ok r') by (by apply registry_ok_stopMonitoring).
  split.
  - intros Hnone. unfold r', stopMonitoring. fold (monitored r). by rewrite Hnone.
  - intros info Hget. unfold r', stopMonitoring in *. fold (monitored r) in *.
    rewrite Hget in *.
    set (r1 := mkRegistry _ _ _ _ _ _) in *.
    destruct (removeGlobalListeners_monitor info r1) as (Hdoc & Hem & Hcomp).
    destruct Hok as (Hnd & Hcount & _).
    destruct (info_delete_present (monitored r) element info Hnd Hget)
      as (_ & Hnin & Hlen & _ & Hothers).
    rewrite monitored_removeGlobalListeners in *.
    change (monitored r1) with (info_delete (monitored r) element) in *.
    split; [by apply info_get_None|]. split; [done|]. split; [done|]. split; [done|].
    split.
    + intros Hel c. rewrite Hdoc. simpl.
      rewrite elem_of_classList_setClasses by done. simpl. rewrite elem_of_nil. tauto.
    + intros Hempty. destruct Hok' as (_ & Hcount' & Hmap' & Hlis' & Hglob').
      rewrite monitored_removeGlobalListeners in *.
      change (monitored r1) with (info_delete (monitored r) element) in *.
      rewrite Hempty in *.
      split; [done|]. split; [|split].
      * apply set_eq. intros root. rewrite Hlis'. unfold rootUsers, len. simpl.
        split; [lia | set_solver].
      * apply map_eq. intros root. by rewrite Hmap', lookup_empty.
      * intros Htok. apply touch_timers_cleared_at_last; [done|].
        change (_monitoredElementCount r1) with (_monitoredElementCount r).
        rewrite Hcount. unfold len in *. simpl in Hlen. lia.
Qed.

Lemma registry_ok_twoUnderOneRoot : registry_ok twoUnderOneRoot.
Proof. apply registry_ok_perform, registry_ok_new. Qed.

Lemma stopMonitoring_forgets_the_element_witness :
  let r := twoUnderOneRoot in
  registry_ok r /\
  info_get (monitored r) 1%nat = Some (mkInfo false 0%nat) /\
  info_get (monitored (stopMonitoring 1%nat r)) 1%nat = None /\
  completedSubjects (stopMonitoring 1%nat r) = completedSubjects r ++ [1%nat].
Proof.
  set (r := twoUnderOneRoot).
  assert (H1 : registry_ok r) by exact registry_ok_twoUnderOneRoot.
  assert (H2 : info_get (monitored r) 1%nat = Some (mkInfo false 0%nat)) by reflexivity.
  split; [exact H1|]. split; [exact H2|].
  pose proof (proj2 (stopMonitoring_forgets_the_element r 1%nat H1) (mkInfo false 0%nat) H2)
    as (Hnone & _ & Hcomp & _).
  split; [exact Hnone | exact Hcomp].
Defined.

Lemma empty_registry r :
  registry_ok r -> monitored r = [] ->
  _monitoredElementCount r = 0 /\ _rootNodeFocusListenerCount r = ∅ /\
  rootListeners r = ∅ /\ globalListeners r = false.
Proof.
  intros (_ & Hcount & Hmap & Hlis & Hglob) Hempty. rewrite Hempty in *.
  split; [done|]. split; [|split; [|done]].
  - apply map_eq. intros root. by rewrite Hmap, lookup_empty.
  - apply set_eq. intros root. rewrite Hlis. unfold rootUsers, len. simpl.
    split; [lia | set_solver].
Qed.

(** X26. Monitoring an element that was not monitored and unmonitoring it
    again restores the map of monitored elements, the count, the counts
    per root node, the root listeners and the flag of the global
    listeners. *)
Theorem monitor_then_stopMonitoring_restores_the_bookkeeping :
  forall (r : Registry) (element : Node) (checkChildren : bool) (root : Node),
    registry_ok r ->
    info_get (monitored r) element = None ->
    let r1 := monitor element checkChildren root r in
    let r2 := stopMonitoring element r1 in
    info_get (monitored r1) element = Some (mkInfo checkChildren root) /\
    _monitoredElementCount r1 = _monitoredElementCount r + 1 /\
    root ∈ rootListeners r1 /\ globalListeners r1 = true /\
    monitored r2 = monitored r /\
    bookkeeping r2 = bookkeeping r.
Proof.
  intros r element cc root Hok Hnone r1 r2.
  assert (Hok1 : registry_ok r1) by (by apply registry_ok_monitor).
  assert (Hok2 : registry_ok r2) by (by apply registry_ok_stopMonitoring).
  assert (Hm1 : monitored r1 = monitored r ++ [(element, mkInfo cc root)]).
  { unfold r1, monitor. fold (monitored r). rewrite Hnone.
    rewrite monitored_registerGlobalListeners. unfold monitored. simpl.
    by apply info_set_absent. }
  assert (Hget1 : info_get (monitored r1) element = Some (mkInfo cc root)).
  { unfold r1, monitor. fold (monitored r). rewrite Hnone.
    rewrite monitored_registerGlobalListeners. unfold monitored. simpl.
    apply info_get_info_set. }
  assert (Hm2 : monitored r2 = monitored r).
  { unfold r2, stopMonitoring. fold (monitored r1). rewrite Hget1.
    rewrite monitored_removeGlobalListeners. unfold monitored at 1. simpl.
    fold (monitored r1). rewrite Hm1. unfold info_delete.
    rewrite List.filter_app. simpl. rewrite Nat.eqb_refl. simpl. rewrite app_nil_r.
    apply info_delete_absent. by apply info_get_None. }
  destruct Hok as (Hnd & Hcount & Hmap & Hlis & Hglob).
  destruct Hok1 as (Hnd1 & Hcount1 & Hmap1 & Hlis1 & Hglob1).
  destruct Hok2 as (Hnd2 & Hcount2 & Hmap2 & Hlis2 & Hglob2).
  rewrite Hm2 in *. rewrite Hm1 in *.
  split; [done|]. split.
  { rewrite Hcount1, Hcount. unfold len. rewrite length_app. simpl. lia. }
  split.
  { apply Hlis1. rewrite rootUsers_app, rootUsers_single. simpl. rewrite Nat.eqb_refl.
    pose proof (rootUsers_nonneg root (monitored r)). lia. }
  split.
  { rewrite Hglob1. apply negb_true_iff, Z.eqb_neq. unfold len. rewrite length_app.
    simpl. lia. }
  split; [done|].
  unfold bookkeeping. f_equal; [f_equal; [f_equal|]|].
  - apply map_eq. intros root0. by rewrite Hmap2, Hmap.
  - by rewrite Hcount2, Hcount.
  - apply set_eq. intros root0. by rewrite Hlis2, Hlis.
  - by rewrite Hglob2, Hglob.
Qed.

Lemma monitor_then_stopMonitoring_restores_the_bookkeeping_witness :
  let r := twoUnderOneRoot in
  registry_ok r /\
  info_get (monitored r) 2%nat = None /\
  monitored (stopMonitoring 2%nat (monitor 2%nat true 2%nat r)) = monitored r /\
  bookkeeping (stopMonitoring 2%nat (monitor 2%nat true 2%nat r)) = bookkeeping r.
Proof.
  set (r := twoUnderOneRoot).
  assert (H1 : registry_ok r) by exact registry_ok_twoUnderOneRoot.
  assert (H2 : info_get (monitored r) 2%nat = None) by reflexivity.
  split; [exact H1|]. split; [exact H2|].
  pose proof (monitor_then_stopMonitoring_restores_the_bookkeeping r 2%nat true 2%nat H1 H2)
    as (_ & _ & _ & _ & Hm & Hb).
  split; [exact Hm | exact Hb].
Defined.

(** *** [ngOnDestroy] *)

Lemma stopAll_monitored keys r :
  (forall e, e ∈ map fst (monitored r) -> e ∈ keys) ->
  monitored (fold_left (fun r' element => stopMonitoring element r') keys r) = [].
Proof.
  revert r. induction keys as [|k keys IH]; intros r Hkeys; simpl.
  - destruct (monitored r) as [|[e i] l]; [done|].
    specialize (Hkeys e (list_elem_of_here _ _)). by apply elem_of_nil in Hkeys.
  - apply IH. intros e He. unfold stopMonitoring in He. fold (monitored r) in He.
    destruct (info_get (monitored r) k) as [info|] eqn:Eget.
    + rewrite monitored_removeGlobalListeners in He. unfold monitored at 1 in He.
      simpl in He. fold (monitored r) in He.
      apply elem_of_keys_info_delete in He as [Hne He].
      specialize (Hkeys e He). apply elem_of_cons in Hkeys as [?|?]; [congruence | done].
    + apply info_get_None in Eget. specialize (Hkeys e He).
      apply elem_of_cons in Hkeys as [->|?]; [done | done].
Qed.

Lemma stopAll_completed keys r :
  NoDup keys -> keys = map fst (monitored r) ->
  completedSubjects (fold_left (fun r' element => stopMonitoring element r') keys r) =
    completedSubjects r ++ keys /\
  emitted (monitorOf (fold_left (fun r' element => stopMonitoring element r') keys r)) =
    emitted (monitorOf r).
Proof.
  revert r. induction keys as [|k keys IH]; intros r Hnd Hkeys; simpl.
  - by rewrite app_nil_r.
  - apply NoDup_cons in Hnd as [Hk Hnd].
    destruct (monitored r) as [|[e i] infos] eqn:Em; [done|].
    simpl in Hkeys. injection Hkeys as -> ->.
    assert (Hget : info_get (monitored r) e = Some i).
    { rewrite Em. simpl. by rewrite Nat.eqb_refl. }
    set (r1 := stopMonitoring e r).
    assert (Hm1 : monitored r1 = infos).
    { unfold r1, stopMonitoring. fold (monitored r). rewrite Hget.
      rewrite monitored_removeGlobalListeners. unfold monitored at 1. simpl.
      fold (monitored r). rewrite Em. simpl. rewrite Nat.eqb_refl. simpl.
      by apply info_delete_absent. }
    assert (Hc1 : completedSubjects r1 = completedSubjects r ++ [e] /\
                  emitted (monitorOf r1) = emitted (monitorOf r)).
    { unfold r1, stopMonitoring. fold (monitored r). rewrite Hget.
      set (r0 := mkRegistry _ _ _ _ _ _).
      by destruct (removeGlobalListeners_monitor i r0) as (_ & -> & ->). }
    destruct Hc1 as [Hc1 He1].
    destruct (IH r1 Hnd (eq_sym (f_equal (map fst) Hm1))) as [Hc He].
    rewrite Hc, He, Hc1, He1, <- app_assoc. done.
Qed.

(** X27. [ngOnDestroy] stops the monitoring of every element: afterwards
    nothing is monitored, the subject of each element that was monitored
    is completed (in the order of the map), nothing was emitted, and no
    listener and no count is left. *)
Theorem ngOnDestroy_stops_all_monitoring :
  forall (r : Registry),
    registry_ok r ->
    let r' := ngOnDestroy r in
    monitored r' = [] /\
    completedSubjects r' = completedSubjects r ++ map fst (monitored r) /\
    emitted (monitorOf r') = emitted (monitorOf r) /\
    _monitoredElementCount r' = 0 /\ _rootNodeFocusListenerCount r' = ∅ /\
    rootListeners r' = ∅ /\ globalListeners r' = false.
Proof.
  intros r Hok r'.
  assert (Hok' : registry_ok r') by (by apply registry_ok_stopAll).
  assert (Hm : monitored r' = []) by (by apply stopAll_monitored).
  destruct Hok as (Hnd & _).
  destruct (stopAll_completed (map fst (monitored r)) r Hnd eq_refl) as [Hc He].
  split; [done|]. split; [done|]. split; [done|].
  by apply empty_registry.
Qed.

Lemma ngOnDestroy_stops_all_monitoring_witness :
  let r := twoUnderOneRoot in
  registry_ok r /\
  monitored (ngOnDestroy r) = [] /\
  completedSubjects (ngOnDestroy r) = [1%nat; 0%nat] /\
  globalListeners r = true /\ globalListeners (ngOnDestroy r) = false.
Proof.
  set (r := twoUnderOneRoot).
  assert (H1 : registry_ok r) by exact registry_ok_twoUnderOneRoot.
  pose proof (ngOnDestroy_stops_all_monitoring r H1) as (Hm & Hc & _ & _ & _ & _ & Hg).
  split; [exact H1|]. split; [exact Hm|]. split; [exact Hc|]. split; [reflexivity | exact Hg].
Defined.

End FocusMonitorRegistryProofs.

(** ** ConfigurableFocusTrap: the one focus listener of the document *)

Module ConfigurableFocusTrapProofs.
Import JsArray JsArrayFacts FocusTrapManager FocusTrapManagerProofs.
Import FocusTrapManagerMore FocusTrapManagerMoreProofs ConfigurableFocusTrap.

(** What the pieces of [_enable] and [_disable] leave alone. *)
Lemma toggleAnchors_fields b t s :
  manager (toggleAnchors b t s) = manager s /\
  _listener (toggleAnchors b t s) = _listener s /\
  documentListeners (toggleAnchors b t s) = documentListeners s /\
  nextClosure (toggleAnchors b t s) = nextClosure s /\
  _enabled (toggleAnchors b t s) = _enabled s.
Proof. unfold toggleAnchors. by destruct (anchors s !! t). Qed.

Lemma preventFocus_fields t s :
  manager (preventFocus t s) = manager s /\ anchors (preventFocus t s) = anchors s /\
  _enabled (preventFocus t s) = _enabled s.
Proof. done. Qed.

Lemma allowFocus_fields t s :
  manager (allowFocus t s) = manager s /\ anchors (allowFocus t s) = anchors s /\
  _enabled (allowFocus t s) = _enabled s.
Proof. unfold allowFocus. by destruct (_listener s). Qed.

Lemma manager_enable t s :
  manager (_enable t s) =
  FocusTrapManager.mkState (_focusTrapStack (manager s))
                           (FocusTrapManager._enable t (enabledTraps (manager s))).
Proof.
  unfold _enable.
  destruct (toggleAnchors_fields true t (preventFocus t (noteCall true t s))) as (-> & _).
  done.
Qed.

Lemma manager_disable t s :
  manager (_disable t s) =
  FocusTrapManager.mkState (_focusTrapStack (manager s))
                           (FocusTrapManager._disable t (enabledTraps (manager s))).
Proof.
  unfold _disable.
  destruct (toggleAnchors_fields false t (allowFocus t (noteCall false t s))) as (-> & _).
  by destruct (allowFocus_fields t (noteCall false t s)) as (-> & _).
Qed.

Lemma manager_set_stack stack s :
  manager (set_stack stack s) = FocusTrapManager.mkState stack (enabledTraps (manager s)).
Proof. done. Qed.

(** The stack and the record of the calls follow the manager of the first
    part. *)
Lemma manager_register t s :
  manager (register t s) = FocusTrapManager.register t (manager s).
Proof.
  unfold register, FocusTrapManager.register. cbv zeta.
  set (stack := jsfilter _ _).
  rewrite manager_enable, manager_set_stack.
  destruct (negb (len stack =? 0)); [|done].
  destruct (item_at stack (len stack - 1)) as [top|]; [|done].
  by rewrite manager_disable, manager_set_stack.
Qed.

Lemma manager_deregister t s :
  manager (deregister t s) = FocusTrapManager.deregister t (manager s).
Proof.
  unfold deregister, FocusTrapManager.deregister. cbv zeta.
  rewrite manager_disable. cbn [_focusTrapStack enabledTraps].
  destruct (negb (indexOf (_focusTrapStack (manager s)) t =? -1)).
  - set (stack' := splice1 _ _).
    destruct (negb (len stack' =? 0)).
    + destruct (item_at stack' (len stack' - 1)) as [top|].
      * by rewrite manager_enable, manager_set_stack, manager_disable.
      * by rewrite manager_set_stack, manager_disable.
    + by rewrite manager_set_stack, manager_disable.
  - by rewrite manager_disable.
Qed.

Lemma manager_attachAnchors t s : manager (attachAnchors t s) = manager s.
Proof. unfold attachAnchors. by destruct (anchors s !! t). Qed.

Lemma manager_new defer t s :
  manager (new defer t s) = FocusTrapManager.register t (manager s).
Proof.
  unfold new. cbv zeta. rewrite manager_register.
  destruct defer; [done|]. by rewrite manager_attachAnchors.
Qed.

Lemma manager_step s c :
  manager (step s c) = FocusTrapManager.run (managerCalls c) (manager s).
Proof.
  destruct c as [t|t [|]|t|t|t];
    cbn [step managerCalls FocusTrapManager.run fold_left FocusTrapManager.step].
  - apply manager_new.
  - unfold set_enabled. by rewrite manager_register.
  - unfold set_enabled. by rewrite manager_deregister.
  - unfold destroy. cbv zeta. cbn [set_anchors manager]. by rewrite manager_deregister.
  - apply manager_new.
  - apply manager_attachAnchors.
Qed.

Lemma manager_run cs s :
  manager (run cs s) = FocusTrapManager.run (concat (map managerCalls cs)) (manager s).
Proof.
  revert s. induction cs as [|c cs IH]; intros s; [done|].
  cbn [run fold_left map concat]. fold (run cs (step s c)).
  rewrite IH, manager_step. unfold FocusTrapManager.run. by rewrite fold_left_app.
Qed.

Lemma stack_ok_step s c : stack_ok (manager s) -> stack_ok (manager (step s c)).
Proof. intros Hok. rewrite manager_step. by apply stack_ok_run. Qed.

(** *** The listener of the strategy *)

Lemma removeEventListener_self l : removeEventListener l [l] = [].
Proof. unfold removeEventListener. simpl. by rewrite Nat.eqb_refl. Qed.

Lemma preventFocus_listener t s :
  documentListeners s = match _listener s with Some l => [l] | None => [] end ->
  _listener (preventFocus t s) = Some (mkClosure (nextClosure s) t) /\
  documentListeners (preventFocus t s) = [mkClosure (nextClosure s) t] /\
  nextClosure (preventFocus t s) = S (nextClosure s) /\
  manager (preventFocus t s) = manager s.
Proof.
  intros Hdoc. unfold preventFocus. simpl. rewrite Hdoc.
  destruct (_listener s) as [l|]; [by rewrite removeEventListener_self | done].
Qed.

Lemma allowFocus_listener t s :
  documentListeners s = match _listener s with Some l => [l] | None => [] end ->
  _listener (allowFocus t s) = None /\
  documentListeners (allowFocus t s) = [] /\
  nextClosure (allowFocus t s) = nextClosure s /\
  manager (allowFocus t s) = manager s.
Proof.
  intros Hdoc. unfold allowFocus.
  destruct (_listener s) as [l|] eqn:El; simpl.
  - by rewrite Hdoc, removeEventListener_self.
  - by rewrite El.
Qed.

Lemma enable_listener t s :
  documentListeners s = match _listener s with Some l => [l] | None => [] end ->
  _listener (_enable t s) = Some (mkClosure (nextClosure s) t) /\
  documentListeners (_enable t s) = [mkClosure (nextClosure s) t] /\
  nextClosure (_enable t s) = S (nextClosure s).
Proof.
  intros Hdoc.
  assert (Hdoc' : documentListeners (noteCall true t s) =
                  match _listener (noteCall true t s) with Some l => [l] | None => [] end)
    by exact Hdoc.
  destruct (preventFocus_listener t _ Hdoc') as (H1 & H2 & H3 & _).
  unfold _enable.
  destruct (toggleAnchors_fields true t (preventFocus t (noteCall true t s)))
    as (_ & -> & -> & -> & _).
  by rewrite H1, H2, H3.
Qed.

Lemma disable_listener t s :
  documentListeners s = match _listener s with Some l => [l] | None => [] end ->
  _listener (_disable t s) = None /\
  documentListeners (_disable t s) = [] /\
  nextClosure (_disable t s) = nextClosure s.
Proof.
  intros Hdoc.
  assert (Hdoc' : documentListeners (noteCall false t s) =
                  match _listener (noteCall false t s) with Some l => [l] | None => [] end)
    by exact Hdoc.
  destruct (allowFocus_listener t _ Hdoc') as (H1 & H2 & H3 & _).
  unfold _disable.
  destruct (toggleAnchors_fields false t (allowFocus t (noteCall false t s)))
    as (_ & -> & -> & -> & _).
  by rewrite H1, H2, H3.
Qed.

(** After [register] the listener traps the focus for the registered trap. *)
Lemma register_listener t s :
  documentListeners s = match _listener s with Some l => [l] | None => [] end ->
  exists l, _listener (register t s) = Some l /\ trapOf l = t /\
            documentListeners (register t s) = [l] /\
            (closureId l < nextClosure (register t s))%nat.
Proof.
  intros Hdoc. unfold register. cbv zeta.
  set (stack := jsfilter _ _).
  set (s2 := if negb (len stack =? 0) then _ else _).
  assert (Hdoc2 : documentListeners (set_stack (stack ++ [t]) s2) =
                  match _listener (set_stack (stack ++ [t]) s2) with
                  | Some l => [l]
                  | None => []
                  end).
  { unfold s2. destruct (negb (len stack =? 0)); [|done].
    destruct (item_at stack (len stack - 1)) as [top|]; [|done].
    destruct (disable_listener top (set_stack stack s) Hdoc) as (H1 & H2 & _).
    cbn [set_stack _listener documentListeners]. by rewrite H1, H2. }
  destruct (enable_listener t _ Hdoc2) as (H1 & H2 & H3).
  eexists. split; [exact H1|]. split; [done|]. split; [done|]. rewrite H3. simpl. lia.
Qed.

(** After [deregister] the listener traps the focus for the new top when
    the trap was on the stack, and there is no listener when it was not. *)
Lemma deregister_listener t s :
  documentListeners s = match _listener s with Some l => [l] | None => [] end ->
  documentListeners (deregister t s) =
    match _listener (deregister t s) with Some l => [l] | None => [] end /\
  (forall l, _listener (deregister t s) = Some l ->
             (closureId l < nextClosure (deregister t s))%nat /\
             t ∈ _focusTrapStack (manager s) /\
             last (_focusTrapStack (manager (deregister t s))) = Some (trapOf l)) /\
  (t ∉ _focusTrapStack (manager s) -> _listener (deregister t s) = None) /\
  (t ∈ _focusTrapStack (manager s) ->
   _focusTrapStack (manager (deregister t s)) <> [] ->
   is_Some (_listener (deregister t s))).
Proof.
  intros Hdoc.
  destruct (disable_listener t s Hdoc) as (H1 & H2 & H3).
  pose proof (manager_disable t s) as Hm.
  unfold deregister. cbv zeta.
  set (s1 := _disable t s) in *.
  assert (Hst : _focusTrapStack (manager s1) = _focusTrapStack (manager s)) by (by rewrite Hm).
  rewrite Hst. set (stack := _focusTrapStack (manager s)) in *.
  destruct (Z.eqb_spec (indexOf stack t) (-1)) as [Hidx|Hidx]; cbn [negb].
  - rewrite H1, H2. split; [done|]. split; [done|]. split; [done|].
    intros Hin. exfalso. apply list_elem_of_split_l in Hin as (l1 & l2 & Hl & Hl1).
    rewrite Hl in Hidx. unfold indexOf in Hidx. rewrite index_from_present in Hidx by done.
    pose proof (len_nonneg l1). lia.
  - assert (Hin : t ∈ stack).
    { destruct (decide (t ∈ stack)) as [|Hnin]; [done|].
      unfold indexOf in Hidx. by rewrite index_from_absent in Hidx. }
    set (stack' := splice1 _ _).
    set (s2 := set_stack stack' s1).
    assert (L2 : _listener s2 = None) by exact H1.
    assert (D2 : documentListeners s2 = []) by exact H2.
    assert (M2 : _focusTrapStack (manager s2) = stack') by reflexivity.
    assert (Hdoc2 : documentListeners s2 =
                    match _listener s2 with Some l => [l] | None => [] end)
      by (by rewrite L2, D2).
    destruct (Z.eqb_spec (len stack') 0) as [Hlen|Hlen]; cbn [negb].
    + rewrite L2, D2, M2. split; [done|]. split; [done|]. split; [done|].
      intros _ Hne. exfalso. apply Hne. by apply len_zero, Z.eqb_eq.
    + rewrite item_at_last.
      destruct (last stack') as [top|] eqn:Etop.
      * destruct (enable_listener top s2 Hdoc2) as (E1 & E2 & E3).
        rewrite E1, E2, E3. split; [done|]. split; [|split].
        -- intros l [= <-]. split; [simpl; lia|]. split; [done|].
           rewrite manager_enable. cbn [_focusTrapStack]. by rewrite M2.
        -- intros Hnin. done.
        -- intros _ _. eauto.
      * apply last_None in Etop. rewrite Etop in Hlen. done.
Qed.

Lemma listener_ok_init : listener_ok init.
Proof. split; [done|]. intros l Hl. discriminate Hl. Qed.

Lemma listener_ok_register t s : listener_ok s -> listener_ok (register t s).
Proof.
  intros [Hdoc _]. destruct (register_listener t s Hdoc) as (l & Hl & Ht & Hd & Hid).
  split; [by rewrite Hl|]. intros l' Hl'. rewrite Hl in Hl'. injection Hl' as <-.
  split; [|done]. rewrite manager_register, Ht.
  rewrite register_refines_spec. unfold register_spec. simpl. apply last_snoc.
Qed.

Lemma listener_ok_deregister t s : listener_ok s -> listener_ok (deregister t s).
Proof.
  intros [Hdoc _]. destruct (deregister_listener t s Hdoc) as (Hd & Hl & _).
  split; [done|]. intros l Hsome. destruct (Hl l Hsome) as (? & _ & ?). done.
Qed.

Lemma listener_ok_flag t v s : listener_ok s -> listener_ok (set_enabledFlag t v s).
Proof. done. Qed.

Lemma listener_ok_set_anchors a s : listener_ok s -> listener_ok (set_anchors a s).
Proof. done. Qed.

Lemma listener_ok_attachAnchors t s : listener_ok s -> listener_ok (attachAnchors t s).
Proof. unfold attachAnchors. by destruct (anchors s !! t). Qed.

Lemma listener_ok_new defer t s : listener_ok s -> listener_ok (new defer t s).
Proof.
  intros Hok. unfold new. cbv zeta. apply listener_ok_register.
  destruct defer; [|apply listener_ok_attachAnchors];
    by apply listener_ok_set_anchors, listener_ok_flag.
Qed.

Lemma listener_ok_step s c : listener_ok s -> listener_ok (step s c).
Proof.
  intros Hok. destruct c as [t|t [|]|t|t|t]; cbn [step].
  - by apply listener_ok_new.
  - by apply listener_ok_register, listener_ok_flag.
  - by apply listener_ok_deregister, listener_ok_flag.
  - by apply listener_ok_set_anchors, listener_ok_deregister.
  - by apply listener_ok_new.
  - by apply listener_ok_attachAnchors.
Qed.

Lemma listener_ok_run cs s : listener_ok s -> listener_ok (run cs s).
Proof.
  revert s. induction cs as [|c cs IH]; intros s Hs; [done|].
  cbn [run fold_left]. fold (run cs (step s c)). by apply IH, listener_ok_step.
Qed.

(** *** The anchors *)

Lemma anchors_toggleAnchors b t s u :
  anchors (toggleAnchors b t s) !! u =
  (fun x => if decide (u = t) then b else x) <$> anchors s !! u.
Proof.
  unfold toggleAnchors. destruct (anchors s !! t) as [x|] eqn:E.
  - cbn [set_anchors anchors]. destruct (decide (u = t)) as [->|Hne].
    + by rewrite lookup_insert_eq, E.
    + rewrite lookup_insert_ne by done. by destruct (anchors s !! u).
  - destruct (decide (u = t)) as [->|Hne]; [by rewrite E|].
    by destruct (anchors s !! u).
Qed.

Lemma anchors_enable t s u :
  anchors (_enable t s) !! u = (fun x => if decide (u = t) then true else x) <$> anchors s !! u.
Proof. unfold _enable. by rewrite anchors_toggleAnchors. Qed.

Lemma anchors_disable t s u :
  anchors (_disable t s) !! u = (fun x => if decide (u = t) then false else x) <$> anchors s !! u.
Proof.
  unfold _disable. rewrite anchors_toggleAnchors.
  by destruct (allowFocus_fields t (noteCall false t s)) as (_ & -> & _).
Qed.

Lemma enabled_enable t s : _enabled (_enable t s) = _enabled s.
Proof.
  unfold _enable.
  by destruct (toggleAnchors_fields true t (preventFocus t (noteCall true t s)))
    as (_ & _ & _ & _ & ->).
Qed.

Lemma enabled_disable t s : _enabled (_disable t s) = _enabled s.
Proof.
  unfold _disable.
  destruct (toggleAnchors_fields false t (allowFocus t (noteCall false t s)))
    as (_ & _ & _ & _ & ->).
  by destruct (allowFocus_fields t (noteCall false t s)) as (_ & _ & ->).
Qed.

(** Case analysis on whether [u] has anchors; a trap and a number are the
    same thing here. *)
Ltac by_anchors u :=
  unfold ManagedFocusTrap in *; destruct (_ !! u); simpl; [|done].

(** [register]: the anchors of the registered trap are switched on, those
    of the trap that was on top of the others are switched off. *)
Lemma anchors_register t s u :
  anchors (register t s) !! u =
  (fun x => if decide (u = t) then true
            else if decide (last (without t (_focusTrapStack (manager s))) = Some u)
                 then false else x) <$> anchors s !! u.
Proof.
  unfold register. cbv zeta. rewrite anchors_enable.
  change (jsfilter (fun ft => negb (Nat.eqb ft t)) (_focusTrapStack (manager s)))
    with (without t (_focusTrapStack (manager s))).
  set (stack := without t _).
  rewrite item_at_last. cbn [set_stack anchors].
  unfold ManagedFocusTrap in *.
  destruct (negb (len _ =? 0)) eqn:Hlen.
  - destruct (last stack) as [top|] eqn:Etop.
    + rewrite anchors_disable. cbn [set_stack anchors]. by_anchors u.
      destruct (decide (u = t)); [done|].
      destruct (decide (u = top)) as [->|Hne].
      * by rewrite decide_True.
      * rewrite decide_False by congruence. done.
    + cbn [set_stack anchors]. by_anchors u.
      destruct (decide (u = t)); [done|]. by try rewrite decide_False.
  - apply negb_false_iff, len_zero in Hlen. rewrite Hlen. cbn [last set_stack anchors].
    by_anchors u. destruct (decide (u = t)); [done|]. by try rewrite decide_False.
Qed.

Lemma enabled_register t s : _enabled (register t s) = _enabled s.
Proof.
  unfold register. cbv zeta. rewrite enabled_enable. cbn [set_stack _enabled].
  destruct (negb _); [|done]. destruct (item_at _ _); [|done].
  by rewrite enabled_disable.
Qed.

(** [deregister]: the anchors of the trap are switched off; when the trap
    was on the stack, those of the new top are switched on. *)
Lemma anchors_deregister t s u :
  anchors (deregister t s) !! u =
  (fun x => if decide (t ∈ _focusTrapStack (manager s) /\
                       last (_focusTrapStack (manager (deregister t s))) = Some u)
            then true
            else if decide (u = t) then false else x) <$> anchors s !! u.
Proof.
  pose proof (manager_disable t s) as Hm.
  pose proof (anchors_disable t s u) as Ha.
  unfold deregister. cbv zeta.
  set (s1 := _disable t s) in *.
  assert (Hst : _focusTrapStack (manager s1) = _focusTrapStack (manager s)) by (by rewrite Hm).
  rewrite Hst. set (stack := _focusTrapStack (manager s)) in *.
  destruct (Z.eqb_spec (indexOf stack t) (-1)) as [Hidx|Hidx]; cbn [negb].
  - assert (Hnin : t ∉ stack).
    { intros Hin. apply list_elem_of_split_l in Hin as (l1 & l2 & Hl & Hl1).
      rewrite Hl in Hidx. unfold indexOf in Hidx. rewrite index_from_present in Hidx by done.
      pose proof (len_nonneg l1). lia. }
    rewrite Ha; clear Ha. by_anchors u.
    destruct (decide (_ /\ _)) as [[H _]|_]; [|done]. exfalso. by apply Hnin.
  - assert (Hin : t ∈ stack).
    { destruct (decide (t ∈ stack)) as [|Hnin]; [done|].
      unfold indexOf in Hidx. by rewrite index_from_absent in Hidx. }
    set (stack' := splice1 _ _).
    rewrite item_at_last.
    unfold ManagedFocusTrap in *.
    destruct (negb (len _ =? 0)) eqn:Hlen.
    + destruct (last stack') as [top|] eqn:Etop.
      * rewrite anchors_enable, manager_enable.
        cbn [set_stack anchors manager _focusTrapStack].
        unfold ManagedFocusTrap in *. rewrite Ha; clear Ha. try rewrite Etop.
        by_anchors u.
        destruct (decide (_ /\ _)) as [[_ H]|Hno].
        -- injection H as ->. by rewrite decide_True.
        -- destruct (decide (u = top)) as [->|Hne]; [by exfalso; apply Hno|done].
      * cbn [set_stack anchors manager _focusTrapStack].
        unfold ManagedFocusTrap in *. rewrite Ha; clear Ha. try rewrite Etop.
        by_anchors u.
        destruct (decide (_ /\ _)) as [[_ H]|_]; [discriminate H | done].
    + apply negb_false_iff, len_zero in Hlen.
      cbn [set_stack anchors manager _focusTrapStack].
      unfold ManagedFocusTrap in *. rewrite Ha; clear Ha. try rewrite Hlen.
      by_anchors u.
      destruct (decide (_ /\ _)) as [[_ H]|_]; [discriminate H | done].
Qed.

Lemma enabled_deregister t s : _enabled (deregister t s) = _enabled s.
Proof.
  unfold deregister. cbv zeta.
  destruct (negb (_ =? -1)); [|by rewrite enabled_disable].
  destruct (negb (_ =? 0)).
  - destruct (item_at _ _).
    + rewrite enabled_enable. cbn [set_stack _enabled]. by rewrite enabled_disable.
    + cbn [set_stack _enabled]. by rewrite enabled_disable.
  - cbn [set_stack _enabled]. by rewrite enabled_disable.
Qed.

Lemma stack_register t s :
  _focusTrapStack (manager (register t s)) = without t (_focusTrapStack (manager s)) ++ [t].
Proof. rewrite manager_register, register_refines_spec. done. Qed.

Lemma stack_deregister t s :
  stack_ok (manager s) ->
  _focusTrapStack (manager (deregister t s)) = without t (_focusTrapStack (manager s)) /\
  (t ∉ _focusTrapStack (manager (deregister t s))).
Proof.
  intros Hok. rewrite manager_deregister.
  destruct (deregister_stack_ok t (manager s) Hok) as (H1 & H2 & _). done.
Qed.

Lemma last_without t u stack :
  last stack = Some u -> u <> t -> last (without t stack) = Some u.
Proof.
  intros Hlast Hne. apply last_list_filter; [done|]. by apply dedup_keeps.
Qed.

Lemma without_absent t stack : t ∉ stack -> without t stack = stack.
Proof. intros H. unfold without. by rewrite dedup_absent. Qed.

Lemma elem_of_without t u stack : u ∈ without t stack -> u ∈ stack.
Proof. unfold without. rewrite elem_of_list_filter. tauto. Qed.

(** The invariant of every run: the traps of the stack have their
    [_enabled] flag set, anchors that are on belong to a trap with the
    flag set, and the anchors of the top, if it has them, are on. *)
Lemma anchors_ok_register t s :
  stack_ok (manager s) -> t ∈ _enabled s ->
  (forall u, u <> t -> anchors_ok_at s u) ->
  anchors_ok (register t s).
Proof.
  intros Hok Hflag Hinv u. unfold anchors_ok_at, anchorsOn.
  rewrite anchors_register, stack_register, enabled_register, last_snoc.
  destruct (decide (u = t)) as [->|Hne].
  { split; [done|]. split; [done|]. intros b _ Hb.
    destruct (anchors s !! t); simpl in Hb; congruence. }
  destruct (Hinv u Hne) as (H1 & H2 & H3). unfold anchorsOn in H2.
  split; [|split].
  - intros Hin. apply elem_of_app in Hin as [Hin|Hin].
    + apply H1. by apply elem_of_without in Hin.
    + apply list_elem_of_singleton in Hin. by subst.
  - intros Hon. destruct (anchors s !! u) as [x|] eqn:Ex; simpl in Hon; [|done].
    destruct (decide (last _ = Some u)); [done|]. injection Hon as ->. by apply H2.
  - intros b Hlast. congruence.
Qed.

Lemma anchors_ok_deregister t s :
  stack_ok (manager s) ->
  (forall u, u <> t -> anchors_ok_at s u) ->
  anchors_ok (deregister t s).
Proof.
  intros Hok Hinv u. unfold anchors_ok_at, anchorsOn.
  destruct (stack_deregister t s Hok) as [Hst Hnin].
  rewrite anchors_deregister, enabled_deregister.
  assert (Hin' : forall v, v ∈ _focusTrapStack (manager (deregister t s)) -> v ∈ _enabled s).
  { intros v Hin. assert (Hne : v <> t) by congruence.
    apply (proj1 (Hinv v Hne)). rewrite Hst in Hin. by apply elem_of_without in Hin. }
  split; [apply Hin'|]. split.
  - intros Hon. destruct (anchors s !! u) as [x|] eqn:Ex; simpl in Hon; [|done].
    destruct (decide (_ /\ _)) as [[_ Hl]|_]; [by apply Hin', last_elem_of|].
    destruct (decide (u = t)) as [->|Hne]; [done|].
    injection Hon as ->. by apply (proj1 (proj2 (Hinv u Hne))).
  - intros b Hlast Hb.
    destruct (anchors s !! u) as [x|] eqn:Ex; simpl in Hb; [|done].
    destruct (decide (_ /\ _)) as [_|Hno]; [congruence|].
    assert (Hne : u <> t).
    { intros ->. apply Hnin. by apply last_elem_of. }
    rewrite decide_False in Hb by done. injection Hb as <-.
    assert (Htnin : t ∉ _focusTrapStack (manager s)) by (intros Hin; by apply Hno).
    rewrite Hst, without_absent in Hlast by done.
    by apply (proj2 (proj2 (Hinv u Hne)) x).
Qed.

Lemma anchors_ok_attachAnchors t s : anchors_ok s -> anchors_ok (attachAnchors t s).
Proof.
  intros Hinv u. destruct (Hinv u) as (H1 & H2 & H3).
  unfold anchors_ok_at, anchorsOn in *. unfold attachAnchors.
  destruct (anchors s !! t) as [x|] eqn:Et; [done|].
  cbn [set_anchors anchors _enabled manager].
  split; [done|]. split.
  - destruct (decide (u = t)) as [->|Hne].
    + rewrite lookup_insert_eq. intros [= Hd]. by apply bool_decide_eq_true in Hd.
    + by rewrite lookup_insert_ne.
  - intros b Hlast. destruct (decide (u = t)) as [->|Hne].
    + rewrite lookup_insert_eq. intros [= <-]. apply bool_decide_eq_true.
      by apply H1, last_elem_of.
    + rewrite lookup_insert_ne by done. by apply H3.
Qed.

Lemma anchors_ok_new defer t s :
  stack_ok (manager s) -> anchors_ok s -> anchors_ok (new defer t s).
Proof.
  intros Hok Hinv. unfold new. cbv zeta.
  set (s0 := set_anchors _ _).
  assert (H0 : anchors_ok s0).
  { intros u. destruct (Hinv u) as (H1 & H2 & H3). unfold anchors_ok_at, anchorsOn in *.
    unfold s0. cbn [set_anchors set_enabledFlag manager anchors _enabled].
    split; [intros; solve_set|]. split.
    - intros Hon. apply lookup_delete_Some in Hon as [_ Hon]. specialize (H2 Hon). solve_set.
    - intros b Hlast Hb. apply lookup_delete_Some in Hb as [_ Hb]. by apply H3. }
  assert (Hf : t ∈ _enabled s0) by (cbn; solve_set).
  destruct defer.
  - apply anchors_ok_register; [done | done | intros u _; apply H0].
  - apply anchors_ok_register.
    + by rewrite manager_attachAnchors.
    + unfold attachAnchors. by destruct (anchors s0 !! t).
    + intros u _. by apply anchors_ok_attachAnchors.
Qed.

Lemma anchors_ok_step s c :
  stack_ok (manager s) -> anchors_ok s -> anchors_ok (step s c).
Proof.
  intros Hok Hinv. destruct c as [t|t [|]|t|t|t]; cbn [step].
  - by apply anchors_ok_new.
  - unfold set_enabled. apply anchors_ok_register; [done | cbn; solve_set |].
    intros u _. destruct (Hinv u) as (H1 & H2 & H3).
    split; [intros Hin; specialize (H1 Hin); cbn; solve_set|].
    split; [intros Hon; specialize (H2 Hon); cbn; solve_set | done].
  - unfold set_enabled. apply anchors_ok_deregister; [done|].
    intros u Hne. destruct (Hinv u) as (H1 & H2 & H3).
    split; [intros Hin; specialize (H1 Hin); cbn; solve_set|].
    split; [intros Hon; specialize (H2 Hon); cbn; solve_set | done].
  - unfold destroy. cbv zeta.
    assert (Hd : anchors_ok (deregister t s))
      by (apply anchors_ok_deregister; [done | intros u _; apply Hinv]).
    intros u. destruct (Hd u) as (H1 & H2 & H3). unfold anchors_ok_at, anchorsOn in *.
    cbn [set_anchors manager anchors _enabled].
    split; [done|]. split.
    + intros Hon. apply lookup_delete_Some in Hon as [_ Hon]. by apply H2.
    + intros b Hlast Hb. apply lookup_delete_Some in Hb as [_ Hb]. by apply H3.
  - by apply anchors_ok_new.
  - by apply anchors_ok_attachAnchors.
Qed.

Lemma anchors_ok_run cs s :
  stack_ok (manager s) -> anchors_ok s -> anchors_ok (run cs s).
Proof.
  revert s. induction cs as [|c cs IH]; intros s Hok Hinv; [done|].
  cbn [run fold_left]. fold (run cs (step s c)).
  apply IH; [by apply stack_ok_step | by apply anchors_ok_step].
Qed.

(** When every trap got its anchors from its constructor, the anchors that
    exist are on for the top of the stack and for no other trap. *)
Lemma follow_top_register t s :
  (forall u, u <> t -> anchors_follow_top_at s u) ->
  anchors_follow_top (register t s).
Proof.
  intros Hinv u b Hb. rewrite anchors_register in Hb.
  rewrite stack_register, last_snoc.
  destruct (anchors s !! u) as [x|] eqn:Ex; simpl in Hb; [|done].
  destruct (decide (u = t)) as [->|Hne]; [injection Hb as <-; done|].
  assert (Hb' : b = false).
  { destruct (decide (last _ = Some u)) as [|Hno]; [congruence|].
    injection Hb as <-. destruct x; [|done]. exfalso. apply Hno.
    apply last_without; [|done]. by apply (Hinv u Hne true Ex). }
  subst b. split; [done | congruence].
Qed.

Lemma follow_top_deregister t s :
  stack_ok (manager s) -> anchors_follow_top s -> anchors_follow_top (deregister t s).
Proof.
  intros Hok Hinv u b Hb. rewrite anchors_deregister in Hb.
  destruct (stack_deregister t s Hok) as [Hst Hnin].
  destruct (anchors s !! u) as [x|] eqn:Ex; simpl in Hb; [|done].
  destruct (decide (_ /\ _)) as [[Hin Hl]|Hno]; [injection Hb as <-; done|].
  destruct (decide (u = t)) as [->|Hne].
  - injection Hb as <-. split; [done|]. intros Hl. exfalso. apply Hnin.
    by apply last_elem_of.
  - injection Hb as <-.
    destruct (decide (t ∈ _focusTrapStack (manager s))) as [Hin|Htnin].
    + split.
      * intros ->. exfalso. apply Hno. split; [done|]. rewrite Hst.
        apply last_without; [|done]. by apply (Hinv u true Ex).
      * intros Hl. exfalso. apply Hno. done.
    + rewrite Hst, without_absent by done. by apply Hinv.
Qed.

Lemma follow_top_step s c :
  attachedAtConstruction c = true ->
  stack_ok (manager s) -> anchors_follow_top s -> anchors_follow_top (step s c).
Proof.
  intros Hc Hok Hinv. destruct c as [t|t [|]|t|t|t]; cbn [step]; try discriminate Hc.
  - unfold new. cbv zeta. apply follow_top_register. intros u Hne b.
    unfold attachAnchors. cbn [set_anchors set_enabledFlag anchors manager _enabled].
    rewrite lookup_delete_eq. cbn [set_anchors anchors manager].
    rewrite lookup_insert_ne, lookup_delete_ne by done. apply Hinv.
  - unfold set_enabled. apply follow_top_register. intros u _. apply Hinv.
  - unfold set_enabled. by apply follow_top_deregister.
  - unfold destroy. cbv zeta.
    pose proof (follow_top_deregister t s Hok Hinv) as Hd.
    intros u b. cbn [set_anchors anchors manager].
    intros Hb. apply lookup_delete_Some in Hb as [_ Hb]. by apply Hd.
Qed.

Lemma follow_top_run cs s :
  forallb attachedAtConstruction cs = true ->
  stack_ok (manager s) -> anchors_follow_top s -> anchors_follow_top (run cs s).
Proof.
  revert s. induction cs as [|c cs IH]; intros s Hcs Hok Hinv; [done|].
  cbn [forallb] in Hcs. apply andb_true_iff in Hcs as [Hc Hcs].
  cbn [run fold_left]. fold (run cs (step s c)).
  apply IH; [done | by apply stack_ok_step | by apply follow_top_step].
Qed.

(** X28. For the traps of one factory, after any sequence of
    constructions (with or without [defer]), [attachAnchors] calls,
    [enabled] assignments and [destroy] calls: the document carries at most
    one focus listener of the strategy, the one the strategy remembers; if
    there is one it traps the focus for the trap on top of the manager's
    stack.  The trap on top of the stack, when it has its anchors, has them
    switched on, and anchors that are on belong to a trap whose [enabled]
    is true.  When every trap got its anchors from its constructor, a trap
    that has anchors has them on exactly when it is the top of the stack.
    A trap without anchors is left without: after [destroy] and
    [enabled = true] the trap is on top of the stack with no anchors, and
    a deferred trap that attaches its anchors below the top of the stack
    has them on.  The stack evolves as the manager's own [register] and
    [deregister] prescribe. *)
Theorem one_focus_listener_for_the_top_trap :
  forall (cs : list Call),
    let s := run cs init in
    let stack := _focusTrapStack (manager s) in
    documentListeners s = match _listener s with Some l => [l] | None => [] end /\
    (forall t, trapping s = Some t -> last stack = Some t) /\
    (forall t b, last stack = Some t -> anchors s !! t = Some b -> b = true) /\
    (forall t, anchorsOn s t -> t ∈ _enabled s) /\
    (forallb attachedAtConstruction cs = true ->
     forall t b, anchors s !! t = Some b -> (b = true <-> last stack = Some t)) /\
    (let s' := run enabledAfterDestroy init in
     last (_focusTrapStack (manager s')) = Some 1%nat /\ anchors s' !! 1%nat = None) /\
    (let s' := run attachedBelowTheTop init in
     last (_focusTrapStack (manager s')) = Some 2%nat /\ anchorsOn s' 1%nat /\
     anchorsOn s' 2%nat) /\
    NoDup stack /\
    manager s = FocusTrapManager.run (concat (map managerCalls cs)) (FocusTrapManager.init ∅).
Proof.
  intros cs s stack.
  assert (Hok : listener_ok s) by apply listener_ok_run, listener_ok_init.
  assert (Hman : manager s = FocusTrapManager.run (concat (map managerCalls cs))
                               (FocusTrapManager.init ∅)).
  { unfold s. by rewrite manager_run. }
  assert (Hst0 : stack_ok (manager init)) by apply stack_ok_init.
  assert (Hanch : anchors_ok s).
  { apply anchors_ok_run; [done|]. intros t. split; [|split]; [| |done].
    - intros Hin. by apply elem_of_nil in Hin.
    - intros Hon. unfold anchorsOn in Hon. cbn in Hon. by rewrite lookup_empty in Hon. }
  destruct Hok as [Hdoc Hl]. split; [done|]. split.
  { intros t Ht. unfold trapping in Ht. destruct (_listener s) as [l|]; [|done].
    injection Ht as <-. by apply Hl. }
  split; [intros t b; apply (Hanch t)|].
  split; [intros t; apply (Hanch t)|].
  split.
  { intros Hcs. apply follow_top_run; [done | done |].
    intros t b Hb. cbn in Hb. by rewrite lookup_empty in Hb. }
  split; [by vm_compute|]. split; [by vm_compute|].
  split; [|done].
  unfold stack. rewrite Hman. apply (stack_ok_run _ _ (stack_ok_init ∅)).
Qed.

(** X29. [register] always leaves the document listener trapping for the
    registered trap.  [deregister] of a trap that is on the stack leaves it
    trapping for the new top, or leaves none when the stack becomes empty.
    [deregister] of a trap that is not on the stack (a second
    [enabled = false], or [destroy] after [enabled = false]) removes the
    listener and installs none and leaves the anchors of the other traps
    as they are, so that no listener is left although another trap may be
    on top of the stack with its anchors switched on. *)
Theorem deregister_off_the_stack_leaves_no_listener :
  forall (cs : list Call) (t : ManagedFocusTrap),
    let s := run cs init in
    trapping (register t s) = Some t /\
    ((t ∉ _focusTrapStack (manager s)) ->
     trapping (deregister t s) = None /\
     documentListeners (deregister t s) = [] /\
     _focusTrapStack (manager (deregister t s)) = _focusTrapStack (manager s) /\
     (forall u, u <> t -> u ∈ enabledTraps (manager (deregister t s)) <->
                          u ∈ enabledTraps (manager s)) /\
     (forall u, u <> t -> anchors (deregister t s) !! u = anchors s !! u)) /\
    (t ∈ _focusTrapStack (manager s) ->
     trapping (deregister t s) = last (_focusTrapStack (manager (deregister t s)))) /\
    (let s' := run disabledThenDestroyed init in
     _focusTrapStack (manager s') = [2%nat] /\ trapping s' = None /\
     documentListeners s' = [] /\ isEnabled 2%nat (manager s') = true /\
     anchorsOn s' 2%nat).
Proof.
  intros cs t s.
  assert (Hok : listener_ok s) by apply listener_ok_run, listener_ok_init.
  destruct Hok as [Hdoc _].
  split; [|split; [|split]].
  - destruct (register_listener t s Hdoc) as (l & Hl & Ht & _).
    unfold trapping. rewrite Hl. simpl. by rewrite Ht.
  - intros Hnin. destruct (deregister_listener t s Hdoc) as (Hd & _ & Hnone & _).
    specialize (Hnone Hnin). unfold trapping. rewrite Hnone in *.
    split; [done|]. split; [done|].
    rewrite manager_deregister, deregister_absent by done. simpl.
    split; [done|]. split; [intros u Hu; unfold ManagedFocusTrap in *; set_solver|].
    intros u Hu. rewrite anchors_deregister.
    destruct (anchors s !! u) as [x|]; simpl; [|done].
    destruct (decide (_ /\ _)) as [[Hin _]|_]; [done|]. by rewrite decide_False.
  - intros Hin. destruct (deregister_listener t s Hdoc) as (Hd & Hl & _ & Hsome).
    unfold trapping. destruct (_listener (deregister t s)) as [l|] eqn:El.
    + destruct (Hl l eq_refl) as (_ & _ & Hlast). by rewrite Hlast.
    + simpl. destruct (_focusTrapStack (manager (deregister t s))) as [|x st] eqn:Est; [done|].
      exfalso. assert (Hne : x :: st <> []) by done.
      specialize (Hsome Hin Hne). by destruct Hsome.
  - vm_compute. done.
Qed.

Lemma deregister_off_the_stack_leaves_no_listener_witness :
  let s := run [New 1%nat; New 2%nat; SetEnabled 1%nat false] init in
  (1%nat ∉ _focusTrapStack (manager s)) /\
  trapping s = Some 2%nat /\
  trapping (deregister 1%nat s) = None /\
  documentListeners (deregister 1%nat s) = [] /\
  _focusTrapStack (manager (deregister 1%nat s)) = [2%nat].
Proof.
  set (s := run [New 1%nat; New 2%nat; SetEnabled 1%nat false] init).
  assert (H1 : 1%nat ∉ _focusTrapStack (manager s)).
  { change (_focusTrapStack (manager s)) with [2%nat].
    intros Hin. apply list_elem_of_singleton in Hin. discriminate Hin. }
  pose proof (proj1 (proj2 (deregister_off_the_stack_leaves_no_listener
                              [New 1%nat; New 2%nat; SetEnabled 1%nat false] 1%nat)) H1)
    as (Ht & Hd & Hs & _).
  split; [exact H1|]. split; [reflexivity|]. split; [exact Ht|]. split; [exact Hd | exact Hs].
Defined.

End ConfigurableFocusTrapProofs.

(** ** [closest]: the nearest matching element on the chain of parents *)

Module PolyfillProofs.
Import Dom Polyfill.

Lemma polyfillClosest_find isElement matches d n chain fuel :
  ancestorPath d n chain -> (length chain <= fuel)%nat ->
  polyfillClosest isElement matches fuel d (Some n) =
  Some (List.find (fun c => isElement c && matches c) chain).
Proof.
  intros Hpath. revert fuel. induction Hpath as [n Hn|n p l Hn Hpath IH]; intros fuel Hlen.
  - destruct fuel as [|fuel]; simpl in *; [lia|].
    destruct (isElement n && matches n); [done|]. rewrite Hn. by destruct fuel.
  - destruct fuel as [|fuel]; simpl in *; [lia|].
    destruct (isElement n && matches n); [done|]. rewrite Hn. apply IH. lia.
Qed.

Lemma skipToElement_find isElement d n chain fuel :
  ancestorPath d n chain -> (length chain <= fuel)%nat ->
  skipToElement isElement fuel d (Some n) = Some (List.find isElement chain).
Proof.
  intros Hpath. revert fuel. induction Hpath as [n Hn|n p l Hn Hpath IH]; intros fuel Hlen.
  - destruct fuel as [|fuel]; simpl in *; [lia|].
    destruct (isElement n); [done|]. rewrite Hn. by destruct fuel.
  - destruct fuel as [|fuel]; simpl in *; [lia|].
    destruct (isElement n); [done|]. rewrite Hn. apply IH. lia.
Qed.

(** The chain from a node of the chain is the rest of the chain. *)
Lemma ancestorPath_suffix d n chain l1 c l2 :
  ancestorPath d n chain -> chain = l1 ++ c :: l2 -> ancestorPath d c (c :: l2).
Proof.
  intros Hpath. revert l1. induction Hpath as [n Hn|n p l Hn Hpath IH]; intros l1 Heq.
  - destruct l1 as [|x l1]; simpl in Heq.
    + injection Heq as <- <-. by constructor.
    + injection Heq as _ Heq. by destruct l1.
  - destruct l1 as [|x l1]; simpl in Heq.
    + injection Heq as <- <-. by econstructor.
    + injection Heq as _ Heq. by apply (IH l1).
Qed.

Lemma find_split {A : Type} (q : A -> bool) (l : list A) (x : A) :
  List.find q l = Some x ->
  exists l1 l2, l = l1 ++ x :: l2 /\ q x = true /\ forall y, y ∈ l1 -> q y = false.
Proof.
  induction l as [|y l IH]; simpl; [done|].
  destruct (q y) eqn:Ey.
  - intros [= ->]. exists [], l. split; [done|]. split; [done|].
    intros z Hz. by apply elem_of_nil in Hz.
  - intros Hf. destruct (IH Hf) as (l1 & l2 & -> & Hx & Hl1).
    exists (y :: l1), l2. split; [done|]. split; [done|].
    intros z Hz. apply elem_of_cons in Hz as [->|Hz]; [done | by apply Hl1].
Qed.

Lemma find_none_before {A : Type} (q : A -> bool) (l1 l2 : list A) :
  (forall y, y ∈ l1 -> q y = false) -> List.find q (l1 ++ l2) = List.find q l2.
Proof.
  induction l1 as [|y l1 IH]; intros Hl1; simpl; [done|].
  rewrite (Hl1 y) by apply list_elem_of_here.
  apply IH. intros z Hz. apply Hl1. by apply list_elem_of_further.
Qed.

(** X30. With fuel for the chain of parents of the start node, [closest]
    returns: the first node on that chain (the start node included) that
    is an element and matches the selector, and [null] when the chain has
    none; [null] too when the argument is not a node. *)
Theorem closest_is_the_nearest_matching_element :
  forall (isElement matches : Node -> bool) (d : Document) (n : Node)
         (chain : list Node) (fuel : nat),
    ancestorPath d n chain ->
    (length chain <= fuel)%nat ->
    closest isElement matches fuel d (Some (FocusMonitor.TNode n)) =
      Some (List.find (fun c => isElement c && matches c) chain) /\
    (forall found,
        closest isElement matches fuel d (Some (FocusMonitor.TNode n)) = Some (Some found) ->
        exists before after,
          chain = before ++ found :: after /\
          isElement found = true /\ matches found = true /\
          forall c, c ∈ before -> isElement c && matches c = false) /\
    (forall other, closest isElement matches fuel d (Some (FocusMonitor.TOther other)) = Some None) /\
    closest isElement matches fuel d None = Some None.
Proof.
  intros isElement matches d n chain fuel Hpath Hlen.
  assert (Hc : closest isElement matches fuel d (Some (FocusMonitor.TNode n)) =
               Some (List.find (fun c => isElement c && matches c) chain)).
  { unfold closest. rewrite (skipToElement_find isElement d n chain fuel Hpath Hlen).
    destruct (List.find isElement chain) as [e|] eqn:Ef.
    - destruct (find_split _ _ _ Ef) as (l1 & l2 & Hchain & He & Hl1).
      pose proof (ancestorPath_suffix d n chain l1 e l2 Hpath Hchain) as Hsuf.
      rewrite (polyfillClosest_find isElement matches d e (e :: l2) fuel Hsuf).
      + rewrite Hchain. rewrite find_none_before; [done|].
        intros y Hy. by rewrite (Hl1 y Hy).
      + rewrite Hchain, length_app in Hlen. simpl in *. lia.
    - f_equal. symmetry. clear Hpath Hlen.
      induction chain as [|c chain IH]; simpl in *; [done|].
      destruct (isElement c); [done|]. simpl. by apply IH. }
  split; [done|]. split; [|done].
  intros found Hfound. rewrite Hc in Hfound. injection Hfound as Hfound.
  destruct (find_split _ _ _ Hfound) as (l1 & l2 & Hchain & Hq & Hl1).
  apply andb_true_iff in Hq as [He Hm]. by exists l1, l2.
Qed.

Lemma closest_is_the_nearest_matching_element_witness :
  let isElement := fun n : Node => true in
  let matches := fun n : Node => Nat.eqb n 0%nat in
  ancestorPath FocusTrap.page 1%nat [1%nat; 0%nat] /\
  (length [1%nat; 0%nat] <= 2)%nat /\
  closest isElement matches 2%nat FocusTrap.page (Some (FocusMonitor.TNode 1%nat)) =
    Some (Some 0%nat).
Proof.
  assert (H1 : ancestorPath FocusTrap.page 1%nat [1%nat; 0%nat]).
  { apply (path_step _ 1%nat 0%nat); [reflexivity|]. apply path_root. reflexivity. }
  assert (H2 : (length [1%nat; 0%nat] <= 2)%nat) by (simpl; lia).
  split; [exact H1|]. split; [exact H2|].
  exact (proj1 (closest_is_the_nearest_matching_element
                  (fun _ => true) (fun n => Nat.eqb n 0%nat) FocusTrap.page 1%nat
                  [1%nat; 0%nat] 2%nat H1 H2)).
Defined.

End PolyfillProofs.
